(* ===== verification/_CoqProject ===== *)
-Q . S2P
Prelude.v
GoLib.v
Api.v
Scopes.v
ServiceAccounts.v
Access.v
Cluster.v
Resources.v
SameSpec.v
Engine.v
Webhooks.v
Pipeline.v
Admission.v
EngineInvariant.v
Locking.v
EndToEnd.v
Convergence.v
Debouncer.v
Collector.v
Retry.v
Lifecycle.v
System.v
StateSync.v
Replicas.v
Controllers.v
Metrics.v
Watches.v
Flow.v
DeepCopy.v
Telemetry.v
Counters.v
Registry.v
Setup.v
CommandLine.v
Scheme.v
Markers.v
