(* ===== verification/Prelude.v ===== *)
(** * Octopus Permissions Controller: a verification library (root file)

    ** The program

    The controller gives the script pods of Octopus deployments the permissions that custom resources
    grant.  A [WorkloadServiceAccount] (namespaced) or [ClusterWorkloadServiceAccount] lists the
    deployments it applies to, as values in six dimensions (project, project group, environment,
    tenant, step, space; an empty list stands for all), and roles or rules.  Its parts interact so:

    - watch events queue requests, and a reconciler (src/internal/controller) looks after the finalizer
      and adds an event to the collector;
    - the collector (src/internal/reconciliation/collector.go, debouncer.go) gathers events into batches,
      which the orchestrator (orchestrator.go, batch_queue.go) takes through three stages, with retries;
    - planning (stages/planning.go) lists all resources and computes service accounts from them
      (src/internal/rules/generator.go); validation checks the cluster; execution writes roles, accounts
      and bindings, deletes what is no longer needed (resource_management.go), and then publishes the
      mappings in the engine (engine.go);
    - the pod webhook (src/internal/webhook/v1/pod_webhook.go) asks the engine for the account of a pod;
    - replicas that are not the leader rebuild their mappings from watch events (state_syncer.go);
    - metrics, deep copies and the set-up of the process are around this.

    ** The files

    Each file opens with the files it models; definitions have the names of the code, with a prefix
    where two types have a method of one name.

    - [Prelude] (this file): notations, results of Go calls, [range] over maps in an unknown order
      ([RangeOrder]), sorted slices, strings, folds.  [GoLib]: SHA-256 and hexadecimal digits, executable.
    - [Api]: scopes, the two resources, the interface [WSAResource] (its methods are the class
      [WSAResourceMethods], with an instance per adapter), and third-party formatting ([ThirdParty], with
      laws).  [Cluster]: objects, the state monad [M] of effectful code, the client and
      its laws ([Client], [ClientLaws]), frames ([writes_only], [keeps]) and an in-memory instance with
      a script of faults, on which all examples run.
    - [Scopes], [ServiceAccounts]: generator.go in two parts, from resources to scopes and from scopes to
      accounts; [Access]: scope_computation.go, and what the two compute together.
    - [Resources]: resource_management.go.  [SameSpec]: resources with the same keys and specifications, in
      any order and version.  [Engine]: engine.go and namespace_discovery.go; what a method does
      under the mutex is a list of instructions.  [Webhooks]: both admission webhooks.
    - [Pipeline]: types.go, the stages, condition/apply.go and [processBatch].  The resources of a batch point
      into those of its plan, so that the answers of status patches reach the execution stage.
      [Locking]: the instructions of several goroutines interleaved over the mutex.  [Admission]: the formats
      Kubernetes validates.  [EngineInvariant]: the type of the engine's state.  [EndToEnd]: batches,
      cluster and webhook together.  [Convergence]: the abstract specification ([desired], [realises]) that
      the stages refine.
    - [Debouncer], [Collector], [StateSync]: transition systems of goroutines with mutexes and bounded
      channels; a step is an executable function on actions, so that runs are evaluated.
      [Retry]: the queue of batches and the handling of their outcome; the calls of [AddEvent] it makes for a batch
      that was given up are handed to the caller ([Adding]), since they may wait.  [Lifecycle]: the loops of these
      goroutines as they start and stop.  [System]: collector, orchestrator, queue and retry goroutine
      composed in one step relation, from an event to the end of its batch.
      [Replicas]: the leader's batch and the syncer of another replica together.
    - [Controllers]: the reconcilers, predicates, finalizers, tracker, and the map from accounts to
      resources; [Watches]: what the controllers watch and which requests an event queues.  [Flow]: from a
      change of a resource to the batch that realises it, across [Watches], [Controllers], [System] and
      [Convergence].  [Markers]: the permissions and webhook registrations of the [+kubebuilder] markers.
    - [Metrics]: the collector of a scrape.  [Telemetry]: counters, histograms, the reporter, and Go's
      deferred calls with [recover].  [Counters]: what the reconciliation package records, beside its
      transition systems.  [Registry]: the registration of all metrics and which of them are served.
      [DeepCopy]: the generated copies over a store of slices and pointers.  [Setup]: cmd/main.go after
      the command line was read; [CommandLine]: its flags, package flag and the integers of strconv.
      [Scheme]: the registration of the types with the scheme, before [main].

    State is explicit: a function of the program that may change the cluster is a computation in [M W]
    over an abstract world [W]; Go errors are values of [error], a value with an error is a sum, and
    [Result] adds the panics the code can reach.  Generations, limits and times are [Z]: they are compared and
    incremented far below their widths.  The 32-bit words of the hash wrap around explicitly.

    ** What the theorems show

    - Which account a deployment gets: [deployment_account_complete], [deployment_account_sound], with
      [names_separate_uniform] for the hypothesis that names separate and [name_collision_escalates] for
      what happens without it.
    - What a batch achieves for the resources the cluster listed as its planning began: [processBatch_correct],
      [EnsureRoleBindings_correct], the collectors ([GarbageCollectServiceAccounts_correct] and others),
      [gc_keeps_ensured], [validation_correct]; and for the pod at the end, [pod_permissions].  As a
      specification: [batch_realises] (refinement), and [converges] (the outcome is a function of the
      specifications of the resources, not of the history, the order or the versions).
    - The whole way: [change_collected] (a change becomes an event), [change_realised] (an event is given up
      or its resources are as they ask), [follower_admits_as_leader] (and so on every replica).
    - Well-formedness: [engine_well_typed] by induction on the states reached,
      [written_objects_admissible], [Collect_well_formed].
    - Nothing is lost, everything ends: [no_event_lost], [every_event_accounted] (the whole way of an
      event, with retries), [pending_events_get_flushed],
      [retry_terminates], [processBatchWithRetry_correct], [shutdown_ends], [retry_goroutine_stops],
      [no_send_on_closed_channel], [deletion_waits_for_staging], [drift_requeued],
      [Reconcile_event], [watch_predicates_correct].
    - Concurrency: [lookup_from_one_list] (and no data race on the engine), [replica_current_or_coming],
      [replica_catches_up], [replicas_agree].
    - Around it: [Default_correct], [permissions_suffice], [DeepCopy_isolated], [finalizer_patch_operands],
      [main_correct], [program_correct] and [flags_roundtrip] (the command line),
      [target_namespaces_roundtrip], [tls_config_correct], [program_init_correct] (which proves the hypothesis
      [registered] of [drift_requeued]).
    - What the metrics say: [collector_metrics], [batch_counters_add_up], [stage_durations],
      [rebuild_metrics], [requests_counted]; and which can be scraped, [registrations_correct].
    - Where the code does not do what it means to, on concrete runs: [failed_gc_stale_mapping],
      [newer_specification_executed], [overlapping_batches_undo], [stranded_events], [permanent_failure_orphans],
      [finalizer_patch_comes_back], [failed_rebuild_not_retried], [late_add_blocks], [reconcile_always_success],
      [queue_depth_stale] and the examples of the files; and in general, [stale_cluster_binding] (garbage
      collection keeps bindings nobody asks for), [registrations_correct] (what [promauto] registers is not
      served), [deployed_metrics_unprotected] (the flags of the deployments leave the metrics open) and
      [pod_update_correct] (updates of running pods are refused after an upgrade).

    Hypotheses that recur: [resources_ok] (what the API server validates of the resources: distinct keys,
    admissible names and values), [names_separate] (different groups of resources get different account
    names), [no_clash] (two bindings, or two roles, of one name are the same), [CurrentReads] (lists are not
    stale), [SettledSpecs] (nobody writes specifications while a batch is under way; only for statements
    that speak of the listed specifications, the others speak of those execution read).  Every use has a
    concrete instance.  Laws of third-party code are classes with a reference instance: [ClientLaws],
    [ThirdPartyLaws], [ExpirableLRULaws], [ExpirableSetLaws], [RateLimitingQueueLaws], [ShutDownLaws],
    [QueueHoldsLaws], [PredicateLibLaws], [HandlerLaws], [K8sDeepCopyLaws], [SchemeLibLaws], [PatchLaws],
    [ReadLaws], [LibraryFlagsLaws], [DurationFormat], [PodValidation].

    ** Bounds and fuel

    SHA-256 takes as many rounds as there are words, more than there are blocks.  All other recursion is on lists.  The
    capacities of the channels (100, 1024, 10 and 10) are those of the code, and a send to a full channel
    blocks or falls through as in the code.  Transition systems are unbounded: the theorems are about
    every reachable state.

    ** Not modelled

    Timeouts of contexts (a call that runs out of time is one that fails), logging, the wall clock beyond
    the times passed as arguments, the buckets of histograms, the options of zap and the signal handler, and
    the registration of webhooks with their library beyond the order of the calls and the markers: these
    are libraries, and the program only passes them on.  Tests and fixtures, and of charts and manifests all but
    the arguments of the process: they are no part of the running program.  In [System] the handling of a
    batch is one step up to its calls of [AddEvent], on any engine and any cluster: it counts how the batch ends,
    while [Retry] shows on a run what two batches that overlap can do to each other. *)

From Stdlib Require Import Ascii NArith ZArith.
From stdpp Require Export base tactics gmap sets list strings sorting.

#[global] Set Default Goal Selector "!".
#[global] Open Scope stdpp_scope.

(** ** Notations and tactics of the development *)

Declare Scope opc_scope.
Delimit Scope opc_scope with opc.

Create HintDb opc discriminated.
Create Rewrite HintDb opc_simpl.

(** Case analysis on every [match]/[if] of the goal, closing the easy cases. *)
Ltac case_all := repeat (case_match; simplify_eq/=); try done.

(** ** Go results: a value, an error, or a panic *)

Inductive Res (E A : Type) : Type :=
| ROk (a : A)
| RErr (e : E)
| RPanic.
Arguments ROk {E A} a.
Arguments RErr {E A} e.
Arguments RPanic {E A}.

(** ** [range] over a Go map or set

    The language leaves the iteration order of a map unspecified, and two loops over the same map
    may use different orders.  Every [range] statement of the program carries a name, its [site],
    and visits the entries in the order [range_order site] gives; nothing is known of that order
    but that it is a permutation.  Theorems hold for every instance. *)

Class RangeOrder := {
  range_order : string → ∀ {A : Type}, list A → list A;
  range_order_perm : ∀ site A (l : list A), range_order site l ≡ₚ l
}.

(** Two concrete orders, for evaluation. *)
Definition range_forward : RangeOrder :=
  {| range_order := λ _ A l, l; range_order_perm := λ _ A l, Permutation_refl l |}.

Definition range_backward : RangeOrder :=
  {| range_order := λ _ A l, reverse l; range_order_perm := λ _ A l, reverse_Permutation l |}.

Definition range_map `{Countable K} {V} `{RangeOrder} (site : string) (m : gmap K V) : list (K * V) :=
  range_order site (map_to_list m).

Definition range_set `{Countable K} `{RangeOrder} (site : string) (s : gset K) : list K :=
  range_order site (elements s).

Section range.
Context `{RangeOrder}.

Lemma elem_of_range_map `{Countable K} {V} site (m : gmap K V) k v :
  (k, v) ∈ range_map site m ↔ m !! k = Some v.
Proof. unfold range_map. by rewrite range_order_perm, elem_of_map_to_list. Qed.

Lemma NoDup_fst_range_map `{Countable K} {V} site (m : gmap K V) :
  NoDup (range_map site m).*1.
Proof. unfold range_map. rewrite range_order_perm. apply NoDup_fst_map_to_list. Qed.

Lemma NoDup_range_map `{Countable K} {V} site (m : gmap K V) : NoDup (range_map site m).
Proof. unfold range_map. rewrite range_order_perm. apply NoDup_map_to_list. Qed.

Lemma length_range_map `{Countable K} {V} site (m : gmap K V) :
  length (range_map site m) = size m.
Proof. unfold range_map. by rewrite range_order_perm, length_map_to_list. Qed.

Lemma elem_of_range_set `{Countable K} site (s : gset K) k : k ∈ range_set site s ↔ k ∈ s.
Proof. unfold range_set. by rewrite range_order_perm, elem_of_elements. Qed.

Lemma NoDup_range_set `{Countable K} site (s : gset K) : NoDup (range_set site s).
Proof. unfold range_set. rewrite range_order_perm. apply NoDup_elements. Qed.

Lemma range_set_perm `{Countable K} site (s : gset K) : range_set site s ≡ₚ elements s.
Proof. apply range_order_perm. Qed.

Lemma range_map_perm `{Countable K} {V} site (m : gmap K V) : range_map site m ≡ₚ map_to_list m.
Proof. apply range_order_perm. Qed.
End range.

#[export] Hint Rewrite @elem_of_range_map @elem_of_range_set @length_range_map : opc_simpl.

(** ** Loops that fill a map or a set *)

Lemma NoDup_fmap_eq {A B} (f : A → B) (l : list A) x y :
  NoDup (f <$> l) → x ∈ l → y ∈ l → f x = f y → x = y.
Proof.
  induction l as [|z l IH]; [by intros _ ?%elem_of_nil|].
  rewrite fmap_cons, NoDup_cons. intros [Hz Hnd] Hx Hy Hf.
  apply elem_of_cons in Hx as [->|Hx], Hy as [->|Hy]; try done; [| |by auto];
    exfalso; apply Hz, list_elem_of_fmap; eauto.
Qed.

Section loops.
Context `{Countable K} {V A : Type}.

(** [for x in l { m[f x] = g x }]: when later keys repeat earlier ones only with the same value,
    the lookup is decided by any visited element. *)
Lemma foldl_insert_lookup_Some (f : A → K) (g : A → V) (l : list A) (m : gmap K V) k v :
  foldl (λ m x, <[f x := g x]> m) m l !! k = Some v →
  (∃ x, x ∈ l ∧ f x = k ∧ g x = v) ∨ (m !! k = Some v ∧ ∀ x, x ∈ l → f x ≠ k).
Proof.
  revert m. induction l as [|x l IH]; intros m; simpl; [set_solver|].
  intros [(y & ? & ? & ?)|[Hm Hne]]%IH; [set_solver|].
  rewrite lookup_insert in Hm. case_decide; simplify_eq; [left; set_solver|].
  right. split; [done|]. intros y [->|?]%elem_of_cons; [done|auto].
Qed.

Lemma foldl_insert_lookup_is_Some (f : A → K) (g : A → V) (l : list A) (m : gmap K V) k :
  is_Some (foldl (λ m x, <[f x := g x]> m) m l !! k) ↔
  is_Some (m !! k) ∨ ∃ x, x ∈ l ∧ f x = k.
Proof.
  revert m. induction l as [|x l IH]; intros m; simpl; [set_solver|].
  rewrite IH, lookup_insert. case_decide; subst.
  - split; [intros _; right; set_solver|]. intros _. left. eauto.
  - set_solver.
Qed.

(** With distinct keys the loop stores exactly the visited pairs. *)
Lemma foldl_insert_lookup_nodup (f : A → K) (g : A → V) (l : list A) k v :
  NoDup (f <$> l) →
  foldl (λ (m : gmap K V) x, <[f x := g x]> m) ∅ l !! k = Some v ↔ ∃ x, x ∈ l ∧ f x = k ∧ g x = v.
Proof.
  intros Hnd. split.
  - intros [?|[? _]]%foldl_insert_lookup_Some; set_solver.
  - intros (x & Hx & <- & <-).
    assert (is_Some (foldl (λ (m : gmap K V) x, <[f x := g x]> m) ∅ l !! f x)) as [v Hv].
    { apply foldl_insert_lookup_is_Some. set_solver. }
    rewrite Hv. apply foldl_insert_lookup_Some in Hv as [(y & Hy & Hf & <-)|[? _]]; [|set_solver].
    by rewrite (NoDup_fmap_eq f l x y).
Qed.

Lemma foldl_set_insert (f : A → K) (l : list A) (s : gset K) k :
  k ∈ foldl (λ s x, {[f x]} ∪ s) s l ↔ k ∈ s ∨ ∃ x, x ∈ l ∧ f x = k.
Proof. revert s. induction l as [|x l IH]; intros s; simpl; [set_solver|]. rewrite IH. set_solver. Qed.
End loops.

(** [for x in l { result = append(result, f(x)) }] *)
Lemma foldl_append {A B} (f : A → B) (l : list A) acc :
  foldl (λ result x, result ++ [f x]) acc l = acc ++ (f <$> l).
Proof.
  revert acc. induction l as [|x l IH]; intros acc; simpl; [by rewrite app_nil_r|].
  by rewrite IH, <-app_assoc.
Qed.

(** ** Transition systems *)

(** A measure that every step lowers bounds the length of the runs. *)
Lemma nsteps_measure {A} (f : A → nat) (R : relation A) n x y :
  (∀ x y, R x y → f y < f x) → nsteps R n x y → n + f y ≤ f x.
Proof.
  intros Hf. induction 1 as [|n x y z Hxy _ IH]; [done|]. specialize (Hf _ _ Hxy). lia.
Qed.

(** ** Byte strings *)

(** Every byte of the string satisfies [P]. *)
Fixpoint str_all (P : ascii → bool) (s : string) : bool :=
  match s with
  | EmptyString => true
  | String a s => P a && str_all P s
  end.

Lemma str_all_app P s t : str_all P (s +:+ t) = str_all P s && str_all P t.
Proof. induction s as [|a s IH]; [done|]. simpl. by rewrite IH, andb_assoc. Qed.

Lemma str_all_weaken (P Q : ascii → bool) s : (∀ a, P a → Q a) → str_all P s → str_all Q s.
Proof.
  intros HPQ. induction s as [|a s IH]; [done|]. simpl. rewrite !andb_True. intros [? ?]. auto.
Qed.

(** [str_free c s]: the byte [c] does not occur in [s]. *)
Fixpoint str_free (c : ascii) (s : string) : bool :=
  match s with
  | EmptyString => true
  | String a s => negb (bool_decide (a = c)) && str_free c s
  end.

(** Go's [strings.Join(elems, sep)]. *)
Fixpoint strings_Join (elems : list string) (sep : string) : string :=
  match elems with
  | [] => ""
  | [s] => s
  | s :: rest => s +:+ sep +:+ strings_Join rest sep
  end.

(** Go's [slices.Sort] on strings: ascending byte order. *)
Definition slices_Sort (l : list string) : list string := merge_sort String.le l.

Lemma str_app_cons a s t : String a s +:+ t = String a (s +:+ t).
Proof. done. Qed.

Lemma str_app_nil_l t : "" +:+ t = t.
Proof. done. Qed.

Lemma str_app_assoc s t u : (s +:+ t) +:+ u = s +:+ (t +:+ u).
Proof. induction s as [|a s IH]; [done|]. by rewrite !str_app_cons, IH. Qed.

Lemma str_app_nil_r s : s +:+ "" = s.
Proof. induction s as [|a s IH]; [done|]. by rewrite !str_app_cons, IH. Qed.

Lemma str_length_app s t : String.length (s +:+ t) = String.length s + String.length t.
Proof. induction s as [|a s IH]; [done|]. rewrite str_app_cons. simpl. by rewrite IH. Qed.

Lemma str_free_app c s t : str_free c (s +:+ t) = str_free c s && str_free c t.
Proof. induction s as [|a s IH]; [done|]. rewrite str_app_cons. simpl. rewrite IH. by destruct (negb _). Qed.

(** A separator that neither prefix contains cuts both strings at the same place. *)
Lemma str_cut c s s' t t' :
  str_free c s → str_free c s' → s +:+ String c t = s' +:+ String c t' → s = s' ∧ t = t'.
Proof.
  revert s'. induction s as [|a s IH]; intros [|a' s']; rewrite ?str_app_cons, ?str_app_nil_l; simpl.
  - intros _ _ [=]. done.
  - intros _ H [= -> _]. by rewrite bool_decide_true in H.
  - intros H _ [= -> _]. by rewrite bool_decide_true in H.
  - intros [_ H]%andb_True [_ H']%andb_True [= -> Heq]. by destruct (IH s' H H' Heq) as [-> ->].
Qed.

Lemma str_cut_none c s s' t : str_free c s → s ≠ s' +:+ String c t.
Proof.
  intros Hs ->. rewrite str_free_app in Hs. apply andb_True in Hs as [_ Hs].
  simpl in Hs. by rewrite bool_decide_true in Hs.
Qed.

Lemma strings_Join_cons s s' rest sep :
  strings_Join (s :: s' :: rest) sep = s +:+ sep +:+ strings_Join (s' :: rest) sep.
Proof. done. Qed.

(** [strings.Join] with a one-byte separator is injective on non-empty lists of strings that do not
    contain the separator. *)
Lemma strings_Join_inj c l l' :
  l ≠ [] → l' ≠ [] → Forall (λ s, str_free c s) l → Forall (λ s, str_free c s) l' →
  strings_Join l (String c "") = strings_Join l' (String c "") → l = l'.
Proof.
  revert l'. induction l as [|a [|b l] IH]; intros [|a' [|b' l']] ?? Hl Hl'; try done.
  - simpl. by intros ->.
  - rewrite (strings_Join_cons a'). intros Heq. exfalso.
    apply Forall_cons in Hl as [Ha _]. by apply (str_cut_none _ _ _ _ Ha) in Heq.
  - rewrite (strings_Join_cons a). intros Heq. exfalso.
    apply Forall_cons in Hl' as [Ha _]. by apply eq_sym, (str_cut_none _ _ _ _ Ha) in Heq.
  - apply Forall_cons in Hl as [Ha Hl], Hl' as [Ha' Hl']. rewrite (strings_Join_cons a), (strings_Join_cons a').
    intros [-> Heq]%str_cut; [|done..]. f_equal. by apply IH.
Qed.

Lemma strings_Join_free c l sep :
  str_free c sep → Forall (λ s, str_free c s) l → str_free c (strings_Join l sep).
Proof.
  intros Hsep. induction l as [|a [|b l] IH]; intros Hl; [done|by apply Forall_cons in Hl as [? _]|].
  apply Forall_cons in Hl as [Ha Hl]. rewrite (strings_Join_cons a), !str_free_app.
  repeat (apply andb_True; split); auto.
Qed.

Lemma slices_Sort_perm l : slices_Sort l ≡ₚ l.
Proof. apply merge_sort_Permutation. Qed.

(** Sorting forgets the order in which the elements were produced. *)
Lemma slices_Sort_proper l l' : l ≡ₚ l' → slices_Sort l = slices_Sort l'.
Proof.
  intros Hl. apply (StronglySorted_unique String.le).
  - apply StronglySorted_merge_sort; apply _.
  - apply StronglySorted_merge_sort; apply _.
  - by rewrite !slices_Sort_perm.
Qed.

#[export] Hint Rewrite str_app_assoc str_app_nil_r str_length_app : opc_simpl.
