(* ===== verification/GoLib.v ===== *)
(** * The parts of the Go standard library the program computes with

    [crypto/sha256.Sum256] over byte strings (FIPS 180-4, 32-bit words as [N] with the wrap-around
    written out) and the ["%x"] rendering of its result, as [shortHash] of
    src/internal/rules/generator.go uses them. *)

From Stdlib Require Import Ascii NArith.
From S2P Require Import Prelude.
Local Open Scope N_scope.

Module Sha256.
(** ** 32-bit words *)

Definition word_mask : N := N.ones 32.
Definition wrap (x : N) : N := N.land x word_mask.
Definition plus32 (x y : N) : N := wrap (x + y).
Definition rotr (k x : N) : N := N.lor (N.shiftr x k) (wrap (N.shiftl x (32 - k))).
Definition xor3 (x y z : N) : N := N.lxor x (N.lxor y z).

Definition big_sigma0 (x : N) : N := xor3 (rotr 2 x) (rotr 13 x) (rotr 22 x).
Definition big_sigma1 (x : N) : N := xor3 (rotr 6 x) (rotr 11 x) (rotr 25 x).
Definition small_sigma0 (x : N) : N := xor3 (rotr 7 x) (rotr 18 x) (N.shiftr x 3).
Definition small_sigma1 (x : N) : N := xor3 (rotr 17 x) (rotr 19 x) (N.shiftr x 10).
Definition choose (e f g : N) : N := N.lxor (N.land e f) (N.land (N.lxor e word_mask) g).
Definition majority (a b c : N) : N := xor3 (N.land a b) (N.land a c) (N.land b c).

(** ** Constants: the fractional parts of the roots of the first primes *)

Definition primes : list N :=
  Eval vm_compute in
    take 64 (filter (λ n, forallb (λ d, negb (n mod N.of_nat d =? 0)) (seq 2 (N.to_nat n - 2)) = true)
               (N.of_nat <$> seq 2 320)).

(** The largest [r] below [2^bits] with [r^3 <= n]. *)
Fixpoint cube_root_below (bits : nat) (acc n : N) : N :=
  match bits with
  | O => acc
  | S b => let r := acc + 2 ^ N.of_nat b in
           cube_root_below b (if r * r * r <=? n then r else acc) n
  end.

Definition round_constants : list N :=
  Eval vm_compute in (λ p, wrap (cube_root_below 40 0 (N.shiftl p 96))) <$> primes.

(** ** Hash state *)

Record state := mkState { sa : N; sb : N; sc : N; sd : N; se : N; sf : N; sg : N; sh : N }.

Definition initial : state :=
  Eval vm_compute in
    match (λ p, wrap (N.sqrt (N.shiftl p 64))) <$> take 8 primes with
    | [a; b; c; d; e; f; g; h] => mkState a b c d e f g h
    | _ => mkState 0 0 0 0 0 0 0 0
    end.

Definition round (s : state) (kw : N * N) : state :=
  let t1 := plus32 (plus32 (plus32 (plus32 (sh s) (big_sigma1 (se s)))
                              (choose (se s) (sf s) (sg s))) (fst kw)) (snd kw) in
  let t2 := plus32 (big_sigma0 (sa s)) (majority (sa s) (sb s) (sc s)) in
  mkState (plus32 t1 t2) (sa s) (sb s) (sc s) (plus32 (sd s) t1) (se s) (sf s) (sg s).

Definition combine_states (s t : state) : state :=
  mkState (plus32 (sa s) (sa t)) (plus32 (sb s) (sb t)) (plus32 (sc s) (sc t))
          (plus32 (sd s) (sd t)) (plus32 (se s) (se t)) (plus32 (sf s) (sf t))
          (plus32 (sg s) (sg t)) (plus32 (sh s) (sh t)).

(** The message schedule, most recent word first: [n] more words after those of [ws]. *)
Fixpoint schedule (n : nat) (ws : list N) : list N :=
  match n with
  | O => ws
  | S n => schedule n
             (plus32 (plus32 (small_sigma1 (nth 1 ws 0)) (nth 6 ws 0))
                (plus32 (small_sigma0 (nth 14 ws 0)) (nth 15 ws 0)) :: ws)
  end.

Definition block (s : state) (words : list N) : state :=
  combine_states s
    (foldl round s (combine round_constants (reverse (schedule 48 (reverse words))))).

(** ** Padding and parsing *)

Fixpoint be_bytes (n : nat) (x : N) : list N :=
  match n with
  | O => []
  | S n => N.land (N.shiftr x (8 * N.of_nat n)) 255 :: be_bytes n x
  end.

Definition pad (msg : list N) : list N :=
  let len := N.of_nat (length msg) in
  msg ++ 128 :: replicate (N.to_nat ((119 - len mod 64) mod 64)) 0 ++ be_bytes 8 (8 * len).

Fixpoint words_of (bytes : list N) : list N :=
  match bytes with
  | a :: b :: c :: d :: rest =>
      (N.shiftl a 24 + N.shiftl b 16 + N.shiftl c 8 + d) :: words_of rest
  | _ => []
  end.

(** Sixteen words at a time; [fuel] is the number of words, more than the number of blocks. *)
Fixpoint blocks (fuel : nat) (s : state) (words : list N) : state :=
  match fuel, words with
  | O, _ | _, [] => s
  | S fuel, _ => blocks fuel (block s (take 16 words)) (drop 16 words)
  end.

Definition digest_words (s : state) : list N :=
  [sa s; sb s; sc s; sd s; se s; sf s; sg s; sh s].

Definition Sum256 (msg : list N) : list N :=
  let words := words_of (pad msg) in
  digest_words (blocks (length words) initial words) ≫= be_bytes 4.

Lemma length_be_bytes n x : length (be_bytes n x) = n.
Proof. induction n; simpl; congruence. Qed.

Lemma length_Sum256 msg : length (Sum256 msg) = 32%nat.
Proof. done. Qed.
End Sha256.

(** ["%x"]: two lower-case hexadecimal digits per byte. *)
Definition hex_digit (n : N) : ascii :=
  match String.get (N.to_nat n) "0123456789abcdef" with
  | Some c => c
  | None => "0"%char
  end.

Definition hex_of_bytes (bytes : list N) : string :=
  foldr (λ b s, String (hex_digit (N.shiftr b 4)) (String (hex_digit (N.land b 15)) s)) "" bytes.

Definition bytes_of_string (s : string) : list N := N_of_ascii <$> String.list_ascii_of_string s.

(** [s[:n]] on a string; Go panics when [s] is shorter. *)
Definition str_prefix (n : nat) (s : string) : string := String.substring 0 n s.

Lemma length_hex_of_bytes bs : String.length (hex_of_bytes bs) = (2 * length bs)%nat.
Proof.
  induction bs as [|b bs IH]; [done|].
  change (S (S (String.length (hex_of_bytes bs))) = 2 * S (length bs))%nat. lia.
Qed.

Lemma length_str_prefix n s : (n ≤ String.length s)%nat → String.length (str_prefix n s) = n.
Proof.
  unfold str_prefix. revert s. induction n as [|n IH]; intros [|a s] Hn; simpl in *; try lia.
  rewrite IH; lia.
Qed.

Lemma hex_digit_free c n : str_free c "0123456789abcdef" → str_free c (String (hex_digit n) "").
Proof.
  intros Hc. unfold hex_digit.
  assert (∀ s k a, str_free c s → String.get k s = Some a → str_free c (String a "")) as Hget.
  { induction s as [|b s IH]; intros [|k] a; simpl; [done..| |].
    - intros [Hb _]%andb_True [= ->]. rewrite andb_True. done.
    - intros [_ Hs]%andb_True. by apply IH. }
  destruct (String.get _ _) as [a|] eqn:Hg.
  - by eapply Hget.
  - apply (Hget "0123456789abcdef" 0%nat); done.
Qed.

(** The digits of ["%x"]. *)
Definition hex_char (a : ascii) : bool := negb (str_free a "0123456789abcdef").

Lemma hex_digit_char n : hex_char (hex_digit n).
Proof.
  unfold hex_digit.
  assert (∀ s k a, String.get k s = Some a → ¬ str_free a s) as Hget.
  { induction s as [|b s IH]; intros [|k] a; simpl; [done..| |].
    - intros [= ->] [Ha _]%andb_True. by rewrite bool_decide_true in Ha.
    - intros Ha [_ Hs]%andb_True. by eapply IH. }
  destruct (String.get _ _) as [a|] eqn:Hg; [|done]. apply Hget in Hg. by apply negb_True.
Qed.

Lemma hex_of_bytes_chars bs : str_all hex_char (hex_of_bytes bs).
Proof.
  induction bs as [|b bs IH]; [done|]. cbn [hex_of_bytes foldr str_all].
  rewrite !andb_True. split_and!; [apply hex_digit_char..|exact IH].
Qed.

Lemma str_prefix_all P n s : str_all P s → str_all P (str_prefix n s).
Proof.
  unfold str_prefix. revert s. induction n as [|n IH]; intros [|a s]; try done. simpl.
  rewrite !andb_True. intros [? ?]. auto.
Qed.
