(* ===== verification/Api.v ===== *)
(** * The data the program works on

    Scopes (src/internal/types/scope.go), the custom resources of src/api/v1beta1, the interface
    [WSAResource] that unifies them (src/internal/rules/wsa_resource.go), the fields of Kubernetes
    objects the program reads or writes, and the third-party code it relies on, as a class of
    operations with its laws. *)

From Stdlib Require Import Ascii ZArith.
From S2P Require Import Prelude.

(** ** The six dimensions of a scope *)

(** One value per dimension.  [Dims string] is the struct [Scope]; the arrays indexed by
    [DimensionIndex] ([GlobalVocabulary], [scopeSlices], [dimensionCoverage]) and the struct
    [GroupedDimensions] are the same shape at other types. *)
Record Dims (A : Type) := mkDims {
  Project : A;
  ProjectGroup : A;
  Environment : A;
  Tenant : A;
  Step : A;
  Space : A
}.
Arguments mkDims {A} _ _ _ _ _ _.
Arguments Project {A} _.
Arguments ProjectGroup {A} _.
Arguments Environment {A} _.
Arguments Tenant {A} _.
Arguments Step {A} _.
Arguments Space {A} _.

Abbreviation Scope := (Dims string).

Inductive DimensionIndex :=
| ProjectIndex
| ProjectGroupIndex
| EnvironmentIndex
| TenantIndex
| StepIndex
| SpaceIndex.

(** The indices below [MaxDimensionIndex], in order. *)
Definition dimension_indices : list DimensionIndex :=
  [ProjectIndex; ProjectGroupIndex; EnvironmentIndex; TenantIndex; StepIndex; SpaceIndex].

Definition dim_get {A} (d : DimensionIndex) (x : Dims A) : A :=
  match d with
  | ProjectIndex => Project x
  | ProjectGroupIndex => ProjectGroup x
  | EnvironmentIndex => Environment x
  | TenantIndex => Tenant x
  | StepIndex => Step x
  | SpaceIndex => Space x
  end.

Definition dim_set {A} (d : DimensionIndex) (v : A) (x : Dims A) : Dims A :=
  match d with
  | ProjectIndex => mkDims v (ProjectGroup x) (Environment x) (Tenant x) (Step x) (Space x)
  | ProjectGroupIndex => mkDims (Project x) v (Environment x) (Tenant x) (Step x) (Space x)
  | EnvironmentIndex => mkDims (Project x) (ProjectGroup x) v (Tenant x) (Step x) (Space x)
  | TenantIndex => mkDims (Project x) (ProjectGroup x) (Environment x) v (Step x) (Space x)
  | StepIndex => mkDims (Project x) (ProjectGroup x) (Environment x) (Tenant x) v (Space x)
  | SpaceIndex => mkDims (Project x) (ProjectGroup x) (Environment x) (Tenant x) (Step x) v
  end.

#[export] Instance DimensionIndex_eq_dec : EqDecision DimensionIndex.
Proof. solve_decision. Defined.

#[export] Instance Dims_eq_dec {A} `{EqDecision A} : EqDecision (Dims A).
Proof. solve_decision. Defined.

Definition dims_to_list {A} (x : Dims A) : list A :=
  [Project x; ProjectGroup x; Environment x; Tenant x; Step x; Space x].

Definition dims_of_list {A} (l : list A) : option (Dims A) :=
  match l with [a; b; c; d; e; f] => Some (mkDims a b c d e f) | _ => None end.

#[export] Program Instance Dims_countable {A} `{Countable A} : Countable (Dims A) :=
  inj_countable dims_to_list dims_of_list _.
Next Obligation. by intros A ? ? []. Qed.

Lemma dim_get_set_eq {A} d (v : A) x : dim_get d (dim_set d v x) = v.
Proof. by destruct d. Qed.

Lemma dim_get_set_ne {A} d d' (v : A) x : d ≠ d' → dim_get d (dim_set d' v x) = dim_get d x.
Proof. by destruct d, d'. Qed.

Lemma foldl_dim_set {A} (f : DimensionIndex → A) ds x d :
  dim_get d (foldl (λ x d, dim_set d (f d) x) x ds) =
  if decide (d ∈ ds) then f d else dim_get d x.
Proof.
  revert x. induction ds as [|d0 ds IH]; intros x; cbn [foldl].
  { by rewrite decide_False by apply not_elem_of_nil. }
  rewrite IH. destruct (decide (d ∈ ds)).
  - by rewrite decide_True by by apply list_elem_of_further.
  - destruct (decide (d = d0)) as [->|].
    + by rewrite dim_get_set_eq, decide_True by apply list_elem_of_here.
    + by rewrite dim_get_set_ne, decide_False by (done || by apply not_elem_of_cons).
Qed.

Lemma elem_of_dimension_indices d : d ∈ dimension_indices.
Proof. unfold dimension_indices. destruct d; set_solver. Qed.

Lemma NoDup_dimension_indices : NoDup dimension_indices.
Proof. by apply (bool_decide_unpack _). Qed.

Lemma dims_ext {A} (x y : Dims A) : (∀ d, dim_get d x = dim_get d y) → x = y.
Proof.
  intros Hd. destruct x, y.
  f_equal; [exact (Hd ProjectIndex)|exact (Hd ProjectGroupIndex)|exact (Hd EnvironmentIndex)
           |exact (Hd TenantIndex)|exact (Hd StepIndex)|exact (Hd SpaceIndex)].
Qed.

(** [func (s *Scope) IsEmpty() bool] *)
Definition IsEmpty (s : Scope) : bool :=
  bool_decide (Project s = "") && bool_decide (ProjectGroup s = "") &&
  bool_decide (Environment s = "") && bool_decide (Tenant s = "") &&
  bool_decide (Step s = "") && bool_decide (Space s = "").

(** [func (s *Scope) String() string] *)
Definition Scope_String (s : Scope) : string :=
  "projects=" +:+ Project s +:+ ",projectGroups=" +:+ ProjectGroup s +:+
  ",environments=" +:+ Environment s +:+ ",tenants=" +:+ Tenant s +:+
  ",steps=" +:+ Step s +:+ ",spaces=" +:+ Space s.

Lemma IsEmpty_spec s : IsEmpty s ↔ ∀ d, dim_get d s = "".
Proof.
  unfold IsEmpty. rewrite !andb_True, !bool_decide_spec. split.
  - intros (((((?&?)&?)&?)&?)&?) []; done.
  - intros Hd. repeat split;
      [exact (Hd ProjectIndex)|exact (Hd ProjectGroupIndex)|exact (Hd EnvironmentIndex)
      |exact (Hd TenantIndex)|exact (Hd StepIndex)|exact (Hd SpaceIndex)].
Qed.

(** ** Kubernetes data *)

Record NamespacedName := mkNN { nn_Namespace : string; nn_Name : string }.

#[export] Instance NamespacedName_eq_dec : EqDecision NamespacedName.
Proof. solve_decision. Defined.

#[export] Program Instance NamespacedName_countable : Countable NamespacedName :=
  inj_countable' (λ k, (nn_Namespace k, nn_Name k)) (λ '(a, b), mkNN a b) _.
Next Obligation. by intros []. Qed.

(** rbac/v1 *)
Record PolicyRule := mkPolicyRule {
  Verbs : list string;
  APIGroups : list string;
  Resources : list string;
  ResourceNames : list string;
  NonResourceURLs : list string
}.

Record RoleRef := mkRoleRef { rr_APIGroup : string; rr_Kind : string; rr_Name : string }.

Record Subject := mkSubject { sub_Kind : string; sub_Name : string; sub_Namespace : string }.

#[export] Instance PolicyRule_eq_dec : EqDecision PolicyRule.
Proof. solve_decision. Defined.
#[export] Instance RoleRef_eq_dec : EqDecision RoleRef.
Proof. solve_decision. Defined.
#[export] Instance Subject_eq_dec : EqDecision Subject.
Proof. solve_decision. Defined.

(** meta/v1.  [Labels] is [None] for Go's nil map; a time is [None] for a nil pointer and [Some 0]
    for the zero time. *)
Record ManagedFieldsEntry := mkManagedFields { mf_Manager : string; mf_Time : option Z }.

Record ObjectMeta := mkMeta {
  meta_Name : string;
  meta_Namespace : string;
  meta_UID : string;
  meta_Generation : Z;
  meta_ResourceVersion : string;
  meta_DeletionTimestamp : option Z;
  meta_Labels : option (gmap string string);
  meta_Finalizers : list string;
  meta_ManagedFields : list ManagedFieldsEntry
}.

(** [func (t *Time) IsZero() bool] *)
Definition time_IsZero (t : option Z) : bool :=
  match t with None => true | Some z => Z.eqb z 0 end.

(** core/v1: the fields of a service account the program reads or writes. *)
Record ServiceAccount := mkServiceAccount {
  sa_Name : string;
  sa_Namespace : string;
  sa_UID : string;
  sa_Labels : option (gmap string string);
  sa_Annotations : gmap string string
}.

(** ** The custom resources (src/api/v1beta1) *)

(** [WorkloadServiceAccountScope]: the slices [Projects], [ProjectGroups], [Environments],
    [Tenants], [Steps] and [Spaces]. *)
Abbreviation WorkloadServiceAccountScope := (Dims (list string)).

Inductive ConditionStatus := ConditionTrue | ConditionFalse | ConditionUnknown.

(** meta/v1 [Condition], without the transition time. *)
Record Condition := mkCondition {
  cond_Type : string;
  cond_Status : ConditionStatus;
  cond_Reason : string;
  cond_Message : string;
  cond_ObservedGeneration : Z
}.

Record WorkloadServiceAccount := mkWSA {
  wsa_ObjectMeta : ObjectMeta;
  wsa_Scope : WorkloadServiceAccountScope;
  wsa_ClusterRoles : list RoleRef;
  wsa_Roles : list RoleRef;
  wsa_Permissions : list PolicyRule;
  wsa_Conditions : list Condition
}.

Record ClusterWorkloadServiceAccount := mkCWSA {
  cwsa_ObjectMeta : ObjectMeta;
  cwsa_Scope : WorkloadServiceAccountScope;
  cwsa_ClusterRoles : list RoleRef;
  cwsa_Permissions : list PolicyRule;
  cwsa_Conditions : list Condition
}.

(** ** [WSAResource] (src/internal/rules/wsa_resource.go)

    The interface has two implementations, the adapters; a value of the interface is one of them. *)
Inductive WSAResource :=
| wsaAdapter (wsa : WorkloadServiceAccount)
| clusterWSAAdapter (cwsa : ClusterWorkloadServiceAccount).

Definition NewWSAResource (wsa : WorkloadServiceAccount) : WSAResource := wsaAdapter wsa.
Definition NewClusterWSAResource (cwsa : ClusterWorkloadServiceAccount) : WSAResource :=
  clusterWSAAdapter cwsa.

Definition GetOwnerMeta (r : WSAResource) : ObjectMeta :=
  match r with
  | wsaAdapter w => wsa_ObjectMeta w
  | clusterWSAAdapter c => cwsa_ObjectMeta c
  end.

(** The methods of the interface, for the types behind the adapters. *)
Class WSAResourceMethods (T : Type) := {
  method_GetName : T → string;
  method_GetNamespace : T → string;
  method_GetNamespacedName : T → NamespacedName;
  method_GetScope : T → WorkloadServiceAccountScope;
  method_GetPermissionRules : T → list PolicyRule;
  method_GetRoles : T → list RoleRef;
  method_GetClusterRoles : T → list RoleRef;
  method_IsClusterScoped : T → bool;
  method_GetGeneration : T → Z;
  method_GetResourceVersion : T → string
}.

Definition wsaAdapter_methods : WSAResourceMethods WorkloadServiceAccount := {|
  method_GetName w := meta_Name (wsa_ObjectMeta w);
  method_GetNamespace w := meta_Namespace (wsa_ObjectMeta w);
  method_GetNamespacedName w :=
    {| nn_Name := meta_Name (wsa_ObjectMeta w); nn_Namespace := meta_Namespace (wsa_ObjectMeta w) |};
  method_GetScope w := wsa_Scope w;
  method_GetPermissionRules w := wsa_Permissions w;
  method_GetRoles w := wsa_Roles w;
  method_GetClusterRoles w := wsa_ClusterRoles w;
  method_IsClusterScoped _ := false;
  method_GetGeneration w := meta_Generation (wsa_ObjectMeta w);
  method_GetResourceVersion w := meta_ResourceVersion (wsa_ObjectMeta w)
|}.

Definition clusterWSAAdapter_methods : WSAResourceMethods ClusterWorkloadServiceAccount := {|
  method_GetName c := meta_Name (cwsa_ObjectMeta c);
  method_GetNamespace _ := "";
  method_GetNamespacedName c := {| nn_Name := meta_Name (cwsa_ObjectMeta c); nn_Namespace := "" |};
  method_GetScope c := cwsa_Scope c;
  method_GetPermissionRules c := cwsa_Permissions c;
  method_GetRoles _ := [];
  method_GetClusterRoles c := cwsa_ClusterRoles c;
  method_IsClusterScoped _ := true;
  method_GetGeneration c := meta_Generation (cwsa_ObjectMeta c);
  method_GetResourceVersion c := meta_ResourceVersion (cwsa_ObjectMeta c)
|}.

#[export] Existing Instance wsaAdapter_methods.
#[export] Existing Instance clusterWSAAdapter_methods.

(** A call through the interface runs the method of the adapter at hand. *)
Definition GetName (r : WSAResource) : string :=
  match r with wsaAdapter w => method_GetName w | clusterWSAAdapter c => method_GetName c end.

Definition GetNamespace (r : WSAResource) : string :=
  match r with wsaAdapter w => method_GetNamespace w | clusterWSAAdapter c => method_GetNamespace c end.

Definition GetNamespacedName (r : WSAResource) : NamespacedName :=
  match r with wsaAdapter w => method_GetNamespacedName w | clusterWSAAdapter c => method_GetNamespacedName c end.

Definition GetScope (r : WSAResource) : WorkloadServiceAccountScope :=
  match r with wsaAdapter w => method_GetScope w | clusterWSAAdapter c => method_GetScope c end.

Definition GetPermissionRules (r : WSAResource) : list PolicyRule :=
  match r with wsaAdapter w => method_GetPermissionRules w | clusterWSAAdapter c => method_GetPermissionRules c end.

Definition GetRoles (r : WSAResource) : list RoleRef :=
  match r with wsaAdapter w => method_GetRoles w | clusterWSAAdapter c => method_GetRoles c end.

Definition GetClusterRoles (r : WSAResource) : list RoleRef :=
  match r with wsaAdapter w => method_GetClusterRoles w | clusterWSAAdapter c => method_GetClusterRoles c end.

Definition IsClusterScoped (r : WSAResource) : bool :=
  match r with wsaAdapter w => method_IsClusterScoped w | clusterWSAAdapter c => method_IsClusterScoped c end.

Definition GetGeneration (r : WSAResource) : Z :=
  match r with wsaAdapter w => method_GetGeneration w | clusterWSAAdapter c => method_GetGeneration c end.

Definition GetResourceVersion (r : WSAResource) : string :=
  match r with wsaAdapter w => method_GetResourceVersion w | clusterWSAAdapter c => method_GetResourceVersion c end.

Lemma GetNamespacedName_fields r : GetNamespacedName r = mkNN (GetNamespace r) (GetName r).
Proof. by destruct r. Qed.

(** ** Errors *)

Inductive StatusReason := ReasonNotFound | ReasonOther.

Inductive error :=
| ErrApi (reason : StatusReason) (msg : string)    (** returned by the API client *)
| ErrNew (msg : string)                            (** [fmt.Errorf] without [%w] *)
| ErrWrap (msg : string) (err : error)             (** [fmt.Errorf] with [%w] *)
| ErrMulti (l r : error).                          (** a [multierr] *)

(** [apierrors.IsNotFound], on the errors the client returns. *)
Definition IsNotFound (e : error) : bool :=
  match e with ErrApi ReasonNotFound _ => true | _ => false end.

Abbreviation Result := (Res error).

(** ** Third-party code

    [types.NamespacedName.String] and [meta.SetStatusCondition] of apimachinery, the ["%+v"] rendering
    of [rbacv1.PolicyRule] values, [go.uber.org/multierr.Append] and the text of an error. *)
Class ThirdParty := {
  NamespacedName_String : NamespacedName → string;
  format_rules : list PolicyRule → string;
  multierr_Append : option error → option error → option error;
  SetStatusCondition : list Condition → Condition → list Condition;
  error_Error : error → string
}.

(** [meta.FindStatusCondition] *)
Definition FindStatusCondition (conditions : list Condition) (conditionType : string) : option Condition :=
  List.find (λ c, bool_decide (cond_Type c = conditionType)) conditions.

(** What their documentation says and the program relies on. *)
Class ThirdPartyLaws `{ThirdParty} : Prop := {
  NamespacedName_String_doc k :
    NamespacedName_String k = nn_Namespace k +:+ "/" +:+ nn_Name k;
  multierr_Append_nil e1 e2 : multierr_Append e1 e2 = None ↔ e1 = None ∧ e2 = None;
  SetStatusCondition_doc l c t :
    FindStatusCondition (SetStatusCondition l c) t =
    if decide (t = cond_Type c) then Some c else FindStatusCondition l t
}.

(** A concrete instance, for evaluation. *)
Fixpoint set_condition (l : list Condition) (c : Condition) : list Condition :=
  match l with
  | [] => [c]
  | x :: l => if decide (cond_Type x = cond_Type c) then c :: l else x :: set_condition l c
  end.

Fixpoint error_text (e : error) : string :=
  match e with
  | ErrApi _ msg | ErrNew msg => msg
  | ErrWrap msg e => msg +:+ ": " +:+ error_text e
  | ErrMulti l r => error_text l +:+ "; " +:+ error_text r
  end.

Definition strings_format (l : list string) : string := "[" +:+ strings_Join l " " +:+ "]".

Definition reference_third_party : ThirdParty := {|
  NamespacedName_String k := nn_Namespace k +:+ "/" +:+ nn_Name k;
  format_rules rules :=
    "[" +:+ strings_Join
      ((λ r, "{Verbs:" +:+ strings_format (Verbs r) +:+ " APIGroups:" +:+ strings_format (APIGroups r)
         +:+ " Resources:" +:+ strings_format (Resources r)
         +:+ " ResourceNames:" +:+ strings_format (ResourceNames r)
         +:+ " NonResourceURLs:" +:+ strings_format (NonResourceURLs r) +:+ "}") <$> rules) " " +:+ "]";
  multierr_Append e1 e2 :=
    match e1, e2 with
    | None, e | e, None => e
    | Some a, Some b => Some (ErrMulti a b)
    end;
  SetStatusCondition := set_condition;
  error_Error := error_text
|}.

Lemma reference_third_party_laws : @ThirdPartyLaws reference_third_party.
Proof.
  constructor; [done|by intros [] []; simpl; naive_solver|].
  intros l c t. unfold FindStatusCondition. simpl. induction l as [|x l IH]; simpl.
  - case_bool_decide; case_decide; congruence.
  - destruct (decide (cond_Type x = cond_Type c)); simpl; rewrite ?IH;
      repeat case_bool_decide; repeat case_decide; congruence.
Qed.

(** ** Names Kubernetes admits

    Namespaces and object names are DNS labels or subdomains: neither ['/'] nor [','] occurs. *)
Definition k8s_key_ok (k : NamespacedName) : bool :=
  str_free "/"%char (nn_Namespace k) && str_free ","%char (nn_Namespace k) && str_free ","%char (nn_Name k).

Section keys.
Context `{ThirdPartyLaws}.

Lemma NamespacedName_String_inj k k' :
  k8s_key_ok k → k8s_key_ok k' → NamespacedName_String k = NamespacedName_String k' → k = k'.
Proof.
  unfold k8s_key_ok. rewrite !andb_True, !NamespacedName_String_doc.
  intros [[? _] _] [[? _] _] [Hns Hn]%str_cut; [|done..].
  destruct k, k'; simpl in *. congruence.
Qed.

Lemma NamespacedName_String_free k : k8s_key_ok k → str_free ","%char (NamespacedName_String k).
Proof.
  unfold k8s_key_ok. rewrite !andb_True, NamespacedName_String_doc, !str_free_app, !andb_True.
  intros [[_ ?] ?]. done.
Qed.
End keys.

#[export] Hint Resolve elem_of_dimension_indices NoDup_dimension_indices NamespacedName_String_free : opc.
