(* ===== verification/Scopes.v ===== *)
(** * From workload service accounts to scopes

    The first half of src/internal/rules/generator.go: the vocabulary of known values, the scopes a
    resource covers, and the map from every covered scope to the resources that cover it.  The
    specification is [scope_matches]: a resource applies to a deployment when each of its non-empty
    dimensions lists the deployment's value. *)

From Stdlib Require Import Ascii.
From S2P Require Import Prelude Api.

Definition WildcardValue : string := "*".

(** [type GlobalVocabulary [MaxDimensionIndex]*set.Set[string]] *)
Abbreviation GlobalVocabulary := (Dims (gset string)).

Definition NewGlobalVocabulary : GlobalVocabulary := mkDims ∅ ∅ ∅ ∅ ∅ ∅.

Definition GetKnownScopeCombination (v : GlobalVocabulary) (scope : Scope) : Scope := {|
  Project := if decide (Project scope ∈ Project v) then Project scope else WildcardValue;
  ProjectGroup :=
    if decide (ProjectGroup scope ∈ ProjectGroup v) then ProjectGroup scope else WildcardValue;
  Environment :=
    if decide (Environment scope ∈ Environment v) then Environment scope else WildcardValue;
  Tenant := if decide (Tenant scope ∈ Tenant v) then Tenant scope else WildcardValue;
  Step := if decide (Step scope ∈ Step v) then Step scope else WildcardValue;
  Space := if decide (Space scope ∈ Space v) then Space scope else WildcardValue
|}.

(** The closure of the same name in [buildGlobalVocabulary]; it updates the array in place. *)
Definition addAllValuesToVocabulary
    (dimensionIndex : DimensionIndex) (values : list string) (vocabulary : GlobalVocabulary) :
    GlobalVocabulary :=
  foldl (λ vocabulary value,
    dim_set dimensionIndex ({[value]} ∪ dim_get dimensionIndex vocabulary) vocabulary)
    vocabulary values.

Definition buildGlobalVocabulary (resources : list WSAResource) : GlobalVocabulary :=
  foldl (λ vocabulary resource,
    let scope := GetScope resource in
    let vocabulary := addAllValuesToVocabulary ProjectIndex (Project scope) vocabulary in
    let vocabulary := addAllValuesToVocabulary ProjectGroupIndex (ProjectGroup scope) vocabulary in
    let vocabulary := addAllValuesToVocabulary EnvironmentIndex (Environment scope) vocabulary in
    let vocabulary := addAllValuesToVocabulary TenantIndex (Tenant scope) vocabulary in
    let vocabulary := addAllValuesToVocabulary StepIndex (Step scope) vocabulary in
    addAllValuesToVocabulary SpaceIndex (Space scope) vocabulary)
    NewGlobalVocabulary resources.

Section generator.
Context `{RangeOrder}.

(** Recursion on the dimensions still to fill, [currentDim .. MaxDimensionIndex - 1]; the shared
    [result] set is threaded through. *)
Fixpoint generateScopeCombinations (dims : list DimensionIndex) (currentScope : Scope)
    (dimensionSets : Dims (gset string)) (result : gset Scope) : gset Scope :=
  match dims with
  | [] => {[currentScope]} ∪ result
  | currentDim :: dims =>
      foldl (λ result value,
        let newScope := dim_set currentDim value currentScope in
        generateScopeCombinations dims newScope dimensionSets result)
        result (range_set "generateScopeCombinations" (dim_get currentDim dimensionSets))
  end.

Definition computeWSACoverage (resource : WSAResource) (vocabulary : GlobalVocabulary) : gset Scope :=
  let scopeSlices := GetScope resource in
  let dimensionCoverage :=
    foldl (λ dimensionCoverage dim,
      dim_set dim
        match dim_get dim scopeSlices with
        | [] => {[WildcardValue]} ∪ dim_get dim vocabulary
        | values => list_to_set values
        end dimensionCoverage) (mkDims ∅ ∅ ∅ ∅ ∅ ∅) dimension_indices in
  generateScopeCombinations dimension_indices (mkDims "" "" "" "" "" "") dimensionCoverage ∅.

Definition findScopeIntersections (coverageSets : list (gset Scope)) : gmap Scope (gset nat) :=
  foldl (λ scopeToWSAIndices '(wsaIndex, coverageSet),
    foldl (λ scopeToWSAIndices scope,
      <[scope := {[wsaIndex]} ∪ default ∅ (scopeToWSAIndices !! scope)]> scopeToWSAIndices)
      scopeToWSAIndices (range_set "findScopeIntersections" coverageSet))
    ∅ (imap pair coverageSets).

(** [wsaList[wsaIndex]] panics out of range; [findScopeIntersections_index] shows that every
    index is in range, so the second branch is not reached. *)
Definition buildScopeToWSAMapping (scopeIntersections : gmap Scope (gset nat))
    (wsaList : list WSAResource) : gmap Scope (gmap NamespacedName WSAResource) :=
  foldl (λ result '(scope, wsaIndices),
    if decide (0 < size wsaIndices) then
      let wsaMap :=
        foldl (λ wsaMap wsaIndex,
          match wsaList !! wsaIndex with
          | Some resource => <[GetNamespacedName resource := resource]> wsaMap
          | None => wsaMap
          end) ∅ (range_set "buildScopeToWSAMapping.indices" wsaIndices) in
      <[scope := wsaMap]> result
    else result)
    ∅ (range_map "buildScopeToWSAMapping" scopeIntersections).

Definition computeMinimalServiceAccountScopes (wsaList : list WSAResource)
    (vocabulary : GlobalVocabulary) : gmap Scope (gmap NamespacedName WSAResource) :=
  match wsaList with
  | [] => ∅
  | _ =>
      let wsaCoverageSets := (λ wsa, computeWSACoverage wsa vocabulary) <$> wsaList in
      let scopeIntersections := findScopeIntersections wsaCoverageSets in
      buildScopeToWSAMapping scopeIntersections wsaList
  end.

Definition getScopesForWSAs (wsaList : list WSAResource) :
    gmap Scope (gmap NamespacedName WSAResource) * GlobalVocabulary :=
  let vocabulary := buildGlobalVocabulary wsaList in
  (computeMinimalServiceAccountScopes wsaList vocabulary, vocabulary).
End generator.

(** ** Specification *)

(** The resource applies to the deployment scope [s]. *)
Definition scope_matches (r : WSAResource) (s : Scope) : bool :=
  forallb (λ d, match dim_get d (GetScope r) with
                | [] => true
                | values => bool_decide (dim_get d s ∈ values)
                end) dimension_indices.

(** No resource lists the wildcard itself as a value: the CRD admits only values made of letters,
    digits and ['-']. *)
Definition wildcard_free (R : list WSAResource) : Prop :=
  ∀ r d, r ∈ R → WildcardValue ∉ dim_get d (GetScope r).

(** The resources that cover a scope of the generated map. *)
Definition covering `{RangeOrder} (v : GlobalVocabulary) (k : Scope) (R : list WSAResource) :
    list WSAResource :=
  filter (λ r, k ∈ computeWSACoverage r v) R.

(** The map a list of resources with distinct keys denotes. *)
Definition wsa_map (R : list WSAResource) : gmap NamespacedName WSAResource :=
  foldl (λ m r, <[GetNamespacedName r := r]> m) ∅ R.

Definition keys_distinct (R : list WSAResource) : Prop := NoDup (GetNamespacedName <$> R).

(** ** The vocabulary *)

Lemma addAllValuesToVocabulary_elem d d' values v x :
  x ∈ dim_get d' (addAllValuesToVocabulary d values v) ↔
  x ∈ dim_get d' v ∨ (d' = d ∧ x ∈ values).
Proof.
  unfold addAllValuesToVocabulary. revert v.
  induction values as [|y values IH]; intros v; simpl; [set_solver|].
  rewrite IH. destruct (decide (d' = d)) as [->|Hne].
  - rewrite dim_get_set_eq. set_solver.
  - rewrite dim_get_set_ne by done. set_solver.
Qed.

Lemma buildGlobalVocabulary_elem R d x :
  x ∈ dim_get d (buildGlobalVocabulary R) ↔ ∃ r, r ∈ R ∧ x ∈ dim_get d (GetScope r).
Proof.
  unfold buildGlobalVocabulary.
  assert (∀ v, x ∈ dim_get d (foldl (λ vocabulary resource,
    addAllValuesToVocabulary SpaceIndex (Space (GetScope resource))
      (addAllValuesToVocabulary StepIndex (Step (GetScope resource))
        (addAllValuesToVocabulary TenantIndex (Tenant (GetScope resource))
          (addAllValuesToVocabulary EnvironmentIndex (Environment (GetScope resource))
            (addAllValuesToVocabulary ProjectGroupIndex (ProjectGroup (GetScope resource))
              (addAllValuesToVocabulary ProjectIndex (Project (GetScope resource)) vocabulary))))))
    v R) ↔ x ∈ dim_get d v ∨ ∃ r, r ∈ R ∧ x ∈ dim_get d (GetScope r)) as Hgen.
  { induction R as [|r R IH]; intros v; simpl; [set_solver|].
    rewrite IH, !addAllValuesToVocabulary_elem. destruct d; set_solver. }
  rewrite Hgen. destruct d; set_solver.
Qed.

(** ** Coverage *)

Section coverage.
Context `{RangeOrder}.

Lemma generateScopeCombinations_elem dims cur sets result k :
  NoDup dims →
  k ∈ generateScopeCombinations dims cur sets result ↔
  k ∈ result ∨ ((∀ d, d ∈ dims → dim_get d k ∈ dim_get d sets) ∧
                (∀ d, d ∉ dims → dim_get d k = dim_get d cur)).
Proof.
  intros Hnd. revert cur result. induction dims as [|d0 dims IH]; intros cur result; simpl.
  { rewrite elem_of_union, elem_of_singleton. split.
    - intros [->|?]; [right|by left]. set_solver.
    - intros [?|[_ Heq]]; [by right|left]. apply dims_ext. intros d. apply Heq. set_solver. }
  apply NoDup_cons in Hnd as [Hd0 Hnd].
  assert (∀ l result, k ∈ foldl (λ result value,
      generateScopeCombinations dims (dim_set d0 value cur) sets result) result l ↔
    k ∈ result ∨ (dim_get d0 k ∈ l ∧ (∀ d, d ∈ dims → dim_get d k ∈ dim_get d sets) ∧
      (∀ d, d ∉ d0 :: dims → dim_get d k = dim_get d cur))) as Hfold.
  { clear result. intros l. induction l as [|x l IHl]; intros result; simpl.
    { split; [by left|]. intros [?|[?%elem_of_nil _]]; done. }
    rewrite IHl, IH by done.
    assert ((∀ d, d ∉ dims → dim_get d k = dim_get d (dim_set d0 x cur)) ↔
      dim_get d0 k = x ∧ ∀ d, d ∉ d0 :: dims → dim_get d k = dim_get d cur) as ->.
    { split.
      - intros Heq. split; [by rewrite Heq, dim_get_set_eq|].
        intros d [? ?]%not_elem_of_cons. by rewrite Heq, dim_get_set_ne.
      - intros [<- Heq] d Hd. destruct (decide (d = d0)) as [->|Hne].
        + by rewrite dim_get_set_eq.
        + rewrite dim_get_set_ne by done. apply Heq. set_solver. }
    rewrite elem_of_cons. tauto. }
  rewrite Hfold, elem_of_range_set. split.
  - intros [?|(Hk & Hin & Hout)]; [by left|right]. split; [|done].
    by intros d [->|?]%elem_of_cons; [|apply Hin].
  - intros [?|(Hin & Hout)]; [by left|right]. repeat split; [| |done].
    + apply Hin, list_elem_of_here.
    + intros d Hd. by apply Hin, list_elem_of_further.
Qed.

(** The values a resource covers in one dimension. *)
Definition covers_value (r : WSAResource) (v : GlobalVocabulary) (d : DimensionIndex) (x : string) : Prop :=
  match dim_get d (GetScope r) with
  | [] => x = WildcardValue ∨ x ∈ dim_get d v
  | values => x ∈ values
  end.

Lemma computeWSACoverage_elem r v k :
  k ∈ computeWSACoverage r v ↔ ∀ d, covers_value r v d (dim_get d k).
Proof.
  unfold computeWSACoverage.
  rewrite generateScopeCombinations_elem by (apply NoDup_dimension_indices).
  set (cov := foldl _ _ _).
  assert (∀ d x, x ∈ dim_get d cov ↔ covers_value r v d x) as Hcov.
  { intros d x. subst cov. unfold covers_value.
    rewrite (foldl_dim_set (λ dim, _)), decide_True by apply elem_of_dimension_indices.
    destruct (dim_get d (GetScope r)).
    - by rewrite elem_of_union, elem_of_singleton.
    - by rewrite elem_of_list_to_set. }
  split.
  - intros [?%elem_of_empty|[Hk _]]; [done|]. intros d. apply Hcov, Hk, elem_of_dimension_indices.
  - intros Hk. right. split; [intros d _; by apply Hcov|].
    intros d []. apply elem_of_dimension_indices.
Qed.

(** Coverage is a product: it contains every scope whose values come from covered scopes. *)
Lemma computeWSACoverage_product r v k :
  (∀ d, ∃ k', k' ∈ computeWSACoverage r v ∧ dim_get d k' = dim_get d k) →
  k ∈ computeWSACoverage r v.
Proof.
  intros Hk. apply computeWSACoverage_elem. intros d.
  destruct (Hk d) as (k' & Hk' & <-). by apply computeWSACoverage_elem.
Qed.
End coverage.

Lemma computeWSACoverage_order (O1 O2 : RangeOrder) r v :
  @computeWSACoverage O1 r v = @computeWSACoverage O2 r v.
Proof. apply set_eq. intros k. by rewrite !computeWSACoverage_elem. Qed.

Lemma GetKnownScopeCombination_get v s d :
  dim_get d (GetKnownScopeCombination v s) =
  if decide (dim_get d s ∈ dim_get d v) then dim_get d s else WildcardValue.
Proof. by destruct d. Qed.

Lemma scope_matches_spec r s :
  scope_matches r s ↔
  ∀ d, match dim_get d (GetScope r) with [] => True | values => dim_get d s ∈ values end.
Proof.
  unfold scope_matches. rewrite forallb_True, Forall_forall. split.
  - intros Hall d. specialize (Hall d (elem_of_dimension_indices d)).
    destruct (dim_get d (GetScope r)); [done|]. by apply bool_decide_spec in Hall.
  - intros Hall d _. specialize (Hall d). destruct (dim_get d (GetScope r)); [done|].
    by apply bool_decide_spec.
Qed.

(** A deployment is looked up under its known scope, and the known scope is covered by exactly the
    resources that apply to the deployment. *)
Lemma known_scope_covered `{RangeOrder} R r s :
  wildcard_free R → r ∈ R →
  GetKnownScopeCombination (buildGlobalVocabulary R) s ∈
    computeWSACoverage r (buildGlobalVocabulary R) ↔ scope_matches r s.
Proof.
  intros Hwf Hr. rewrite computeWSACoverage_elem, scope_matches_spec.
  unfold covers_value. apply forall_proper. intros d.
  rewrite GetKnownScopeCombination_get.
  specialize (Hwf r d Hr).
  assert (∀ x, x ∈ dim_get d (GetScope r) → x ∈ dim_get d (buildGlobalVocabulary R)) as Hsub.
  { intros x Hx. apply buildGlobalVocabulary_elem. eauto. }
  destruct (dim_get d (GetScope r)) as [|y l]; case_decide; naive_solver.
Qed.

(** ** Intersections and the scope map *)

Section mapping.
Context `{RangeOrder}.

(** Visiting one coverage set adds the index to the entry of each of its scopes. *)
Lemma index_scopes_lookup (idx : nat) (scopes : list Scope) (m : gmap Scope (gset nat)) s i :
  i ∈ default ∅ (foldl (λ m scope, <[scope := {[idx]} ∪ default ∅ (m !! scope)]> m) m scopes !! s) ↔
  i ∈ default ∅ (m !! s) ∨ (i = idx ∧ s ∈ scopes).
Proof.
  revert m. induction scopes as [|s0 scopes IH]; intros m; cbn [foldl].
  { rewrite elem_of_nil. tauto. }
  rewrite IH, elem_of_cons, lookup_insert. case_decide; subst; simpl.
  - rewrite elem_of_union, elem_of_singleton. tauto.
  - assert (s ≠ s0) by done. tauto.
Qed.

Lemma index_scopes_nonempty idx (scopes : list Scope) (m : gmap Scope (gset nat)) :
  map_Forall (λ _ ixs, ixs ≠ ∅) m →
  map_Forall (λ _ ixs, ixs ≠ ∅)
    (foldl (λ m scope, <[scope := {[idx]} ∪ default ∅ (m !! scope)]> m) m scopes).
Proof.
  revert m. induction scopes as [|s0 scopes IH]; intros m Hm; cbn [foldl]; [done|].
  apply IH, map_Forall_insert_2; [|done]. set_solver.
Qed.

Definition scope_indices (cs : list (gset Scope)) (s : Scope) : gset nat :=
  default ∅ (findScopeIntersections cs !! s).

Lemma findScopeIntersections_gen (ps : list (nat * gset Scope)) (m : gmap Scope (gset nat)) s i :
  i ∈ default ∅ (foldl (λ m '(idx, c),
      foldl (λ m scope, <[scope := {[idx]} ∪ default ∅ (m !! scope)]> m)
        m (range_set "findScopeIntersections" c)) m ps !! s) ↔
  i ∈ default ∅ (m !! s) ∨ ∃ c, (i, c) ∈ ps ∧ s ∈ c.
Proof.
  revert m. induction ps as [|[idx c] ps IH]; intros m; cbn [foldl].
  { split; [by left|]. intros [?|(?&?%elem_of_nil&_)]; done. }
  rewrite IH, index_scopes_lookup, elem_of_range_set. split.
  - intros [[?|[-> ?]]|(c'&?&?)]; [by left|right..].
    + exists c. split; [apply list_elem_of_here|done].
    + exists c'. split; [by apply list_elem_of_further|done].
  - intros [?|(c'&[[= -> ->]|?]%elem_of_cons&?)]; eauto 10.
Qed.

(** The indices recorded for a scope are those of the coverage sets that contain it. *)
Lemma findScopeIntersections_index cs s i :
  i ∈ scope_indices cs s ↔ ∃ c, cs !! i = Some c ∧ s ∈ c.
Proof.
  unfold scope_indices, findScopeIntersections. rewrite findScopeIntersections_gen, lookup_empty.
  split.
  - intros [?%elem_of_empty|(c & Hc & ?)]; [done|].
    apply elem_of_lookup_imap in Hc as (j & c' & [= -> ->] & ?). eauto.
  - intros (c & ? & ?). right. exists c. split; [|done]. apply elem_of_lookup_imap. eauto.
Qed.

Lemma findScopeIntersections_nonempty cs : map_Forall (λ _ ixs, ixs ≠ ∅) (findScopeIntersections cs).
Proof.
  unfold findScopeIntersections. generalize (imap pair cs). intros ps.
  assert (∀ m : gmap Scope (gset nat), map_Forall (λ _ ixs, ixs ≠ ∅) m → map_Forall (λ _ ixs, ixs ≠ ∅)
    (foldl (λ m '(idx, c), foldl (λ m scope, <[scope := {[idx]} ∪ default ∅ (m !! scope)]> m)
        m (range_set "findScopeIntersections" c)) m ps)) as Hgen.
  { induction ps as [|[idx c] ps IH]; intros m Hm; [done|]. by apply IH, index_scopes_nonempty. }
  apply Hgen, map_Forall_empty.
Qed.

(** ** Maps denoted by lists of resources *)

Lemma wsa_map_lookup R k r :
  keys_distinct R → wsa_map R !! k = Some r ↔ r ∈ R ∧ GetNamespacedName r = k.
Proof.
  intros HR. unfold wsa_map. rewrite foldl_insert_lookup_nodup by done. naive_solver.
Qed.

Lemma keys_distinct_eq R r r' :
  keys_distinct R → r ∈ R → r' ∈ R → GetNamespacedName r = GetNamespacedName r' → r = r'.
Proof. apply NoDup_fmap_eq. Qed.

Lemma keys_distinct_NoDup R : keys_distinct R → NoDup R.
Proof. apply NoDup_fmap_1. Qed.

Lemma keys_distinct_sublist R R' : sublist R' R → keys_distinct R → keys_distinct R'.
Proof. unfold keys_distinct. intros Hs HR. eapply sublist_NoDup; [exact HR|]. by apply fmap_sublist. Qed.

Lemma keys_distinct_filter (P : WSAResource → Prop) `{!∀ r, Decision (P r)} R :
  keys_distinct R → keys_distinct (filter P R).
Proof. apply keys_distinct_sublist, sublist_filter. Qed.

#[export] Instance keys_distinct_proper : Proper ((≡ₚ) ==> iff) keys_distinct.
Proof. intros R R' HR. unfold keys_distinct. by rewrite HR. Qed.

Lemma wsa_map_ext R R' :
  keys_distinct R → keys_distinct R' → (∀ r, r ∈ R ↔ r ∈ R') → wsa_map R = wsa_map R'.
Proof.
  intros HR HR' Heq. apply map_eq. intros k. apply option_eq. intros r.
  by rewrite !wsa_map_lookup, Heq.
Qed.

Lemma foldl_lookup_omap {M} (f : M → WSAResource → M) (R : list WSAResource) (ixs : list nat) (m : M) :
  foldl (λ m i, match R !! i with Some r => f m r | None => m end) m ixs =
  foldl f m (omap (R !!.) ixs).
Proof. revert m. induction ixs as [|i ixs IH]; intros m; [done|]. simpl. rewrite IH. by destruct (R !! i). Qed.

Lemma keys_distinct_omap R (ixs : list nat) :
  NoDup ixs → keys_distinct R → keys_distinct (omap (R !!.) ixs).
Proof.
  unfold keys_distinct. intros Hnd HR. induction ixs as [|i ixs IH]; [constructor|].
  apply NoDup_cons in Hnd as [Hi Hnd]. simpl. destruct (R !! i) as [r|] eqn:Hr; [|by apply IH].
  rewrite fmap_cons. apply NoDup_cons. split; [|by apply IH].
  intros (r' & Hk & (j & Hj & Hr')%list_elem_of_omap)%list_elem_of_fmap.
  apply Hi. assert (i = j) as ->; [|done].
  eapply (NoDup_lookup (GetNamespacedName <$> R)); [done|rewrite list_lookup_fmap, Hr; done|].
  rewrite list_lookup_fmap, Hr'. simpl. by rewrite Hk.
Qed.

(** The inner loop stores the resources of the indices. *)
Lemma wsaMap_of_indices R (ixs : gset nat) R' site :
  keys_distinct R → keys_distinct R' →
  (∀ r, r ∈ R' ↔ ∃ i, i ∈ ixs ∧ R !! i = Some r) →
  foldl (λ m i, match R !! i with Some r => <[GetNamespacedName r := r]> m | None => m end)
    ∅ (range_set site ixs) = wsa_map R'.
Proof.
  intros HR HR' Heq. rewrite (foldl_lookup_omap (λ m r, <[GetNamespacedName r := r]> m)).
  apply wsa_map_ext; [by apply keys_distinct_omap; [apply NoDup_range_set|]|done|].
  intros r. rewrite list_elem_of_omap, Heq. by setoid_rewrite elem_of_range_set.
Qed.
End mapping.

#[export] Hint Resolve keys_distinct_NoDup keys_distinct_filter : opc.

Section scope_map.
Context `{RangeOrder}.

Lemma elem_of_covering v k R r : r ∈ covering v k R ↔ r ∈ R ∧ k ∈ computeWSACoverage r v.
Proof. unfold covering. rewrite list_elem_of_filter. tauto. Qed.

Lemma covering_indices v k R r :
  r ∈ covering v k R ↔
  ∃ i, i ∈ scope_indices ((λ w, computeWSACoverage w v) <$> R) k ∧ R !! i = Some r.
Proof.
  rewrite elem_of_covering. setoid_rewrite findScopeIntersections_index.
  setoid_rewrite list_lookup_fmap_Some. split.
  - intros [[i Hi]%list_elem_of_lookup Hk]. eauto 10.
  - intros (i & (c & (r' & -> & ?) & ?) & ?). simplify_eq. split; [|done].
    by eapply list_elem_of_lookup_2.
Qed.

Lemma scope_indices_covering v k R ixs :
  findScopeIntersections ((λ w, computeWSACoverage w v) <$> R) !! k = Some ixs →
  covering v k R ≠ [] ∧ size ixs ≠ 0 ∧ (∀ r, r ∈ covering v k R ↔ ∃ i, i ∈ ixs ∧ R !! i = Some r).
Proof.
  intros Hk. assert (scope_indices ((λ w, computeWSACoverage w v) <$> R) k = ixs) as Heq.
  { unfold scope_indices. by rewrite Hk. }
  assert (ixs ≠ ∅) as Hne by by eapply findScopeIntersections_nonempty.
  split_and!.
  - apply set_choose_L in Hne as [i Hi]. rewrite <-Heq in Hi.
    pose proof Hi as (c & Hc & ?)%findScopeIntersections_index.
    apply list_lookup_fmap_Some in Hc as (r & -> & Hr).
    intros Hnil. apply (not_elem_of_nil r). rewrite <-Hnil, covering_indices. eauto.
  - rewrite size_empty_iff. by intros ->%leibniz_equiv.
  - intros r. by rewrite covering_indices, Heq.
Qed.

(** The generated map sends a scope to the resources that cover it, and has no entry for a scope
    nobody covers. *)
Lemma computeMinimalServiceAccountScopes_lookup R v k :
  keys_distinct R →
  computeMinimalServiceAccountScopes R v !! k =
    match covering v k R with [] => None | rs => Some (wsa_map rs) end.
Proof.
  intros HR. destruct R as [|r0 R0]; [done|]. unfold computeMinimalServiceAccountScopes.
  set (R := r0 :: R0) in *. clearbody R.
  set (m := findScopeIntersections _). unfold buildScopeToWSAMapping.
  assert (∀ s ixs, m !! s = Some ixs → size ixs ≠ 0 ∧ foldl (λ m i, match R !! i with
      Some r => <[GetNamespacedName r := r]> m | None => m end) ∅
      (range_set "buildScopeToWSAMapping.indices" ixs) = wsa_map (covering v s R)) as Hin.
  { intros s ixs Hs. apply scope_indices_covering in Hs as (_ & ? & ?). split; [done|].
    by apply wsaMap_of_indices; [|apply keys_distinct_filter|]. }
  assert (∀ l (acc : gmap Scope (gmap NamespacedName WSAResource)), (∀ s ixs, (s, ixs) ∈ l → m !! s = Some ixs) →
    foldl (λ result '(scope, wsaIndices), if decide (0 < size wsaIndices) then
        <[scope := foldl (λ m i, match R !! i with
          Some r => <[GetNamespacedName r := r]> m | None => m end) ∅
          (range_set "buildScopeToWSAMapping.indices" wsaIndices)]> result else result) acc l =
    foldl (λ result p, <[p.1 := wsa_map (covering v p.1 R)]> result) acc l) as Hfold.
  { induction l as [|[s ixs] l IH]; intros acc Hl; [done|]. cbn [foldl].
    destruct (Hin s ixs) as [? ->]; [apply Hl, list_elem_of_here|].
    rewrite decide_True by lia. apply IH. intros s' ixs' ?. by apply Hl, list_elem_of_further. }
  rewrite Hfold by (intros s ixs ?; by eapply elem_of_range_map). clear Hfold.
  apply option_eq. intros wm.
  rewrite (foldl_insert_lookup_nodup fst) by apply NoDup_fst_range_map. split.
  - intros ([s ixs] & Hl%elem_of_range_map & <- & <-). simpl.
    apply scope_indices_covering in Hl as (? & _ & _). by destruct (covering v s R).
  - intros Hwm. destruct (m !! k) as [ixs|] eqn:Hk.
    + exists (k, ixs). rewrite elem_of_range_map. simpl. split_and!; [done..|].
      apply scope_indices_covering in Hk as (? & _ & _). destruct (covering v k R); [done|congruence].
    + exfalso. destruct (covering v k R) as [|r rs] eqn:Hc; [done|].
      assert (r ∈ covering v k R) as Hr by (rewrite Hc; apply list_elem_of_here).
      apply covering_indices in Hr as (i & Hi & _). unfold scope_indices in Hi.
      fold m in Hi. rewrite Hk in Hi. by apply elem_of_empty in Hi.
Qed.
End scope_map.
