(* ===== verification/ServiceAccounts.v ===== *)
(** * From scopes to service accounts

    The second half of src/internal/rules/generator.go: scopes covered by the same set of resources
    form a group, each group gets one service account named after the values of its scopes, and the
    three maps the engine, the webhook and the execution stage use are filled group by group. *)

From Stdlib Require Import Ascii NArith.
From S2P Require Import Prelude GoLib Api Scopes.

(** [GroupedDimensions]: the slices [Projects] .. [Spaces]. *)
Abbreviation GroupedDimensions := (Dims (list string)).

(** ** Names, labels and annotations *)

Definition MetadataNamespace : string := "agent.octopus.com".
Definition PermissionsKey : string := MetadataNamespace +:+ "/permissions".
Definition ProjectKey : string := MetadataNamespace +:+ "/project".
Definition ProjectGroupKey : string := MetadataNamespace +:+ "/project-group".
Definition EnvironmentKey : string := MetadataNamespace +:+ "/environment".
Definition TenantKey : string := MetadataNamespace +:+ "/tenant".
Definition StepKey : string := MetadataNamespace +:+ "/step".
Definition SpaceKey : string := MetadataNamespace +:+ "/space".
Definition ManagedByLabel : string := "app.kubernetes.io/managed-by".
Definition ManagedByValue : string := "octopus-permissions-controller".

Definition shortHash (value : string) : string :=
  let hash := Sha256.Sum256 (bytes_of_string value) in
  str_prefix 32 (hex_of_bytes hash).

Definition IsOctopusManaged (labels : option (gmap string string)) : bool :=
  match labels with
  | None => false
  | Some labels =>
      match labels !! ManagedByLabel with
      | Some managedBy => bool_decide (managedBy = ManagedByValue)
      | None => false
      end
  end.

(** [if len(values) > 0 { parts = append(parts, prefix + strings.Join(values, "+")) }] *)
Definition append_part (prefix : string) (values : list string) (parts : list string) : list string :=
  match values with
  | [] => parts
  | _ => parts ++ [prefix +:+ strings_Join values "+"]
  end.

Definition scope_parts (grouped : GroupedDimensions) : list string :=
  let parts := append_part "spaces:" (Space grouped) [] in
  let parts := append_part "projects:" (Project grouped) parts in
  let parts := append_part "projectgroups:" (ProjectGroup grouped) parts in
  let parts := append_part "environments:" (Environment grouped) parts in
  let parts := append_part "tenants:" (Tenant grouped) parts in
  append_part "steps:" (Step grouped) parts.

(** The string the name is the hash of. *)
Definition scope_string (grouped : GroupedDimensions) : string :=
  let parts := scope_parts grouped in
  let parts := match parts with [] => ["wildcard"] | _ => parts end in
  strings_Join parts "|".

Definition generateGroupedServiceAccountName (grouped : GroupedDimensions) : string :=
  let hash := shortHash (scope_string grouped) in
  "octopus-sa-" +:+ hash.

Definition set_if_nonempty (f : string → string) (key : string) (values : list string)
    (m : gmap string string) : gmap string string :=
  match values with [] => m | _ => <[key := f (strings_Join values "+")]> m end.

Definition generateServiceAccountLabelsFromGrouped (grouped : GroupedDimensions) : gmap string string :=
  let labels := {[ManagedByLabel := ManagedByValue]} in
  let labels := set_if_nonempty shortHash ProjectKey (Project grouped) labels in
  let labels := set_if_nonempty shortHash ProjectGroupKey (ProjectGroup grouped) labels in
  let labels := set_if_nonempty shortHash EnvironmentKey (Environment grouped) labels in
  let labels := set_if_nonempty shortHash TenantKey (Tenant grouped) labels in
  let labels := set_if_nonempty shortHash StepKey (Step grouped) labels in
  set_if_nonempty shortHash SpaceKey (Space grouped) labels.

Definition generateAnnotationsFromGrouped (grouped : GroupedDimensions) : gmap string string :=
  let annotations := ∅ in
  let annotations := set_if_nonempty id ProjectKey (Project grouped) annotations in
  let annotations := set_if_nonempty id ProjectGroupKey (ProjectGroup grouped) annotations in
  let annotations := set_if_nonempty id EnvironmentKey (Environment grouped) annotations in
  let annotations := set_if_nonempty id TenantKey (Tenant grouped) annotations in
  let annotations := set_if_nonempty id StepKey (Step grouped) annotations in
  set_if_nonempty id SpaceKey (Space grouped) annotations.

Definition generateServiceAccountFromGrouped (name : string) (grouped : GroupedDimensions) :
    ServiceAccount := {|
  sa_Name := name;
  sa_Namespace := "";
  sa_UID := "";
  sa_Labels := Some (generateServiceAccountLabelsFromGrouped grouped);
  sa_Annotations := generateAnnotationsFromGrouped grouped
|}.

(** ** Grouping *)

Definition key_le `{ThirdParty} (a b : NamespacedName) : Prop :=
  String.le (NamespacedName_String a) (NamespacedName_String b).

#[export] Instance key_le_dec `{ThirdParty} a b : Decision (key_le a b).
Proof. unfold key_le. apply _. Defined.

(** The four results of [GenerateServiceAccountMappings]; during its loop the last two are a map of
    sets and a map of service accounts. *)
Record Mappings := mkMappings {
  scopeToServiceAccount : gmap Scope string;
  serviceAccountToWSAs : gmap string (gmap NamespacedName WSAResource);
  wsaToServiceAccountNames : gmap NamespacedName (list string);
  serviceAccountsToCreate : list ServiceAccount
}.

Record MappingState := mkMappingState {
  st_scopeToServiceAccount : gmap Scope string;
  st_serviceAccountToWSAs : gmap string (gmap NamespacedName WSAResource);
  st_uniqueServiceAccounts : gmap string ServiceAccount;
  st_wsaToServiceAccountNamesSet : gmap NamespacedName (gset string)
}.

Section service_accounts.
Context `{RangeOrder} `{ThirdParty}.

(** The canonical key of a set of resources. *)
Definition wsaSetKey (wsaMap : gmap NamespacedName WSAResource) : string :=
  let wsaKeys := fst <$> range_map "maps.Keys(wsaMap)" wsaMap in
  let wsaKeys := merge_sort key_le wsaKeys in
  let keyStrings := NamespacedName_String <$> wsaKeys in
  strings_Join keyStrings ",".

Definition groupScopesByWSASet (scopeMap : gmap Scope (gmap NamespacedName WSAResource)) :
    gmap string (list Scope) :=
  foldl (λ wsaSetToScopes '(scope, wsaMap),
    let wsaSetKey := wsaSetKey wsaMap in
    <[wsaSetKey := default [] (wsaSetToScopes !! wsaSetKey) ++ [scope]]> wsaSetToScopes)
    ∅ (range_map "groupScopesByWSASet" scopeMap).

(** [if v != "" && v != WildcardValue { values.Insert(v) }] *)
Definition insert_value (v : string) (values : gset string) : gset string :=
  if decide (v ≠ "" ∧ v ≠ WildcardValue) then {[v]} ∪ values else values.

Definition collectDimensionValues (scopes : list Scope) : GroupedDimensions :=
  let sets :=
    foldl (λ sets scope, {|
      Project := insert_value (Project scope) (Project sets);
      ProjectGroup := insert_value (ProjectGroup scope) (ProjectGroup sets);
      Environment := insert_value (Environment scope) (Environment sets);
      Tenant := insert_value (Tenant scope) (Tenant sets);
      Step := insert_value (Step scope) (Step sets);
      Space := insert_value (Space scope) (Space sets)
    |}) (mkDims ∅ ∅ ∅ ∅ ∅ ∅) scopes in
  {|
    Project := slices_Sort (range_set "projects.Slice" (Project sets));
    ProjectGroup := slices_Sort (range_set "projectGroups.Slice" (ProjectGroup sets));
    Environment := slices_Sort (range_set "environments.Slice" (Environment sets));
    Tenant := slices_Sort (range_set "tenants.Slice" (Tenant sets));
    Step := slices_Sort (range_set "steps.Slice" (Step sets));
    Space := slices_Sort (range_set "spaces.Slice" (Space sets))
  |}.

(** One iteration of the loop over the groups.  [scopes[0]] panics on an empty group and a missing
    map entry is Go's nil map; [groupScopesByWSASet_lookup] shows that groups are not empty and
    that their scopes come from the map. *)
Definition map_group (scopeMap : gmap Scope (gmap NamespacedName WSAResource))
    (st : MappingState) (scopes : list Scope) : MappingState :=
  let grouped := collectDimensionValues scopes in
  let serviceAccountName := generateGroupedServiceAccountName grouped in
  let wsaMap := match scopes with
                | scope0 :: _ => default ∅ (scopeMap !! scope0)
                | [] => ∅
                end in
  {|
    st_scopeToServiceAccount :=
      foldl (λ m scope, <[scope := serviceAccountName]> m) (st_scopeToServiceAccount st) scopes;
    st_uniqueServiceAccounts :=
      <[serviceAccountName := generateServiceAccountFromGrouped serviceAccountName grouped]>
        (st_uniqueServiceAccounts st);
    st_serviceAccountToWSAs := <[serviceAccountName := wsaMap]> (st_serviceAccountToWSAs st);
    st_wsaToServiceAccountNamesSet :=
      foldl (λ m '(wsaName, _),
        match m !! wsaName with
        | Some wsaSet => <[wsaName := {[serviceAccountName]} ∪ wsaSet]> m
        | None => <[wsaName := {[serviceAccountName]}]> m
        end) (st_wsaToServiceAccountNamesSet st) (range_map "wsaMap" wsaMap)
  |}.

Definition map_groups (scopeMap : gmap Scope (gmap NamespacedName WSAResource)) : MappingState :=
  foldl (λ st '(_, scopes), map_group scopeMap st scopes) (mkMappingState ∅ ∅ ∅ ∅)
    (range_map "wsaSetToScopes" (groupScopesByWSASet scopeMap)).

Definition GenerateServiceAccountMappings
    (scopeMap : gmap Scope (gmap NamespacedName WSAResource)) : Mappings :=
  let st := map_groups scopeMap in
  {|
    scopeToServiceAccount := st_scopeToServiceAccount st;
    serviceAccountToWSAs := st_serviceAccountToWSAs st;
    wsaToServiceAccountNames :=
      (λ wsaSet, range_set "wsaSet.Slice" wsaSet) <$> st_wsaToServiceAccountNamesSet st;
    serviceAccountsToCreate := snd <$> range_map "uniqueServiceAccounts" (st_uniqueServiceAccounts st)
  |}.
End service_accounts.

(** ** The key of a set of resources *)

Section keys.
Context `{RangeOrder} `{ThirdParty}.

#[export] Instance key_le_total : Total key_le.
Proof. intros a b. apply (total String.le). Qed.

#[export] Instance key_le_trans : Transitive key_le.
Proof. intros a b c. apply (transitivity (R := String.le)). Qed.

Lemma sort_keys_strings (l : list NamespacedName) :
  NamespacedName_String <$> merge_sort key_le l = slices_Sort (NamespacedName_String <$> l).
Proof.
  apply (StronglySorted_unique String.le).
  - apply (StronglySorted_fmap _ key_le String.le).
    + by intros x y.
    + apply StronglySorted_merge_sort; apply _.
  - apply StronglySorted_merge_sort; apply _.
  - by rewrite slices_Sort_perm, merge_sort_Permutation.
Qed.

Definition key_strings (wm : gmap NamespacedName WSAResource) : list string :=
  slices_Sort (NamespacedName_String <$> (map_to_list wm).*1).

(** The key does not depend on the iteration order. *)
Lemma wsaSetKey_canonical wm : wsaSetKey wm = strings_Join (key_strings wm) ",".
Proof.
  unfold wsaSetKey, key_strings. rewrite sort_keys_strings. f_equal.
  apply slices_Sort_proper. by rewrite range_map_perm.
Qed.

(** Resources with admissible names are identified by the key. *)
Lemma wsaSetKey_inj `{!ThirdPartyLaws} wm wm' :
  wm ≠ ∅ → wm' ≠ ∅ →
  map_Forall (λ k _, k8s_key_ok k) wm → map_Forall (λ k _, k8s_key_ok k) wm' →
  wsaSetKey wm = wsaSetKey wm' → dom wm = dom wm'.
Proof.
  intros Hne Hne' Hok Hok'. rewrite !wsaSetKey_canonical. unfold key_strings.
  assert (∀ m : gmap NamespacedName WSAResource, map_Forall (λ k _, k8s_key_ok k) m →
    Forall (λ s, str_free ","%char s)
      (slices_Sort (NamespacedName_String <$> (map_to_list m).*1))) as Hfree.
  { intros m Hm. rewrite slices_Sort_perm, !Forall_fmap, Forall_forall.
    intros [k r] ?%elem_of_map_to_list. by eapply NamespacedName_String_free, Hm. }
  assert (∀ m : gmap NamespacedName WSAResource, m ≠ ∅ →
    slices_Sort (NamespacedName_String <$> (map_to_list m).*1) ≠ []) as Hnil.
  { intros m Hm Heq. apply Hm. apply map_to_list_empty_iff.
    apply (f_equal length) in Heq. rewrite slices_Sort_perm, !length_fmap in Heq.
    by apply nil_length_inv. }
  intros Heq%strings_Join_inj; [|by auto..].
  assert (NamespacedName_String <$> (map_to_list wm).*1 ≡ₚ NamespacedName_String <$> (map_to_list wm').*1)
    as Hperm by by rewrite <-slices_Sort_perm, Heq, slices_Sort_perm.
  assert (∀ m m' : gmap NamespacedName WSAResource,
    map_Forall (λ k _, k8s_key_ok k) m → map_Forall (λ k _, k8s_key_ok k) m' →
    NamespacedName_String <$> (map_to_list m).*1 ≡ₚ NamespacedName_String <$> (map_to_list m').*1 →
    dom m ⊆ dom m') as Hsub.
  { intros m m' Hm Hm' Hp k [r Hr]%elem_of_dom.
    assert (NamespacedName_String k ∈ NamespacedName_String <$> (map_to_list m').*1) as Hin.
    { rewrite <-Hp. apply list_elem_of_fmap_2, (list_elem_of_fmap_2' fst _ (k, r)); [|done].
      by apply elem_of_map_to_list. }
    apply list_elem_of_fmap in Hin as (k' & Heqk & ([k'' r'] & -> & Hr'%elem_of_map_to_list)%list_elem_of_fmap).
    apply NamespacedName_String_inj in Heqk as ->; [|by eapply Hm|by eapply Hm'].
    by apply elem_of_dom_2 in Hr'. }
  apply set_eq. intros k. split; apply Hsub; auto. by symmetry.
Qed.
End keys.

(** ** Groups *)

Section groups.
Context `{RangeOrder} `{ThirdParty}.
Implicit Types (sm : gmap Scope (gmap NamespacedName WSAResource)) (scopes : list Scope).

Definition group_step (m : gmap string (list Scope)) (p : Scope * gmap NamespacedName WSAResource) :
    gmap string (list Scope) :=
  <[wsaSetKey p.2 := default [] (m !! wsaSetKey p.2) ++ [p.1]]> m.

Lemma groupScopesByWSASet_foldl sm :
  groupScopesByWSASet sm = foldl group_step ∅ (range_map "groupScopesByWSASet" sm).
Proof.
  unfold groupScopesByWSASet. generalize (range_map "groupScopesByWSASet" sm). intros l.
  generalize (∅ : gmap string (list Scope)). induction l as [|[s wm] l IH]; intros m; [done|].
  cbn [foldl]. by rewrite IH.
Qed.

Lemma group_step_lookup l m gk :
  foldl group_step m l !! gk =
  match fst <$> filter (λ p, wsaSetKey p.2 = gk) l with
  | [] => m !! gk
  | ss => Some (default [] (m !! gk) ++ ss)
  end.
Proof.
  revert m. induction l as [|[s wm] l IH]; intros m; [done|]. cbn [foldl].
  rewrite IH, filter_cons. unfold group_step. cbn [fst snd].
  destruct (decide (wsaSetKey wm = gk)) as [<-|Hne].
  - rewrite lookup_insert_eq. rewrite fmap_cons.
    destruct (fst <$> _) as [|s' ss]; [done|]. simpl. by rewrite <-app_assoc.
  - by rewrite lookup_insert_ne.
Qed.

Lemma groupScopesByWSASet_lookup sm gk scopes :
  groupScopesByWSASet sm !! gk = Some scopes →
  scopes ≠ [] ∧ NoDup scopes ∧ ∀ k, k ∈ scopes ↔ ∃ wm, sm !! k = Some wm ∧ wsaSetKey wm = gk.
Proof.
  rewrite groupScopesByWSASet_foldl, group_step_lookup, lookup_empty.
  assert (∀ k, k ∈ fst <$> filter (λ p, wsaSetKey p.2 = gk) (range_map "groupScopesByWSASet" sm) ↔
    ∃ wm, sm !! k = Some wm ∧ wsaSetKey wm = gk) as Hin.
  { intros k. rewrite list_elem_of_fmap. setoid_rewrite list_elem_of_filter. split.
    - intros ([s wm] & -> & Hkey & Hwm%elem_of_range_map). eauto.
    - intros (wm & Hwm & Hkey). exists (k, wm). by rewrite elem_of_range_map. }
  assert (NoDup (fst <$> filter (λ p, wsaSetKey p.2 = gk) (range_map "groupScopesByWSASet" sm))) as Hnd.
  { eapply sublist_NoDup; [apply (NoDup_fst_range_map "groupScopesByWSASet" sm)|].
    apply fmap_sublist, sublist_filter. }
  destruct (fst <$> _) as [|s ss]; [done|]. simpl. by intros [= <-].
Qed.

Lemma groupScopesByWSASet_covers sm k wm :
  sm !! k = Some wm →
  ∃ scopes, groupScopesByWSASet sm !! wsaSetKey wm = Some scopes ∧ k ∈ scopes.
Proof.
  intros Hk. destruct (groupScopesByWSASet sm !! wsaSetKey wm) as [scopes|] eqn:Hg.
  - exists scopes. split; [done|]. apply groupScopesByWSASet_lookup in Hg as (_ & _ & Hin).
    apply Hin. eauto.
  - exfalso. rewrite groupScopesByWSASet_foldl, group_step_lookup, lookup_empty in Hg.
    destruct (fst <$> _) as [|s ss] eqn:Hl; [|done].
    apply (not_elem_of_nil k). rewrite <-Hl. apply list_elem_of_fmap. exists (k, wm).
    by rewrite list_elem_of_filter, elem_of_range_map.
Qed.
End groups.

(** ** The values of a group *)

(** The values the name of a group records in dimension [d]. *)
Definition named_value (scopes : list Scope) (d : DimensionIndex) (x : string) : Prop :=
  x ≠ "" ∧ x ≠ WildcardValue ∧ ∃ s, s ∈ scopes ∧ dim_get d s = x.

Section collect.
Context `{RangeOrder}.

Lemma insert_value_elem v (values : gset string) x :
  x ∈ insert_value v values ↔ x ∈ values ∨ (x = v ∧ v ≠ "" ∧ v ≠ WildcardValue).
Proof.
  unfold insert_value. case_decide as Hv; [|tauto].
  rewrite elem_of_union, elem_of_singleton. tauto.
Qed.

Lemma collectDimensionValues_elem scopes d x :
  x ∈ dim_get d (collectDimensionValues scopes) ↔ named_value scopes d x.
Proof.
  unfold collectDimensionValues, named_value. cbv zeta.
  match goal with |- context [foldl ?f ?i scopes] => set (step := f); set (init := i) end.
  assert (∀ sets, x ∈ dim_get d (foldl step sets scopes) ↔ x ∈ dim_get d sets ∨
    (x ≠ "" ∧ x ≠ WildcardValue ∧ ∃ s, s ∈ scopes ∧ dim_get d s = x)) as Hgen.
  { induction scopes as [|s scopes IH]; intros sets; cbn [foldl].
    { split; [by left|]. intros [?|(_&_&?&?%elem_of_nil&_)]; done. }
    rewrite IH. assert (x ∈ dim_get d (step sets s) ↔ x ∈ dim_get d sets ∨
      (x = dim_get d s ∧ dim_get d s ≠ "" ∧ dim_get d s ≠ WildcardValue)) as ->.
    { destruct d; apply insert_value_elem. }
    setoid_rewrite elem_of_cons. split.
    - intros [[?|(-> & ? & ?)]|(? & ? & s' & ? & ?)]; eauto 10.
    - intros [?|(? & ? & s' & [->|?] & <-)]; eauto 10. }
  specialize (Hgen init). assert (x ∉ dim_get d init) as Hinit by by destruct d; apply not_elem_of_empty.
  transitivity (x ∈ dim_get d (foldl step init scopes)); [|tauto].
  destruct d; cbn [dim_get Project ProjectGroup Environment Tenant Step Space];
    by rewrite slices_Sort_perm, elem_of_range_set.
Qed.

Lemma collectDimensionValues_sorted scopes d :
  ∃ s : gset string, dim_get d (collectDimensionValues scopes) = slices_Sort (elements s).
Proof.
  unfold collectDimensionValues. cbv zeta.
  destruct d; cbn [dim_get Project ProjectGroup Environment Tenant Step Space];
    eexists; apply slices_Sort_proper, range_set_perm.
Qed.
End collect.

(** The values only depend on which scopes the group has, not on their order nor on the iteration
    order of the sets. *)
Lemma collectDimensionValues_ext (O1 O2 : RangeOrder) l1 l2 :
  (∀ d x, named_value l1 d x ↔ named_value l2 d x) →
  @collectDimensionValues O1 l1 = @collectDimensionValues O2 l2.
Proof.
  intros Hl. apply dims_ext. intros d.
  destruct (@collectDimensionValues_sorted O1 l1 d) as [s1 Hs1].
  destruct (@collectDimensionValues_sorted O2 l2 d) as [s2 Hs2].
  assert (s1 = s2) as ->; [|by rewrite Hs1, Hs2].
  apply set_eq. intros x. rewrite <-!elem_of_elements, <-(slices_Sort_perm (elements s1)),
    <-(slices_Sort_perm (elements s2)), <-Hs1, <-Hs2, !collectDimensionValues_elem. apply Hl.
Qed.

Lemma named_value_ext l1 l2 d x :
  (∀ s, s ∈ l1 ↔ s ∈ l2) → named_value l1 d x ↔ named_value l2 d x.
Proof. intros Hl. unfold named_value. by setoid_rewrite Hl. Qed.

(** ** What the loop over the groups stores *)

Section mappings.
Context `{RangeOrder} `{ThirdParty}.
Implicit Types (sm : gmap Scope (gmap NamespacedName WSAResource)) (scopes : list Scope).

Definition group_name (scopes : list Scope) : string :=
  generateGroupedServiceAccountName (collectDimensionValues scopes).

(** The group [scopes] of the scope map [sm]. *)
Definition is_group sm scopes : Prop := ∃ gk, groupScopesByWSASet sm !! gk = Some scopes.

Definition group_wsas sm scopes : gmap NamespacedName WSAResource :=
  match scopes with s0 :: _ => default ∅ (sm !! s0) | [] => ∅ end.

Definition group_list sm : list (list Scope) :=
  snd <$> range_map "wsaSetToScopes" (groupScopesByWSASet sm).

Lemma elem_of_group_list sm scopes : scopes ∈ group_list sm ↔ is_group sm scopes.
Proof.
  unfold group_list, is_group. rewrite list_elem_of_fmap. split.
  - intros ([gk ss] & -> & Hg%elem_of_range_map). eauto.
  - intros [gk Hg]. exists (gk, scopes). by rewrite elem_of_range_map.
Qed.

Lemma map_groups_foldl sm :
  map_groups sm = foldl (map_group sm) (mkMappingState ∅ ∅ ∅ ∅) (group_list sm).
Proof.
  unfold map_groups, group_list. generalize (mkMappingState ∅ ∅ ∅ ∅).
  induction (range_map "wsaSetToScopes" (groupScopesByWSASet sm)) as [|[gk ss] l IH];
    intros st; [done|]. cbn [foldl fmap list_fmap snd]. by rewrite IH.
Qed.

Lemma st_scopeToServiceAccount_spec sm l st k n :
  st_scopeToServiceAccount (foldl (map_group sm) st l) !! k = Some n →
  (∃ ss, ss ∈ l ∧ k ∈ ss ∧ group_name ss = n) ∨ st_scopeToServiceAccount st !! k = Some n.
Proof.
  revert st. induction l as [|ss l IH]; intros st; [by right|]. cbn [foldl].
  intros [(ss' & ? & ? & ?)|Hk]%IH.
  - left. exists ss'. split_and!; [by apply list_elem_of_further|done..].
  - apply (foldl_insert_lookup_Some id (λ _, group_name ss)) in Hk as [(x & Hx & Heq & <-)|[? _]]; [|by right].
    simpl in Heq. subst. left. exists ss. split_and!; [apply list_elem_of_here|done..].
Qed.

Lemma st_scopeToServiceAccount_is_Some sm l st k :
  is_Some (st_scopeToServiceAccount (foldl (map_group sm) st l) !! k) ↔
  (∃ ss, ss ∈ l ∧ k ∈ ss) ∨ is_Some (st_scopeToServiceAccount st !! k).
Proof.
  revert st. induction l as [|ss l IH]; intros st; cbn [foldl].
  { split; [by right|]. intros [(?&?%elem_of_nil&_)|?]; done. }
  rewrite IH. simpl. rewrite (foldl_insert_lookup_is_Some id (λ _, group_name ss)).
  setoid_rewrite elem_of_cons. split.
  - intros [(ss' & ? & ?)|[?|(x & ? & <-)]]; eauto 10.
  - intros [(ss' & [->|?] & ?)|?]; eauto 10.
Qed.

Lemma st_serviceAccountToWSAs_spec sm l st n :
  (∀ wm, st_serviceAccountToWSAs (foldl (map_group sm) st l) !! n = Some wm →
    (∃ ss, ss ∈ l ∧ group_name ss = n ∧ group_wsas sm ss = wm) ∨
    st_serviceAccountToWSAs st !! n = Some wm) ∧
  (is_Some (st_serviceAccountToWSAs (foldl (map_group sm) st l) !! n) ↔
    (∃ ss, ss ∈ l ∧ group_name ss = n) ∨ is_Some (st_serviceAccountToWSAs st !! n)).
Proof.
  assert (st_serviceAccountToWSAs (foldl (map_group sm) st l) =
    foldl (λ m ss, <[group_name ss := group_wsas sm ss]> m) (st_serviceAccountToWSAs st) l) as ->.
  { revert st. induction l as [|ss l IH]; intros st; [done|]. cbn [foldl]. by rewrite IH. }
  split.
  - intros wm [?|[? _]]%foldl_insert_lookup_Some; eauto.
  - rewrite foldl_insert_lookup_is_Some. tauto.
Qed.

Lemma st_uniqueServiceAccounts_spec sm l st n :
  (∀ sa, st_uniqueServiceAccounts (foldl (map_group sm) st l) !! n = Some sa →
    (∃ ss, ss ∈ l ∧ group_name ss = n ∧
      sa = generateServiceAccountFromGrouped n (collectDimensionValues ss)) ∨
    st_uniqueServiceAccounts st !! n = Some sa) ∧
  (is_Some (st_uniqueServiceAccounts (foldl (map_group sm) st l) !! n) ↔
    (∃ ss, ss ∈ l ∧ group_name ss = n) ∨ is_Some (st_uniqueServiceAccounts st !! n)).
Proof.
  assert (st_uniqueServiceAccounts (foldl (map_group sm) st l) =
    foldl (λ m ss, <[group_name ss :=
      generateServiceAccountFromGrouped (group_name ss) (collectDimensionValues ss)]> m)
      (st_uniqueServiceAccounts st) l) as ->.
  { revert st. induction l as [|ss l IH]; intros st; [done|]. cbn [foldl]. by rewrite IH. }
  split.
  - intros sa [(ss & ? & <- & <-)|[? _]]%foldl_insert_lookup_Some; eauto.
  - rewrite foldl_insert_lookup_is_Some. tauto.
Qed.

Lemma names_step_spec (n : string) (l : list (NamespacedName * WSAResource))
    (m : gmap NamespacedName (gset string)) w x :
  x ∈ default ∅ (foldl (λ m '(wsaName, _), match m !! wsaName with
      | Some wsaSet => <[wsaName := {[n]} ∪ wsaSet]> m
      | None => <[wsaName := {[n]}]> m
      end) m l !! w) ↔
  x ∈ default ∅ (m !! w) ∨ (x = n ∧ w ∈ l.*1).
Proof.
  revert m. induction l as [|[w' r] l IH]; intros m; cbn [foldl].
  { cbn. rewrite elem_of_nil. tauto. }
  rewrite IH, fmap_cons, elem_of_cons. cbn [fst].
  destruct (decide (w = w')) as [->|Hne].
  - destruct (m !! w') as [is0|]; rewrite lookup_insert_eq; simpl;
      rewrite ?elem_of_union, elem_of_singleton, ?elem_of_empty; tauto.
  - destruct (m !! w') as [is0|]; rewrite lookup_insert_ne by done; tauto.
Qed.

Lemma st_names_spec sm l st w x :
  x ∈ default ∅ (st_wsaToServiceAccountNamesSet (foldl (map_group sm) st l) !! w) ↔
  x ∈ default ∅ (st_wsaToServiceAccountNamesSet st !! w) ∨
  ∃ ss, ss ∈ l ∧ group_name ss = x ∧ is_Some (group_wsas sm ss !! w).
Proof.
  revert st. induction l as [|ss l IH]; intros st; cbn [foldl].
  { split; [by left|]. intros [?|(?&?%elem_of_nil&_)]; done. }
  rewrite IH. unfold map_group. cbn [st_wsaToServiceAccountNamesSet].
  rewrite names_step_spec. fold (group_name ss). fold (group_wsas sm ss).
  assert (w ∈ (range_map "wsaMap" (group_wsas sm ss)).*1 ↔ is_Some (group_wsas sm ss !! w)) as ->.
  { rewrite list_elem_of_fmap. split.
    - intros ([w' r] & -> & ?%elem_of_range_map). eauto.
    - intros [r Hr]. exists (w, r). by rewrite elem_of_range_map. }
  setoid_rewrite elem_of_cons. split.
  - intros [[?|[-> ?]]|(ss' & ? & ? & ?)]; eauto 10.
  - intros [?|(ss' & [->|?] & <- & ?)]; eauto 10.
Qed.
End mappings.

(** ** The results of [GenerateServiceAccountMappings] *)

Section results.
Context `{RangeOrder} `{ThirdParty}.
Implicit Types (sm : gmap Scope (gmap NamespacedName WSAResource)) (scopes : list Scope).

Lemma is_group_lookup sm scopes :
  is_group sm scopes →
  scopes ≠ [] ∧ NoDup scopes ∧
  ∃ gk, ∀ k, k ∈ scopes ↔ ∃ wm, sm !! k = Some wm ∧ wsaSetKey wm = gk.
Proof. intros [gk (? & ? & ?)%groupScopesByWSASet_lookup]. eauto. Qed.

Lemma is_group_covers sm k wm :
  sm !! k = Some wm →
  ∃ scopes, is_group sm scopes ∧
    ∀ k', k' ∈ scopes ↔ ∃ wm', sm !! k' = Some wm' ∧ wsaSetKey wm' = wsaSetKey wm.
Proof.
  intros Hk. destruct (groupScopesByWSASet_covers sm k wm Hk) as (ss & Hg & Hin).
  exists ss. split; [by exists (wsaSetKey wm)|]. by apply groupScopesByWSASet_lookup in Hg as (_ & _ & ?).
Qed.

(** A scope lies in one group only. *)
Lemma is_group_unique sm ss ss' k :
  is_group sm ss → is_group sm ss' → k ∈ ss → k ∈ ss' → ss = ss'.
Proof.
  intros [gk Hg] [gk' Hg'].
  pose proof Hg as (_ & _ & Hin)%groupScopesByWSASet_lookup.
  pose proof Hg' as (_ & _ & Hin')%groupScopesByWSASet_lookup.
  rewrite Hin, Hin'. intros (wm & ? & <-) (wm' & ? & <-). naive_solver.
Qed.

Lemma scopeToServiceAccount_spec sm k n :
  scopeToServiceAccount (GenerateServiceAccountMappings sm) !! k = Some n ↔
  ∃ ss, is_group sm ss ∧ k ∈ ss ∧ group_name ss = n.
Proof.
  simpl. rewrite map_groups_foldl. setoid_rewrite <-elem_of_group_list. split.
  - intros [?|Hk]%st_scopeToServiceAccount_spec; [done|by simpl in Hk; rewrite lookup_empty in Hk].
  - intros (ss & Hss & Hk & <-).
    assert (is_Some (st_scopeToServiceAccount
      (foldl (map_group sm) (mkMappingState ∅ ∅ ∅ ∅) (group_list sm)) !! k)) as [n' Hn'].
    { apply st_scopeToServiceAccount_is_Some. eauto. }
    rewrite Hn'. apply st_scopeToServiceAccount_spec in Hn' as [(ss' & Hss' & Hk' & <-)|Hk'];
      [|by simpl in Hk'; rewrite lookup_empty in Hk'].
    apply elem_of_group_list in Hss, Hss'. by rewrite (is_group_unique sm ss ss' k).
Qed.

Lemma scopeToServiceAccount_dom sm k :
  is_Some (scopeToServiceAccount (GenerateServiceAccountMappings sm) !! k) ↔ is_Some (sm !! k).
Proof.
  split.
  - intros [n (ss & Hss & Hk & _)%scopeToServiceAccount_spec].
    apply is_group_lookup in Hss as (_ & _ & gk & Hin). apply Hin in Hk as (wm & ? & _). eauto.
  - intros [wm Hwm]. destruct (is_group_covers sm k wm Hwm) as (ss & Hss & Hin).
    exists (group_name ss). apply scopeToServiceAccount_spec. exists ss. rewrite Hin. eauto.
Qed.

Lemma wsaToServiceAccountNames_spec sm w n :
  n ∈ default [] (wsaToServiceAccountNames (GenerateServiceAccountMappings sm) !! w) ↔
  ∃ ss, is_group sm ss ∧ group_name ss = n ∧ is_Some (group_wsas sm ss !! w).
Proof.
  simpl. rewrite lookup_fmap, map_groups_foldl. setoid_rewrite <-elem_of_group_list.
  transitivity (n ∈ default ∅ (st_wsaToServiceAccountNamesSet
    (foldl (map_group sm) (mkMappingState ∅ ∅ ∅ ∅) (group_list sm)) !! w)).
  { destruct (_ !! w); simpl; [apply elem_of_range_set|]. by rewrite elem_of_nil, elem_of_empty. }
  rewrite st_names_spec. simpl. rewrite lookup_empty. simpl. rewrite elem_of_empty. tauto.
Qed.

Lemma serviceAccountToWSAs_spec sm n :
  (∀ wm, serviceAccountToWSAs (GenerateServiceAccountMappings sm) !! n = Some wm →
    ∃ ss, is_group sm ss ∧ group_name ss = n ∧ group_wsas sm ss = wm) ∧
  (is_Some (serviceAccountToWSAs (GenerateServiceAccountMappings sm) !! n) ↔
    ∃ ss, is_group sm ss ∧ group_name ss = n).
Proof.
  simpl. rewrite map_groups_foldl. setoid_rewrite <-elem_of_group_list.
  destruct (st_serviceAccountToWSAs_spec sm (group_list sm) (mkMappingState ∅ ∅ ∅ ∅) n) as [Hs Hd].
  split.
  - intros wm [?|Hn]%Hs; [done|by simpl in Hn; rewrite lookup_empty in Hn].
  - rewrite Hd. simpl. rewrite lookup_empty. split; [intros [?|[? ?]]; done|by left].
Qed.

(** The accounts to create: one per name, named after some group, labelled from its values. *)
Lemma serviceAccountsToCreate_spec sm :
  (∀ sa, sa ∈ serviceAccountsToCreate (GenerateServiceAccountMappings sm) →
    ∃ ss, is_group sm ss ∧ sa = generateServiceAccountFromGrouped (group_name ss) (collectDimensionValues ss)) ∧
  (∀ ss, is_group sm ss →
    ∃ sa, sa ∈ serviceAccountsToCreate (GenerateServiceAccountMappings sm) ∧ sa_Name sa = group_name ss) ∧
  NoDup (sa_Name <$> serviceAccountsToCreate (GenerateServiceAccountMappings sm)).
Proof.
  simpl. rewrite map_groups_foldl. setoid_rewrite <-elem_of_group_list.
  set (m := st_uniqueServiceAccounts _).
  assert (∀ n sa, m !! n = Some sa → ∃ ss, ss ∈ group_list sm ∧ group_name ss = n ∧
    sa = generateServiceAccountFromGrouped n (collectDimensionValues ss)) as Hm.
  { intros n sa Hsa. destruct (proj1 (st_uniqueServiceAccounts_spec sm (group_list sm)
      (mkMappingState ∅ ∅ ∅ ∅) n) sa Hsa) as [?|Hn]; [done|by simpl in Hn; rewrite lookup_empty in Hn]. }
  split_and!.
  - intros sa ([n sa'] & -> & Hsa%elem_of_range_map)%list_elem_of_fmap.
    apply Hm in Hsa as (ss & ? & <- & ->). eauto.
  - intros ss Hss. assert (is_Some (m !! group_name ss)) as [sa Hsa].
    { apply (st_uniqueServiceAccounts_spec sm (group_list sm) (mkMappingState ∅ ∅ ∅ ∅)). eauto. }
    exists sa. split; [|by apply Hm in Hsa as (? & _ & _ & ->)].
    apply list_elem_of_fmap. exists (group_name ss, sa). by rewrite elem_of_range_map.
  - rewrite <-list_fmap_compose.
    assert (sa_Name ∘ snd <$> range_map "uniqueServiceAccounts" m =
      fst <$> range_map "uniqueServiceAccounts" m) as ->; [|apply NoDup_fst_range_map].
    apply list_fmap_ext. intros i [n sa] Hi. simpl.
    apply list_elem_of_lookup_2, elem_of_range_map, Hm in Hi as (? & _ & _ & ->). done.
Qed.
End results.

(** ** Bounds *)

Lemma length_shortHash s : String.length (shortHash s) = 32.
Proof.
  unfold shortHash. rewrite length_str_prefix; [done|].
  rewrite length_hex_of_bytes, Sha256.length_Sum256. lia.
Qed.

Lemma shortHash_chars s : str_all hex_char (shortHash s).
Proof. apply str_prefix_all, hex_of_bytes_chars. Qed.

(** ** The hashed string identifies the values *)

Definition tagged_values (g : GroupedDimensions) : list (string * list string) :=
  [("spaces", Space g); ("projects", Project g); ("projectgroups", ProjectGroup g);
   ("environments", Environment g); ("tenants", Tenant g); ("steps", Step g)].

Definition tagged_part (p : string * list string) : option string :=
  match p.2 with [] => None | _ => Some (p.1 +:+ String ":" (strings_Join p.2 "+")) end.

Lemma scope_parts_tagged g : scope_parts g = omap tagged_part (tagged_values g).
Proof. destruct g as [[] [] [] [] [] []]; reflexivity. Qed.

(** Every value is free of the two separators of the string. *)
Definition values_free (l : list string) : Prop :=
  Forall (λ x, str_free "+"%char x ∧ str_free "|"%char x) l.

Definition tag_ok (t : string) : bool := str_free ":"%char t && str_free "|"%char t.

Lemma tagged_parts_inj (l l' : list (string * list string)) :
  l.*1 = l'.*1 → NoDup l.*1 → Forall (λ t, tag_ok t) l.*1 →
  Forall (λ p, values_free p.2) l → Forall (λ p, values_free p.2) l' →
  omap tagged_part l = omap tagged_part l' → l = l'.
Proof.
  assert (∀ (t : string) v w (l : list (string * list string)), tag_ok t → Forall (λ t, tag_ok t) l.*1 → t ∉ l.*1 →
    (t +:+ String ":" (strings_Join v "+")) :: w ≠ omap tagged_part l) as Hother.
  { intros t v w l0 Ht Hl Hnin Heq.
    assert (t +:+ String ":" (strings_Join v "+") ∈ omap tagged_part l0) as Hin.
    { rewrite <-Heq. apply list_elem_of_here. }
    apply list_elem_of_omap in Hin as ([t' v'] & Hp & Hpart).
    unfold tagged_part in Hpart. simpl in Hpart. destruct v' as [|x v']; [done|]. injection Hpart as Hpart.
    assert (t' ∈ l0.*1) as Ht' by (apply list_elem_of_fmap; by exists (t', x :: v')).
    rewrite Forall_forall in Hl. pose proof (Hl t' Ht') as [? _]%andb_True. apply andb_True in Ht as [? _].
    apply str_cut in Hpart as [-> _]; done. }
  revert l'. induction l as [|[t v] l IH]; intros [|[t' v'] l']; try done.
  intros [= <- Htags]. change (l.*1 = l'.*1) in Htags. rewrite fmap_cons, NoDup_cons, !Forall_cons.
  intros [Hnin Hnd] [Ht Hl] [Hv Hvl] [Hv' Hvl']. simpl in *.
  assert (Forall (λ t, tag_ok t) l'.*1) as Hl'tags by by rewrite <-Htags.
  assert (t ∉ l'.*1) as Hnin' by by rewrite <-Htags.
  destruct v as [|x v], v' as [|x' v']; cbn [omap list_omap tagged_part fst snd]; intros Heq.
  - f_equal. by apply IH.
  - symmetry in Heq. by apply Hother in Heq.
  - by apply Hother in Heq.
  - injection Heq as Hhd Htl. apply andb_True in Ht as [? _].
    apply str_cut in Hhd as [_ Hjoin]; [|done..].
    change (strings_Join (x :: v) "+" = strings_Join (x' :: v') "+") in Hjoin.
    apply strings_Join_inj in Hjoin; [|done|done| |].
    + rewrite Hjoin. f_equal. by apply IH.
    + eapply Forall_impl; [exact Hv|]. by intros y [].
    + eapply Forall_impl; [exact Hv'|]. by intros y [].
Qed.

Lemma tagged_part_form l part :
  part ∈ omap tagged_part l → Forall (λ t, tag_ok t) l.*1 → Forall (λ p, values_free p.2) l →
  str_free "|"%char part ∧ ¬ str_free ":"%char part.
Proof.
  intros ([t v] & Hp & Hpart)%list_elem_of_omap Htags Hvals.
  unfold tagged_part in Hpart. simpl in Hpart. destruct v as [|x v]; [done|]. injection Hpart as <-.
  rewrite Forall_fmap, Forall_forall in Htags. specialize (Htags _ Hp).
  rewrite Forall_forall in Hvals. specialize (Hvals _ Hp). simpl in *.
  apply andb_True in Htags as [? ?]. split.
  - rewrite str_free_app, andb_True. split; [done|].
    apply (strings_Join_free "|"%char (x :: v) "+"); [done|].
    eapply Forall_impl; [exact Hvals|]. by intros y [].
  - intros Hfree. by eapply str_cut_none.
Qed.

(** The string that is hashed into the account name determines the values of the group. *)
Lemma scope_string_inj g g' :
  (∀ d, values_free (dim_get d g)) → (∀ d, values_free (dim_get d g')) →
  scope_string g = scope_string g' → g = g'.
Proof.
  intros Hg Hg'. unfold scope_string.
  assert (∀ g, (∀ d, values_free (dim_get d g)) → Forall (λ p, values_free p.2) (tagged_values g)) as Hvals.
  { intros h Hh. unfold tagged_values. repeat constructor; simpl;
      [exact (Hh SpaceIndex)|exact (Hh ProjectIndex)|exact (Hh ProjectGroupIndex)
      |exact (Hh EnvironmentIndex)|exact (Hh TenantIndex)|exact (Hh StepIndex)]. }
  assert (∀ g, (tagged_values g).*1 = (tagged_values g').*1) as Htags by done.
  assert (Forall (λ t, tag_ok t) (tagged_values g').*1) as Htok by by repeat constructor.
  assert (∀ h, (∀ d, values_free (dim_get d h)) → Forall (λ s, str_free "|"%char s) (scope_parts h)) as Hfree.
  { intros h Hh. rewrite scope_parts_tagged, Forall_forall. intros p Hp.
    by apply tagged_part_form in Hp as [? _]; [|rewrite Htags|apply Hvals]. }
  assert (∀ h, (∀ d, values_free (dim_get d h)) → "wildcard" ∉ scope_parts h) as Hwild.
  { intros h Hh. rewrite scope_parts_tagged. intros Hp.
    apply tagged_part_form in Hp as [_ []]; [done|by rewrite Htags|by apply Hvals]. }
  intros Heq. assert (scope_parts g = scope_parts g') as Hparts.
  { specialize (Hwild g Hg) as Hw. specialize (Hwild g' Hg') as Hw'.
    specialize (Hfree g Hg) as Hf. specialize (Hfree g' Hg') as Hf'.
    destruct (scope_parts g) as [|p ps], (scope_parts g') as [|p' ps']; [done|..];
      apply strings_Join_inj in Heq; try done; try (by repeat constructor); exfalso;
      simplify_eq; [apply Hw'|apply Hw]; rewrite <-?Heq, ?Heq; apply list_elem_of_here. }
  rewrite !scope_parts_tagged in Hparts.
  apply tagged_parts_inj in Hparts;
    [|done|rewrite Htags; by apply (bool_decide_unpack _)|by rewrite Htags|by apply Hvals..].
  unfold tagged_values in Hparts. destruct g, g'. simpl in *. by simplify_eq.
Qed.

(** The hash is only computed by evaluation; proofs use its length and its collisions. *)
#[global] Opaque shortHash.
