(* ===== verification/Access.v ===== *)
(** * Which service account a deployment gets, and what it may do

    The pipeline of src/internal/rules/scope_computation.go seen from the outside: the scope map and
    the account mappings computed from a list of resources, and the lookup the pod webhook makes in
    them.  The specification is that a deployment runs under an account that is bound to exactly the
    resources that apply to it ([scope_matches]). *)

From Stdlib Require Import Ascii.
From S2P Require Import Prelude GoLib Api Scopes ServiceAccounts.

(** ** [ScopeComputationService]

    The two pointers may be nil: the service used for planning is [NewScopeComputationService(nil, nil)].
    A nil map reads as the empty map. *)
Record ScopeComputationService := mkScopeComputationService {
  svc_vocabulary : option GlobalVocabulary;
  svc_scopeToSA : option (gmap Scope string)
}.

Definition NewScopeComputationService (vocabulary : option GlobalVocabulary)
    (scopeToSA : option (gmap Scope string)) : ScopeComputationService :=
  {| svc_vocabulary := vocabulary; svc_scopeToSA := scopeToSA |}.

(** Dereferencing a nil vocabulary panics. *)
Definition GetServiceAccountForScope (s : ScopeComputationService) (scope : Scope) : Result string :=
  match svc_vocabulary s with
  | None => RPanic
  | Some vocabulary =>
      let knownScope := GetKnownScopeCombination vocabulary scope in
      match default ∅ (svc_scopeToSA s) !! knownScope with
      | Some sa => ROk sa
      | None => ROk ""
      end
  end.

Definition ComputeScopesForWSAs `{RangeOrder} (s : ScopeComputationService) (wsaList : list WSAResource) :
    gmap Scope (gmap NamespacedName WSAResource) * GlobalVocabulary :=
  let vocabulary := buildGlobalVocabulary wsaList in
  (computeMinimalServiceAccountScopes wsaList vocabulary, vocabulary).

Definition svc_GenerateServiceAccountMappings `{RangeOrder} `{ThirdParty} (s : ScopeComputationService)
    (scopeMap : gmap Scope (gmap NamespacedName WSAResource)) : Mappings :=
  GenerateServiceAccountMappings scopeMap.

(** [make] returns a fresh empty map when the field is nil. *)
Definition GetScopeToSA (s : ScopeComputationService) : gmap Scope string :=
  match svc_scopeToSA s with None => ∅ | Some m => m end.

(** ** Hypotheses on the resources *)

(** What the API server guarantees of the listed resources: distinct keys, admissible names, and
    values that match the pattern of the CRD, so that none contains ['*'], ['+'] or ['|'] and none is
    empty. *)
Definition value_ok (x : string) : bool :=
  negb (bool_decide (x = "")) && str_free "*"%char x && str_free "+"%char x && str_free "|"%char x.

Record resources_ok (R : list WSAResource) : Prop := {
  ok_keys : keys_distinct R;
  ok_names : ∀ r, r ∈ R → k8s_key_ok (GetNamespacedName r);
  ok_values : ∀ r d x, r ∈ R → x ∈ dim_get d (GetScope r) → value_ok x
}.

(** A test that decides it, for concrete lists. *)
Definition resources_okb (R : list WSAResource) : bool :=
  bool_decide (NoDup (GetNamespacedName <$> R)) &&
  forallb (λ r, k8s_key_ok (GetNamespacedName r) &&
    forallb (λ d, forallb value_ok (dim_get d (GetScope r))) dimension_indices) R.

Lemma resources_okb_sound R : resources_okb R → resources_ok R.
Proof.
  unfold resources_okb. rewrite andb_True, bool_decide_spec, forallb_True, Forall_forall.
  intros [Hkeys Hall]. split; [done|..].
  - intros r Hr. by apply Hall, andb_True in Hr as [? _].
  - intros r d x Hr Hx. apply Hall, andb_True in Hr as [_ Hd].
    rewrite forallb_True, Forall_forall in Hd. specialize (Hd d (elem_of_dimension_indices d)).
    rewrite forallb_True, Forall_forall in Hd. by apply Hd.
Qed.

Lemma value_ok_spec x :
  value_ok x → x ≠ "" ∧ x ≠ WildcardValue ∧ str_free "+"%char x ∧ str_free "|"%char x.
Proof.
  unfold value_ok. rewrite !andb_True, negb_True, bool_decide_spec. intros [[[? H] ?] ?].
  split_and!; try done. by intros ->.
Qed.

Lemma resources_ok_wildcard_free R : resources_ok R → wildcard_free R.
Proof. intros HR r d Hr Hx. eapply value_ok_spec; [by eapply ok_values|done]. Qed.

#[export] Hint Resolve ok_keys resources_ok_wildcard_free : opc.

(** ** The scope map of a list of resources *)

Section pipeline.
Context `{RangeOrder} `{ThirdParty}.

Definition scope_map (R : list WSAResource) : gmap Scope (gmap NamespacedName WSAResource) :=
  (getScopesForWSAs R).1.

Definition mappings (R : list WSAResource) : Mappings := GenerateServiceAccountMappings (scope_map R).

(** The service the engine publishes for [R]. *)
Definition published (R : list WSAResource) : ScopeComputationService :=
  NewScopeComputationService (Some (getScopesForWSAs R).2) (Some (scopeToServiceAccount (mappings R))).

Definition known (R : list WSAResource) (s : Scope) : Scope :=
  GetKnownScopeCombination (buildGlobalVocabulary R) s.

(** The role bindings of [r] name the account [n] as a subject. *)
Definition granted (R : list WSAResource) (r : WSAResource) (n : string) : Prop :=
  n ∈ default [] (wsaToServiceAccountNames (mappings R) !! GetNamespacedName r).

Lemma scope_map_lookup R k wm :
  keys_distinct R →
  scope_map R !! k = Some wm ↔
  covering (buildGlobalVocabulary R) k R ≠ [] ∧ wm = wsa_map (covering (buildGlobalVocabulary R) k R).
Proof.
  intros HR. unfold scope_map. simpl. rewrite computeMinimalServiceAccountScopes_lookup by done.
  destruct (covering _ k R) as [|r rs]; naive_solver.
Qed.

(** The entry of the scope map at [k] contains [r] exactly when [r] covers [k]. *)
Lemma scope_map_entry R k r :
  keys_distinct R → r ∈ R →
  is_Some (default ∅ (scope_map R !! k) !! GetNamespacedName r) ↔
  k ∈ computeWSACoverage r (buildGlobalVocabulary R).
Proof.
  intros HR Hr. destruct (scope_map R !! k) as [wm|] eqn:Hk; simpl.
  - apply scope_map_lookup in Hk as [_ ->]; [|done]. split.
    + intros [r' [Hr' Heq]%wsa_map_lookup]; [|by apply keys_distinct_filter].
      apply elem_of_covering in Hr' as [??]. by rewrite <-(keys_distinct_eq R r' r).
    + intros Hcov. exists r. apply wsa_map_lookup; [by apply keys_distinct_filter|].
      by rewrite elem_of_covering.
  - rewrite lookup_empty. split; [by intros [??]|]. intros Hcov. exfalso.
    unfold scope_map in Hk. simpl in Hk.
    rewrite computeMinimalServiceAccountScopes_lookup in Hk by done.
    assert (r ∈ covering (buildGlobalVocabulary R) k R) as Hin by by rewrite elem_of_covering.
    destruct (covering _ k R); [by apply elem_of_nil in Hin|done].
Qed.

Lemma scope_map_keys_ok R k wm :
  resources_ok R → scope_map R !! k = Some wm →
  wm ≠ ∅ ∧ map_Forall (λ key _, k8s_key_ok key) wm.
Proof.
  intros HR Hk. apply scope_map_lookup in Hk as [Hne ->]; [|by apply ok_keys].
  assert (keys_distinct (covering (buildGlobalVocabulary R) k R)) as Hd.
  { apply keys_distinct_filter. by apply ok_keys. }
  split.
  - intros Hempty. destruct (covering _ k R) as [|r rs]; [done|].
    assert (wsa_map (r :: rs) !! GetNamespacedName r = Some r) as Hr.
    { apply wsa_map_lookup; [done|]. split; [apply list_elem_of_here|done]. }
    by rewrite Hempty, lookup_empty in Hr.
  - intros key r [Hr <-]%wsa_map_lookup; [|done]. apply elem_of_covering in Hr as [? _].
    by apply (ok_names R).
Qed.

(** Scopes with the same key have the same entry. *)
Lemma scope_map_key_inj `{!ThirdPartyLaws} R k k' wm wm' :
  resources_ok R → scope_map R !! k = Some wm → scope_map R !! k' = Some wm' →
  wsaSetKey wm = wsaSetKey wm' → wm = wm'.
Proof.
  intros HR Hk Hk' Hkey.
  destruct (scope_map_keys_ok R k wm) as [Hne Hok]; [done..|].
  destruct (scope_map_keys_ok R k' wm') as [Hne' Hok']; [done..|].
  apply wsaSetKey_inj in Hkey; [|done..].
  apply scope_map_lookup in Hk as [_ ->]; [|by apply ok_keys].
  apply scope_map_lookup in Hk' as [_ ->]; [|by apply ok_keys].
  assert (∀ k, keys_distinct (covering (buildGlobalVocabulary R) k R)) as Hd.
  { intros. apply keys_distinct_filter. by apply ok_keys. }
  apply wsa_map_ext; [done..|]. intros r.
  assert (∀ k, r ∈ covering (buildGlobalVocabulary R) k R ↔
    r ∈ R ∧ GetNamespacedName r ∈ dom (wsa_map (covering (buildGlobalVocabulary R) k R))) as Hiff.
  { intros k0. rewrite elem_of_dom. split.
    - intros Hr. split; [by apply elem_of_covering in Hr as [??]|]. exists r. by apply wsa_map_lookup.
    - intros [Hr [r' [Hr' Heq]%wsa_map_lookup]]; [|done].
      rewrite <-(keys_distinct_eq R r' r); [done|by apply ok_keys| |done|done].
      by apply elem_of_covering in Hr' as [? _]. }
  by rewrite !Hiff, Hkey.
Qed.

(** All scopes of a group have the entry of the group. *)
Lemma group_entry `{!ThirdPartyLaws} R ss k :
  resources_ok R → is_group (scope_map R) ss → k ∈ ss →
  scope_map R !! k = Some (group_wsas (scope_map R) ss).
Proof.
  intros HR (Hne & _ & gk & Hin)%is_group_lookup Hk.
  apply Hin in Hk as (wm & Hwm & Hkey). destruct ss as [|s0 ss]; [done|]. simpl.
  destruct (proj1 (Hin s0)) as (wm0 & Hwm0 & Hkey0); [apply list_elem_of_here|].
  rewrite Hwm0. simpl. rewrite Hwm. f_equal. eapply scope_map_key_inj; [done..|]. congruence.
Qed.

Lemma granted_spec R r n :
  granted R r n ↔
  ∃ ss, is_group (scope_map R) ss ∧ group_name ss = n ∧
    is_Some (group_wsas (scope_map R) ss !! GetNamespacedName r).
Proof. apply wsaToServiceAccountNames_spec. Qed.

(** [r] is granted [n] exactly when some scope [r] covers is mapped to [n]. *)
Lemma granted_iff `{!ThirdPartyLaws} R r n :
  resources_ok R → r ∈ R →
  granted R r n ↔
  ∃ k, k ∈ computeWSACoverage r (buildGlobalVocabulary R) ∧
    scopeToServiceAccount (mappings R) !! k = Some n.
Proof.
  intros HR Hr. rewrite granted_spec. unfold mappings. setoid_rewrite scopeToServiceAccount_spec. split.
  - intros (ss & Hss & Hn & Hin). destruct ss as [|k ss'] eqn:Heq.
    { by apply is_group_lookup in Hss as [? _]. }
    rewrite <-Heq in *. assert (k ∈ ss) as Hk by (rewrite Heq; apply list_elem_of_here).
    exists k. split; [|eauto]. apply (scope_map_entry R); [by apply ok_keys|done|].
    by rewrite (group_entry R ss k).
  - intros (k & Hk & ss & Hss & Hkss & Hn). exists ss. split_and!; [done..|].
    apply (scope_map_entry R) in Hk; [|by apply ok_keys|done].
    by rewrite (group_entry R ss k) in Hk.
Qed.

(** An account exists for a deployment exactly when some resource applies to it. *)
Lemma known_scope_mapped R s :
  resources_ok R →
  is_Some (scopeToServiceAccount (mappings R) !! known R s) ↔ ∃ r, r ∈ R ∧ scope_matches r s.
Proof.
  intros HR. unfold mappings, known. rewrite scopeToServiceAccount_dom. split.
  - intros [wm Hwm]. apply scope_map_lookup in Hwm as [Hne _]; [|by apply ok_keys].
    destruct (covering _ _ R) as [|r rs] eqn:Hc; [done|].
    assert (r ∈ covering (buildGlobalVocabulary R) (GetKnownScopeCombination (buildGlobalVocabulary R) s) R)
      as Hr by (rewrite Hc; apply list_elem_of_here).
    apply elem_of_covering in Hr as [Hr Hcov]. exists r. split; [done|].
    apply (known_scope_covered R); auto with opc.
  - intros (r & Hr & Hm). apply (known_scope_covered R) in Hm; [|by auto with opc|done].
    apply (scope_map_entry R) in Hm as [? Hs]; [|by apply ok_keys|done].
    destruct (scope_map R !! _); [eauto|by simpl in Hs; rewrite lookup_empty in Hs].
Qed.
End pipeline.

(** ** Separation of names *)

Section separation.
Context `{RangeOrder} `{ThirdParty}.

(** Different groups get different accounts. *)
Definition names_separate (R : list WSAResource) : Prop :=
  ∀ ss ss', is_group (scope_map R) ss → is_group (scope_map R) ss' →
    group_name ss = group_name ss' → ss = ss'.

(** The truncated hash has no collision among the strings hashed for [R]. *)
Definition hash_separates (R : list WSAResource) : Prop :=
  ∀ ss ss', is_group (scope_map R) ss → is_group (scope_map R) ss' →
    shortHash (scope_string (collectDimensionValues ss)) =
      shortHash (scope_string (collectDimensionValues ss')) →
    scope_string (collectDimensionValues ss) = scope_string (collectDimensionValues ss').

(** In dimension [d], either every resource lists values or none does. *)
Definition uniform (R : list WSAResource) (d : DimensionIndex) : Prop :=
  (∀ r, r ∈ R → dim_get d (GetScope r) = []) ∨ (∀ r, r ∈ R → dim_get d (GetScope r) ≠ []).

Lemma group_covered `{!ThirdPartyLaws} R ss k r :
  resources_ok R → is_group (scope_map R) ss → k ∈ ss → r ∈ R →
  is_Some (group_wsas (scope_map R) ss !! GetNamespacedName r) ↔
  k ∈ computeWSACoverage r (buildGlobalVocabulary R).
Proof.
  intros HR Hss Hk Hr. rewrite <-scope_map_entry by (done || by apply ok_keys).
  by rewrite (group_entry R ss k).
Qed.

(** A covered scope has a covering resource, hence known values only. *)
Lemma group_value `{!ThirdPartyLaws} R ss k d :
  resources_ok R → is_group (scope_map R) ss → k ∈ ss →
  ∃ r, r ∈ R ∧ k ∈ computeWSACoverage r (buildGlobalVocabulary R) ∧
    covers_value r (buildGlobalVocabulary R) d (dim_get d k).
Proof.
  intros HR Hss Hk. pose proof (group_entry R ss k HR Hss Hk) as Hentry.
  apply scope_map_lookup in Hentry as [Hne _]; [|by apply ok_keys].
  destruct (covering _ k R) as [|r rs] eqn:Hc; [done|].
  assert (r ∈ covering (buildGlobalVocabulary R) k R) as Hr by (rewrite Hc; apply list_elem_of_here).
  apply elem_of_covering in Hr as [? Hcov]. exists r. split_and!; [done..|].
  by apply computeWSACoverage_elem.
Qed.

Lemma vocabulary_value_ok R d x :
  resources_ok R → x ∈ dim_get d (buildGlobalVocabulary R) → value_ok x.
Proof. intros HR (r & ? & ?)%buildGlobalVocabulary_elem. by eapply ok_values. Qed.

Lemma covers_value_cases R r d x :
  r ∈ R → covers_value r (buildGlobalVocabulary R) d x →
  x = WildcardValue ∨ x ∈ dim_get d (buildGlobalVocabulary R).
Proof.
  unfold covers_value. intros Hr. destruct (dim_get d (GetScope r)) as [|y l] eqn:Hd; [done|].
  intros Hx. right. apply buildGlobalVocabulary_elem. exists r. by rewrite Hd.
Qed.

(** The value of a scope of a group is the wildcard or one of the values of the group's name. *)
Lemma group_value_named `{!ThirdPartyLaws} R ss k d :
  resources_ok R → is_group (scope_map R) ss → k ∈ ss →
  dim_get d k = WildcardValue ∨ named_value ss d (dim_get d k).
Proof.
  intros HR Hss Hk. destruct (group_value R ss k d HR Hss Hk) as (r & Hr & _ & Hv).
  apply (covers_value_cases R) in Hv as [?|Hv]; [by left| |done].
  right. apply vocabulary_value_ok, value_ok_spec in Hv as (? & ? & _); [|done].
  unfold named_value. eauto.
Qed.

Lemma group_values_free `{!ThirdPartyLaws} R ss d :
  resources_ok R → is_group (scope_map R) ss → values_free (dim_get d (collectDimensionValues ss)).
Proof.
  intros HR Hss. unfold values_free. rewrite Forall_forall. intros x Hx.
  apply collectDimensionValues_elem in Hx as (_ & Hne & k & Hk & <-).
  destruct (group_value R ss k d HR Hss Hk) as (r & Hr & _ & Hv).
  apply (covers_value_cases R) in Hv as [?|Hv]; [done| |done].
  by apply vocabulary_value_ok, value_ok_spec in Hv as (_ & _ & ? & ?).
Qed.

(** In a uniform dimension, a group that names no value consists of wildcards, and a group that
    names values has no wildcard. *)
Lemma uniform_value `{!ThirdPartyLaws} R ss ss' k d :
  resources_ok R → uniform R d →
  is_group (scope_map R) ss → is_group (scope_map R) ss' →
  (∀ x, named_value ss d x ↔ named_value ss' d x) →
  k ∈ ss → ∃ k', k' ∈ ss' ∧ dim_get d k' = dim_get d k.
Proof.
  intros HR Huni Hss Hss' Hnamed Hk.
  destruct (group_value_named R ss k d HR Hss Hk) as [Hw|Hn].
  - destruct ss' as [|k' ss''] eqn:Heq; [by apply is_group_lookup in Hss' as [? _]|].
    rewrite <-Heq in *. assert (k' ∈ ss') as Hk' by (rewrite Heq; apply list_elem_of_here).
    exists k'. split; [done|]. rewrite Hw.
    destruct (group_value R ss k d HR Hss Hk) as (r & Hr & _ & Hv).
    destruct (group_value R ss' k' d HR Hss' Hk') as (r' & Hr' & _ & Hv').
    destruct Huni as [Huni|Huni].
    + apply (covers_value_cases R) in Hv' as [?|Hv']; [done| |done].
      apply buildGlobalVocabulary_elem in Hv' as (r'' & Hr'' & Hx). rewrite Huni in Hx by done.
      by apply elem_of_nil in Hx.
    + exfalso. unfold covers_value in Hv. specialize (Huni r Hr).
      rewrite Hw in Hv. eapply (resources_ok_wildcard_free R HR r d Hr).
      by destruct (dim_get d (GetScope r)).
  - apply Hnamed in Hn as (_ & _ & k' & ? & ?). eauto.
Qed.

(** One of the scopes of [ss] takes all its values from scopes of [ss']. *)
Lemma group_shares_scope `{!ThirdPartyLaws} R ss ss' d0 :
  resources_ok R → (∀ d, d ≠ d0 → uniform R d) →
  is_group (scope_map R) ss → is_group (scope_map R) ss' →
  (∀ d x, named_value ss d x ↔ named_value ss' d x) →
  ∃ k, k ∈ ss ∧ ∀ d, ∃ k', k' ∈ ss' ∧ dim_get d k' = dim_get d k.
Proof.
  intros HR Huni Hss Hss' Hnamed.
  assert (∃ k, k ∈ ss ∧ ∃ k', k' ∈ ss' ∧ dim_get d0 k' = dim_get d0 k) as (k & Hk & Hd0).
  { destruct ss as [|k ss0] eqn:Heq; [by apply is_group_lookup in Hss as [? _]|]. rewrite <-Heq in *.
    destruct ss' as [|k' ss0'] eqn:Heq'; [by apply is_group_lookup in Hss' as [? _]|]. rewrite <-Heq' in *.
    assert (k ∈ ss) as Hk by (rewrite Heq; apply list_elem_of_here).
    assert (k' ∈ ss') as Hk' by (rewrite Heq'; apply list_elem_of_here).
    destruct (group_value_named R ss k d0 HR Hss Hk) as [Hw|Hn].
    - destruct (group_value_named R ss' k' d0 HR Hss' Hk') as [Hw'|Hn'].
      + exists k. split; [done|]. exists k'. split; [done|congruence].
      + apply Hnamed in Hn' as (_ & _ & k1 & ? & ?). eauto 10.
    - apply Hnamed in Hn as (_ & _ & k1 & ? & ?). eauto 10. }
  exists k. split; [done|]. intros d. destruct (decide (d = d0)) as [->|Hne]; [done|].
  by apply (uniform_value R ss); auto.
Qed.

Lemma group_wsas_subset `{!ThirdPartyLaws} R ss ss' d0 :
  resources_ok R → (∀ d, d ≠ d0 → uniform R d) →
  is_group (scope_map R) ss → is_group (scope_map R) ss' →
  (∀ d x, named_value ss d x ↔ named_value ss' d x) →
  ∀ r, r ∈ R → is_Some (group_wsas (scope_map R) ss' !! GetNamespacedName r) →
    is_Some (group_wsas (scope_map R) ss !! GetNamespacedName r).
Proof.
  intros HR Huni Hss Hss' Hnamed r Hr Hin.
  destruct (group_shares_scope R ss ss' d0) as (k & Hk & Hvals); [done..|].
  apply (group_covered R ss k r); [done..|]. apply computeWSACoverage_product.
  intros d. destruct (Hvals d) as (k' & Hk' & Heq). exists k'. split; [|done].
  by apply (group_covered R ss' k' r).
Qed.

(** The entry of a group is determined by the resources of [R] it contains. *)
Lemma group_wsas_ext `{!ThirdPartyLaws} R ss ss' :
  resources_ok R → is_group (scope_map R) ss → is_group (scope_map R) ss' →
  (∀ r, r ∈ R → is_Some (group_wsas (scope_map R) ss !! GetNamespacedName r) ↔
    is_Some (group_wsas (scope_map R) ss' !! GetNamespacedName r)) →
  ss = ss'.
Proof.
  intros HR Hss Hss' Hiff.
  destruct ss as [|k ss0] eqn:Heq; [by apply is_group_lookup in Hss as [? _]|]. rewrite <-Heq in *.
  destruct ss' as [|k' ss0'] eqn:Heq'; [by apply is_group_lookup in Hss' as [? _]|]. rewrite <-Heq' in *.
  assert (k ∈ ss) as Hk by (rewrite Heq; apply list_elem_of_here).
  assert (k' ∈ ss') as Hk' by (rewrite Heq'; apply list_elem_of_here).
  pose proof (group_entry R ss k HR Hss Hk) as He.
  pose proof (group_entry R ss' k' HR Hss' Hk') as He'.
  assert (group_wsas (scope_map R) ss = group_wsas (scope_map R) ss') as Hsame.
  { apply scope_map_lookup in He as [_ He]; [|by apply ok_keys].
    apply scope_map_lookup in He' as [_ He']; [|by apply ok_keys].
    rewrite He, He'. apply wsa_map_ext; [by apply keys_distinct_filter, ok_keys..|].
    intros r. rewrite !elem_of_covering. split; intros [Hr Hc]; (split; [done|]).
    - apply (group_covered R ss' k'); [done..|]. apply Hiff; [done|]. by apply (group_covered R ss k).
    - apply (group_covered R ss k); [done..|]. apply Hiff; [done|]. by apply (group_covered R ss' k'). }
  apply (is_group_unique (scope_map R) ss ss' k'); [done..| |done].
  apply is_group_lookup in Hss as (_ & _ & gk & Hin). apply Hin.
  apply Hin in Hk as (wm & Hwm & Hkey). exists wm. split; [|done]. congruence.
Qed.

Lemma group_name_values `{!ThirdPartyLaws} R ss ss' :
  resources_ok R → hash_separates R →
  is_group (scope_map R) ss → is_group (scope_map R) ss' → group_name ss = group_name ss' →
  ∀ d x, named_value ss d x ↔ named_value ss' d x.
Proof.
  intros HR Hhash Hss Hss' Hname d x.
  unfold group_name, generateGroupedServiceAccountName in Hname.
  apply (inj (String.app "octopus-sa-")) in Hname.
  apply Hhash in Hname; [|done..].
  apply scope_string_inj in Hname; [|intros; by apply (group_values_free R)..].
  by rewrite <-!collectDimensionValues_elem, Hname.
Qed.

(** C30.  If the truncated hash does not collide on the strings hashed for [R], and in every dimension
    except at most one ([d0]) either all resources list values or none does, then two groups of
    scopes never share a service account name. *)
Theorem names_separate_uniform `{!ThirdPartyLaws} (R : list WSAResource) (d0 : DimensionIndex)
    (HR : resources_ok R) (Huni : ∀ d, d ≠ d0 → uniform R d) (Hhash : hash_separates R) :
  names_separate R.
Proof.
  intros ss ss' Hss Hss' Hname.
  pose proof (group_name_values R ss ss' HR Hhash Hss Hss' Hname) as Hnamed.
  apply (group_wsas_ext R); [done..|]. intros r Hr. split.
  - apply (group_wsas_subset R ss' ss d0); auto. intros d x. by rewrite Hnamed.
  - by apply (group_wsas_subset R ss ss' d0).
Qed.
End separation.

(** ** The deployment's account *)

Section account.
Context `{RangeOrder} `{ThirdParty}.

Lemma group_name_nonempty ss : group_name ss ≠ "".
Proof. done. Qed.

Lemma published_lookup R s :
  GetServiceAccountForScope (published R) s =
  ROk (default "" (scopeToServiceAccount (mappings R) !! known R s)).
Proof. unfold GetServiceAccountForScope. simpl. by destruct (_ !! _). Qed.

Lemma account_complete `{!ThirdPartyLaws} (R : list WSAResource) (s : Scope)
    (HR : resources_ok R) :
  ∃ n, GetServiceAccountForScope (published R) s = ROk n ∧
    (n = "" ↔ ∀ r, r ∈ R → ¬ scope_matches r s) ∧
    (∀ r, r ∈ R → scope_matches r s → granted R r n).
Proof.
  rewrite published_lookup. eexists. split; [done|].
  pose proof (known_scope_mapped R s HR) as Hmapped.
  destruct (scopeToServiceAccount (mappings R) !! known R s) as [n|] eqn:Hn; simpl.
  - split.
    + split.
      * intros ->. pose proof (proj1 (scopeToServiceAccount_spec _ _ _) Hn) as (ss & _ & _ & Hname).
        by destruct (group_name_nonempty ss).
      * intros Hnone. destruct (proj1 Hmapped) as (r & Hr & Hm); [eauto|]. by destruct (Hnone r).
    + intros r Hr Hm. apply granted_iff; [done..|]. exists (known R s). split; [|done].
      apply known_scope_covered; auto with opc.
  - assert (∀ r, r ∈ R → ¬ scope_matches r s) as Hnone.
    { intros r Hr Hm. destruct (proj2 Hmapped) as [? ?]; [by eauto|done]. }
    split; [done|]. intros r Hr Hm. by destruct (Hnone r).
Qed.

Lemma account_sound `{!ThirdPartyLaws} (R : list WSAResource) (s : Scope) (n : string)
    (HR : resources_ok R) (Hsep : names_separate R)
    (Hn : GetServiceAccountForScope (published R) s = ROk n) (Hne : n ≠ "") :
  (∀ r, r ∈ R → granted R r n → scope_matches r s) ∧
  serviceAccountToWSAs (mappings R) !! n = Some (wsa_map (filter (λ r, scope_matches r s) R)).
Proof.
  rewrite published_lookup in Hn.
  assert (default "" (scopeToServiceAccount (mappings R) !! known R s) = n) as Hd by congruence.
  clear Hn. destruct (scopeToServiceAccount (mappings R) !! known R s) as [n'|] eqn:Hk; simpl in Hd; [|congruence].
  subst n'. destruct (proj1 (scopeToServiceAccount_spec _ _ _) Hk) as (ss & Hss & Hin & Hname).
  assert (∀ r, r ∈ R → is_Some (group_wsas (scope_map R) ss !! GetNamespacedName r) ↔ scope_matches r s)
    as Hcov.
  { intros r Hr. rewrite (group_covered R ss (known R s)) by done.
    apply known_scope_covered; auto with opc. }
  split.
  - intros r Hr (ss' & Hss' & Hname' & Hbound)%granted_spec. apply Hcov; [done|].
    by rewrite (Hsep ss ss'); [|done..|congruence].
  - destruct (serviceAccountToWSAs_spec (scope_map R) n) as [Hval Hdom].
    destruct (proj2 Hdom) as [wm Hwm]; [eauto|]. fold (mappings R) in Hwm.
    rewrite Hwm. f_equal. apply Hval in Hwm as (ss' & Hss' & Hname' & <-).
    rewrite <-(Hsep ss ss'); [|done..|congruence].
    pose proof (group_entry R ss _ HR Hss Hin) as He.
    apply scope_map_lookup in He as [_ ->]; [|by apply ok_keys].
    apply wsa_map_ext; [by apply keys_distinct_filter, ok_keys..|]. intros r.
    rewrite elem_of_covering, list_elem_of_filter. split.
    + intros [Hr Hc]. split; [|done]. apply (known_scope_covered R); auto with opc.
    + intros [Hm Hr]. split; [done|]. apply known_scope_covered; auto with opc.
Qed.
(** Both directions, for the clients. *)
Lemma account_correct `{!ThirdPartyLaws} (R : list WSAResource) (s : Scope) :
  resources_ok R →
  ∃ n, GetServiceAccountForScope (published R) s = ROk n ∧
    (n = "" ↔ ∀ r, r ∈ R → ¬ scope_matches r s) ∧
    (∀ r, r ∈ R → scope_matches r s → granted R r n) ∧
    (names_separate R → n ≠ "" → ∀ r, r ∈ R → granted R r n → scope_matches r s).
Proof.
  intros HR. destruct (account_complete R s HR) as (n & Hn & ? & ?). exists n. split_and!; [done..|].
  intros Hsep Hne. by apply (account_sound R s n HR Hsep Hn Hne).
Qed.

(** C1.  The lookup the webhook makes never fails; it returns no account exactly when no resource
    applies to the deployment; and the account it returns is bound to every resource that applies:
    no deployment has fewer permissions than its resources grant. *)
Theorem deployment_account_complete `{!ThirdPartyLaws} (R : list WSAResource) (s : Scope)
    (HR : resources_ok R) :
  ∃ n, GetServiceAccountForScope (published R) s = ROk n ∧
    (n = "" ↔ ∀ r, r ∈ R → ¬ scope_matches r s) ∧
    (∀ r, r ∈ R → scope_matches r s → granted R r n).
Proof. by apply account_complete. Qed.

(** C2.  If different groups get different names, the account of a deployment is bound only to
    resources that apply to it, and the engine records exactly those resources for it: no
    deployment has more permissions than its resources grant. *)
Theorem deployment_account_sound `{!ThirdPartyLaws} (R : list WSAResource) (s : Scope) (n : string)
    (HR : resources_ok R) (Hsep : names_separate R)
    (Hn : GetServiceAccountForScope (published R) s = ROk n) (Hne : n ≠ "") :
  (∀ r, r ∈ R → granted R r n → scope_matches r s) ∧
  serviceAccountToWSAs (mappings R) !! n = Some (wsa_map (filter (λ r, scope_matches r s) R)).
Proof. by apply account_sound. Qed.
End account.

(** ** Replicas agree *)

Lemma buildGlobalVocabulary_perm R1 R2 :
  R1 ≡ₚ R2 → buildGlobalVocabulary R1 = buildGlobalVocabulary R2.
Proof.
  intros HR. apply dims_ext. intros d. apply set_eq. intros x.
  rewrite !buildGlobalVocabulary_elem. by setoid_rewrite HR.
Qed.

Lemma scope_map_order (O1 O2 : RangeOrder) R1 R2 :
  R1 ≡ₚ R2 → keys_distinct R1 → @scope_map O1 R1 = @scope_map O2 R2.
Proof.
  intros HR Hd1. assert (keys_distinct R2) as Hd2 by by rewrite <-HR.
  apply map_eq. intros k. apply option_eq. intros wm. rewrite !scope_map_lookup by done.
  rewrite (buildGlobalVocabulary_perm R1 R2) by done.
  set (c1 := @covering O1 _ _ _). set (c2 := @covering O2 _ _ _).
  assert (∀ r, r ∈ c1 ↔ r ∈ c2) as Hc.
  { intros r. subst c1 c2. rewrite !elem_of_covering, HR.
    by rewrite (computeWSACoverage_order O1 O2). }
  assert (wsa_map c1 = wsa_map c2) as ->.
  { apply wsa_map_ext; [by apply keys_distinct_filter..|done]. }
  assert (c1 ≠ [] ↔ c2 ≠ []) as ->; [|done].
  clear -Hc. destruct c1 as [|x c1], c2 as [|y c2]; try done.
  - exfalso. apply (not_elem_of_nil y), Hc, list_elem_of_here.
  - exfalso. apply (not_elem_of_nil x), Hc, list_elem_of_here.
Qed.

Section agreement.
Context `{ThirdParty}.

Lemma wsaSetKey_order (O1 O2 : RangeOrder) wm : @wsaSetKey O1 _ wm = @wsaSetKey O2 _ wm.
Proof. by rewrite !wsaSetKey_canonical. Qed.

Lemma group_name_order (O1 O2 : RangeOrder) ss1 ss2 :
  (∀ s, s ∈ ss1 ↔ s ∈ ss2) → @group_name O1 ss1 = @group_name O2 ss2.
Proof.
  intros Hss. unfold group_name. f_equal. apply collectDimensionValues_ext.
  intros d x. by apply named_value_ext.
Qed.

Lemma scopeToServiceAccount_order (O1 O2 : RangeOrder) sm :
  scopeToServiceAccount (@GenerateServiceAccountMappings O1 _ sm) =
  scopeToServiceAccount (@GenerateServiceAccountMappings O2 _ sm).
Proof.
  assert (∀ (O1 O2 : RangeOrder) k n,
    scopeToServiceAccount (@GenerateServiceAccountMappings O1 _ sm) !! k = Some n →
    scopeToServiceAccount (@GenerateServiceAccountMappings O2 _ sm) !! k = Some n) as Hgen.
  { clear O1 O2. intros O1 O2 k n (ss & Hss & Hk & <-)%(@scopeToServiceAccount_spec O1).
    apply (@is_group_lookup O1) in Hss as (_ & _ & gk & Hin).
    pose proof (proj1 (Hin k) Hk) as (wm & Hwm & Hkey).
    destruct (@is_group_covers O2 _ sm k wm Hwm) as (ss' & Hss' & Hin').
    apply (@scopeToServiceAccount_spec O2). exists ss'. rewrite Hin'. split_and!; [done|by eauto|].
    apply group_name_order. intros s. rewrite Hin, Hin'. subst gk.
    by setoid_rewrite (wsaSetKey_order O1 O2). }
  apply map_eq. intros k. apply option_eq. split; apply Hgen.
Qed.

Lemma published_order (O1 O2 : RangeOrder) (R1 R2 : list WSAResource) (s : Scope) :
  R1 ≡ₚ R2 → keys_distinct R1 →
  GetServiceAccountForScope (@published O1 _ R1) s = GetServiceAccountForScope (@published O2 _ R2) s.
Proof.
  intros Hperm Hkeys. rewrite !published_lookup. unfold known, mappings.
  rewrite (buildGlobalVocabulary_perm R1 R2), (scope_map_order O1 O2 R1 R2) by done.
  by rewrite (scopeToServiceAccount_order O1 O2).
Qed.

(** The lookup is a function of the set of resources: two replicas that list the same resources,
    in whatever order, and iterate over their maps in whatever order, give every deployment the
    same account. *)
Theorem replicas_agree (O1 O2 : RangeOrder) (R1 R2 : list WSAResource) (s : Scope)
    (Hperm : R1 ≡ₚ R2) (Hkeys : keys_distinct R1) :
  GetServiceAccountForScope (@published O1 _ R1) s = GetServiceAccountForScope (@published O2 _ R2) s.
Proof. by apply published_order. Qed.
End agreement.

(** ** A collision *)

Module Collision.
Definition meta (name : string) : ObjectMeta := mkMeta name "team-a" "uid" 1 "1" None None [] [].

(** One resource for the whole space, one for a project and an environment of that space. *)
Definition broad : WSAResource :=
  wsaAdapter (mkWSA (meta "broad") (mkDims [] [] [] [] [] ["space-1"]) [] [] [] []).
Definition narrow : WSAResource :=
  wsaAdapter (mkWSA (meta "narrow") (mkDims ["project-1"] [] ["production"] [] [] ["space-1"]) [] [] [] []).

Definition resources : list WSAResource := [broad; narrow].

(** Another project of the same space. *)
Definition other_deployment : Scope := mkDims "project-2" "" "staging" "" "" "space-1".
Definition narrow_deployment : Scope := mkDims "project-1" "" "production" "" "" "space-1".

Lemma resources_resources_ok : resources_ok resources.
Proof. apply resources_okb_sound. by vm_compute. Qed.

Section orders.
#[local] Existing Instance reference_third_party.
#[local] Existing Instance reference_third_party_laws.

Lemma same_account (O : RangeOrder) :
  scopeToServiceAccount (mappings resources) !! known resources other_deployment =
  scopeToServiceAccount (mappings resources) !! known resources narrow_deployment ∧
  is_Some (scopeToServiceAccount (mappings resources) !! known resources other_deployment).
Proof.
  unfold mappings. rewrite (scope_map_order O range_forward resources resources);
    [|done|by apply ok_keys, resources_resources_ok].
  rewrite (scopeToServiceAccount_order O range_forward).
  split; [by vm_compute|]. eexists. by vm_compute.
Qed.

(** C31.  With two resources that differ in two dimensions, names do not separate: whatever the
    iteration order, a deployment to which [narrow] does not apply runs under an account that is
    bound to the permissions of [narrow]. *)
Theorem name_collision_escalates (O : RangeOrder) :
  resources_ok resources ∧
  ∃ n, GetServiceAccountForScope (published resources) other_deployment = ROk n ∧ n ≠ "" ∧
    granted resources narrow n ∧ ¬ scope_matches narrow other_deployment.
Proof.
  split; [apply resources_resources_ok|].
  destruct (same_account O) as [Heq [n Hn]]. exists n. rewrite published_lookup, Hn.
  split_and!; [done| | |by vm_compute].
  - intros ->. pose proof (proj1 (scopeToServiceAccount_spec _ _ _) Hn) as (ss & _ & _ & Hname).
    by destruct (group_name_nonempty ss).
  - apply granted_iff; [apply resources_resources_ok|apply list_elem_of_further, list_elem_of_here|].
    exists (known resources narrow_deployment). split; [|by rewrite <-Heq].
    apply known_scope_covered; [|apply list_elem_of_further, list_elem_of_here|by vm_compute].
    apply resources_ok_wildcard_free, resources_resources_ok.
Qed.
End orders.
End Collision.

(** ** The theorems at concrete resources *)

Section decide_hash.
Context `{RangeOrder} `{ThirdParty}.

Definition hash_separatesb (R : list WSAResource) : bool :=
  let strings := (λ ss, scope_string (collectDimensionValues ss)) <$> group_list (scope_map R) in
  forallb (λ s, forallb (λ s', negb (bool_decide (shortHash s = shortHash s')) || bool_decide (s = s'))
    strings) strings.

Lemma hash_separatesb_sound R : hash_separatesb R → hash_separates R.
Proof.
  unfold hash_separatesb. rewrite forallb_True, Forall_forall. intros Hall ss ss' Hss Hss' Heq.
  apply elem_of_group_list in Hss, Hss'.
  specialize (Hall _ (list_elem_of_fmap_2 (λ ss, scope_string (collectDimensionValues ss)) _ _ Hss)).
  rewrite forallb_True, Forall_forall in Hall.
  specialize (Hall _ (list_elem_of_fmap_2 (λ ss, scope_string (collectDimensionValues ss)) _ _ Hss')).
  by rewrite orb_True, negb_True, !bool_decide_spec in Hall; destruct Hall.
Qed.

(** The same for the separation of names. *)
Definition names_separateb (R : list WSAResource) : bool :=
  let groups := group_list (scope_map R) in
  forallb (λ x, forallb (λ y, negb (bool_decide (group_name x = group_name y)) || bool_decide (x = y)) groups) groups.

Lemma names_separateb_sound R : names_separateb R → names_separate R.
Proof.
  unfold names_separateb. intros Hall ss ss' Hss Hss' Hname.
  apply elem_of_group_list in Hss, Hss'.
  rewrite forallb_True, Forall_forall in Hall. specialize (Hall _ Hss).
  rewrite forallb_True, Forall_forall in Hall. specialize (Hall _ Hss').
  by rewrite orb_True, negb_True, !bool_decide_spec in Hall; destruct Hall.
Qed.
End decide_hash.

Module AccessExamples.
Import Collision.
#[local] Existing Instance range_forward.
#[local] Existing Instance reference_third_party.
#[local] Existing Instance reference_third_party_laws.

(** Only the project dimension is mixed. *)
Definition project : WSAResource :=
  wsaAdapter (mkWSA (meta "project") (mkDims ["project-1"] [] [] [] [] ["space-1"]) [] [] [] []).
Definition R : list WSAResource := [broad; project].

Lemma R_ok : resources_ok R.
Proof. apply resources_okb_sound. by vm_compute. Defined.

Lemma R_uniform d : d ≠ ProjectIndex → uniform R d.
Proof.
  intros Hd. destruct d; try done; [left|left|left|left|right];
    intros r [->|[->|?%elem_of_nil]%elem_of_cons]%elem_of_cons; done.
Defined.

Lemma R_hash : hash_separates R.
Proof. apply hash_separatesb_sound. by vm_compute. Defined.

Lemma names_separate_uniform_witness : names_separate R.
Proof. exact (names_separate_uniform R ProjectIndex R_ok R_uniform R_hash). Defined.

Lemma R_separate : names_separate R.
Proof. apply names_separateb_sound. by vm_compute. Defined.

Definition deployment : Scope := mkDims "project-1" "" "staging" "" "" "space-1".

Lemma deployment_account_complete_witness :
  ∃ n, GetServiceAccountForScope (published R) deployment = ROk n ∧
    (n = "" ↔ ∀ r, r ∈ R → ¬ scope_matches r deployment) ∧
    (∀ r, r ∈ R → scope_matches r deployment → granted R r n).
Proof. exact (deployment_account_complete R deployment R_ok). Defined.

Lemma deployment_account_sound_witness :
  ∃ n, n ≠ "" ∧ (∀ r, r ∈ R → granted R r n → scope_matches r deployment) ∧
    serviceAccountToWSAs (mappings R) !! n = Some (wsa_map (filter (λ r, scope_matches r deployment) R)).
Proof.
  exists (group_name [mkDims "project-1" "*" "*" "*" "*" "space-1"]). split; [done|].
  apply (deployment_account_sound R deployment); [exact R_ok|exact R_separate|by vm_compute|done].
Defined.

Lemma replicas_agree_witness :
  GetServiceAccountForScope (@published range_forward _ R) deployment =
  GetServiceAccountForScope (@published range_backward _ (reverse R)) deployment.
Proof.
  apply (replicas_agree range_forward range_backward R (reverse R)).
  - by rewrite reverse_Permutation.
  - exact (ok_keys R R_ok).
Defined.
End AccessExamples.
