(* ===== verification/Cluster.v ===== *)
(** * The cluster the program talks to

    The controller-runtime client and the garbage-collection tracker are not code of this
    repository: they are classes of operations on an abstract world [W], with the laws of the API
    server that the theorems use, and an in-memory instance that satisfies them.  Reads may come
    from a stale cache, so no law says that a list or a get returns the current state; writes are
    seen by the API server. *)

From Stdlib Require Import ZArith.
From S2P Require Import Prelude Api.


(** ** Objects *)

Inductive Kind := KServiceAccount | KRole | KClusterRole | KRoleBinding | KClusterRoleBinding.

#[export] Instance Kind_eq_dec : EqDecision Kind.
Proof. solve_decision. Defined.

#[export] Instance Kind_countable : Countable Kind.
Proof.
  refine (inj_countable'
    (λ k, match k with KServiceAccount => 0 | KRole => 1 | KClusterRole => 2 | KRoleBinding => 3
                     | KClusterRoleBinding => 4 end)
    (λ n : nat, match n with 0 => KServiceAccount | 1 => KRole | 2 => KClusterRole | 3 => KRoleBinding
                     | _ => KClusterRoleBinding end) _).
  by intros [].
Defined.

Record OwnerReference := mkOwnerReference {
  or_APIVersion : string;
  or_Kind : string;
  or_Name : string;
  or_UID : string;
  or_Controller : bool;
  or_BlockOwnerDeletion : bool
}.

(** What an object carries besides its metadata. *)
Inductive Body :=
| AccountBody
| RoleBody (rules : list PolicyRule)
| BindingBody (roleRef : RoleRef) (subjects : list Subject).

(** An object as listed or read; the namespace of a cluster-scoped object is empty. *)
Record Object := mkObject {
  obj_Kind : Kind;
  obj_Key : NamespacedName;
  obj_UID : string;
  obj_Labels : option (gmap string string);
  obj_Annotations : gmap string string;
  obj_Owners : list OwnerReference;
  obj_Body : Body
}.

#[export] Instance OwnerReference_eq_dec : EqDecision OwnerReference.
Proof. solve_decision. Defined.

#[export] Instance Body_eq_dec : EqDecision Body.
Proof. solve_decision. Defined.

#[export] Instance Object_eq_dec : EqDecision Object.
Proof. solve_decision. Defined.

(** A server-side apply configuration, always sent with [client.ForceOwnership] and the field owner
    ["octopus-permissions-controller"]. *)
Record ApplyConfiguration := mkApply {
  ac_Kind : Kind;
  ac_Key : NamespacedName;
  ac_Labels : gmap string string;
  ac_Annotations : gmap string string;
  ac_Owner : option OwnerReference;
  ac_Body : Body
}.

Abbreviation Ref := (Kind * NamespacedName)%type.

Definition obj_ref (o : Object) : Ref := (obj_Kind o, obj_Key o).
Definition ac_ref (a : ApplyConfiguration) : Ref := (ac_Kind a, ac_Key a).

(** The applied fields have the applied values. *)
Definition carries (a : ApplyConfiguration) (o : Object) : Prop :=
  obj_ref o = ac_ref a ∧
  ac_Labels a ⊆ default ∅ (obj_Labels o) ∧
  ac_Annotations a ⊆ obj_Annotations o ∧
  (∀ owner, ac_Owner a = Some owner → owner ∈ obj_Owners o) ∧
  obj_Body o = ac_Body a.

(** ** The state monad of the program *)

Definition M (W A : Type) : Type := W → W * A.

Definition ret {W A} (a : A) : M W A := λ w, (w, a).
Definition bind {W A B} (m : M W A) (f : A → M W B) : M W B := λ w, let '(w, a) := m w in f a w.

(** A run named by its result. *)
Lemma run_result {W A} (m : M W A) w a : (m w).2 = a → m w = ((m w).1, a).
Proof. destruct (m w). by intros <-. Qed.

Notation "'let*' x := m 'in' k" := (bind m (λ x, k))
  (at level 200, x pattern, m at level 100, k at level 200, only parsing) : opc_scope.
Open Scope opc_scope.

(** [for x := range l { acc = f(x, acc) }] *)
Fixpoint for_each {W A B} (l : list A) (acc : B) (f : A → B → M W B) : M W B :=
  match l with
  | [] => ret acc
  | x :: l => let* acc := f x acc in for_each l acc f
  end.

(** The same loop when an iteration may return an error: the first error ends it. *)
Fixpoint for_each_or {W A B} (l : list A) (acc : B) (f : A → B → M W (error + B)) : M W (error + B) :=
  match l with
  | [] => ret (inr acc)
  | x :: l =>
      let* res := f x acc in
      match res with inl err => ret (inl err) | inr acc => for_each_or l acc f end
  end.

(** Computations are compared by what they do in every world. *)
Definition eqM {W A} : relation (M W A) := λ m1 m2, ∀ w, m1 w = m2 w.
Infix "≈" := eqM (at level 70, no associativity) : opc_scope.

#[export] Instance eqM_equivalence {W A} : Equivalence (@eqM W A).
Proof. split; unfold eqM; [done|by intros m1 m2 ? w|]. intros m1 m2 m3 H12 H23 w. by rewrite H12, H23. Qed.

#[export] Instance bind_proper {W A B} :
  Proper (eqM ==> pointwise_relation A eqM ==> eqM) (@bind W A B).
Proof. intros m1 m2 Hm f1 f2 Hf w. unfold bind. rewrite Hm. destruct (m2 w). apply Hf. Qed.

Lemma bind_assoc {W A B C} (m : M W A) (f : A → M W B) (g : B → M W C) :
  (let* b := (let* a := m in f a) in g b) ≈ (let* a := m in let* b := f a in g b).
Proof. intros w. unfold bind. by destruct (m w). Qed.

Lemma bind_ret_l {W A B} (a : A) (f : A → M W B) : (let* x := ret a in f x) ≈ f a.
Proof. done. Qed.

Lemma bind_ret_r {W A} (m : M W A) : (let* x := m in ret x) ≈ m.
Proof. intros w. unfold bind. by destruct (m w). Qed.

Lemma for_each_ext {W A B} (l : list A) (acc : B) (f g : A → B → M W B) :
  (∀ x acc, x ∈ l → f x acc ≈ g x acc) → for_each l acc f ≈ for_each l acc g.
Proof.
  revert acc. induction l as [|x l IH]; intros acc Hfg; [done|]. simpl.
  apply bind_proper; [by apply Hfg, list_elem_of_here|]. intros acc'.
  apply IH. intros. by apply Hfg, list_elem_of_further.
Qed.

Lemma for_each_app {W A B} (l1 l2 : list A) (acc : B) (f : A → B → M W B) :
  for_each (l1 ++ l2) acc f ≈ (let* acc := for_each l1 acc f in for_each l2 acc f).
Proof.
  revert acc. induction l1 as [|x l1 IH]; intros acc; simpl; [by rewrite bind_ret_l|].
  rewrite bind_assoc. f_equiv. intros acc'. apply IH.
Qed.

Lemma for_each_fmap {W A B C} (h : C → A) (l : list C) (acc : B) (f : A → B → M W B) :
  for_each (h <$> l) acc f ≈ for_each l acc (λ x acc, f (h x) acc).
Proof.
  revert acc. induction l as [|x l IH]; intros acc; [done|]. simpl. f_equiv. intros acc'. apply IH.
Qed.

(** A value and a Go error of which exactly one is meaningful. *)
Abbreviation Or A := (error + A)%type.

(** ** The client and the tracker *)

Class Client (W : Type) := {
  client_List : Kind → option (gmap string string) → M W (Or (list Object));
  client_ListWSAs : M W (Or (list WorkloadServiceAccount));
  client_ListCWSAs : M W (Or (list ClusterWorkloadServiceAccount));
  client_ListDeploymentNamespaces : gmap string string → M W (Or (list string));
  client_Get : Kind → NamespacedName → M W (Or Object);
  client_GetNamespace : string → M W (option error);
  client_Apply : ApplyConfiguration → M W (option error);
  client_Delete : Object → M W (option error);
  client_GetWSA : NamespacedName → M W (Or WorkloadServiceAccount);
  client_GetCWSA : NamespacedName → M W (Or ClusterWorkloadServiceAccount);
  (** [Patch(obj, client.MergeFrom(original))] on a custom resource; the answer of the server is
      decoded into the object, which is the first result *)
  client_Patch : WSAResource → WSAResource → M W (WSAResource * option error);
  (** [Status().Patch] with an apply patch of the conditions of the object *)
  client_PatchStatus : WSAResource → list Condition → M W (WSAResource * option error)
}.

(** [record.EventRecorder], and the time a stage took as [%v] prints it. *)
Class EventRecorder (W : Type) := {
  recorder_Event : WSAResource → string → string → string → M W ();
  time_Since : M W string
}.

(** A value of the interface [GCTrackerInterface] is a tracker with its method. *)
Class GCTrackerInterface (W : Type) := {
  Tracker : Type;
  MarkForDeletion : Tracker → string → M W ()
}.

(** [runtime.Scheme] and [apiutil.GVKForObject] on the object behind a resource: the API version and
    the kind, or an error. *)
Class SchemeInterface := {
  RuntimeScheme : Type;
  GVKForObject : WSAResource → RuntimeScheme → option (string * string)
}.

(** [ctrl.Result] *)
Record CtrlResult := mkCtrlResult { RequeueAfter : Z }.
Definition no_requeue : CtrlResult := {| RequeueAfter := 0 |}.

(** The state of the API server, and what reads and writes do to it. *)
Class ClientLaws (W : Type) `{Client W} `{GCTrackerInterface W} := {
  view : W → gmap Ref Object;
  view_List k sel w : view (client_List k sel w).1 = view w;
  view_ListWSAs w : view (client_ListWSAs w).1 = view w;
  view_ListCWSAs w : view (client_ListCWSAs w).1 = view w;
  view_ListDeploymentNamespaces sel w : view (client_ListDeploymentNamespaces sel w).1 = view w;
  view_Get k key w : view (client_Get k key w).1 = view w;
  view_GetNamespace n w : view (client_GetNamespace n w).1 = view w;
  view_Mark t uid w : view (MarkForDeletion t uid w).1 = view w;
  view_GetWSA key w : view (client_GetWSA key w).1 = view w;
  view_GetCWSA key w : view (client_GetCWSA key w).1 = view w;
  view_Patch obj original w : view (client_Patch obj original w).1 = view w;
  view_PatchStatus obj conditions w : view (client_PatchStatus obj conditions w).1 = view w;
  (** the answer to a patch is about the same object *)
  PatchStatus_key obj conditions w :
    GetNamespacedName (client_PatchStatus obj conditions w).2.1 = GetNamespacedName obj;
  PatchStatus_scoped obj conditions w :
    IsClusterScoped (client_PatchStatus obj conditions w).2.1 = IsClusterScoped obj;
  (** a typed list returns objects of its kind *)
  list_kind k sel w w' objs o : client_List k sel w = (w', inr objs) → o ∈ objs → obj_Kind o = k;
  (** a label selector is applied by the server *)
  list_selected k sel w w' objs o :
    client_List k (Some sel) w = (w', inr objs) → o ∈ objs → sel ⊆ default ∅ (obj_Labels o);
  (** a successful apply stores the configuration; an apply only touches its object *)
  apply_carries a w w' :
    client_Apply a w = (w', None) → ∃ o, view w' !! ac_ref a = Some o ∧ carries a o;
  apply_frame a w ref : ref ≠ ac_ref a → view (client_Apply a w).1 !! ref = view w !! ref;
  (** a delete that succeeds, or finds nothing, leaves no object; a delete only touches its object *)
  delete_gone o w w' e :
    client_Delete o w = (w', e) → (e = None ∨ ∃ err, e = Some err ∧ IsNotFound err) →
    view w' !! obj_ref o = None;
  delete_frame o w ref : ref ≠ obj_ref o → view (client_Delete o w).1 !! ref = view w !! ref
}.

(** Lists that are not answered from a stale cache: what is stored and selected is listed. *)
Class CurrentReads (W : Type) `{ClientLaws W} : Prop :=
  list_current k sel w w' objs o :
    client_List k sel w = (w', inr objs) → view w !! obj_ref o = Some o → obj_Kind o = k →
    default ∅ sel ⊆ default ∅ (obj_Labels o) → o ∈ objs.

(** Events and clocks do not touch the objects. *)
Class EventRecorderLaws (W : Type) `{ClientLaws W} `{EventRecorder W} : Prop := {
  view_Event obj eventType reason message w : view (recorder_Event obj eventType reason message w).1 = view w;
  view_Since w : view (time_Since w).1 = view w
}.

(** ** Frames: the objects a computation may write *)

Section frames.
Context {W : Type} `{ClientLaws W}.

(** Outside [S] the computation leaves the cluster as it is. *)
Definition writes_only {A} (S : Ref → Prop) (m : M W A) : Prop :=
  ∀ w ref, ¬ S ref → view (m w).1 !! ref = view w !! ref.

Lemma writes_only_ret {A} S (a : A) : writes_only S (ret a).
Proof. done. Qed.

Lemma writes_only_bind {A B} S (m : M W A) (k : A → M W B) :
  writes_only S m → (∀ a, writes_only S (k a)) → writes_only S (bind m k).
Proof.
  intros Hm Hk w ref Href. unfold bind. specialize (Hm w ref Href).
  destruct (m w) as [w1 a]. simpl in Hm. by rewrite (Hk a w1 ref Href).
Qed.

Lemma writes_only_mono {A} (S T : Ref → Prop) (m : M W A) :
  (∀ ref, S ref → T ref) → writes_only S m → writes_only T m.
Proof. intros HST Hm w ref Href. apply Hm. auto. Qed.

Lemma writes_only_for_each {A B} S (l : list A) (acc : B) f :
  (∀ x acc, x ∈ l → writes_only S (f x acc)) → writes_only S (for_each l acc f).
Proof.
  revert acc. induction l as [|x l IH]; intros acc Hf; [apply writes_only_ret|].
  apply writes_only_bind; [by apply Hf, list_elem_of_here|].
  intros acc'. apply IH. intros y acc'' Hy. by apply Hf, list_elem_of_further.
Qed.

Lemma writes_only_Apply S a : S (ac_ref a) → writes_only S (client_Apply a).
Proof. intros HS w ref Href. apply apply_frame. by intros ->. Qed.

Lemma writes_only_Delete S o : S (obj_ref o) → writes_only S (client_Delete o).
Proof. intros HS w ref Href. apply delete_frame. by intros ->. Qed.

Lemma writes_only_Mark S t uid : writes_only S (MarkForDeletion t uid).
Proof. intros w ref _. by rewrite view_Mark. Qed.

Lemma writes_only_List S k sel : writes_only S (client_List k sel).
Proof. intros w ref _. by rewrite view_List. Qed.

Lemma writes_only_ListWSAs S : writes_only S client_ListWSAs.
Proof. intros w ref _. by rewrite view_ListWSAs. Qed.

Lemma writes_only_ListCWSAs S : writes_only S client_ListCWSAs.
Proof. intros w ref _. by rewrite view_ListCWSAs. Qed.

(** The computation leaves one object as it is. *)
Definition keeps {A} (ref : Ref) (m : M W A) : Prop := ∀ w, view (m w).1 !! ref = view w !! ref.

Lemma keeps_ret {A} ref (a : A) : keeps ref (ret a).
Proof. done. Qed.

Lemma keeps_bind {A B} ref (m : M W A) (k : A → M W B) :
  keeps ref m → (∀ a, keeps ref (k a)) → keeps ref (bind m k).
Proof.
  intros Hm Hk w. unfold bind. specialize (Hm w). destruct (m w) as [w1 a]. simpl in Hm. by rewrite (Hk a w1).
Qed.

Lemma keeps_for_each {A B} ref (l : list A) (acc : B) f :
  (∀ x acc, keeps ref (f x acc)) → keeps ref (for_each l acc f).
Proof.
  intros Hf. revert acc. induction l as [|x l IH]; intros acc; [apply keeps_ret|]. by apply keeps_bind.
Qed.

Lemma keeps_for_each_or {A B} ref (l : list A) (acc : B) f :
  (∀ x acc, keeps ref (f x acc)) → keeps ref (for_each_or l acc f).
Proof.
  intros Hf. revert acc. induction l as [|x l IH]; intros acc; [apply keeps_ret|].
  apply keeps_bind; [done|]. intros [e|b]; [apply keeps_ret|apply IH].
Qed.

(** Reads and patches of custom resources keep every object. *)
Lemma keeps_List ref k sel : keeps ref (client_List k sel).
Proof. intros w. by rewrite view_List. Qed.
Lemma keeps_ListWSAs ref : keeps ref client_ListWSAs.
Proof. intros w. by rewrite view_ListWSAs. Qed.
Lemma keeps_ListCWSAs ref : keeps ref client_ListCWSAs.
Proof. intros w. by rewrite view_ListCWSAs. Qed.
Lemma keeps_ListDeploymentNamespaces ref sel : keeps ref (client_ListDeploymentNamespaces sel).
Proof. intros w. by rewrite view_ListDeploymentNamespaces. Qed.
Lemma keeps_Get ref k key : keeps ref (client_Get k key).
Proof. intros w. by rewrite view_Get. Qed.
Lemma keeps_GetNamespace ref n : keeps ref (client_GetNamespace n).
Proof. intros w. by rewrite view_GetNamespace. Qed.
Lemma keeps_GetWSA ref key : keeps ref (client_GetWSA key).
Proof. intros w. by rewrite view_GetWSA. Qed.
Lemma keeps_GetCWSA ref key : keeps ref (client_GetCWSA key).
Proof. intros w. by rewrite view_GetCWSA. Qed.
Lemma keeps_Patch ref obj original : keeps ref (client_Patch obj original).
Proof. intros w. by rewrite view_Patch. Qed.
Lemma keeps_PatchStatus ref obj conditions : keeps ref (client_PatchStatus obj conditions).
Proof. intros w. by rewrite view_PatchStatus. Qed.

Lemma keeps_writes_only {A} S ref (m : M W A) : writes_only S m → ¬ S ref → keeps ref m.
Proof. intros Hm Hn w. by apply Hm. Qed.

Lemma writes_only_Get S k key : writes_only S (client_Get k key).
Proof. intros w ref _. by rewrite view_Get. Qed.
End frames.

#[export] Hint Resolve writes_only_ret writes_only_Mark writes_only_List writes_only_ListWSAs
  writes_only_ListCWSAs writes_only_Get : opc.
#[export] Hint Resolve keeps_ret keeps_List keeps_ListWSAs keeps_ListCWSAs keeps_ListDeploymentNamespaces
  keeps_Get keeps_GetNamespace keeps_GetWSA keeps_GetCWSA keeps_Patch keeps_PatchStatus : opc.

Section recorder_frames.
Context `{EventRecorderLaws W}.
Lemma keeps_Event ref obj eventType reason message : keeps ref (recorder_Event obj eventType reason message).
Proof. intros w. by rewrite view_Event. Qed.
Lemma keeps_Since ref : keeps ref time_Since.
Proof. intros w. by rewrite view_Since. Qed.
End recorder_frames.

#[export] Hint Resolve keeps_Event keeps_Since : opc.

(** Follows the structure of a computation down to its calls. *)
Ltac keep := repeat first
  [ solve [auto with opc]
  | apply keeps_bind; [|intros ?]
  | apply keeps_for_each; intros ? ?
  | apply keeps_for_each_or; intros ? ?
  | progress cbv beta iota zeta
  | case_match ].

(** ** Loops that collect errors *)

Section collecting.
Context {W A B : Type} (f : A → B → M W B) (ok : B → Prop).

(** Iterations never drop an error collected before. *)
Definition collects : Prop := ∀ x b w w' b', f x b w = (w', b') → ok b' → ok b.

Lemma for_each_no_error (Hc : collects) l b w w' b' : for_each l b f w = (w', b') → ok b' → ok b.
Proof.
  revert b w. induction l as [|x l IH]; intros b w; [by intros [= _ ->]|].
  simpl. unfold bind. destruct (f x b w) as [w1 b1] eqn:Hx. intros Hrun Hok.
  eapply Hc; [done|]. by eapply IH.
Qed.

(** When the loop collected no error, every iteration succeeded; what an iteration establishes
    holds at the end if later iterations keep it. *)
Lemma for_each_all_done (Hc : collects) (Done : A → W → Prop) l b w w' b' x :
  (∀ x b w w' b', x ∈ l → f x b w = (w', b') → ok b' → Done x w') →
  (∀ x y b w w' b', x ∈ l → y ∈ l → Done x w → f y b w = (w', b') → ok b' → Done x w') →
  for_each l b f w = (w', b') → ok b' → x ∈ l → Done x w'.
Proof.
  intros Hdone Hkeep.
  assert (Hrest : ∀ l2 b w w' b', l2 ⊆ l → for_each l2 b f w = (w', b') → ok b' →
            ∀ x, x ∈ l → Done x w → Done x w').
  { induction l2 as [|y l2 IH]; intros b0 w0 w1 b1 Hsub; simpl.
    { intros [= -> _]; auto. }
    unfold bind. destruct (f y b0 w0) as [w2 b2] eqn:Hy. intros Hrun Hok z Hz Hd.
    assert (y ∈ l) by (apply Hsub, list_elem_of_here).
    assert (ok b2) by by eapply for_each_no_error.
    eapply (IH b2 w2); [|done..|by eapply Hkeep]. intros y' ?. by apply Hsub, list_elem_of_further. }
  assert (Hall : ∀ l2 b w w' b', l2 ⊆ l → for_each l2 b f w = (w', b') → ok b' →
            ∀ x, x ∈ l2 → Done x w').
  { induction l2 as [|y l2 IH]; intros b0 w0 w1 b1 Hsub; simpl; [by intros _ _ ? ?%elem_of_nil|].
    unfold bind. destruct (f y b0 w0) as [w2 b2] eqn:Hy. intros Hrun Hok z Hz.
    assert (y ∈ l) by (apply Hsub, list_elem_of_here).
    assert (ok b2) by by eapply for_each_no_error.
    assert (l2 ⊆ l) by (intros ??; by apply Hsub, list_elem_of_further).
    apply elem_of_cons in Hz as [->|Hz]; [|by eapply IH].
    eapply Hrest; [..|by eapply Hdone]; done. }
  intros Hrun Hok Hx. by eapply Hall.
Qed.
End collecting.

(** ** An in-memory cluster

    A concrete instance on which the theorems are evaluated: a store of objects, the custom
    resources, the namespaces of the labelled deployments, and a script of faults, one per call
    ([true]: the call fails and does nothing). *)

Module InMemory.

Record World := mkWorld {
  store : gmap Ref Object;
  wsas : list WorkloadServiceAccount;
  cwsas : list ClusterWorkloadServiceAccount;
  agents : list string;
  namespaces : gset string;
  script : list bool;
  marked : list string;
  patches : list (NamespacedName * list Condition);
  events : list (NamespacedName * string)
}.

Definition set_store (s : gmap Ref Object) (w : World) : World :=
  mkWorld s (wsas w) (cwsas w) (agents w) (namespaces w) (script w) (marked w) (patches w) (events w).

Definition set_patches (l : list (NamespacedName * list Condition)) (w : World) : World :=
  mkWorld (store w) (wsas w) (cwsas w) (agents w) (namespaces w) (script w) (marked w) l (events w).

Definition set_events (l : list (NamespacedName * string)) (w : World) : World :=
  mkWorld (store w) (wsas w) (cwsas w) (agents w) (namespaces w) (script w) (marked w) (patches w) l.

(** Stores the new version of a custom resource. *)
Definition put_resource (r : WSAResource) (w : World) : World :=
  match r with
  | wsaAdapter x =>
      mkWorld (store w)
        ((λ y, if decide (GetNamespacedName (wsaAdapter y) = GetNamespacedName r) then x else y) <$> wsas w)
        (cwsas w) (agents w) (namespaces w) (script w) (marked w) (patches w) (events w)
  | clusterWSAAdapter x =>
      mkWorld (store w) (wsas w)
        ((λ y, if decide (GetNamespacedName (clusterWSAAdapter y) = GetNamespacedName r) then x else y) <$> cwsas w)
        (agents w) (namespaces w) (script w) (marked w) (patches w) (events w)
  end.

Definition pop (w : World) : World :=
  mkWorld (store w) (wsas w) (cwsas w) (agents w) (namespaces w) (tail (script w)) (marked w) (patches w) (events w).

Definition fault : error := ErrApi ReasonOther "fault".

(** Runs a call unless the script says it fails. *)
Definition call {A} (failed : A) (m : World → World * A) : World → World * A :=
  λ w, match script w with
       | true :: _ => (pop w, failed)
       | _ => m (pop w)
       end.

Definition stored (k : Kind) (sel : option (gmap string string)) (w : World) : list Object :=
  filter (λ o, obj_Kind o = k ∧ default ∅ sel ⊆ default ∅ (obj_Labels o)) (map_to_list (store w)).*2.

Definition apply (a : ApplyConfiguration) (old : option Object) : Object := {|
  obj_Kind := ac_Kind a;
  obj_Key := ac_Key a;
  obj_UID := from_option obj_UID "new" old;
  obj_Labels := Some (ac_Labels a ∪ default ∅ (old ≫= obj_Labels));
  obj_Annotations := ac_Annotations a ∪ from_option obj_Annotations ∅ old;
  obj_Owners := option_list (ac_Owner a) ++ from_option obj_Owners [] old;
  obj_Body := ac_Body a
|}.

(** The role reference of a binding cannot be changed. *)
Definition admissible (a : ApplyConfiguration) (old : option Object) : bool :=
  match ac_Body a, obj_Body <$> old with
  | BindingBody roleRef _, Some (BindingBody roleRef' _) => bool_decide (roleRef = roleRef')
  | _, _ => true
  end.

#[export] Instance client : Client World := {|
  client_List k sel := call (inl fault) (λ w, (w, inr (stored k sel w)));
  client_ListWSAs := call (inl fault) (λ w, (w, inr (wsas w)));
  client_ListCWSAs := call (inl fault) (λ w, (w, inr (cwsas w)));
  client_ListDeploymentNamespaces _ := call (inl fault) (λ w, (w, inr (agents w)));
  client_Get k key := call (inl fault) (λ w,
    (w, match store w !! (k, key) with
        | Some o => inr o
        | None => inl (ErrApi ReasonNotFound "not found")
        end));
  client_GetNamespace n := call (Some fault) (λ w,
    (w, if decide (n ∈ namespaces w) then None else Some (ErrApi ReasonNotFound "not found")));
  client_Apply a := call (Some fault) (λ w,
    if admissible a (store w !! ac_ref a)
    then (set_store (<[ac_ref a := apply a (store w !! ac_ref a)]> (store w)) w, None)
    else (w, Some (ErrApi ReasonOther "roleRef is immutable")));
  client_Delete o := call (Some fault) (λ w,
    match store w !! obj_ref o with
    | Some _ => (set_store (delete (obj_ref o) (store w)) w, None)
    | None => (w, Some (ErrApi ReasonNotFound "not found"))
    end);
  client_GetWSA key := call (inl fault) (λ w,
    (w, match List.find (λ x, bool_decide (GetNamespacedName (wsaAdapter x) = key)) (wsas w) with
        | Some x => inr x
        | None => inl (ErrApi ReasonNotFound "not found")
        end));
  client_GetCWSA key := call (inl fault) (λ w,
    (w, match List.find (λ x, bool_decide (GetNamespacedName (clusterWSAAdapter x) = key)) (cwsas w) with
        | Some x => inr x
        | None => inl (ErrApi ReasonNotFound "not found")
        end));
  client_Patch obj original := call (obj, Some fault) (λ w, (put_resource obj w, (obj, None)));
  client_PatchStatus obj conditions := call (obj, Some fault) (λ w,
    (set_patches ((GetNamespacedName obj, conditions) :: patches w) w, (obj, None)))
|}.

#[export] Instance recorder : EventRecorder World := {|
  recorder_Event obj eventType reason message := λ w,
    (set_events ((GetNamespacedName obj, reason) :: events w) w, ());
  time_Since := λ w, (w, "1s")
|}.

#[export] Instance tracker : GCTrackerInterface World := {|
  Tracker := ();
  MarkForDeletion _ uid := λ w,
    (mkWorld (store w) (wsas w) (cwsas w) (agents w) (namespaces w) (script w) (uid :: marked w) (patches w) (events w), ())
|}.

#[export] Instance scheme : SchemeInterface := {|
  RuntimeScheme := ();
  GVKForObject r _ := Some ("agent.octopus.com/v1beta1",
    if IsClusterScoped r then "ClusterWorkloadServiceAccount" else "WorkloadServiceAccount")
|}.

Lemma call_cases {A} (failed : A) m w :
  call failed m w = (pop w, failed) ∨ call failed m w = m (pop w).
Proof. unfold call. destruct (script w) as [|[] ?]; auto. Qed.

Lemma call_store {A} (failed : A) m w :
  store (m (pop w)).1 = store (pop w) → store (call failed m w).1 = store w.
Proof. intros Hm. by destruct (call_cases failed m w) as [->| ->]. Qed.

Lemma stored_spec k sel w o :
  o ∈ stored k sel w → obj_Kind o = k ∧ default ∅ sel ⊆ default ∅ (obj_Labels o).
Proof. unfold stored. by intros [? _]%list_elem_of_filter. Qed.

Lemma apply_stores a old : carries a (apply a old).
Proof.
  split_and!; simpl; [done|apply map_union_subseteq_l..| |done].
  intros owner ->. apply list_elem_of_here.
Qed.

#[export] Instance laws : ClientLaws World.
Proof.
  refine {| view := store |}; try (intros; by apply call_store);
    try (intros [] ? ?; by apply call_store).
  - done.
  - intros obj conditions w. simpl. unfold call. by destruct (script w) as [|[] ?].
  - intros obj conditions w. simpl. unfold call. by destruct (script w) as [|[] ?].
  - intros k sel w w' objs o Hl Ho. simpl in Hl.
    destruct (call_cases (inl fault) (λ w, (w, inr (stored k sel w))) w) as [E|E];
      rewrite E in Hl; [done|]. injection Hl as _ <-. by apply stored_spec in Ho as [? _].
  - intros k sel w w' objs o Hl Ho. simpl in Hl.
    destruct (call_cases (inl fault) (λ w, (w, inr (stored k (Some sel) w))) w) as [E|E];
      rewrite E in Hl; [done|]. injection Hl as _ <-. by apply stored_spec in Ho as [_ ?].
  - intros a w w'. simpl. unfold call. intros Hr.
    assert (∃ o, o = apply a (store w !! ac_ref a) ∧ store w' = <[ac_ref a := o]> (store w))
      as (o & -> & ->).
    { destruct (script w) as [|[] ?]; [|done|]; simpl in Hr; destruct (admissible _ _); try done;
        injection Hr as <-; simpl; eauto. }
    rewrite lookup_insert_eq. eexists. split; [done|apply apply_stores].
  - intros a w ref Href. simpl. unfold call. destruct (script w) as [|[] ?]; [|done|];
      simpl; destruct (admissible _ _); simpl; rewrite ?lookup_insert_ne by congruence; done.
  - intros o w w' e. simpl. unfold call. intros Hr He.
    destruct (script w) as [|[] ?]; [|injection Hr as _ <-; by destruct He as [|(? & [= <-] & ?)]|];
      simpl in Hr; destruct (store w !! obj_ref o) eqn:Ho; injection Hr as <- <-; simpl;
      rewrite ?lookup_delete_eq; done.
  - intros o w ref Href. simpl. unfold call. destruct (script w) as [|[] ?]; [|done|];
      simpl; destruct (store w !! obj_ref o); simpl; rewrite ?lookup_delete_ne by congruence; done.
Defined.

#[export] Instance recorder_laws : EventRecorderLaws World.
Proof. done. Qed.

#[export] Instance current : CurrentReads World.
Proof.
  intros k sel w w' objs o Hl Ho Hk Hsel. simpl in Hl.
  destruct (call_cases (inl fault) (λ w, (w, inr (stored k sel w))) w) as [E|E]; rewrite E in Hl; [done|].
  injection Hl as _ <-. unfold stored. rewrite list_elem_of_filter. split; [done|].
  apply (list_elem_of_fmap_2' snd _ (obj_ref o, o)); [|done]. by apply elem_of_map_to_list.
Qed.

End InMemory.
