(* ===== verification/Resources.v ===== *)
(** * The objects the controller writes

    The service of src/internal/rules/resource_management.go: roles, service accounts and role
    bindings are written with server-side apply, and the managed objects that no resource asks for
    are deleted.  Every loop records an error and goes on. *)

From Stdlib Require Import ZArith.
From S2P Require Import Prelude GoLib Api Scopes ServiceAccounts Cluster.

(** ** Names *)

Section names.
Context `{ThirdParty}.

Definition hashPermissions (permissions : list PolicyRule) : string :=
  shortHash (format_rules permissions).

Definition roleName (permissions : list PolicyRule) : string :=
  "octopus-role-" +:+ hashPermissions permissions.

Definition clusterRoleName (permissions : list PolicyRule) : string :=
  "octopus-clusterrole-" +:+ hashPermissions permissions.

Definition roleBindingName (resourceName roleRefName : string) : string :=
  "octopus-rb-" +:+ shortHash (resourceName +:+ "-" +:+ roleRefName).

Definition clusterRoleBindingName (resourceName roleRefName : string) : string :=
  "octopus-crb-" +:+ shortHash (resourceName +:+ "-" +:+ roleRefName).
End names.

(** ** The service *)

Record serviceAccountInfo := mkServiceAccountInfo { sai_name : string; sai_namespace : string }.

(** rbac/v1 [Role], as [createRoleIfNeeded] returns it. *)
Record Role := mkRole {
  role_Name : string;
  role_Namespace : string;
  role_Labels : option (gmap string string);
  role_Rules : list PolicyRule
}.

Definition zero_role : Role := mkRole "" "" None [].

(** The client is the one of [Client]; the other two fields may be nil. *)
Record ResourceManagementService `{GCTrackerInterface W} `{SchemeInterface} := mkRMS {
  rms_scheme : option RuntimeScheme;
  rms_gcTracker : option Tracker
}.

Arguments mkRMS {W _ _} _ _.
Arguments ResourceManagementService {W _ _}.

Definition managed_labels : gmap string string := {[ManagedByLabel := ManagedByValue]}.

(** [err = multierr.Append(err, callErr)] when [callErr != nil]. *)
Definition collect `{ThirdParty} (err callErr : option error) : option error :=
  match callErr with None => err | Some e => multierr_Append err (Some e) end.

(** [fmt.Errorf(msg + ": %w", err)] on a non-nil error. *)
Definition wrap (msg : string) (err : option error) : option error := ErrWrap msg <$> err.

Section service.
Context `{Client W} `{!GCTrackerInterface W} `{SchemeInterface} `{ThirdParty}.

Definition NewResourceManagementService : ResourceManagementService := mkRMS None None.

Definition NewResourceManagementServiceWithScheme (scheme : option RuntimeScheme) :
    ResourceManagementService := mkRMS scheme None.

(** The method with a pointer receiver: it changes the service it is called on. *)
Definition rms_SetGCTracker (r : ResourceManagementService) (tracker : Tracker) :
    ResourceManagementService := mkRMS (rms_scheme r) (Some tracker).

Definition markForDeletion (r : ResourceManagementService) (o : Object) : M W () :=
  match rms_gcTracker r with
  | Some tracker => MarkForDeletion tracker (obj_UID o)
  | None => ret ()
  end.

Definition ownerReferenceAC (r : ResourceManagementService) (resource : WSAResource) :
    option OwnerReference :=
  match rms_scheme r with
  | None => None
  | Some scheme =>
      match GVKForObject resource scheme with
      | None => None
      | Some (groupVersion, kind) => Some {|
          or_APIVersion := groupVersion;
          or_Kind := kind;
          or_Name := meta_Name (GetOwnerMeta resource);
          or_UID := meta_UID (GetOwnerMeta resource);
          or_Controller := true;
          or_BlockOwnerDeletion := true
        |}
      end
  end.

(** The apply configurations carry the fields of the references, subjects and rules unchanged. *)
Definition roleRefAC (ref : RoleRef) : RoleRef := mkRoleRef (rr_APIGroup ref) (rr_Kind ref) (rr_Name ref).

Definition subjectsAC (subjects : list Subject) : list Subject :=
  foldl (λ result s, result ++ [mkSubject (sub_Kind s) (sub_Name s) (sub_Namespace s)]) [] subjects.

Definition policyRulesAC (rules : list PolicyRule) : list PolicyRule :=
  foldl (λ result rule, result ++ [{|
    APIGroups := APIGroups rule;
    Resources := Resources rule;
    ResourceNames := ResourceNames rule;
    Verbs := Verbs rule;
    NonResourceURLs := NonResourceURLs rule
  |}]) [] rules.

(** *** Lists *)

Definition GetWorkloadServiceAccounts : M W (Or (list WorkloadServiceAccount)) :=
  let* res := client_ListWSAs in
  ret (match res with
       | inr items => inr items
       | inl err => inl (ErrWrap "failed to list workload service accounts" err)
       end).

Definition GetClusterWorkloadServiceAccounts : M W (Or (list ClusterWorkloadServiceAccount)) :=
  let* res := client_ListCWSAs in
  ret (match res with
       | inr items => inr items
       | inl err => inl (ErrWrap "failed to list cluster workload service accounts" err)
       end).

(** The body of the five functions below; the iterators filter as they go. *)
Definition get_managed (k : Kind) (msg : string) : M W (Or (list Object)) :=
  let* res := client_List k None in
  ret (match res with
       | inr items => inr (filter (λ v, IsOctopusManaged (obj_Labels v)) items)
       | inl err => inl (ErrWrap msg err)
       end).

Definition GetServiceAccounts := get_managed KServiceAccount "failed to list service accounts".
Definition GetRoles := get_managed KRole "failed to list roles".
Definition GetClusterRoles := get_managed KClusterRole "failed to list cluster roles".
Definition GetRoleBindings := get_managed KRoleBinding "failed to list role bindings".
Definition GetClusterRoleBindings := get_managed KClusterRoleBinding "failed to list cluster role bindings".

(** *** Roles *)

(** Both functions apply a role named after a hash of the rules. *)
Definition createClusterRoleIfNeeded (r : ResourceManagementService) (resource : WSAResource) :
    M W (Or Role) :=
  let permissions := GetPermissionRules resource in
  if decide (permissions = []) then ret (inr zero_role)
  else
    let name := clusterRoleName permissions in
    let* err := client_Apply {|
      ac_Kind := KClusterRole;
      ac_Key := mkNN "" name;
      ac_Labels := managed_labels;
      ac_Annotations := ∅;
      ac_Owner := ownerReferenceAC r resource;
      ac_Body := RoleBody (policyRulesAC permissions)
    |} in
    ret (match err with
         | Some err => inl (ErrWrap ("failed to apply ClusterRole " +:+ name) err)
         | None => inr (mkRole name "" None [])
         end).

Definition createRoleIfNeeded (r : ResourceManagementService) (resource : WSAResource) :
    M W (Or Role) :=
  let permissions := GetPermissionRules resource in
  if decide (permissions = []) then ret (inr zero_role)
  else if IsClusterScoped resource then
    let* res := createClusterRoleIfNeeded r resource in
    ret (match res with
         | inr clusterRole => inr (mkRole (role_Name clusterRole) "" None [])
         | inl err => inl err
         end)
  else
    let namespace := GetNamespace resource in
    let name := roleName permissions in
    let* err := client_Apply {|
      ac_Kind := KRole;
      ac_Key := mkNN namespace name;
      ac_Labels := managed_labels;
      ac_Annotations := ∅;
      ac_Owner := ownerReferenceAC r resource;
      ac_Body := RoleBody (policyRulesAC permissions)
    |} in
    ret (match err with
         | Some err => inl (ErrWrap ("failed to apply Role " +:+ name) err)
         | None => inr (mkRole name namespace (Some managed_labels) permissions)
         end).

Definition EnsureRoles (r : ResourceManagementService) (resources : list WSAResource) :
    M W (gmap NamespacedName Role * option error) :=
  for_each resources (∅, None) (λ resource '(createdRoles, err),
    let* res := createRoleIfNeeded r resource in
    ret (match res with
         | inl createErr => (createdRoles, multierr_Append err (Some createErr))
         | inr role =>
             if decide (role_Name role ≠ "")
             then (<[GetNamespacedName resource := role]> createdRoles, err)
             else (createdRoles, err)
         end)).

(** *** Service accounts *)

Definition createServiceAccount (r : ResourceManagementService) (namespace : string)
    (templateServiceAccount : ServiceAccount) : M W (option error) :=
  let labels := default ∅ (sa_Labels templateServiceAccount) in
  let labels := <[ManagedByLabel := ManagedByValue]> labels in
  let* err := client_Apply {|
    ac_Kind := KServiceAccount;
    ac_Key := mkNN namespace (sa_Name templateServiceAccount);
    ac_Labels := labels;
    ac_Annotations := sa_Annotations templateServiceAccount;
    ac_Owner := None;
    ac_Body := AccountBody
  |} in
  ret (wrap ("failed to apply ServiceAccount " +:+ sa_Name templateServiceAccount +:+
             " in namespace " +:+ namespace) err).

Definition EnsureServiceAccounts (r : ResourceManagementService) (serviceAccounts : list ServiceAccount)
    (targetNamespaces : list string) : M W (option error) :=
  for_each serviceAccounts None (λ serviceAccount err,
    for_each targetNamespaces err (λ namespace err,
      let* createErr := createServiceAccount r namespace serviceAccount in
      ret (collect err createErr))).

(** *** Role bindings *)

Definition createRoleBinding (r : ResourceManagementService) (resource : WSAResource)
    (roleRef : RoleRef) (subjects : list Subject) : M W (option error) :=
  let name := roleBindingName (GetName resource) (rr_Name roleRef) in
  let namespace := GetNamespace resource in
  let* err := client_Apply {|
    ac_Kind := KRoleBinding;
    ac_Key := mkNN namespace name;
    ac_Labels := managed_labels;
    ac_Annotations := ∅;
    ac_Owner := if IsClusterScoped resource then None else ownerReferenceAC r resource;
    ac_Body := BindingBody (roleRefAC roleRef) (subjectsAC subjects)
  |} in
  ret (wrap ("failed to apply RoleBinding " +:+ name +:+ " in namespace " +:+ namespace) err).

Definition createClusterRoleBinding (r : ResourceManagementService) (resource : WSAResource)
    (roleRef : RoleRef) (subjects : list Subject) : M W (option error) :=
  let name := clusterRoleBindingName (GetName resource) (rr_Name roleRef) in
  let* err := client_Apply {|
    ac_Kind := KClusterRoleBinding;
    ac_Key := mkNN "" name;
    ac_Labels := managed_labels;
    ac_Annotations := ∅;
    ac_Owner := if IsClusterScoped resource then ownerReferenceAC r resource else None;
    ac_Body := BindingBody (roleRefAC roleRef) (subjectsAC subjects)
  |} in
  ret (wrap ("failed to apply ClusterRoleBinding " +:+ name) err).

Definition createRoleBindingsForResource (r : ResourceManagementService) (resource : WSAResource)
    (serviceAccounts : list serviceAccountInfo) (createdRoles : gmap NamespacedName Role) :
    M W (option error) :=
  let subjects := (λ sa, mkSubject "ServiceAccount" (sai_name sa) (sai_namespace sa)) <$> serviceAccounts in
  let* err := for_each (Api.GetRoles resource) None (λ roleRef err,
    let* bindErr := createRoleBinding r resource roleRef subjects in
    ret (collect err bindErr)) in
  let* err :=
    match createdRoles !! GetNamespacedName resource with
    | Some createdRole =>
        if IsClusterScoped resource then
          let roleRef := {|
            rr_Kind := "ClusterRole";
            rr_Name := role_Name createdRole;
            rr_APIGroup := "rbac.authorization.k8s.io"
          |} in
          let* bindErr := createClusterRoleBinding r resource roleRef subjects in
          ret (collect err bindErr)
        else
          let roleRef := {|
            rr_Kind := "Role";
            rr_Name := role_Name createdRole;
            rr_APIGroup := "rbac.authorization.k8s.io"
          |} in
          let* bindErr := createRoleBinding r resource roleRef subjects in
          ret (collect err bindErr)
    | None => ret err
    end in
  for_each (Api.GetClusterRoles resource) err (λ roleRef err,
    let* bindErr :=
      if IsClusterScoped resource
      then createClusterRoleBinding r resource roleRef subjects
      else createRoleBinding r resource roleRef subjects in
    ret (collect err bindErr)).

Definition EnsureRoleBindings (r : ResourceManagementService) (resources : list WSAResource)
    (createdRoles : gmap NamespacedName Role)
    (wsaToServiceAccounts : gmap NamespacedName (list string))
    (targetNamespaces : list string) : M W (option error) :=
  for_each resources None (λ resource err,
    let serviceAccounts := default [] (wsaToServiceAccounts !! GetNamespacedName resource) in
    if decide (serviceAccounts = []) then ret err
    else
      let allNamespacedServiceAccounts :=
        account ← serviceAccounts;
        namespace ← targetNamespaces;
        [mkServiceAccountInfo account namespace] in
      let* bindErr :=
        createRoleBindingsForResource r resource allNamespacedServiceAccounts createdRoles in
      ret (collect err (wrap ("failed to ensure role bindings for resource " +:+
        NamespacedName_String (GetNamespacedName resource)) bindErr))).
End service.

(** ** Garbage collection *)

Section gc.
Context `{Client W} `{!GCTrackerInterface W} `{SchemeInterface} `{ThirdParty}.

(** [for item in items { if keep(item) { continue }; mark; delete; collect the error }], the loop of
    the four functions below; not-found counts as deleted. *)
Definition delete_unexpected (r : ResourceManagementService) (keep : Object → bool)
    (describe : Object → string) (items : list Object) : M W (option error) :=
  for_each items None (λ item deleteErrors,
    if keep item then ret deleteErrors
    else
      let* _ := markForDeletion r item in
      let* deleteErr := client_Delete item in
      ret (match deleteErr with
           | Some e =>
               if IsNotFound e then deleteErrors
               else multierr_Append deleteErrors (Some (ErrWrap ("failed to delete " +:+ describe item) e))
           | None => deleteErrors
           end)).

Definition obj_Name (o : Object) : string := nn_Name (obj_Key o).
Definition obj_Namespace (o : Object) : string := nn_Namespace (obj_Key o).

Definition shouldDeleteServiceAccount (sa : Object)
    (expectedServiceAccounts targetNamespaces : gset string) : bool :=
  let namespaceInScope := bool_decide (obj_Namespace sa ∈ targetNamespaces) in
  let nameExpected := bool_decide (obj_Name sa ∈ expectedServiceAccounts) in
  negb namespaceInScope || negb nameExpected.

Definition GarbageCollectServiceAccounts (r : ResourceManagementService)
    (expectedServiceAccounts targetNamespaces : gset string) : M W (CtrlResult * option error) :=
  let* res := client_List KServiceAccount (Some {[ManagedByLabel := ManagedByValue]}) in
  match res with
  | inl listErr => ret (no_requeue, Some (ErrWrap "failed to list ServiceAccounts" listErr))
  | inr items =>
      let* deleteErrors := delete_unexpected r
        (λ sa, negb (shouldDeleteServiceAccount sa expectedServiceAccounts targetNamespaces))
        (λ sa, "ServiceAccount " +:+ obj_Namespace sa +:+ "/" +:+ obj_Name sa) items in
      ret (no_requeue, deleteErrors)
  end.

Definition expected_roles (resources : list WSAResource) : gset string :=
  foldl (λ expectedRoles resource,
    let permissions := GetPermissionRules resource in
    if decide (permissions = []) then expectedRoles
    else if IsClusterScoped resource
    then {[clusterRoleName permissions]} ∪ expectedRoles
    else {[roleName permissions]} ∪ expectedRoles) ∅ resources.

Definition GarbageCollectRoles (r : ResourceManagementService) (resources : list WSAResource) :
    M W (option error) :=
  let* res := GetRoles in
  match res with
  | inl err => ret (Some (ErrWrap "failed to list Roles" err))
  | inr roleIter =>
      delete_unexpected r (λ role, bool_decide (obj_Name role ∈ expected_roles resources))
        (λ role, "Role " +:+ obj_Namespace role +:+ "/" +:+ obj_Name role) roleIter
  end.

Definition expected_role_bindings (resources : list WSAResource) : gset NamespacedName :=
  foldl (λ expectedBindings resource,
    if IsClusterScoped resource then expectedBindings
    else
      let permissions := GetPermissionRules resource in
      let expectedBindings :=
        if decide (permissions = []) then expectedBindings
        else {[mkNN (GetNamespace resource)
                (roleBindingName (GetName resource) (roleName permissions))]} ∪ expectedBindings in
      let allRoleRefs := Api.GetRoles resource ++ Api.GetClusterRoles resource in
      foldl (λ expectedBindings roleRef,
        {[mkNN (GetNamespace resource)
           (roleBindingName (GetName resource) (rr_Name roleRef))]} ∪ expectedBindings)
        expectedBindings allRoleRefs) ∅ resources.

(** The third parameter only sizes a set. *)
Definition GarbageCollectRoleBindings (r : ResourceManagementService) (resources : list WSAResource)
    (targetNamespaces : list string) : M W (option error) :=
  let* res := GetRoleBindings in
  match res with
  | inl err => ret (Some (ErrWrap "failed to list RoleBindings" err))
  | inr rbIter =>
      delete_unexpected r
        (λ rb, bool_decide (mkNN (obj_Namespace rb) (obj_Name rb) ∈ expected_role_bindings resources))
        (λ rb, "RoleBinding " +:+ NamespacedName_String (mkNN (obj_Namespace rb) (obj_Name rb))) rbIter
  end.

Definition expected_cluster_role_bindings (resources : list WSAResource) : gset string :=
  foldl (λ expectedBindings resource,
    let permissions := GetPermissionRules resource in
    let expectedBindings :=
      if decide (permissions = []) then expectedBindings
      else
        let rn := if IsClusterScoped resource then clusterRoleName permissions else roleName permissions in
        {[clusterRoleBindingName (GetName resource) rn]} ∪ expectedBindings in
    foldl (λ expectedBindings roleRef,
      {[clusterRoleBindingName (GetName resource) (rr_Name roleRef)]} ∪ expectedBindings)
      expectedBindings (Api.GetClusterRoles resource)) ∅ resources.

Definition GarbageCollectClusterRoleBindings (r : ResourceManagementService)
    (resources : list WSAResource) : M W (option error) :=
  let* res := GetClusterRoleBindings in
  match res with
  | inl err => ret (Some (ErrWrap "failed to list ClusterRoleBindings" err))
  | inr crbIter =>
      delete_unexpected r (λ crb, bool_decide (obj_Name crb ∈ expected_cluster_role_bindings resources))
        (λ crb, "ClusterRoleBinding " +:+ obj_Name crb) crbIter
  end.
End gc.

(** ** What the ensure functions write *)

Section ensure.
Context `{ClientLaws W} `{SchemeInterface} `{ThirdParty} `{!ThirdPartyLaws}.
Implicit Types (r : ResourceManagementService) (R : list WSAResource).

Lemma collect_None err e : collect err e = None ↔ err = None ∧ e = None.
Proof. destruct e; simpl; [rewrite multierr_Append_nil|]; naive_solver. Qed.

Lemma wrap_None msg e : wrap msg e = None ↔ e = None.
Proof. by destruct e. Qed.

Lemma subjectsAC_id l : subjectsAC l = l.
Proof. unfold subjectsAC. rewrite foldl_append. simpl. induction l as [|[] l IH]; f_equal/=; done. Qed.

Lemma policyRulesAC_id l : policyRulesAC l = l.
Proof.
  unfold policyRulesAC. rewrite foldl_append. simpl. induction l as [|[] l IH]; f_equal/=; done.
Qed.

Lemma roleRefAC_id ref : roleRefAC ref = ref.
Proof. by destruct ref. Qed.

(** *** Applying a list of configurations *)

(** Every loop of the ensure functions is, up to the texts of errors, this one. *)
Definition apply_all (text : ApplyConfiguration → string) (acs : list ApplyConfiguration)
    (err : option error) : M W (option error) :=
  for_each acs err (λ ac err, let* e := client_Apply ac in ret (collect err (wrap (text ac) e))).

(** Configurations of the same object are equal. *)
Definition no_conflict (acs : list ApplyConfiguration) : Prop :=
  ∀ ac ac', ac ∈ acs → ac' ∈ acs → ac_ref ac = ac_ref ac' → ac = ac'.

Definition is_stored (ac : ApplyConfiguration) (w : W) : Prop :=
  ∃ o, view w !! ac_ref ac = Some o ∧ carries ac o.

Lemma apply_collects text :
  collects (λ ac err, let* e := client_Apply ac in ret (collect err (wrap (text ac) e))) (λ err, err = None).
Proof.
  intros ac err w w' err'. unfold bind. destruct (client_Apply ac w) as [w1 e].
  by intros [= _ <-] [-> _]%collect_None.
Qed.

Lemma apply_step_stored text ac err w w' err' :
  (let* e := client_Apply ac in ret (collect err (wrap (text ac) e))) w = (w', err') → err' = None →
  client_Apply ac w = (w', None).
Proof.
  unfold bind. destruct (client_Apply ac w) as [w1 e].
  by intros [= -> <-] [_ ->%wrap_None]%collect_None.
Qed.

Lemma apply_keeps_stored ac ac' w w' :
  (ac_ref ac = ac_ref ac' → ac = ac') → is_stored ac w → client_Apply ac' w = (w', None) →
  is_stored ac w'.
Proof.
  intros Heq [o [Ho Hc]] Happ. destruct (decide (ac_ref ac = ac_ref ac')) as [He|Hne].
  - rewrite (Heq He). by eapply apply_carries.
  - exists o. split; [|done]. rewrite <-Ho. replace w' with (client_Apply ac' w).1 by by rewrite Happ.
    by apply apply_frame.
Qed.

Lemma apply_all_no_error text acs err w w' : apply_all text acs err w = (w', None) → err = None.
Proof. intros Hrun. by apply (for_each_no_error _ _ (apply_collects text) acs err w w' None). Qed.

Lemma apply_all_stored text acs w w' ac :
  no_conflict acs → apply_all text acs None w = (w', None) → ac ∈ acs → is_stored ac w'.
Proof.
  intros Hnc Hrun Hac.
  refine (for_each_all_done _ _ (apply_collects text) is_stored _ None w w' None ac _ _ Hrun eq_refl Hac).
  - intros x err w0 w1 err' _ Hx Herr. eapply apply_step_stored in Hx; [|done]. by eapply apply_carries.
  - intros x y err w0 w1 err' Hx Hy Hd Hf Herr. eapply apply_step_stored in Hf; [|done].
    eapply apply_keeps_stored; [|done..]. by apply Hnc.
Qed.

(** Configurations outside the list survive it when none of the list is for the same object. *)
Lemma apply_all_keeps_stored text acs w w' ac :
  (∀ ac', ac' ∈ acs → ac_ref ac = ac_ref ac' → ac = ac') →
  apply_all text acs None w = (w', None) → is_stored ac w → is_stored ac w'.
Proof.
  unfold apply_all. revert w. induction acs as [|ac' acs IH]; intros w Hnc Hrun Hs.
  { by injection Hrun as <-. }
  simpl in Hrun. unfold bind at 1 2 in Hrun. destruct (client_Apply ac' w) as [w1 e] eqn:He.
  assert (e = None) as ->.
  { apply apply_all_no_error, collect_None in Hrun as [_ ?]. by eapply wrap_None. }
  eapply IH; [|exact Hrun|].
  - intros ac2 ?. by apply Hnc, list_elem_of_further.
  - eapply apply_keeps_stored; [|done|done]. apply Hnc, list_elem_of_here.
Qed.

Lemma apply_all_frame text acs err :
  writes_only (λ ref, ∃ ac, ac ∈ acs ∧ ac_ref ac = ref) (apply_all text acs err).
Proof.
  apply writes_only_for_each. intros ac err' Hac.
  apply writes_only_bind; [apply writes_only_Apply; eauto|auto with opc].
Qed.

Lemma apply_all_app text l1 l2 err :
  apply_all text (l1 ++ l2) err ≈ (let* err := apply_all text l1 err in apply_all text l2 err).
Proof. apply for_each_app. Qed.
End ensure.

(** ** The bindings of a resource *)

Section bindings.
Context `{ClientLaws W} `{SchemeInterface} `{ThirdParty} `{!ThirdPartyLaws}.
Implicit Types (r : ResourceManagementService) (R : list WSAResource).

Definition apply_text (ac : ApplyConfiguration) : string :=
  let name := nn_Name (ac_Key ac) in
  let namespace := nn_Namespace (ac_Key ac) in
  match ac_Kind ac with
  | KServiceAccount => "failed to apply ServiceAccount " +:+ name +:+ " in namespace " +:+ namespace
  | KRole => "failed to apply Role " +:+ name
  | KClusterRole => "failed to apply ClusterRole " +:+ name
  | KRoleBinding => "failed to apply RoleBinding " +:+ name +:+ " in namespace " +:+ namespace
  | KClusterRoleBinding => "failed to apply ClusterRoleBinding " +:+ name
  end.

(** The subjects of the bindings of a resource: its accounts in every target namespace. *)
Definition subjects_of (accounts targetNamespaces : list string) : list Subject :=
  account ← accounts; namespace ← targetNamespaces; [mkSubject "ServiceAccount" account namespace].

(** The references of a resource: its roles, the role made of its inline rules, its cluster roles. *)
Definition role_refs (resource : WSAResource) (createdRoles : gmap NamespacedName Role) : list RoleRef :=
  Api.GetRoles resource ++
  option_list ((λ role, mkRoleRef "rbac.authorization.k8s.io"
    (if IsClusterScoped resource then "ClusterRole" else "Role") (role_Name role)) <$>
    createdRoles !! GetNamespacedName resource) ++
  Api.GetClusterRoles resource.

Definition binding_ref (resource : WSAResource) (roleRef : RoleRef) : Ref :=
  if IsClusterScoped resource
  then (KClusterRoleBinding, mkNN "" (clusterRoleBindingName (GetName resource) (rr_Name roleRef)))
  else (KRoleBinding,
    mkNN (GetNamespace resource) (roleBindingName (GetName resource) (rr_Name roleRef))).

Definition binding_config r (resource : WSAResource) (subjects : list Subject) (roleRef : RoleRef) :
    ApplyConfiguration := {|
  ac_Kind := (binding_ref resource roleRef).1;
  ac_Key := (binding_ref resource roleRef).2;
  ac_Labels := managed_labels;
  ac_Annotations := ∅;
  ac_Owner := ownerReferenceAC r resource;
  ac_Body := BindingBody roleRef subjects
|}.

Lemma ac_ref_binding r resource subjects roleRef :
  ac_ref (binding_config r resource subjects roleRef) = binding_ref resource roleRef.
Proof. unfold ac_ref. simpl. by destruct (binding_ref _ _). Qed.

(** The two functions apply [binding_config]. *)
Lemma create_binding_apply r resource roleRef subjects :
  (if IsClusterScoped resource
   then createClusterRoleBinding r resource roleRef subjects
   else createRoleBinding r resource roleRef subjects) =
  (let ac := binding_config r resource subjects roleRef in
   let* err := client_Apply ac in ret (wrap (apply_text ac) err)).
Proof.
  unfold createClusterRoleBinding, createRoleBinding, binding_config, binding_ref, apply_text.
  rewrite roleRefAC_id, subjectsAC_id. by destruct (IsClusterScoped resource).
Qed.

(** The loops over a list of references. *)
Lemma for_each_binding r resource subjects refs err :
  for_each refs err (λ roleRef err,
    let* bindErr :=
      if IsClusterScoped resource
      then createClusterRoleBinding r resource roleRef subjects
      else createRoleBinding r resource roleRef subjects in
    ret (collect err bindErr)) ≈
  apply_all apply_text (binding_config r resource subjects <$> refs) err.
Proof.
  unfold apply_all. rewrite for_each_fmap. apply for_each_ext. intros roleRef acc _.
  rewrite create_binding_apply. apply bind_assoc.
Qed.

(** [createRoleBindingsForResource] applies one binding for each reference, in order. *)
Lemma createRoleBindingsForResource_all r resource accounts createdRoles :
  createRoleBindingsForResource r resource accounts createdRoles ≈
  apply_all apply_text
    (binding_config r resource ((λ sa, mkSubject "ServiceAccount" (sai_name sa) (sai_namespace sa)) <$> accounts)
      <$> role_refs resource createdRoles) None.
Proof.
  unfold createRoleBindingsForResource, role_refs. cbv zeta.
  set (subjects := (λ sa, _) <$> accounts). rewrite !fmap_app, apply_all_app.
  apply bind_proper.
  { rewrite <-for_each_binding. by destruct resource. }
  intros err. rewrite apply_all_app. apply bind_proper; [|intros err'; apply for_each_binding].
  rewrite <-for_each_binding. destruct (createdRoles !! GetNamespacedName resource) as [role|]; [|done].
  simpl. destruct (IsClusterScoped resource); intros w; unfold bind, ret; by case_match.
Qed.

Lemma subjects_of_eq accounts targetNamespaces :
  (λ sa, mkSubject "ServiceAccount" (sai_name sa) (sai_namespace sa)) <$>
    (account ← accounts; namespace ← targetNamespaces; [mkServiceAccountInfo account namespace]) =
  subjects_of accounts targetNamespaces.
Proof.
  unfold subjects_of. induction accounts as [|a accounts IH]; [done|]. cbn [mbind list_bind].
  rewrite fmap_app, IH. f_equal. clear IH.
  induction targetNamespaces as [|n l IH]; [done|]. cbn [mbind list_bind]. by rewrite fmap_app, IH.
Qed.

Lemma elem_of_subjects_of accounts targetNamespaces s :
  s ∈ subjects_of accounts targetNamespaces ↔
  ∃ account namespace, account ∈ accounts ∧ namespace ∈ targetNamespaces ∧
    s = mkSubject "ServiceAccount" account namespace.
Proof.
  unfold subjects_of. rewrite list_elem_of_bind. setoid_rewrite list_elem_of_bind.
  setoid_rewrite list_elem_of_singleton. naive_solver.
Qed.

(** The bindings [EnsureRoleBindings] applies for one resource. *)
Definition resource_bindings r (createdRoles : gmap NamespacedName Role)
    (wsaToServiceAccounts : gmap NamespacedName (list string)) (targetNamespaces : list string)
    (resource : WSAResource) : list ApplyConfiguration :=
  let accounts := default [] (wsaToServiceAccounts !! GetNamespacedName resource) in
  if decide (accounts = []) then []
  else binding_config r resource (subjects_of accounts targetNamespaces) <$> role_refs resource createdRoles.

Definition all_bindings r R createdRoles wsaToServiceAccounts targetNamespaces : list ApplyConfiguration :=
  R ≫= resource_bindings r createdRoles wsaToServiceAccounts targetNamespaces.

(** One iteration of [EnsureRoleBindings]. *)
Lemma ensure_binding_step r createdRoles wsaToServiceAccounts targetNamespaces resource err :
  let serviceAccounts := default [] (wsaToServiceAccounts !! GetNamespacedName resource) in
  (if decide (serviceAccounts = []) then ret err
   else
     let* bindErr := createRoleBindingsForResource r resource
       (account ← serviceAccounts; namespace ← targetNamespaces; [mkServiceAccountInfo account namespace])
       createdRoles in
     ret (collect err (wrap ("failed to ensure role bindings for resource " +:+
       NamespacedName_String (GetNamespacedName resource)) bindErr))) ≈
  (let* bindErr := apply_all apply_text
     (resource_bindings r createdRoles wsaToServiceAccounts targetNamespaces resource) None in
   ret (collect err (wrap ("failed to ensure role bindings for resource " +:+
       NamespacedName_String (GetNamespacedName resource)) bindErr))).
Proof.
  cbv zeta. unfold resource_bindings. case_decide; [done|].
  apply bind_proper; [|done]. by rewrite createRoleBindingsForResource_all, subjects_of_eq.
Qed.

Lemma EnsureRoleBindings_loop r R createdRoles wsaToServiceAccounts targetNamespaces :
  EnsureRoleBindings r R createdRoles wsaToServiceAccounts targetNamespaces ≈
  for_each R None (λ resource err,
    let* bindErr := apply_all apply_text
      (resource_bindings r createdRoles wsaToServiceAccounts targetNamespaces resource) None in
    ret (collect err (wrap ("failed to ensure role bindings for resource " +:+
      NamespacedName_String (GetNamespacedName resource)) bindErr))).
Proof. apply for_each_ext. intros resource err _. apply ensure_binding_step. Qed.

Lemma EnsureRoleBindings_frame r R createdRoles wsaToServiceAccounts targetNamespaces :
  writes_only (λ ref, ∃ ac, ac ∈ all_bindings r R createdRoles wsaToServiceAccounts targetNamespaces ∧
                        ac_ref ac = ref)
    (EnsureRoleBindings r R createdRoles wsaToServiceAccounts targetNamespaces).
Proof.
  intros w ref Href. rewrite EnsureRoleBindings_loop. revert w ref Href.
  apply writes_only_for_each. intros resource err Hres. apply writes_only_bind; [|auto with opc].
  eapply writes_only_mono; [|apply apply_all_frame]. intros ref (ac & Hac & <-).
  exists ac. split; [|done]. apply list_elem_of_bind. eauto.
Qed.

(** When no error is reported every binding is stored as applied. *)
Lemma EnsureRoleBindings_stored r R createdRoles wsaToServiceAccounts targetNamespaces w w' ac :
  no_conflict (all_bindings r R createdRoles wsaToServiceAccounts targetNamespaces) →
  EnsureRoleBindings r R createdRoles wsaToServiceAccounts targetNamespaces w = (w', None) →
  ac ∈ all_bindings r R createdRoles wsaToServiceAccounts targetNamespaces → is_stored ac w'.
Proof.
  intros Hnc. rewrite EnsureRoleBindings_loop. intros Hrun (resource & Hac & Hres)%list_elem_of_bind.
  set (f := λ resource err, bind _ _) in Hrun.
  assert (Hstep : ∀ x err w w' err', f x err w = (w', err') → err' = None → err = None ∧ apply_all apply_text
      (resource_bindings r createdRoles wsaToServiceAccounts targetNamespaces x) None w = (w', None)).
  { intros x err w0 w1 err'. unfold f, bind. destruct (apply_all _ _ _ w0) as [w2 e].
    by intros [= -> <-] [-> ->%wrap_None]%collect_None. }
  refine (for_each_all_done f (λ err, err = None) _ (λ x w, ∀ ac, ac ∈
      resource_bindings r createdRoles wsaToServiceAccounts targetNamespaces x → is_stored ac w)
    R None w w' None resource _ _ Hrun eq_refl Hres ac Hac).
  - intros x err w0 w1 err' Hx Herr. by eapply Hstep in Hx as [??].
  - intros x err w0 w1 err' Hx Hf Herr ac0 Hac0. eapply Hstep in Hf as [_ Happ]; [|done].
    eapply apply_all_stored; [|done..]. intros ac1 ac2 ??. apply Hnc; apply list_elem_of_bind; eauto.
  - intros x y err w0 w1 err' Hx Hy Hd Hf Herr ac0 Hac0. eapply Hstep in Hf as [_ Happ]; [|done].
    eapply apply_all_keeps_stored; [|done|by apply Hd].
    intros ac1 ?. apply Hnc; apply list_elem_of_bind; eauto.
Qed.

(** *** Service accounts *)

Definition account_config (namespace : string) (sa : ServiceAccount) : ApplyConfiguration := {|
  ac_Kind := KServiceAccount;
  ac_Key := mkNN namespace (sa_Name sa);
  ac_Labels := <[ManagedByLabel := ManagedByValue]> (default ∅ (sa_Labels sa));
  ac_Annotations := sa_Annotations sa;
  ac_Owner := None;
  ac_Body := AccountBody
|}.

Definition all_accounts (serviceAccounts : list ServiceAccount) (targetNamespaces : list string) :
    list ApplyConfiguration :=
  serviceAccounts ≫= λ sa, (λ namespace, account_config namespace sa) <$> targetNamespaces.

Lemma elem_of_all_accounts serviceAccounts targetNamespaces ac :
  ac ∈ all_accounts serviceAccounts targetNamespaces ↔
  ∃ sa namespace, sa ∈ serviceAccounts ∧ namespace ∈ targetNamespaces ∧ ac = account_config namespace sa.
Proof.
  unfold all_accounts. rewrite list_elem_of_bind. setoid_rewrite list_elem_of_fmap. naive_solver.
Qed.

(** The nested loops are one loop over the accounts in every namespace. *)
Lemma EnsureServiceAccounts_all r serviceAccounts targetNamespaces :
  EnsureServiceAccounts r serviceAccounts targetNamespaces ≈
  apply_all apply_text (all_accounts serviceAccounts targetNamespaces) None.
Proof.
  unfold EnsureServiceAccounts, all_accounts. generalize (@None error).
  induction serviceAccounts as [|sa l IH]; intros err; [done|]. cbn [for_each mbind list_bind].
  rewrite apply_all_app. apply bind_proper; [|intros err'; apply IH].
  unfold apply_all. rewrite for_each_fmap. apply for_each_ext. intros namespace err' _.
  apply bind_assoc.
Qed.
End bindings.

(** ** The roles of inline rules *)

Section roles.
Context `{ClientLaws W} `{SchemeInterface} `{ThirdParty} `{!ThirdPartyLaws}.
Implicit Types (r : ResourceManagementService) (R : list WSAResource).

Definition rules_role_name (resource : WSAResource) : string :=
  if IsClusterScoped resource
  then clusterRoleName (GetPermissionRules resource)
  else roleName (GetPermissionRules resource).

Definition role_ref (resource : WSAResource) : Ref :=
  if IsClusterScoped resource
  then (KClusterRole, mkNN "" (rules_role_name resource))
  else (KRole, mkNN (GetNamespace resource) (rules_role_name resource)).

Definition role_config r (resource : WSAResource) : ApplyConfiguration := {|
  ac_Kind := (role_ref resource).1;
  ac_Key := (role_ref resource).2;
  ac_Labels := managed_labels;
  ac_Annotations := ∅;
  ac_Owner := ownerReferenceAC r resource;
  ac_Body := RoleBody (GetPermissionRules resource)
|}.

(** The [Role] value returned for a resource with inline rules. *)
Definition created_role (resource : WSAResource) : Role :=
  if IsClusterScoped resource
  then mkRole (rules_role_name resource) "" None []
  else mkRole (rules_role_name resource) (GetNamespace resource) (Some managed_labels)
         (GetPermissionRules resource).

Lemma ac_ref_role r resource : ac_ref (role_config r resource) = role_ref resource.
Proof. unfold ac_ref. simpl. by destruct (role_ref _). Qed.

Lemma created_role_name resource : role_Name (created_role resource) = rules_role_name resource.
Proof. unfold created_role. by destruct (IsClusterScoped _). Qed.

Lemma rules_role_name_nonempty resource : rules_role_name resource ≠ "".
Proof. unfold rules_role_name. by destruct (IsClusterScoped _). Qed.

Lemma createRoleIfNeeded_apply r resource :
  createRoleIfNeeded r resource ≈
  (if decide (GetPermissionRules resource = []) then ret (inr zero_role)
   else
     let* err := client_Apply (role_config r resource) in
     ret (match err with
          | Some err => inl (ErrWrap (apply_text (role_config r resource)) err)
          | None => inr (created_role resource)
          end)).
Proof.
  unfold createRoleIfNeeded, createClusterRoleIfNeeded, role_config, apply_text, role_ref,
    created_role, rules_role_name. cbv zeta.
  case_decide; [done|]. destruct (IsClusterScoped resource) eqn:Hc; simpl.
  - rewrite policyRulesAC_id, bind_assoc. f_equiv. intros [] w; reflexivity.
  - by rewrite policyRulesAC_id.
Qed.

Definition add_created_role (m : gmap NamespacedName Role) (resource : WSAResource) :
    gmap NamespacedName Role :=
  if decide (GetPermissionRules resource = []) then m
  else <[GetNamespacedName resource := created_role resource]> m.

(** The entries of the map of created roles when every apply succeeds. *)
Definition created_roles R : gmap NamespacedName Role :=
  foldl add_created_role ∅ R.

Definition role_step r (resource : WSAResource) (acc : gmap NamespacedName Role * option error) :
    M W (gmap NamespacedName Role * option error) :=
  if decide (GetPermissionRules resource = []) then ret acc
  else
    let* err := client_Apply (role_config r resource) in
    ret (match err with
         | Some err =>
             (acc.1, multierr_Append acc.2 (Some (ErrWrap (apply_text (role_config r resource)) err)))
         | None => (<[GetNamespacedName resource := created_role resource]> acc.1, acc.2)
         end).

Lemma EnsureRoles_loop r R : EnsureRoles r R ≈ for_each R (∅, None) (role_step r).
Proof.
  apply for_each_ext. intros resource [m err] _. unfold role_step. rewrite createRoleIfNeeded_apply.
  case_decide; [done|]. rewrite bind_assoc. f_equiv. intros []; simpl; [done|].
  intros w. unfold bind, ret. by rewrite decide_True
    by (rewrite created_role_name; apply rules_role_name_nonempty).
Qed.

Lemma role_step_frame r resource acc :
  writes_only (λ ref, GetPermissionRules resource ≠ [] ∧ ref = role_ref resource) (role_step r resource acc).
Proof.
  unfold role_step. case_decide; [apply writes_only_ret|].
  apply writes_only_bind; [|intros ?; apply writes_only_ret].
  apply writes_only_Apply. by rewrite ac_ref_role.
Qed.

Lemma EnsureRoles_frame r R :
  writes_only (λ ref, ∃ resource, resource ∈ R ∧ GetPermissionRules resource ≠ [] ∧ ref = role_ref resource)
    (EnsureRoles r R).
Proof.
  intros w ref Href. rewrite EnsureRoles_loop. revert w ref Href.
  apply writes_only_for_each. intros resource acc Hres.
  eapply writes_only_mono; [|apply role_step_frame]. eauto.
Qed.

Lemma role_step_ok r resource acc w w' acc' :
  role_step r resource acc w = (w', acc') → acc'.2 = None →
  acc.2 = None ∧
  (GetPermissionRules resource ≠ [] → client_Apply (role_config r resource) w = (w', None)) ∧
  (GetPermissionRules resource = [] → w' = w) ∧
  acc'.1 = (if decide (GetPermissionRules resource = []) then acc.1
            else <[GetNamespacedName resource := created_role resource]> acc.1).
Proof.
  unfold role_step. case_decide as Hp; [by intros [= -> ->]; auto|].
  unfold bind. destruct (client_Apply _ w) as [w1 [e|]]; intros [= <- <-]; simpl; [|by auto].
  by intros [_ ?]%multierr_Append_nil.
Qed.

(** The rules of [resource] are stored under its role. *)
Definition role_stored (resource : WSAResource) (w : W) : Prop :=
  ∃ o, view w !! role_ref resource = Some o ∧ obj_Body o = RoleBody (GetPermissionRules resource).

Lemma role_applied_stored r resource resource' w w' :
  role_ref resource' = role_ref resource → GetPermissionRules resource' = GetPermissionRules resource →
  client_Apply (role_config r resource') w = (w', None) → role_stored resource w'.
Proof.
  intros Hr Hp (o & Ho & Hc)%apply_carries. rewrite ac_ref_role, Hr in Ho.
  exists o. split; [done|]. destruct Hc as (_ & _ & _ & _ & ->). simpl. by rewrite Hp.
Qed.

(** When no error is reported, each resource with inline rules has its role stored, and the map
    names it.  Resources whose roles have the same name must have the same rules, which the hash in
    the name is for. *)
Lemma EnsureRoles_stored r R w w' roles resource :
  (∀ x1 x2, x1 ∈ R → x2 ∈ R → GetPermissionRules x1 ≠ [] → GetPermissionRules x2 ≠ [] →
    role_ref x1 = role_ref x2 → GetPermissionRules x1 = GetPermissionRules x2) →
  EnsureRoles r R w = (w', (roles, None)) →
  resource ∈ R → GetPermissionRules resource ≠ [] → role_stored resource w'.
Proof.
  intros Hsep. rewrite EnsureRoles_loop. intros Hrun Hres.
  assert (collects (role_step r) (λ acc, acc.2 = None)) as Hcol.
  { intros x acc w0 w1 acc' Hx Hok. by eapply role_step_ok in Hx as [? _]. }
  refine (for_each_all_done _ _ Hcol (λ x w, GetPermissionRules x ≠ [] → role_stored x w)
    _ _ _ _ _ _ _ _ Hrun eq_refl Hres).
  - intros x acc w0 w1 acc' Hx Hstep Hok Hp. eapply role_step_ok in Hstep as (_ & Happ & _); [|done].
    eapply role_applied_stored; [..|by apply Happ]; done.
  - intros x y acc w0 w1 acc' Hx Hy Hd Hstep Hok Hp.
    pose proof (role_step_frame r y acc w0 (role_ref x)) as Hframe. rewrite Hstep in Hframe. simpl in Hframe.
    eapply role_step_ok in Hstep as (_ & Happ & Hskip & _); [|done].
    destruct (decide (GetPermissionRules y = [])) as [He|Hne]; [rewrite Hskip by done; auto|].
    destruct (decide (role_ref y = role_ref x)) as [Heq|Hrne].
    + eapply role_applied_stored; [done| |by apply Happ]. by apply Hsep.
    + destruct (Hd Hp) as (o & Ho & Hb). exists o. rewrite Hframe by naive_solver. done.
Qed.

Lemma EnsureRoles_created r R w w' roles :
  EnsureRoles r R w = (w', (roles, None)) → roles = created_roles R.
Proof.
  rewrite EnsureRoles_loop. unfold created_roles.
  assert (∀ acc w w' acc', for_each R acc (role_step r) w = (w', acc') → acc'.2 = None →
    acc'.1 = foldl add_created_role acc.1 R) as Hgen.
  { clear w w' roles. induction R as [|x R IH]; intros acc w w' acc'; [by intros [= _ ->]|].
    simpl. unfold bind. destruct (role_step r x acc w) as [w1 acc1] eqn:Hx. intros Hrun Hok.
    rewrite (IH _ _ _ _ Hrun Hok). f_equal.
    assert (acc1.2 = None) as Hok1.
    { refine (for_each_no_error (role_step r) (λ acc, acc.2 = None) _ _ _ _ _ _ Hrun Hok).
      intros y b w2 w3 b' Hy Hb. by eapply role_step_ok in Hy as [? _]. }
    by eapply role_step_ok in Hx as (_ & _ & _ & ?). }
  intros Hrun. by apply Hgen in Hrun.
Qed.

Lemma created_roles_lookup R resource :
  keys_distinct R → resource ∈ R →
  created_roles R !! GetNamespacedName resource =
  if decide (GetPermissionRules resource = []) then None else Some (created_role resource).
Proof.
  unfold created_roles. intros Hd Hres.
  assert (∀ m : gmap NamespacedName Role, foldl add_created_role m R !! GetNamespacedName resource =
     if decide (GetPermissionRules resource = []) then m !! GetNamespacedName resource
     else Some (created_role resource)) as Hgen; [|by rewrite Hgen, lookup_empty].
  revert Hd Hres. unfold keys_distinct. induction R as [|x R IH]; [by intros _ ?%elem_of_nil|].
  rewrite fmap_cons, NoDup_cons. intros [Hx Hd] Hres m. cbn [foldl].
  assert (∀ (R' : list WSAResource) (m : gmap NamespacedName Role) key, key ∉ GetNamespacedName <$> R' →
    foldl add_created_role m R' !! key = m !! key) as Hskip.
  { clear. induction R' as [|y R' IH]; intros m key Hk; [done|]. cbn [foldl].
    rewrite fmap_cons, not_elem_of_cons in Hk. destruct Hk as [Hne Hk]. rewrite IH by done.
    unfold add_created_role. case_decide; [done|]. by rewrite lookup_insert_ne. }
  apply elem_of_cons in Hres as [->|Hres].
  - rewrite Hskip by done. unfold add_created_role. case_decide; [done|]. by rewrite lookup_insert_eq.
  - rewrite IH by done. unfold add_created_role. case_decide; [|done]. case_decide; [done|].
    rewrite lookup_insert_ne; [done|]. intros Heq. apply Hx. rewrite Heq. by apply list_elem_of_fmap_2.
Qed.
End roles.

(** ** What garbage collection deletes *)

Section collected.
Context `{ClientLaws W} `{SchemeInterface} `{ThirdParty} `{!ThirdPartyLaws}.
Implicit Types (r : ResourceManagementService) (R : list WSAResource) (keep : Object → bool).

(** [delete_unexpected] writes to the listed objects it does not keep, and nowhere else. *)
Lemma delete_unexpected_frame r keep describe items :
  writes_only (λ ref, ∃ o, o ∈ items ∧ ¬ keep o ∧ obj_ref o = ref)
    (delete_unexpected r keep describe items).
Proof.
  apply writes_only_for_each. intros o err Ho. destruct (keep o) eqn:Hk; [auto with opc|].
  apply writes_only_bind.
  - unfold markForDeletion. destruct (rms_gcTracker r); auto with opc.
  - intros _. apply writes_only_bind; [|auto with opc]. apply writes_only_Delete.
    exists o. rewrite Hk. auto.
Qed.

(** When it reports no error, none of the objects it does not keep is left. *)
Lemma delete_unexpected_gone r keep describe items w w' o :
  delete_unexpected r keep describe items w = (w', None) →
  o ∈ items → ¬ keep o → view w' !! obj_ref o = None.
Proof.
  unfold delete_unexpected. set (f := λ item errs, if keep item then _ else _). intros Hrun Ho.
  assert (Hstep : ∀ x err w w' err', f x err w = (w', err') → err' = None →
    err = None ∧ (¬ keep x → ∃ w0 e, client_Delete x w0 = (w', e) ∧ view w0 = view w ∧
      (e = None ∨ ∃ e', e = Some e' ∧ IsNotFound e')) ∧ (keep x → w' = w)).
  { intros x err w0 w1 err'. unfold f. destruct (keep x); [by intros [= -> ->]; auto|].
    unfold bind. destruct (markForDeletion r x w0) as [w2 []] eqn:Hm.
    destruct (client_Delete x w2) as [w3 e] eqn:He. intros Hr Herr. injection Hr as -> Hr.
    rewrite Herr in Hr. clear Herr err'.
    assert (view w2 = view w0) as Hv.
    { unfold markForDeletion in Hm. destruct (rms_gcTracker r) as [t|]; [|by injection Hm as ->].
      by rewrite <-(view_Mark t (obj_UID x) w0), Hm. }
    destruct e as [e|]; [destruct (IsNotFound e) eqn:Hnf|].
    - split_and!; [done| |done]. intros _. exists w2, (Some e).
      split_and!; [done..|]. right. exists e. by rewrite Hnf.
    - by apply multierr_Append_nil in Hr as [_ ?].
    - split_and!; [done| |done]. intros _. exists w2, None. eauto. }
  refine (for_each_all_done f (λ err, err = None) _
    (λ x w, ¬ keep x → view w !! obj_ref x = None) items None w w' None o _ _ Hrun eq_refl Ho).
  - intros x err w0 w1 err' Hx Herr. by eapply Hstep in Hx as [? _].
  - intros x err w0 w1 err' _ Hx Herr Hk. eapply Hstep in Hx as (_ & Hdel & _); [|done].
    destruct (Hdel Hk) as (w2 & e & Hd & _ & He). by eapply delete_gone.
  - intros x y err w0 w1 err' _ _ Hd Hy Herr Hk. specialize (Hd Hk).
    eapply Hstep in Hy as (_ & Hdel & Hskip); [|done].
    destruct (keep y) eqn:Hky; [by rewrite Hskip|].
    destruct Hdel as (w2 & e & Hdel & Hv & He); [tauto|].
    destruct (decide (obj_ref x = obj_ref y)) as [Heq|Hne]; [rewrite Heq; by eapply delete_gone|].
    replace w1 with (client_Delete y w2).1 by by rewrite Hdel. by rewrite delete_frame, Hv.
Qed.

(** The three collectors that list without a selector share this. *)
Lemma managed_gc r k msg msg' keep describe w w' err items w1 :
  client_List k None w = (w1, inr items) →
  (let* res := get_managed k msg in
   match res with
   | inl err => ret (Some (ErrWrap msg' err))
   | inr iter => delete_unexpected r keep describe iter
   end) w = (w', err) →
  (∀ ref, view w' !! ref ≠ view w !! ref →
     ∃ o, o ∈ items ∧ obj_ref o = ref ∧ obj_Kind o = k ∧ IsOctopusManaged (obj_Labels o) ∧ ¬ keep o) ∧
  (err = None → ∀ o, o ∈ items → IsOctopusManaged (obj_Labels o) → ¬ keep o → view w' !! obj_ref o = None).
Proof.
  intros Hlist. unfold get_managed, bind. rewrite Hlist. unfold ret. cbn beta iota zeta.
  set (f := filter _ items). intros Hrun.
  assert (view w1 = view w) as Hv by by rewrite <-(view_List k None w), Hlist.
  assert (∀ o, o ∈ f ↔ IsOctopusManaged (obj_Labels o) ∧ o ∈ items) as Hf
    by (intros; unfold f; by rewrite list_elem_of_filter).
  split.
  - intros ref Hne. pose proof (delete_unexpected_frame r keep describe f w1 ref) as Hframe.
    rewrite Hrun, Hv in Hframe. simpl in Hframe.
    destruct (decide (Exists (λ o, ¬ keep o ∧ obj_ref o = ref) f)) as [Hex|Hno].
    + apply Exists_exists in Hex as (o & [Hm Ho]%Hf & Hk & Hr). exists o. split_and!; try done.
      by eapply list_kind.
    + exfalso. apply Hne, Hframe. intros (o & Ho & ?). apply Hno, Exists_exists. eauto.
  - intros -> o Ho Hm Hk. eapply delete_unexpected_gone; [done| |done]. by apply Hf.
Qed.

(** What such a run establishes when lists are current: the managed objects that are left are kept ones. *)
Lemma left_is_kept `{!CurrentReads W} k sel (P : Object → Prop) `{!∀ o, Decision (P o)} items w w1 w' :
  client_List k sel w = (w1, inr items) →
  (∀ ref, view w' !! ref ≠ view w !! ref →
     ∃ o, o ∈ items ∧ obj_ref o = ref ∧ view w' !! obj_ref o = None) →
  (∀ o, o ∈ items → IsOctopusManaged (obj_Labels o) → ¬ P o → view w' !! obj_ref o = None) →
  ∀ o, view w' !! obj_ref o = Some o → obj_Kind o = k → default ∅ sel ⊆ default ∅ (obj_Labels o) →
    IsOctopusManaged (obj_Labels o) → P o.
Proof.
  intros Hlist Hsafe Hdone o Ho Hk Hsel Hm.
  destruct (decide (view w' !! obj_ref o = view w !! obj_ref o)) as [Heq|Hne].
  - destruct (decide (P o)) as [|Hkeep]; [done|]. exfalso.
    rewrite (Hdone o) in Ho; [done| |done|done].
    eapply list_current; [done|by rewrite <-Heq|done|done].
  - destruct (Hsafe _ Hne) as (o' & _ & Hr & Hnone). rewrite Hr, Ho in Hnone. done.
Qed.

Lemma get_managed_list_error k msg msg' (r : ResourceManagementService) keep describe w w1 e :
  client_List k None w = (w1, inl e) →
  (let* res := get_managed k msg in
   match res with
   | inl err => ret (Some (ErrWrap msg' err))
   | inr iter => delete_unexpected r keep describe iter
   end) w = (w1, Some (ErrWrap msg' (ErrWrap msg e))).
Proof. intros Hlist. unfold get_managed, bind. by rewrite Hlist. Qed.

Lemma managed_gc_left `{!CurrentReads W} k msg msg' (r : ResourceManagementService) keep describe w w' o :
  (let* res := get_managed k msg in
   match res with
   | inl err => ret (Some (ErrWrap msg' err))
   | inr iter => delete_unexpected r keep describe iter
   end) w = (w', None) →
  view w' !! obj_ref o = Some o → obj_Kind o = k → IsOctopusManaged (obj_Labels o) → keep o.
Proof.
  intros Hrun Ho Hk Hm. destruct (client_List k None w) as [w1 [e|items]] eqn:Hlist.
  { by rewrite (get_managed_list_error _ _ _ _ _ _ _ _ _ Hlist) in Hrun. }
  destruct (managed_gc r _ _ _ _ _ _ _ _ _ _ Hlist Hrun) as [Hsafe Hdone].
  eapply (left_is_kept k None (λ o, keep o) items w w1 w'); [done| |by apply Hdone|done|done|apply map_empty_subseteq|done].
  intros ref (o' & ? & ? & ? & ? & ?)%Hsafe. exists o'. split_and!; [done..|by apply Hdone].
Qed.
End collected.

(** ** The expected objects *)

Section expected.
Context `{ThirdParty}.
Implicit Types (R : list WSAResource).

(** The names of the references of a resource, inline rules first. *)
Definition ref_names (resource : WSAResource) : list string :=
  (if decide (GetPermissionRules resource = []) then [] else [rules_role_name resource]) ++
  (rr_Name <$> Api.GetRoles resource ++ Api.GetClusterRoles resource).

(** Those a cluster-scoped resource is bound by. *)
Definition cluster_ref_names (resource : WSAResource) : list string :=
  (if decide (GetPermissionRules resource = []) then [] else [rules_role_name resource]) ++
  (rr_Name <$> Api.GetClusterRoles resource).

Lemma elem_of_expected_roles R n :
  n ∈ expected_roles R ↔
  ∃ resource, resource ∈ R ∧ GetPermissionRules resource ≠ [] ∧ n = rules_role_name resource.
Proof.
  unfold expected_roles. cbv zeta.
  match goal with |- n ∈ foldl ?f ∅ R ↔ _ => set (step := f) end.
  assert (∀ s, n ∈ foldl step s R ↔ n ∈ s ∨
    ∃ resource, resource ∈ R ∧ GetPermissionRules resource ≠ [] ∧ n = rules_role_name resource) as Hgen.
  { induction R as [|x R IH]; intros s; cbn [foldl].
    { split; [by left|]. intros [?|(?&?%elem_of_nil&_)]; done. }
    rewrite IH. setoid_rewrite elem_of_cons.
    assert (n ∈ step s x ↔ n ∈ s ∨ (GetPermissionRules x ≠ [] ∧ n = rules_role_name x)) as ->.
    { unfold step, rules_role_name. case_decide; [tauto|].
      destruct (IsClusterScoped x); rewrite elem_of_union, elem_of_singleton; tauto. }
    naive_solver. }
  rewrite Hgen. split; [by intros [?%elem_of_empty|]|by right].
Qed.

Lemma foldl_insert_names {A B} `{Countable B} (f : A → B) (l : list A) (s : gset B) x :
  x ∈ foldl (λ s a, {[f a]} ∪ s) s l ↔ x ∈ s ∨ x ∈ f <$> l.
Proof. rewrite foldl_set_insert, list_elem_of_fmap. naive_solver. Qed.

Lemma elem_of_expected_role_bindings R key :
  key ∈ expected_role_bindings R ↔
  ∃ resource n, resource ∈ R ∧ IsClusterScoped resource = false ∧ n ∈ ref_names resource ∧
    key = mkNN (GetNamespace resource) (roleBindingName (GetName resource) n).
Proof.
  unfold expected_role_bindings. cbv zeta.
  match goal with |- key ∈ foldl ?f ∅ R ↔ _ => set (step := f) end.
  assert (∀ s x, key ∈ step s x ↔ key ∈ s ∨ (IsClusterScoped x = false ∧
    key ∈ (λ n, mkNN (GetNamespace x) (roleBindingName (GetName x) n)) <$> ref_names x)) as Hstep.
  { intros s x. unfold step, ref_names, rules_role_name.
    destruct (IsClusterScoped x); [naive_solver|].
    rewrite (foldl_insert_names (λ roleRef, mkNN (GetNamespace x) (roleBindingName (GetName x) (rr_Name roleRef)))).
    rewrite (fmap_app (λ n, mkNN (GetNamespace x) (roleBindingName (GetName x) n))).
    rewrite elem_of_app, <-list_fmap_compose. unfold compose.
    case_decide; cbn [fmap list_fmap]; [rewrite elem_of_nil; tauto|].
    rewrite elem_of_union, elem_of_singleton, list_elem_of_singleton. tauto. }
  assert (∀ s, key ∈ foldl step s R ↔ key ∈ s ∨
    ∃ resource n, resource ∈ R ∧ IsClusterScoped resource = false ∧ n ∈ ref_names resource ∧
    key = mkNN (GetNamespace resource) (roleBindingName (GetName resource) n)) as Hgen.
  { clearbody step. induction R as [|x R IH]; intros s; cbn [foldl].
    { split; [by left|]. intros [?|(?&?&?%elem_of_nil&_)]; done. }
    rewrite IH, Hstep, list_elem_of_fmap. split.
    - intros [[?|(? & n & ? & ?)]|(y & n & ? & ?)]; [by left|..]; right;
        [exists x, n; split; [apply list_elem_of_here|tauto]|].
      exists y, n. split; [by apply list_elem_of_further|done].
    - intros [?|(y & n & [->|?]%elem_of_cons & ? & ? & ?)]; [tauto|left; right; eauto|right; eauto 6]. }
  rewrite Hgen. split; [by intros [?%elem_of_empty|]|by right].
Qed.

Lemma elem_of_expected_cluster_role_bindings R n :
  n ∈ expected_cluster_role_bindings R ↔
  ∃ resource rn, resource ∈ R ∧ rn ∈ cluster_ref_names resource ∧
    n = clusterRoleBindingName (GetName resource) rn.
Proof.
  unfold expected_cluster_role_bindings. cbv zeta.
  match goal with |- n ∈ foldl ?f ∅ R ↔ _ => set (step := f) end.
  assert (∀ s x, n ∈ step s x ↔ n ∈ s ∨ n ∈ clusterRoleBindingName (GetName x) <$> cluster_ref_names x) as Hstep.
  { intros s x. unfold step, cluster_ref_names, rules_role_name.
    rewrite (foldl_insert_names (λ roleRef, clusterRoleBindingName (GetName x) (rr_Name roleRef))).
    rewrite fmap_app, elem_of_app, <-list_fmap_compose. unfold compose.
    case_decide; cbn [fmap list_fmap]; [rewrite elem_of_nil; tauto|].
    rewrite elem_of_union, elem_of_singleton, list_elem_of_singleton. tauto. }
  assert (∀ s, n ∈ foldl step s R ↔ n ∈ s ∨
    ∃ resource rn, resource ∈ R ∧ rn ∈ cluster_ref_names resource ∧
      n = clusterRoleBindingName (GetName resource) rn) as Hgen.
  { clearbody step. induction R as [|x R IH]; intros s; cbn [foldl].
    { split; [by left|]. intros [?|(?&?&?%elem_of_nil&_)]; done. }
    rewrite IH, Hstep, list_elem_of_fmap. split.
    - intros [[?|(rn & ? & ?)]|(y & rn & ? & ?)]; [by left|..]; right;
        [exists x, rn; split; [apply list_elem_of_here|tauto]|].
      exists y, rn. split; [by apply list_elem_of_further|done].
    - intros [?|(y & rn & [->|?]%elem_of_cons & ? & ?)]; [tauto|left; right; eauto|right; eauto 6]. }
  rewrite Hgen. split; [by intros [?%elem_of_empty|]|by right].
Qed.
End expected.

(** ** Correctness of the service *)

Section correctness.
Context `{ClientLaws W} `{SchemeInterface} `{ThirdParty} `{!ThirdPartyLaws}.
Implicit Types (r : ResourceManagementService) (R : list WSAResource) (keep : Object → bool).

(** The accounts that are kept. *)
Lemma GarbageCollectServiceAccounts_frame r expected targetNamespaces :
  writes_only (λ ref, ref.1 = KServiceAccount ∧
      ¬ (nn_Namespace ref.2 ∈ targetNamespaces ∧ nn_Name ref.2 ∈ expected))
    (GarbageCollectServiceAccounts r expected targetNamespaces).
Proof.
  intros w ref Href. unfold GarbageCollectServiceAccounts, bind.
  destruct (client_List KServiceAccount (Some {[ManagedByLabel := ManagedByValue]}) w) as [w1 res] eqn:Hl.
  assert (view w1 = view w) as Hv by (pose proof (view_List KServiceAccount (Some {[ManagedByLabel := ManagedByValue]}) w) as Hv;
        by rewrite Hl in Hv).
  destruct res as [e|items]; [by simpl; rewrite Hv|].
  set (keep := λ sa, negb _). set (describe := λ sa, _ +:+ _).
  pose proof (delete_unexpected_frame r keep describe items w1 ref) as Hf.
  destruct (delete_unexpected r keep describe items w1) as [w2 err2]. simpl in *. rewrite Hf; [by rewrite Hv|].
  intros (o & Ho & Hk & <-). apply Href. simpl. split; [by eapply list_kind|].
  intros Hin. apply Hk. unfold keep, shouldDeleteServiceAccount, obj_Namespace, obj_Name.
  by rewrite !bool_decide_true by tauto.
Qed.

Lemma GarbageCollectServiceAccounts_spec r expected targetNamespaces w w1 w' items res err :
  client_List KServiceAccount (Some {[ManagedByLabel := ManagedByValue]}) w = (w1, inr items) →
  GarbageCollectServiceAccounts r expected targetNamespaces w = (w', (res, err)) →
  (∀ ref, view w' !! ref ≠ view w !! ref →
     ∃ sa, sa ∈ items ∧ obj_ref sa = ref ∧ obj_Kind sa = KServiceAccount ∧
       IsOctopusManaged (obj_Labels sa) ∧
       ¬ (obj_Namespace sa ∈ targetNamespaces ∧ obj_Name sa ∈ expected)) ∧
  (err = None → ∀ sa, sa ∈ items →
     ¬ (obj_Namespace sa ∈ targetNamespaces ∧ obj_Name sa ∈ expected) →
     view w' !! obj_ref sa = None).
Proof.
  intros Hlist. unfold GarbageCollectServiceAccounts, bind. rewrite Hlist.
  set (keep := λ sa, negb _). destruct (delete_unexpected r keep _ items w1) as [w2 err2] eqn:Hrun.
  intros [= <- _ <-].
  assert (∀ sa, keep sa ↔ obj_Namespace sa ∈ targetNamespaces ∧ obj_Name sa ∈ expected) as Hkeep.
  { intros sa. unfold keep, shouldDeleteServiceAccount. do 2 case_bool_decide; simpl; naive_solver. }
  assert (view w1 = view w) as Hv by (pose proof (view_List KServiceAccount (Some {[ManagedByLabel := ManagedByValue]}) w) as Hv;
        by rewrite Hlist in Hv).
  split.
  - intros ref Hne.
    destruct (decide (Exists (λ o, ¬ keep o ∧ obj_ref o = ref) items)) as [Hex|Hno].
    + apply Exists_exists in Hex as (sa & Hsa & Hk & Hr). exists sa. rewrite <-Hkeep.
      split_and!; try done; [by eapply list_kind|].
      eapply list_selected in Hlist; [|done]. unfold IsOctopusManaged.
      eapply lookup_weaken in Hlist; [|apply lookup_singleton_eq].
      destruct (obj_Labels sa) as [labels|]; simpl in Hlist; [|by rewrite lookup_empty in Hlist].
      by rewrite Hlist, bool_decide_true.
    + exfalso. apply Hne. rewrite <-Hv.
      pose proof (delete_unexpected_frame r keep
        (λ sa, "ServiceAccount " +:+ obj_Namespace sa +:+ "/" +:+ obj_Name sa) items w1 ref) as Hf.
      rewrite Hrun in Hf. apply Hf. intros (o & Ho & ?). apply Hno, Exists_exists. eauto.
  - intros -> sa Hsa Hk. eapply delete_unexpected_gone; [done..|]. by rewrite Hkeep.
Qed.

Lemma GarbageCollectServiceAccounts_left `{!CurrentReads W} r expected targetNamespaces w w' res o :
  GarbageCollectServiceAccounts r expected targetNamespaces w = (w', (res, None)) →
  view w' !! obj_ref o = Some o → obj_Kind o = KServiceAccount → IsOctopusManaged (obj_Labels o) →
  obj_Namespace o ∈ targetNamespaces ∧ obj_Name o ∈ expected.
Proof.
  intros Hrun Ho Hk Hm.
  destruct (client_List KServiceAccount (Some {[ManagedByLabel := ManagedByValue]}) w) as [w1 [e|items]] eqn:Hlist.
  { unfold GarbageCollectServiceAccounts, bind in Hrun. by rewrite Hlist in Hrun. }
  destruct (GarbageCollectServiceAccounts_spec r _ _ _ _ _ _ _ _ Hlist Hrun) as [Hsafe Hdone].
  apply (left_is_kept KServiceAccount _
    (λ o, obj_Namespace o ∈ targetNamespaces ∧ obj_Name o ∈ expected) items w w1 w' Hlist); [| |done|done| |done].
  - intros ref (sa & ? & ? & ? & ? & ?)%Hsafe. exists sa. split_and!; [done..|by apply Hdone].
  - intros sa Hsa _. by apply Hdone.
  - simpl. apply map_singleton_subseteq_l. unfold IsOctopusManaged in Hm.
    destruct (obj_Labels o) as [labels|]; [|done]. simpl. destruct (labels !! ManagedByLabel) as [v|]; [|done].
    apply (bool_decide_unpack _) in Hm. by rewrite Hm.
Qed.

(** C9. Garbage collection of service accounts deletes only listed accounts that carry the managed-by
    label and whose names are not expected or that are outside the target namespaces, whatever their
    names; when it reports no error, all of those are gone. *)
Theorem GarbageCollectServiceAccounts_correct r expected targetNamespaces w w1 w' items res err :
  client_List KServiceAccount (Some {[ManagedByLabel := ManagedByValue]}) w = (w1, inr items) →
  GarbageCollectServiceAccounts r expected targetNamespaces w = (w', (res, err)) →
  (∀ ref, view w' !! ref ≠ view w !! ref →
     ∃ sa, sa ∈ items ∧ obj_ref sa = ref ∧ obj_Kind sa = KServiceAccount ∧
       IsOctopusManaged (obj_Labels sa) ∧
       ¬ (obj_Namespace sa ∈ targetNamespaces ∧ obj_Name sa ∈ expected)) ∧
  (err = None → ∀ sa, sa ∈ items →
     ¬ (obj_Namespace sa ∈ targetNamespaces ∧ obj_Name sa ∈ expected) →
     view w' !! obj_ref sa = None).
Proof. apply GarbageCollectServiceAccounts_spec. Qed.

(** Garbage collection of role bindings deletes only managed bindings that no namespaced resource
    asks for by its roles, cluster roles or inline rules; when it reports no error, all listed ones
    of these are gone, and a failed list deletes nothing. *)
Theorem GarbageCollectRoleBindings_correct r R targetNamespaces w w1 w' items err :
  client_List KRoleBinding None w = (w1, inr items) →
  GarbageCollectRoleBindings r R targetNamespaces w = (w', err) →
  let asked rb := ∃ resource n, resource ∈ R ∧ IsClusterScoped resource = false ∧
    n ∈ ref_names resource ∧
    obj_Key rb = mkNN (GetNamespace resource) (roleBindingName (GetName resource) n) in
  (∀ ref, view w' !! ref ≠ view w !! ref →
     ∃ rb, rb ∈ items ∧ obj_ref rb = ref ∧ obj_Kind rb = KRoleBinding ∧
       IsOctopusManaged (obj_Labels rb) ∧ ¬ asked rb) ∧
  (err = None → ∀ rb, rb ∈ items → IsOctopusManaged (obj_Labels rb) → ¬ asked rb →
     view w' !! obj_ref rb = None).
Proof.
  intros Hlist Hrun. cbv zeta.
  assert (∀ rb, bool_decide (mkNN (obj_Namespace rb) (obj_Name rb) ∈ expected_role_bindings R) ↔
    ∃ resource n, resource ∈ R ∧ IsClusterScoped resource = false ∧ n ∈ ref_names resource ∧
    obj_Key rb = mkNN (GetNamespace resource) (roleBindingName (GetName resource) n)) as Hasked.
  { intros rb. rewrite bool_decide_spec, elem_of_expected_role_bindings.
    replace (mkNN (obj_Namespace rb) (obj_Name rb)) with (obj_Key rb); [done|].
    unfold obj_Namespace, obj_Name. by destruct (obj_Key rb). }
  pose proof (managed_gc r _ _ _ _ _ _ _ _ _ _ Hlist Hrun) as [Hsafe Hdone]. split.
  - intros ref (rb & ? & ? & ? & ? & Hk)%Hsafe. exists rb. rewrite <-Hasked. done.
  - intros He rb ?? Hna. apply Hdone; [done..|]. by rewrite Hasked.
Qed.

(** Garbage collection of roles deletes only managed roles whose name is not the one of the inline
    rules of some resource (whatever its namespace); when it reports no error, all listed ones of
    these are gone. *)
Theorem GarbageCollectRoles_correct r R w w1 w' items err :
  client_List KRole None w = (w1, inr items) →
  GarbageCollectRoles r R w = (w', err) →
  let asked role := ∃ resource, resource ∈ R ∧ GetPermissionRules resource ≠ [] ∧
    obj_Name role = rules_role_name resource in
  (∀ ref, view w' !! ref ≠ view w !! ref →
     ∃ role, role ∈ items ∧ obj_ref role = ref ∧ obj_Kind role = KRole ∧
       IsOctopusManaged (obj_Labels role) ∧ ¬ asked role) ∧
  (err = None → ∀ role, role ∈ items → IsOctopusManaged (obj_Labels role) → ¬ asked role →
     view w' !! obj_ref role = None).
Proof.
  intros Hlist Hrun. cbv zeta.
  pose proof (managed_gc r _ _ _ _ _ _ _ _ _ _ Hlist Hrun) as [Hsafe Hdone]. split.
  - intros ref (role & ? & ? & ? & ? & Hk)%Hsafe. exists role.
    rewrite bool_decide_spec, elem_of_expected_roles in Hk. done.
  - intros He role ?? Hna. apply Hdone; [done..|]. by rewrite bool_decide_spec, elem_of_expected_roles.
Qed.

(** Garbage collection of cluster role bindings deletes only managed bindings whose name no
    resource asks for; when it reports no error, all listed ones of these are gone. *)
Theorem GarbageCollectClusterRoleBindings_correct r R w w1 w' items err :
  client_List KClusterRoleBinding None w = (w1, inr items) →
  GarbageCollectClusterRoleBindings r R w = (w', err) →
  let asked crb := ∃ resource rn, resource ∈ R ∧ rn ∈ cluster_ref_names resource ∧
    obj_Name crb = clusterRoleBindingName (GetName resource) rn in
  (∀ ref, view w' !! ref ≠ view w !! ref →
     ∃ crb, crb ∈ items ∧ obj_ref crb = ref ∧ obj_Kind crb = KClusterRoleBinding ∧
       IsOctopusManaged (obj_Labels crb) ∧ ¬ asked crb) ∧
  (err = None → ∀ crb, crb ∈ items → IsOctopusManaged (obj_Labels crb) → ¬ asked crb →
     view w' !! obj_ref crb = None).
Proof.
  intros Hlist Hrun. cbv zeta.
  pose proof (managed_gc r _ _ _ _ _ _ _ _ _ _ Hlist Hrun) as [Hsafe Hdone]. split.
  - intros ref (crb & ? & ? & ? & ? & Hk)%Hsafe. exists crb.
    rewrite bool_decide_spec, elem_of_expected_cluster_role_bindings in Hk. done.
  - intros He crb ?? Hna. apply Hdone; [done..|].
    by rewrite bool_decide_spec, elem_of_expected_cluster_role_bindings.
Qed.

(** Whatever the errors, an entry of the map of created roles is the role of a resource of [R]. *)
Lemma EnsureRoles_entry r R w w' roles err key role :
  EnsureRoles r R w = (w', (roles, err)) → roles !! key = Some role →
  ∃ resource, resource ∈ R ∧ GetNamespacedName resource = key ∧
    GetPermissionRules resource ≠ [] ∧ role = created_role resource.
Proof.
  rewrite EnsureRoles_loop.
  assert (∀ acc w w' acc', for_each R acc (role_step r) w = (w', acc') → acc'.1 !! key = Some role →
    acc.1 !! key = Some role ∨ ∃ resource, resource ∈ R ∧ GetNamespacedName resource = key ∧
    GetPermissionRules resource ≠ [] ∧ role = created_role resource) as Hgen.
  { clear w w' roles err. induction R as [|x R IH]; intros acc w w' acc'; [by intros [= _ ->]; left|].
    simpl. unfold bind. destruct (role_step r x acc w) as [w1 acc1] eqn:Hx. intros Hrun Hk.
    destruct (IH _ _ _ _ Hrun Hk) as [Hacc1|(y & ? & ?)];
      [|right; exists y; split; [by apply list_elem_of_further|done]].
    unfold role_step in Hx. case_decide as Hp; [injection Hx as <- <-; by left|].
    unfold bind in Hx. destruct (client_Apply _ w) as [w2 [e|]]; injection Hx as <- <-; [by left|].
    simpl in Hacc1. apply lookup_insert_Some in Hacc1 as [[<- <-]|[_ ?]]; [|by left].
    right. exists x. split; [apply list_elem_of_here|done]. }
  intros Hrun Hk. apply Hgen in Hrun as [He|?]; [|done..]. simpl in He. by rewrite lookup_empty in He.
Qed.

(** The references a binding is made for are the expected ones. *)
Lemma role_refs_names R roles resource roleRef :
  keys_distinct R → resource ∈ R →
  (∀ role, roles !! GetNamespacedName resource = Some role →
    ∃ resource', resource' ∈ R ∧ GetNamespacedName resource' = GetNamespacedName resource ∧
      GetPermissionRules resource' ≠ [] ∧ role = created_role resource') →
  roleRef ∈ role_refs resource roles →
  rr_Name roleRef ∈ ref_names resource ∧
  (IsClusterScoped resource → rr_Name roleRef ∈ cluster_ref_names resource).
Proof.
  intros Hd Hres Hroles. unfold role_refs, ref_names, cluster_ref_names.
  rewrite !elem_of_app, fmap_app, elem_of_app.
  intros [Hr|[Hr|Hr]].
  - split; [right; left; by apply list_elem_of_fmap_2|]. intros Hc. exfalso.
    destruct resource; [done|]. by apply elem_of_nil in Hr.
  - destruct (roles !! GetNamespacedName resource) as [role|] eqn:Hrole; [|by apply elem_of_nil in Hr].
    apply list_elem_of_singleton in Hr as ->. simpl.
    destruct (Hroles role) as (resource' & Hres' & Hkey & Hp & ->); [done|].
    apply (keys_distinct_eq R) in Hkey as ->; [|done..].
    rewrite created_role_name, decide_False by done. split; intros; left; apply list_elem_of_here.
  - split; intros; right; [right|]; by apply list_elem_of_fmap_2.
Qed.

(** The objects the ensure functions change. *)
Definition asked_ref R (ref : Ref) : Prop :=
  (∃ resource, resource ∈ R ∧ GetPermissionRules resource ≠ [] ∧ ref = role_ref resource) ∨
  ∃ resource roleRef, resource ∈ R ∧ ref = binding_ref resource roleRef ∧
    rr_Name roleRef ∈ ref_names resource ∧
    (IsClusterScoped resource → rr_Name roleRef ∈ cluster_ref_names resource).


Lemma EnsureRoles_asked r R : writes_only (asked_ref R) (EnsureRoles r R).
Proof. eapply writes_only_mono, EnsureRoles_frame. intros ref Hr. by left. Qed.

Lemma EnsureRoleBindings_asked r R roles wsaToServiceAccounts targetNamespaces :
  keys_distinct R →
  (∀ key role, roles !! key = Some role →
    ∃ resource, resource ∈ R ∧ GetNamespacedName resource = key ∧
      GetPermissionRules resource ≠ [] ∧ role = created_role resource) →
  writes_only (asked_ref R) (EnsureRoleBindings r R roles wsaToServiceAccounts targetNamespaces).
Proof.
  intros Hd Hroles. eapply writes_only_mono, EnsureRoleBindings_frame.
  intros ref (ac & (x & Hac & Hx)%list_elem_of_bind & <-). right.
  unfold resource_bindings in Hac. case_decide; [by apply elem_of_nil in Hac|].
  apply list_elem_of_fmap in Hac as (roleRef & -> & Hrr). rewrite ac_ref_binding.
  destruct (role_refs_names R roles x roleRef) as [? ?]; [done|done| |done|].
  { intros role Hrole. by apply Hroles. }
  by exists x, roleRef.
Qed.

(** A collector leaves alone the objects it keeps, listed or not. *)
Lemma managed_gc_keeps r k msg msg' keep describe w ref :
  (∀ o, obj_ref o = ref → obj_Kind o = k → keep o) →
  view ((let* res := get_managed k msg in
   match res with
   | inl err => ret (Some (ErrWrap msg' err))
   | inr iter => delete_unexpected r keep describe iter
   end) w).1 !! ref = view w !! ref.
Proof.
  intros Hkeep. destruct (client_List k None w) as [w4 [e|items]] eqn:Hl.
  - rewrite (get_managed_list_error k msg msg' r keep describe w w4 e Hl). simpl.
    by rewrite <-(view_List k None w), Hl.
  - destruct ((let* res := get_managed k msg in _) w) as [w5 err5] eqn:Hrun. simpl.
    destruct (managed_gc r k msg msg' keep describe _ _ _ _ _ Hl Hrun) as [Hsafe _].
    destruct (decide (view w5 !! ref = view w !! ref)) as [|Hne]; [done|].
    apply Hsafe in Hne as (o & _ & Ho & Hko & _ & Hnk). exfalso. by apply Hnk, Hkeep.
Qed.

Lemma gc_keeps_asked r R targetNamespaces ref w :
  asked_ref R ref →
  view (GarbageCollectRoles r R w).1 !! ref = view w !! ref ∧
  view (GarbageCollectRoleBindings r R targetNamespaces w).1 !! ref = view w !! ref ∧
  view (GarbageCollectClusterRoleBindings r R w).1 !! ref = view w !! ref.
Proof.
  intros Hw. split_and!; apply managed_gc_keeps; intros o Ho Hk; rewrite bool_decide_spec;
    unfold obj_Namespace, obj_Name; unfold obj_ref in Ho; rewrite Hk in Ho;
    destruct Hw as [(x & Hx & Hp & Hr)|(x & rf & Hx & Hr & Hn & Hcn)]; subst ref;
    unfold role_ref, binding_ref in Ho; destruct (IsClusterScoped x) eqn:Hc; try done;
    injection Ho as ->.
  - apply elem_of_expected_roles. by exists x.
  - apply elem_of_expected_role_bindings. by exists x, (rr_Name rf).
  - apply elem_of_expected_cluster_role_bindings. exists x, (rr_Name rf). auto.
Qed.

(** C22. What the ensure functions write, garbage collection for the same resources keeps: every role and
    binding [EnsureRoles] and [EnsureRoleBindings] change, with or without errors, is left alone by
    the three collectors, in whatever state of the cluster they run. *)
Theorem gc_keeps_ensured r R wsaToServiceAccounts targetNamespaces w w1 w2 roles err err' ref :
  keys_distinct R →
  EnsureRoles r R w = (w1, (roles, err)) →
  EnsureRoleBindings r R roles wsaToServiceAccounts targetNamespaces w1 = (w2, err') →
  view w1 !! ref ≠ view w !! ref ∨ view w2 !! ref ≠ view w1 !! ref →
  ∀ w3, view (GarbageCollectRoles r R w3).1 !! ref = view w3 !! ref ∧
    view (GarbageCollectRoleBindings r R targetNamespaces w3).1 !! ref = view w3 !! ref ∧
    view (GarbageCollectClusterRoleBindings r R w3).1 !! ref = view w3 !! ref.
Proof.
  intros Hd Hroles Hbind Hchanged w3.
  destruct (decide (view (GarbageCollectRoles r R w3).1 !! ref = view w3 !! ref ∧
    view (GarbageCollectRoleBindings r R targetNamespaces w3).1 !! ref = view w3 !! ref ∧
    view (GarbageCollectClusterRoleBindings r R w3).1 !! ref = view w3 !! ref)) as [|Hno]; [done|].
  exfalso. assert (¬ asked_ref R ref) as Hna by (intros Ha; by apply Hno, gc_keeps_asked).
  destruct Hchanged as [Hne|Hne]; apply Hne.
  - pose proof (EnsureRoles_asked r R w ref Hna) as Hf. by rewrite Hroles in Hf.
  - pose proof (EnsureRoleBindings_asked r R roles wsaToServiceAccounts targetNamespaces Hd) as Hf.
    specialize (Hf (λ key role Hk, EnsureRoles_entry _ _ _ _ _ _ _ _ Hroles Hk) w1 ref Hna).
    by rewrite Hbind in Hf.
Qed.

Lemma managed_labels_managed labels : managed_labels ⊆ default ∅ labels → IsOctopusManaged labels.
Proof.
  intros Hl. eapply (lookup_weaken _ _ ManagedByLabel) in Hl; [|apply lookup_singleton_eq].
  unfold IsOctopusManaged. destruct labels as [l|]; simpl in Hl; [|by rewrite lookup_empty in Hl].
  by rewrite Hl, bool_decide_true.
Qed.

Lemma NoDup_no_conflict acs : NoDup (ac_ref <$> acs) → no_conflict acs.
Proof. intros Hnd ac ac' ???. by eapply NoDup_fmap_eq. Qed.

Lemma writes_only_change {A} (S : Ref → Prop) `{!∀ ref, Decision (S ref)} (m : M W A) w ref :
  writes_only S m → view (m w).1 !! ref ≠ view w !! ref → S ref.
Proof. intros Hm Hne. destruct (decide (S ref)) as [|Hn]; [done|]. by destruct Hne; apply Hm. Qed.

Lemma EnsureServiceAccounts_frame r serviceAccounts targetNamespaces :
  writes_only (λ ref, ref.1 = KServiceAccount ∧ nn_Name ref.2 ∈ sa_Name <$> serviceAccounts ∧
      nn_Namespace ref.2 ∈ targetNamespaces)
    (EnsureServiceAccounts r serviceAccounts targetNamespaces).
Proof.
  intros w ref Href. rewrite EnsureServiceAccounts_all. revert w ref Href.
  eapply writes_only_mono, apply_all_frame.
  intros ? (ac & (sa & namespace & Hsa & Hns & ->)%elem_of_all_accounts & <-). simpl.
  split_and!; [done|by apply list_elem_of_fmap_2|done].
Qed.

Lemma EnsureServiceAccounts_stored r serviceAccounts targetNamespaces w w' sa namespace :
  NoDup (sa_Name <$> serviceAccounts) →
  EnsureServiceAccounts r serviceAccounts targetNamespaces w = (w', None) →
  sa ∈ serviceAccounts → namespace ∈ targetNamespaces →
  ∃ o, view w' !! (KServiceAccount, mkNN namespace (sa_Name sa)) = Some o ∧
    IsOctopusManaged (obj_Labels o) ∧ sa_Annotations sa ⊆ obj_Annotations o ∧
    <[ManagedByLabel := ManagedByValue]> (default ∅ (sa_Labels sa)) ⊆ default ∅ (obj_Labels o).
Proof.
  intros Hnd. rewrite EnsureServiceAccounts_all. intros Hrun Hsa Hns.
  destruct (apply_all_stored apply_text (all_accounts serviceAccounts targetNamespaces) w w'
    (account_config namespace sa)) as (o & Ho & Hc); [|done|apply elem_of_all_accounts; eauto|].
  { intros ac ac' (sa1 & n1 & ? & ? & ->)%elem_of_all_accounts (sa2 & n2 & ? & ? & ->)%elem_of_all_accounts.
    intros [= -> Hname]. f_equal. by eapply NoDup_fmap_eq. }
  exists o. destruct Hc as (_ & Hl & Ha & _). split_and!; [done| |done|done].
  apply managed_labels_managed. etrans; [|exact Hl]. apply map_singleton_subseteq_l, lookup_insert_eq.
Qed.

(** [EnsureServiceAccounts] touches only the given accounts in the target namespaces, and when it
    reports no error every account exists in every target namespace, labelled as managed and with
    the labels and annotations of its template. *)
Theorem EnsureServiceAccounts_correct r serviceAccounts targetNamespaces w w' err :
  NoDup (sa_Name <$> serviceAccounts) →
  EnsureServiceAccounts r serviceAccounts targetNamespaces w = (w', err) →
  (∀ ref, view w' !! ref ≠ view w !! ref →
    ref.1 = KServiceAccount ∧ nn_Name ref.2 ∈ sa_Name <$> serviceAccounts ∧
    nn_Namespace ref.2 ∈ targetNamespaces) ∧
  (err = None → ∀ sa namespace, sa ∈ serviceAccounts → namespace ∈ targetNamespaces →
    ∃ o, view w' !! (KServiceAccount, mkNN namespace (sa_Name sa)) = Some o ∧
      IsOctopusManaged (obj_Labels o) ∧ sa_Annotations sa ⊆ obj_Annotations o ∧
      <[ManagedByLabel := ManagedByValue]> (default ∅ (sa_Labels sa)) ⊆ default ∅ (obj_Labels o)).
Proof.
  intros Hnd Hrun. split.
  - intros ref Hne. apply (writes_only_change _ _ w ref (EnsureServiceAccounts_frame r serviceAccounts targetNamespaces)).
    by rewrite Hrun.
  - intros -> sa namespace Hsa Hns. by eapply EnsureServiceAccounts_stored.
Qed.

(** C10. When [EnsureRoleBindings] reports no error, every role a resource refers to, and the role made
    of its inline rules, is bound to exactly the resource's accounts in exactly the target
    namespaces, provided that no two of the bindings it applies differ and share an object. *)
Theorem EnsureRoleBindings_correct r R roles wsaToServiceAccounts targetNamespaces w w' resource accounts roleRef :
  no_conflict (all_bindings r R roles wsaToServiceAccounts targetNamespaces) →
  EnsureRoleBindings r R roles wsaToServiceAccounts targetNamespaces w = (w', None) →
  resource ∈ R → wsaToServiceAccounts !! GetNamespacedName resource = Some accounts → accounts ≠ [] →
  roleRef ∈ role_refs resource roles →
  ∃ o subjects, view w' !! binding_ref resource roleRef = Some o ∧ IsOctopusManaged (obj_Labels o) ∧
    obj_Body o = BindingBody roleRef subjects ∧
    ∀ s, s ∈ subjects ↔ ∃ account namespace,
      account ∈ accounts ∧ namespace ∈ targetNamespaces ∧ s = mkSubject "ServiceAccount" account namespace.
Proof.
  intros Hnc Hrun Hres Hacc Hne Hrr.
  destruct (EnsureRoleBindings_stored r R roles wsaToServiceAccounts targetNamespaces w w'
    (binding_config r resource (subjects_of accounts targetNamespaces) roleRef)) as (o & Ho & Hc); [done..| |].
  - apply list_elem_of_bind. exists resource. split; [|done].
    unfold resource_bindings. rewrite Hacc. simpl. rewrite decide_False by done. by apply list_elem_of_fmap_2.
  - rewrite ac_ref_binding in Ho. destruct Hc as (_ & Hl & _ & _ & Hb).
    exists o, (subjects_of accounts targetNamespaces). split_and!; [done| |done|apply elem_of_subjects_of].
    by apply managed_labels_managed.
Qed.

(** When [EnsureRoles] reports no error, each resource with inline rules has them stored under
    its role and the returned map names that role, the others have no entry; resources whose roles
    have the same name must have the same rules, which is what the hash in the name is for. *)
Theorem EnsureRoles_correct r R w w' roles resource :
  keys_distinct R →
  (∀ x1 x2, x1 ∈ R → x2 ∈ R → GetPermissionRules x1 ≠ [] → GetPermissionRules x2 ≠ [] →
    role_ref x1 = role_ref x2 → GetPermissionRules x1 = GetPermissionRules x2) →
  EnsureRoles r R w = (w', (roles, None)) → resource ∈ R →
  (GetPermissionRules resource = [] → roles !! GetNamespacedName resource = None) ∧
  (GetPermissionRules resource ≠ [] →
    (∃ role, roles !! GetNamespacedName resource = Some role ∧ role_Name role = rules_role_name resource) ∧
    ∃ o, view w' !! role_ref resource = Some o ∧ obj_Body o = RoleBody (GetPermissionRules resource)).
Proof.
  intros Hd Hsep Hrun Hres. pose proof (EnsureRoles_created _ _ _ _ _ Hrun) as ->.
  rewrite created_roles_lookup by done. split; intros Hp; [by rewrite decide_True|].
  rewrite decide_False by done. split; [|by eapply EnsureRoles_stored].
  exists (created_role resource). split; [done|apply created_role_name].
Qed.
End correctness.

(** ** Concrete runs *)

Module ResourceExamples.
Import InMemory.
#[local] Existing Instance reference_third_party.
#[local] Existing Instance reference_third_party_laws.

Definition meta (name namespace : string) : ObjectMeta := mkMeta name namespace name 1 "1" None None [] [].
Definition no_scope : WorkloadServiceAccountScope := mkDims [] [] [] [] [] [].
Definition rule : PolicyRule := mkPolicyRule ["get"] [""] ["pods"] [] [].
Definition role (name : string) : RoleRef := mkRoleRef "rbac.authorization.k8s.io" "Role" name.
Definition cluster_role (name : string) : RoleRef := mkRoleRef "rbac.authorization.k8s.io" "ClusterRole" name.

Definition app : WSAResource :=
  wsaAdapter (mkWSA (meta "app" "team-a") no_scope [] [role "reader"] [rule] []).
Definition admin : WSAResource :=
  clusterWSAAdapter (mkCWSA (meta "admin" "") no_scope [cluster_role "admin"] [] []).
Definition R : list WSAResource := [app; admin].

Definition accounts : list ServiceAccount :=
  [mkServiceAccount "sa-1" "" "" None ∅; mkServiceAccount "sa-2" "" "" None {["k" := "v"]}].
Definition names : gmap NamespacedName (list string) :=
  {[GetNamespacedName app := ["sa-1"; "sa-2"]; GetNamespacedName admin := ["sa-2"]]}.

(** One managed object of each kind that nothing asks for, and one that is not managed. *)
Definition leftover (k : Kind) (namespace : string) (labels : option (gmap string string)) : Object :=
  mkObject k (mkNN namespace "leftover") "uid" labels ∅ [] AccountBody.
Definition objects : list Object :=
  [leftover KServiceAccount "apps" (Some managed_labels); leftover KServiceAccount "other" None;
   leftover KRole "apps" (Some managed_labels); leftover KRoleBinding "apps" (Some managed_labels);
   leftover KClusterRoleBinding "" (Some managed_labels)].
Definition world (faults : list bool) : World :=
  mkWorld (list_to_map ((λ o, (obj_ref o, o)) <$> objects)) [] [] ["apps"] ∅ faults [] [] [].
Definition w0 : World := world [].
Definition rms : ResourceManagementService := NewResourceManagementServiceWithScheme (Some ()).

Ltac run := apply run_result; vm_compute; reflexivity.

Definition sa_items : list Object := stored KServiceAccount (Some {[ManagedByLabel := ManagedByValue]}) w0.

Lemma GarbageCollectServiceAccounts_correct_witness :
  view (GarbageCollectServiceAccounts rms {["sa-1"]} {["apps"]} w0).1 !!
    obj_ref (leftover KServiceAccount "apps" (Some managed_labels)) = None.
Proof.
  refine (proj2 (GarbageCollectServiceAccounts_correct rms {["sa-1"]} {["apps"]} w0 w0
    (GarbageCollectServiceAccounts rms {["sa-1"]} {["apps"]} w0).1 sa_items no_requeue None _ _) eq_refl
    (leftover KServiceAccount "apps" (Some managed_labels)) _ _).
  - run.
  - run.
  - apply (bool_decide_unpack _). by vm_compute.
  - intros [_ Hin]. revert Hin. apply (bool_decide_unpack _). by vm_compute.
Defined.

Definition rb : Object := leftover KRoleBinding "apps" (Some managed_labels).

Lemma GarbageCollectRoleBindings_correct_witness :
  view (GarbageCollectRoleBindings rms R ["apps"] w0).1 !! obj_ref rb = None.
Proof.
  refine (proj2 (GarbageCollectRoleBindings_correct rms R ["apps"] w0 w0
    (GarbageCollectRoleBindings rms R ["apps"] w0).1 [rb] None _ _) eq_refl rb _ _ _).
  - run.
  - run.
  - apply list_elem_of_here.
  - by vm_compute.
  - intros (x & n & Hx & Hc & Hn & Hk). revert x Hx n Hc Hn Hk.
    refine (proj1 (Forall_forall (λ x, ∀ n, IsClusterScoped x = false → n ∈ ref_names x →
      obj_Key rb ≠ mkNN (GetNamespace x) (roleBindingName (GetName x) n)) R) _).
    repeat constructor; done.
Defined.

Lemma GarbageCollectRoles_correct_witness :
  view (GarbageCollectRoles rms R w0).1 !! obj_ref (leftover KRole "apps" (Some managed_labels)) = None.
Proof.
  refine (proj2 (GarbageCollectRoles_correct rms R w0 w0 (GarbageCollectRoles rms R w0).1
    [leftover KRole "apps" (Some managed_labels)] None _ _) eq_refl _ (list_elem_of_here _ _) _ _).
  - run.
  - run.
  - by vm_compute.
  - intros (x & Hx & Hp & Hn). revert Hp Hn.
    apply elem_of_cons in Hx as [->|[->|[]%elem_of_nil]%elem_of_cons]; [by vm_compute|done].
Defined.

Lemma GarbageCollectClusterRoleBindings_correct_witness :
  view (GarbageCollectClusterRoleBindings rms R w0).1 !!
    obj_ref (leftover KClusterRoleBinding "" (Some managed_labels)) = None.
Proof.
  refine (proj2 (GarbageCollectClusterRoleBindings_correct rms R w0 w0
    (GarbageCollectClusterRoleBindings rms R w0).1
    [leftover KClusterRoleBinding "" (Some managed_labels)] None _ _) eq_refl _ (list_elem_of_here _ _) _ _).
  - run.
  - run.
  - by vm_compute.
  - intros (x & rn & Hx & Hrn & Hn). by apply (f_equal (str_prefix 3)) in Hn.
Defined.

Definition after_roles : World * (gmap NamespacedName Role * option error) := EnsureRoles rms R w0.
Definition after_bindings : World * option error :=
  EnsureRoleBindings rms R after_roles.2.1 names ["apps"] after_roles.1.

Lemma gc_keeps_ensured_witness :
  view after_bindings.1 !! binding_ref app (role "reader") ≠
    view after_roles.1 !! binding_ref app (role "reader") ∧
  ∀ w3, view (GarbageCollectRoleBindings rms R ["apps"] w3).1 !! binding_ref app (role "reader") =
    view w3 !! binding_ref app (role "reader").
Proof.
  assert (view after_bindings.1 !! binding_ref app (role "reader") ≠
    view after_roles.1 !! binding_ref app (role "reader")) as Hne by by vm_compute.
  split; [exact Hne|]. intros w3.
  refine (proj1 (proj2 (gc_keeps_ensured rms R names ["apps"] w0 after_roles.1 after_bindings.1
    after_roles.2.1 after_roles.2.2 after_bindings.2 _ _ _ _ (or_intror Hne) w3))).
  - apply (bool_decide_unpack _). by vm_compute.
  - unfold after_roles. by destruct (EnsureRoles rms R w0) as [? []].
  - unfold after_bindings. apply surjective_pairing.
Defined.

Lemma EnsureServiceAccounts_correct_witness :
  ∃ o, view (EnsureServiceAccounts rms accounts ["apps"] w0).1 !! (KServiceAccount, mkNN "apps" "sa-2") = Some o ∧
    IsOctopusManaged (obj_Labels o).
Proof.
  destruct (proj2 (EnsureServiceAccounts_correct rms accounts ["apps"] w0
    (EnsureServiceAccounts rms accounts ["apps"] w0).1 None
    ltac:(by apply (bool_decide_unpack _)) ltac:(run)) eq_refl
    (mkServiceAccount "sa-2" "" "" None {["k" := "v"]}) "apps"
    (list_elem_of_further _ _ _ (list_elem_of_here _ _)) (list_elem_of_here _ _)) as (o & Ho & Hm & _).
  by exists o.
Defined.

Lemma EnsureRoleBindings_correct_witness :
  ∃ o subjects, view after_bindings.1 !! binding_ref app (role "reader") = Some o ∧
    obj_Body o = BindingBody (role "reader") subjects ∧
    mkSubject "ServiceAccount" "sa-2" "apps" ∈ subjects.
Proof.
  destruct (EnsureRoleBindings_correct rms R after_roles.2.1 names ["apps"] after_roles.1 after_bindings.1
    app ["sa-1"; "sa-2"] (role "reader")) as (o & subjects & Ho & _ & Hb & Hs).
  - apply NoDup_no_conflict, (bool_decide_unpack _). by vm_compute.
  - unfold after_bindings. run.
  - apply list_elem_of_here.
  - by vm_compute.
  - done.
  - apply list_elem_of_here.
  - exists o, subjects. split_and!; [done..|]. apply Hs. exists "sa-2", "apps".
    split_and!; [apply list_elem_of_further, list_elem_of_here|apply list_elem_of_here|done].
Defined.

Lemma EnsureRoles_correct_witness :
  ∃ o, view after_roles.1 !! role_ref app = Some o ∧ obj_Body o = RoleBody [rule].
Proof.
  refine (proj2 (proj2 (EnsureRoles_correct rms R w0 after_roles.1 after_roles.2.1 app _ _ _ _) _)).
  - apply (bool_decide_unpack _). by vm_compute.
  - intros x1 x2 H1 H2 Hp1 Hp2 _.
    apply elem_of_cons in H1 as [->|[->|[]%elem_of_nil]%elem_of_cons];
      apply elem_of_cons in H2 as [->|[->|[]%elem_of_nil]%elem_of_cons]; done.
  - unfold after_roles. destruct (EnsureRoles rms R w0) as [? [? e]] eqn:He.
    apply (f_equal (λ p, p.2.2)) in He. vm_compute in He. by subst e.
  - apply list_elem_of_here.
  - done.
Defined.

(** *** Bindings whose names collide *)

Definition app_web : WSAResource :=
  wsaAdapter (mkWSA (meta "app-web" "team-a") no_scope [] [role "reader"] [] []).
Definition app_web_reader : WSAResource :=
  wsaAdapter (mkWSA (meta "app" "team-a") no_scope [] [role "web-reader"] [] []).
Definition both_kinds : WSAResource :=
  wsaAdapter (mkWSA (meta "app" "team-a") no_scope [cluster_role "reader"] [role "reader"] [] []).
Definition one_account (R : list WSAResource) : gmap NamespacedName (list string) :=
  list_to_map ((λ r, (GetNamespacedName r, ["sa-1"])) <$> R).

(** The hashed name of a binding joins the two names with ["-"] and leaves out the kind of the
    role, so that different bindings share an object: resource [app] with role [web-reader] and
    resource [app-web] with role [reader], and a role and a cluster role of one name.  On a cluster
    that refuses to change a role reference, as Kubernetes does, these resources never reconcile. *)
Theorem binding_names_collide :
  binding_ref app_web_reader (role "web-reader") = binding_ref app_web (role "reader") ∧
  binding_ref both_kinds (role "reader") = binding_ref both_kinds (cluster_role "reader") ∧
  is_Some (EnsureRoleBindings rms [app_web_reader; app_web] ∅
    (one_account [app_web_reader; app_web]) ["apps"] w0).2 ∧
  is_Some (EnsureRoleBindings rms [both_kinds] ∅ (one_account [both_kinds]) ["apps"] w0).2.
Proof. split_and!; [by vm_compute|by vm_compute|eexists; by vm_compute|eexists; by vm_compute]. Qed.
End ResourceExamples.
