(* ===== verification/SameSpec.v ===== *)
(** * Resources up to their specifications

    Every write of a status, a finalizer or a label gives a custom resource a new version, so that two
    lists of the same resources, read by two replicas or at two moments, are hardly ever equal.  What the
    program computes from a list (src/internal/rules/generator.go, resource_management.go) depends on the
    keys and specifications only: here is that equivalence of lists, and the functions that respect it.
    [Convergence] and [Replicas] compare clusters and replicas up to it. *)

From Stdlib Require Import ZArith.
From S2P Require Import Prelude GoLib Api Scopes ServiceAccounts Access Cluster Resources.

(** ** The equivalence *)

(** What an administrator writes in a resource, and its key. *)
Record Spec := mkSpec {
  sp_clusterScoped : bool;
  sp_key : NamespacedName;
  sp_scope : WorkloadServiceAccountScope;
  sp_rules : list PolicyRule;
  sp_roles : list RoleRef;
  sp_clusterRoles : list RoleRef
}.

Definition spec_of (r : WSAResource) : Spec :=
  mkSpec (IsClusterScoped r) (GetNamespacedName r) (GetScope r) (GetPermissionRules r) (Api.GetRoles r)
    (Api.GetClusterRoles r).

(** The same specifications, in any order. *)
Definition same_specs (R1 R2 : list WSAResource) : Prop := (spec_of <$> R1) ≡ₚ (spec_of <$> R2).

#[export] Instance same_specs_equivalence : Equivalence same_specs.
Proof.
  unfold same_specs. split.
  - by intros R.
  - intros R1 R2 H. by symmetry.
  - intros R1 R2 R3 H1 H2. by etrans.
Qed.

#[export] Instance same_specs_perm : subrelation (≡ₚ) same_specs.
Proof. intros R1 R2 H. unfold same_specs. by rewrite H. Qed.

Lemma same_specs_elem R1 R2 r1 :
  same_specs R1 R2 → r1 ∈ R1 → ∃ r2, r2 ∈ R2 ∧ spec_of r1 = spec_of r2.
Proof.
  intros Hs Hr. apply (list_elem_of_fmap_2 spec_of) in Hr. unfold same_specs in Hs. rewrite Hs in Hr.
  apply list_elem_of_fmap in Hr as (r2 & ? & ?). eauto.
Qed.

(** What a specification determines. *)
Lemma spec_key r1 r2 : spec_of r1 = spec_of r2 → GetNamespacedName r1 = GetNamespacedName r2.
Proof. intros H. exact (f_equal sp_key H). Qed.
Lemma spec_scope r1 r2 : spec_of r1 = spec_of r2 → GetScope r1 = GetScope r2.
Proof. intros H. exact (f_equal sp_scope H). Qed.
Lemma spec_rules r1 r2 : spec_of r1 = spec_of r2 → GetPermissionRules r1 = GetPermissionRules r2.
Proof. intros H. exact (f_equal sp_rules H). Qed.
Lemma spec_scoped r1 r2 : spec_of r1 = spec_of r2 → IsClusterScoped r1 = IsClusterScoped r2.
Proof. intros H. exact (f_equal sp_clusterScoped H). Qed.
Lemma spec_name r1 r2 : spec_of r1 = spec_of r2 → GetName r1 = GetName r2.
Proof. intros H%spec_key. apply (f_equal nn_Name) in H. by destruct r1, r2. Qed.
Lemma spec_namespace r1 r2 : spec_of r1 = spec_of r2 → GetNamespace r1 = GetNamespace r2.
Proof. intros H%spec_key. apply (f_equal nn_Namespace) in H. by destruct r1, r2. Qed.

(** ** Proper functions *)

#[export] Instance keys_distinct_same : Proper (same_specs ==> iff) keys_distinct.
Proof.
  intros R1 R2 H. unfold keys_distinct.
  assert (∀ R : list WSAResource, GetNamespacedName <$> R = sp_key <$> (spec_of <$> R)) as Heq.
  { intros R. by rewrite <-list_fmap_compose. }
  rewrite !Heq. unfold same_specs in H. by rewrite H.
Qed.

#[export] Instance resources_ok_same : Proper (same_specs ==> iff) resources_ok.
Proof.
  assert (∀ R1 R2, same_specs R1 R2 → resources_ok R1 → resources_ok R2) as Hone.
  { intros R1 R2 Hs [H1 H2 H3]. split.
    - by rewrite <-Hs.
    - intros r Hr. destruct (same_specs_elem R2 R1 r) as (r' & Hr' & Heq); [by symmetry|done|].
      rewrite (spec_key _ _ Heq). by apply H2.
    - intros r d x Hr Hx. destruct (same_specs_elem R2 R1 r) as (r' & Hr' & Heq); [by symmetry|done|].
      rewrite (spec_scope _ _ Heq) in Hx. by eapply H3. }
  intros R1 R2 Hs. split; apply Hone; [done|by symmetry].
Qed.

Lemma buildGlobalVocabulary_same R1 R2 : same_specs R1 R2 → buildGlobalVocabulary R1 = buildGlobalVocabulary R2.
Proof.
  intros Hs. apply dims_ext. intros d. apply set_eq. intros x. rewrite !buildGlobalVocabulary_elem.
  assert (∀ R R', same_specs R R' → (∃ r, r ∈ R ∧ x ∈ dim_get d (GetScope r)) → ∃ r, r ∈ R' ∧ x ∈ dim_get d (GetScope r))
    as Hone.
  { intros R R' Hs' (r & Hr & Hx). destruct (same_specs_elem R R' r Hs' Hr) as (r' & Hr' & Heq).
    exists r'. by rewrite <-(spec_scope _ _ Heq). }
  split; apply Hone; [done|by symmetry].
Qed.

Lemma computeWSACoverage_same (O : RangeOrder) r1 r2 v :
  spec_of r1 = spec_of r2 → computeWSACoverage r1 v = computeWSACoverage r2 v.
Proof. intros H%spec_scope. unfold computeWSACoverage. by rewrite H. Qed.

(** The keys of the resources at each scope. *)
Lemma scope_map_dom (O1 O2 : RangeOrder) R1 R2 k :
  same_specs R1 R2 → keys_distinct R1 →
  (dom <$> @scope_map O1 R1 !! k : option (gset NamespacedName)) = dom <$> @scope_map O2 R2 !! k.
Proof.
  assert (∀ (O1 O2 : RangeOrder) R1 R2, same_specs R1 R2 → keys_distinct R1 → ∀ key,
    (∃ wm, @scope_map O1 R1 !! k = Some wm ∧ is_Some (wm !! key)) →
    ∃ wm, @scope_map O2 R2 !! k = Some wm ∧ is_Some (wm !! key)) as Hone.
  { clear. intros O1 O2 R1 R2 Hs Hd key (wm & Hwm & r & Hr).
    pose proof Hwm as [_ Heq]%(@scope_map_lookup O1); [|done]. rewrite Heq in Hr.
    apply wsa_map_lookup in Hr as [Hr <-]; [|by apply keys_distinct_filter].
    apply elem_of_covering in Hr as [Hr Hcov]. destruct (same_specs_elem _ _ _ Hs Hr) as (r' & Hr' & Hspec).
    assert (is_Some (default ∅ (@scope_map O2 R2 !! k) !! GetNamespacedName r')) as Hin.
    { apply (@scope_map_entry O2); [by rewrite <-Hs|done|].
      by rewrite <-(computeWSACoverage_same O2 _ _ _ Hspec), <-(buildGlobalVocabulary_same _ _ Hs),
        (computeWSACoverage_order O2 O1). }
    rewrite (spec_key _ _ Hspec). destruct (@scope_map O2 R2 !! k) as [wm'|]; [by eauto|].
    simpl in Hin. rewrite lookup_empty in Hin. by destruct Hin. }
  assert (∀ (O : RangeOrder) R wm, keys_distinct R → @scope_map O R !! k = Some wm → ∃ key, is_Some (wm !! key)) as Hne.
  { clear. intros O R wm Hd Hwm. pose proof Hwm as [Hne ->]%(@scope_map_lookup O); [|done].
    destruct (@covering O _ k R) as [|r l] eqn:Hc; [done|]. exists (GetNamespacedName r). exists r.
    rewrite <-Hc. apply wsa_map_lookup; [by apply keys_distinct_filter|]. rewrite Hc. split; [apply list_elem_of_here|done]. }
  intros Hs Hd. assert (keys_distinct R2) as Hd2 by by rewrite <-Hs.
  assert (same_specs R2 R1) as Hs' by by symmetry.
  destruct (@scope_map O1 R1 !! k) as [wm1|] eqn:H1, (@scope_map O2 R2 !! k) as [wm2|] eqn:H2; simpl; [|exfalso..|done].
  - f_equal. apply set_eq. intros key. rewrite !elem_of_dom. split; intros Hk.
    + destruct (Hone O1 O2 R1 R2 Hs Hd key) as (wm & Hwm & ?); [eauto|]. rewrite H2 in Hwm. by injection Hwm as ->.
    + destruct (Hone O2 O1 R2 R1 Hs' Hd2 key) as (wm & Hwm & ?); [eauto|]. rewrite H1 in Hwm. by injection Hwm as ->.
  - destruct (Hne O1 R1 wm1 Hd H1) as [key Hk]. destruct (Hone O1 O2 R1 R2 Hs Hd key) as (wm & Hwm & _); [eauto|].
    by rewrite H2 in Hwm.
  - destruct (Hne O2 R2 wm2 Hd2 H2) as [key Hk]. destruct (Hone O2 O1 R2 R1 Hs' Hd2 key) as (wm & Hwm & _); [eauto|].
    by rewrite H1 in Hwm.
Qed.

(** ** The accounts of equivalent lists *)

Section accounts.
Context `{ThirdParty}.

Lemma wsaSetKey_dom (O1 O2 : RangeOrder) (wm1 wm2 : gmap NamespacedName WSAResource) :
  dom wm1 = dom wm2 → @wsaSetKey O1 _ wm1 = @wsaSetKey O2 _ wm2.
Proof.
  intros Hd. rewrite !wsaSetKey_canonical. unfold key_strings. f_equal. apply slices_Sort_proper, fmap_Permutation.
  assert (∀ wm : gmap NamespacedName WSAResource, (map_to_list wm).*1 ≡ₚ elements (dom wm)) as Hel.
  { intros wm. apply NoDup_Permutation; [apply NoDup_fst_map_to_list|apply NoDup_elements|]. intros key.
    rewrite elem_of_elements, elem_of_dom, list_elem_of_fmap. split.
    - intros ([k r] & -> & Hin%elem_of_map_to_list). by exists r.
    - intros [r Hr]. exists (key, r). by rewrite elem_of_map_to_list. }
  by rewrite !Hel, Hd.
Qed.

(** The accounts depend on the keys at the scopes only. *)
Lemma scopeToServiceAccount_dom_eq (O1 O2 : RangeOrder) (sm1 sm2 : gmap Scope (gmap NamespacedName WSAResource)) :
  (∀ k, (dom <$> sm1 !! k : option (gset NamespacedName)) = dom <$> sm2 !! k) →
  scopeToServiceAccount (@GenerateServiceAccountMappings O1 _ sm1) =
  scopeToServiceAccount (@GenerateServiceAccountMappings O2 _ sm2).
Proof.
  assert (∀ (O1 O2 : RangeOrder) (sm1 sm2 : gmap Scope (gmap NamespacedName WSAResource)) k n,
    (∀ k, (dom <$> sm1 !! k : option (gset NamespacedName)) = dom <$> sm2 !! k) →
    scopeToServiceAccount (@GenerateServiceAccountMappings O1 _ sm1) !! k = Some n →
    scopeToServiceAccount (@GenerateServiceAccountMappings O2 _ sm2) !! k = Some n) as Hgen.
  { clear. intros O1 O2 sm1 sm2 k n Hd (ss & Hss & Hk & <-)%(@scopeToServiceAccount_spec O1).
    assert (∀ k1 gk, (∃ wm, sm1 !! k1 = Some wm ∧ @wsaSetKey O1 _ wm = gk) ↔
      ∃ wm, sm2 !! k1 = Some wm ∧ @wsaSetKey O2 _ wm = gk) as Hkeys.
    { intros k1 gk. specialize (Hd k1). destruct (sm1 !! k1) as [wm1|], (sm2 !! k1) as [wm2|]; try done; [|naive_solver].
      injection Hd as Hd. pose proof (wsaSetKey_dom O1 O2 wm1 wm2 Hd) as Hw. naive_solver. }
    apply (@is_group_lookup O1) in Hss as (_ & _ & gk & Hin).
    pose proof (proj1 (Hkeys k gk) (proj1 (Hin k) Hk)) as (wm & Hwm & Hgk).
    destruct (@is_group_covers O2 _ sm2 k wm Hwm) as (ss' & Hss' & Hin').
    apply (@scopeToServiceAccount_spec O2). exists ss'. rewrite Hin'. split_and!; [done|by eauto|].
    apply group_name_order. intros s. by rewrite Hin, Hin', Hkeys, Hgk. }
  intros Hd. apply map_eq. intros k. apply option_eq. intros n. split; apply Hgen; [done|]. intros k'. by rewrite Hd.
Qed.

Lemma mappings_same (O1 O2 : RangeOrder) R1 R2 :
  same_specs R1 R2 → keys_distinct R1 →
  scopeToServiceAccount (@mappings O1 _ R1) = scopeToServiceAccount (@mappings O2 _ R2).
Proof. intros Hs Hd. apply scopeToServiceAccount_dom_eq. intros k. by apply scope_map_dom. Qed.

(** Lists with the same specifications give every deployment the same account. *)
Lemma published_same (O1 O2 : RangeOrder) R1 R2 s :
  same_specs R1 R2 → keys_distinct R1 →
  GetServiceAccountForScope (@published O1 _ R1) s = GetServiceAccountForScope (@published O2 _ R2) s.
Proof.
  intros Hs Hd. rewrite !published_lookup. unfold known. rewrite (buildGlobalVocabulary_same R1 R2) by done.
  by rewrite (mappings_same O1 O2 R1 R2).
Qed.

(** And bind their resources to the same accounts. *)
Lemma granted_same `{!ThirdPartyLaws} (O1 O2 : RangeOrder) R1 R2 x1 x2 n :
  same_specs R1 R2 → resources_ok R1 → x1 ∈ R1 → x2 ∈ R2 → spec_of x1 = spec_of x2 →
  @granted O1 _ R1 x1 n ↔ @granted O2 _ R2 x2 n.
Proof.
  intros Hs HR Hx1 Hx2 Hspec. assert (resources_ok R2) as HR2 by by rewrite <-Hs.
  rewrite (@granted_iff O1), (@granted_iff O2) by done.
  rewrite (mappings_same O1 O2 R1 R2), (buildGlobalVocabulary_same R1 R2) by (done || by apply ok_keys).
  by rewrite (computeWSACoverage_same O1 _ _ _ Hspec), (computeWSACoverage_order O1 O2).
Qed.
End accounts.

(** ** The roles of equivalent resources *)

Section roles.
Context `{ThirdParty}.

Lemma rules_role_name_same x1 x2 : spec_of x1 = spec_of x2 → rules_role_name x1 = rules_role_name x2.
Proof. intros Hspec. unfold rules_role_name. by rewrite (spec_rules _ _ Hspec), (spec_scoped _ _ Hspec). Qed.

Lemma role_ref_same x1 x2 : spec_of x1 = spec_of x2 → role_ref x1 = role_ref x2.
Proof.
  intros Hspec. unfold role_ref.
  by rewrite (rules_role_name_same _ _ Hspec), (spec_scoped _ _ Hspec), (spec_namespace _ _ Hspec).
Qed.

Lemma binding_ref_same x1 x2 roleRef : spec_of x1 = spec_of x2 → binding_ref x1 roleRef = binding_ref x2 roleRef.
Proof.
  intros Hspec. unfold binding_ref.
  by rewrite (spec_name _ _ Hspec), (spec_scoped _ _ Hspec), (spec_namespace _ _ Hspec).
Qed.

(** The roles of a resource, with the one made of its rules. *)
Lemma role_refs_same R1 R2 x1 x2 :
  keys_distinct R1 → keys_distinct R2 → x1 ∈ R1 → x2 ∈ R2 → spec_of x1 = spec_of x2 →
  role_refs x1 (created_roles R1) = role_refs x2 (created_roles R2).
Proof.
  intros Hd1 Hd2 Hx1 Hx2 Hspec. unfold role_refs. rewrite !created_roles_lookup by done.
  rewrite (spec_rules _ _ Hspec), (spec_scoped _ _ Hspec), (f_equal sp_roles Hspec : Api.GetRoles x1 = Api.GetRoles x2),
    (f_equal sp_clusterRoles Hspec : Api.GetClusterRoles x1 = Api.GetClusterRoles x2).
  do 2 f_equal. case_decide; [done|]. cbn [fmap option_fmap option_map option_list].
  by rewrite !created_role_name, (rules_role_name_same _ _ Hspec).
Qed.
End roles.
