(* ===== verification/Engine.v ===== *)
(** * The engine

    The in-memory state of src/internal/rules/engine.go and the discovery of target namespaces of
    src/internal/rules/namespace_discovery.go.  What a method does while it holds the mutex
    is a list of instructions, run here in one go and interleaved with those of other threads in
    [Locking]. *)

From Stdlib Require Import ZArith.
From S2P Require Import Prelude GoLib Api Scopes ServiceAccounts Access Cluster Resources.

(** ** Third-party code: an expirable LRU cache of one entry, and compiled regular expressions

    A compiled expression is given by its [MatchString]. *)

Abbreviation Regexp := (string → bool).

Class ExpirableLRU := {
  LRU : Type;
  NewLRU : Z → LRU;
  lru_Get : LRU → Z → string → option (list string);
  lru_Add : LRU → Z → string → list string → LRU
}.

Class ExpirableLRULaws `{ExpirableLRU} := {
  lru_ttl : LRU → Z;
  lru_ttl_New ttl : lru_ttl (NewLRU ttl) = ttl;
  lru_ttl_Add c now k v : lru_ttl (lru_Add c now k v) = lru_ttl c;
  lru_Get_New ttl now k : lru_Get (NewLRU ttl) now k = None;
  (** an entry is there until its time to live is over *)
  lru_Get_Add_fresh c now now' k v :
    (0 < lru_ttl c)%Z → (now ≤ now' < now + lru_ttl c)%Z → lru_Get (lru_Add c now k v) now' k = Some v;
  lru_Get_Add_expired c now now' k v :
    (0 < lru_ttl c)%Z → (now + lru_ttl c ≤ now')%Z → lru_Get (lru_Add c now k v) now' k = None
}.

Definition reference_lru : ExpirableLRU := {|
  LRU := Z * option (string * list string * Z);
  NewLRU ttl := (ttl, None);
  lru_Get '(_, entry) now k :=
    '(k', v, expiry) ← entry;
    if decide (k = k' ∧ (now < expiry)%Z) then Some v else None;
  lru_Add '(ttl, _) now k v := (ttl, Some (k, v, now + ttl)%Z)
|}.

Definition reference_lru_laws : @ExpirableLRULaws reference_lru.
Proof.
  refine (@Build_ExpirableLRULaws reference_lru fst _ _ _ _ _).
  - done.
  - by intros [] ???.
  - done.
  - intros [ttl e] now now' k v Hpos Hnow. simpl in *. rewrite decide_True; [done|]. split; [done|lia].
  - intros [ttl e] now now' k v Hpos Hnow. simpl in *. rewrite decide_False; [done|]. intros [_ ?]. lia.
Defined.

(** ** Namespace discovery *)

Record NamespaceDiscoveryService := mkNamespaceDiscoveryService { TargetNamespaceRegex : option Regexp }.

Section discovery.
Context `{Client W} `{RangeOrder}.

Definition octopus_agent_labels : gmap string string := {["app.kubernetes.io/name" := "octopus-agent"]}.

(** [if regex.MatchString(namespace) { namespaces = append(namespaces, namespace) }]; a nil
    expression panics. *)
Fixpoint match_namespaces (regex : option Regexp) (candidates : list string) (namespaces : list string) :
    Result (list string) :=
  match candidates with
  | [] => ROk namespaces
  | namespace :: candidates =>
      match regex with
      | None => RPanic
      | Some MatchString =>
          match_namespaces regex candidates
            (if MatchString namespace then namespaces ++ [namespace] else namespaces)
      end
  end.

(** A failed list is logged and leaves the list of deployments empty. *)
Definition DiscoverTargetNamespaces (nds : NamespaceDiscoveryService) : M W (Result (list string)) :=
  let* res := client_ListDeploymentNamespaces octopus_agent_labels in
  let deployments := match res with inr items => items | inl _ => [] end in
  let namespaceSet : gset string := foldl (λ namespaceSet namespace, {[namespace]} ∪ namespaceSet) ∅ deployments in
  ret (match_namespaces (TargetNamespaceRegex nds) (range_set "namespaceSet" namespaceSet) []).

Definition nds_GetTargetNamespaces (nds : NamespaceDiscoveryService) : list string := [].
End discovery.

(** ** The engine *)

(** A value of the interface [ResourceManagement]: the service itself or a pointer to one.  The
    method set of the former does not contain the methods with a pointer receiver. *)
Inductive ResourceManagement `{GCTrackerInterface W} `{SchemeInterface} :=
| RMSValue (s : ResourceManagementService)
| RMSPointer (s : ResourceManagementService).

Definition rms_of `{GCTrackerInterface W} `{SchemeInterface} (r : ResourceManagement) :
    ResourceManagementService :=
  match r with RMSValue s => s | RMSPointer s => s end.

Record InMemoryEngine `{GCTrackerInterface W} `{SchemeInterface} `{ExpirableLRU} := mkEngine {
  eng_scopeToSA : gmap Scope string;
  eng_vocabulary : GlobalVocabulary;
  eng_saToWsaMap : gmap string (gmap NamespacedName WSAResource);
  eng_targetNamespaces : list string;
  eng_namespaceCache : option LRU;
  eng_ScopeComputation : ScopeComputationService;
  eng_ResourceManagement : ResourceManagement;
  eng_NamespaceDiscovery : NamespaceDiscoveryService
}.

Arguments mkEngine {W _ _ _} _ _ _ _ _ _ _ _.

Definition namespaceCacheKey : string := "namespaces".

(** The interface [BatchPlan]; a nil vocabulary is [None]. *)
Class BatchPlan (P : Type) := {
  plan_GetScopeToSA : P → gmap Scope string;
  plan_GetSAToWSAMap : P → gmap string (gmap NamespacedName WSAResource);
  plan_GetVocabulary : P → option GlobalVocabulary
}.

Record clusterState := mkClusterState {
  cs_scopeToSA : gmap Scope string;
  cs_saToWSAMap : gmap string (gmap NamespacedName WSAResource);
  cs_vocabulary : GlobalVocabulary;
  cs_resourceCount : nat
}.

Section engine.
Context `{Client W} `{!GCTrackerInterface W} `{SchemeInterface} `{ExpirableLRU} `{RangeOrder} `{ThirdParty}.
Implicit Types (i : InMemoryEngine).

Definition NewInMemoryEngine (scheme : option RuntimeScheme) (targetNamespaceRegex : option Regexp)
    (namespaceCacheTTL : Z) : InMemoryEngine := {|
  eng_scopeToSA := ∅;
  eng_vocabulary := NewGlobalVocabulary;
  eng_saToWsaMap := ∅;
  eng_targetNamespaces := [];
  eng_namespaceCache := Some (NewLRU namespaceCacheTTL);
  eng_ScopeComputation := NewScopeComputationService (Some NewGlobalVocabulary) (Some ∅);
  eng_ResourceManagement := RMSValue (NewResourceManagementServiceWithScheme scheme);
  eng_NamespaceDiscovery := {| TargetNamespaceRegex := targetNamespaceRegex |}
|}.

Definition NewInMemoryEngineWithNamespaces (scheme : option RuntimeScheme)
    (targetNamespaces : list string) : InMemoryEngine := {|
  eng_scopeToSA := ∅;
  eng_vocabulary := NewGlobalVocabulary;
  eng_saToWsaMap := ∅;
  eng_targetNamespaces := targetNamespaces;
  eng_namespaceCache := None;
  eng_ScopeComputation := NewScopeComputationService (Some NewGlobalVocabulary) (Some ∅);
  eng_ResourceManagement := RMSValue (NewResourceManagementServiceWithScheme scheme);
  eng_NamespaceDiscovery := {| TargetNamespaceRegex := None |}
|}.

Definition eng_GetTargetNamespaces i : list string := eng_targetNamespaces i.

(** The type assertion succeeds only on a pointer. *)
Definition SetGCTracker i (tracker : Tracker) : InMemoryEngine :=
  match eng_ResourceManagement i with
  | RMSPointer s =>
      mkEngine (eng_scopeToSA i) (eng_vocabulary i) (eng_saToWsaMap i) (eng_targetNamespaces i)
        (eng_namespaceCache i) (eng_ScopeComputation i) (RMSPointer (rms_SetGCTracker s tracker))
        (eng_NamespaceDiscovery i)
  | RMSValue _ => i
  end.

Definition set_cache (c : LRU) i : InMemoryEngine :=
  mkEngine (eng_scopeToSA i) (eng_vocabulary i) (eng_saToWsaMap i) (eng_targetNamespaces i)
    (Some c) (eng_ScopeComputation i) (eng_ResourceManagement i) (eng_NamespaceDiscovery i).

(** [now] is the time at which the cache is asked.  The result is the engine, whose cache may be
    filled, and the namespaces. *)
Definition GetOrDiscoverTargetNamespaces i (now : Z) : M W (InMemoryEngine * Result (list string)) :=
  match eng_namespaceCache i with
  | None => ret (i, ROk (eng_targetNamespaces i))
  | Some c =>
      match lru_Get c now namespaceCacheKey with
      | Some namespaces => ret (i, ROk namespaces)
      | None =>
          let* res := DiscoverTargetNamespaces (eng_NamespaceDiscovery i) in
          ret (match res with
               | RErr err => (i, RErr (ErrWrap "failed to discover target namespaces" err))
               | RPanic => (i, RPanic)
               | ROk namespaces => (set_cache (lru_Add c now namespaceCacheKey namespaces) i, ROk namespaces)
               end)
      end
  end.

(** What the methods do with the lock and with the fields it guards.  The third assignment is
    [i.ScopeComputation = NewScopeComputationService(i.vocabulary, i.scopeToSA)]; the questions are those
    of a webhook request and of a deletion, and change nothing. *)
Inductive Instruction :=
| mu_Lock
| mu_Unlock
| mu_RLock
| mu_RUnlock
| SetScopeToSA (scopeToSA : gmap Scope string)
| SetSaToWsaMap (saToWsaMap : gmap string (gmap NamespacedName WSAResource))
| SetVocabulary (vocabulary : GlobalVocabulary)
| SetScopeComputation
| AskAccount (scope : Scope)
| AskPresent (wsaKey : NamespacedName).

Definition assign i (a : Instruction) : InMemoryEngine :=
  mkEngine
    (match a with SetScopeToSA scopeToSA => scopeToSA | _ => eng_scopeToSA i end)
    (match a with SetVocabulary vocabulary => vocabulary | _ => eng_vocabulary i end)
    (match a with SetSaToWsaMap saToWsaMap => saToWsaMap | _ => eng_saToWsaMap i end)
    (eng_targetNamespaces i) (eng_namespaceCache i)
    (match a with
     | SetScopeComputation => NewScopeComputationService (Some (eng_vocabulary i)) (Some (eng_scopeToSA i))
     | _ => eng_ScopeComputation i
     end)
    (eng_ResourceManagement i) (eng_NamespaceDiscovery i).

(** A section as one step, when nobody else is in one ([Locking] interleaves them). *)
Definition critical i (section : list Instruction) : InMemoryEngine := foldl assign i section.

Definition plan_section `{BatchPlan P} (plan : P) : list Instruction :=
  [mu_Lock; SetScopeToSA (plan_GetScopeToSA plan); SetSaToWsaMap (plan_GetSAToWSAMap plan)] ++
  match plan_GetVocabulary plan with Some planVocab => [SetVocabulary planVocab] | None => [] end ++
  [SetScopeComputation; mu_Unlock].

Definition rebuild_section (state : clusterState) : list Instruction :=
  [mu_Lock; SetScopeToSA (cs_scopeToSA state); SetSaToWsaMap (cs_saToWSAMap state);
   SetVocabulary (cs_vocabulary state); SetScopeComputation; mu_Unlock].

(** [saToWsaMap] is left alone. *)
Definition refresh_section (state : clusterState) : list Instruction :=
  [mu_Lock; SetScopeToSA (cs_scopeToSA state); SetVocabulary (cs_vocabulary state); SetScopeComputation;
   mu_Unlock].

(** [GetServiceAccountForScope] and [IsWSAInMaps]. *)
Definition account_section (scope : Scope) : list Instruction := [mu_RLock; AskAccount scope; mu_RUnlock].

Definition present_section (wsaKey : NamespacedName) : list Instruction :=
  [mu_RLock; AskPresent wsaKey; mu_RUnlock].

(** What a section amounts to. *)
Definition swap i (scopeToSA : gmap Scope string)
    (saToWsaMap : gmap string (gmap NamespacedName WSAResource)) (vocabulary : GlobalVocabulary) :
    InMemoryEngine :=
  mkEngine scopeToSA vocabulary saToWsaMap (eng_targetNamespaces i) (eng_namespaceCache i)
    (NewScopeComputationService (Some vocabulary) (Some scopeToSA)) (eng_ResourceManagement i)
    (eng_NamespaceDiscovery i).

Definition ApplyBatchPlan `{BatchPlan P} i (plan : P) : InMemoryEngine :=
  critical i (plan_section plan).

(** Appends the resources that are not being deleted. *)
Definition computeStateFromCluster i : M W (Or clusterState) :=
  let* res := GetWorkloadServiceAccounts in
  match res with
  | inl err => ret (inl (ErrWrap "failed to list WorkloadServiceAccounts" err))
  | inr wsaIter =>
      let allResources := foldl (λ allResources wsa,
        if time_IsZero (meta_DeletionTimestamp (wsa_ObjectMeta wsa))
        then allResources ++ [NewWSAResource wsa] else allResources) [] wsaIter in
      let* res := GetClusterWorkloadServiceAccounts in
      match res with
      | inl err => ret (inl (ErrWrap "failed to list ClusterWorkloadServiceAccounts" err))
      | inr cwsaIter =>
          let allResources := foldl (λ allResources cwsa,
            if time_IsZero (meta_DeletionTimestamp (cwsa_ObjectMeta cwsa))
            then allResources ++ [NewClusterWSAResource cwsa] else allResources) allResources cwsaIter in
          let scopeComputation := NewScopeComputationService None None in
          let '(scopeMap, vocabulary) := ComputeScopesForWSAs scopeComputation allResources in
          let mappings := svc_GenerateServiceAccountMappings scopeComputation scopeMap in
          ret (inr {|
            cs_scopeToSA := scopeToServiceAccount mappings;
            cs_saToWSAMap := serviceAccountToWSAs mappings;
            cs_vocabulary := vocabulary;
            cs_resourceCount := length allResources
          |})
      end
  end.

Definition RebuildStateFromCluster i : M W (InMemoryEngine * option error) :=
  let* res := computeStateFromCluster i in
  ret (match res with
       | inl err => (i, Some err)
       | inr state => (critical i (rebuild_section state), None)
       end).

Definition RefreshScopeMappings i : M W (InMemoryEngine * option error) :=
  let* res := computeStateFromCluster i in
  ret (match res with
       | inl err => (i, Some err)
       | inr state => (critical i (refresh_section state), None)
       end).

Definition eng_GetServiceAccountForScope i (scope : Scope) : Result string :=
  GetServiceAccountForScope (eng_ScopeComputation i) scope.

(** The loop returns at the first map that has the key, so the order does not show. *)
Definition IsWSAInMaps i (wsaKey : NamespacedName) : bool :=
  existsb (λ '(_, wsaMap), bool_decide (is_Some (wsaMap !! wsaKey)))
    (range_map "saToWsaMap" (eng_saToWsaMap i)).

(** Logs and returns. *)
Definition CleanupServiceAccounts i (deletingResource : WSAResource) : CtrlResult * option error :=
  (no_requeue, None).
End engine.

(** ** What the operations of the engine do *)

(** The resources that are not being deleted, in the order of the lists. *)
Definition live (wsas : list WorkloadServiceAccount) (cwsas : list ClusterWorkloadServiceAccount) :
    list WSAResource :=
  (NewWSAResource <$> filter (λ wsa, time_IsZero (meta_DeletionTimestamp (wsa_ObjectMeta wsa))) wsas) ++
  (NewClusterWSAResource <$> filter (λ cwsa, time_IsZero (meta_DeletionTimestamp (cwsa_ObjectMeta cwsa))) cwsas).

(** [for x in l { if keep(x) { acc = append(acc, f(x)) } }] *)
Lemma foldl_append_filter {A B} (keep : A → bool) (f : A → B) (l : list A) acc :
  foldl (λ acc x, if keep x then acc ++ [f x] else acc) acc l = acc ++ (f <$> filter keep l).
Proof.
  revert acc. induction l as [|x l IH]; intros acc; [by rewrite app_nil_r|]. cbn [foldl].
  rewrite IH, filter_cons. destruct (keep x); simpl; [|done]. by rewrite <-app_assoc.
Qed.

(** The resources the cluster lists. *)
Definition listed `{Client W} (w : W) (R : list WSAResource) : Prop :=
  ∃ wsas cwsas, (client_ListWSAs w).2 = inr wsas ∧ (client_ListCWSAs (client_ListWSAs w).1).2 = inr cwsas ∧
    R = live wsas cwsas.

(** The cluster answers with one list. *)
Lemma listed_inj `{Client W} (w : W) R R' : listed w R → listed w R' → R = R'.
Proof.
  intros (wsas & cwsas & Hw & Hc & ->) (wsas' & cwsas' & Hw' & Hc' & ->).
  rewrite Hw in Hw'. rewrite Hc in Hc'. congruence.
Qed.

Section correctness.
Context `{ClientLaws W} `{SchemeInterface} `{ExpirableLRU} `{ThirdParty}.
Implicit Types (i : InMemoryEngine).

(** The state computed from a list of resources. *)
Definition state_of `{RangeOrder} (R : list WSAResource) : clusterState := {|
  cs_scopeToSA := scopeToServiceAccount (mappings R);
  cs_saToWSAMap := serviceAccountToWSAs (mappings R);
  cs_vocabulary := buildGlobalVocabulary R;
  cs_resourceCount := length R
|}.

Lemma computeStateFromCluster_ok `{RangeOrder} i w w1 w2 wsas cwsas :
  client_ListWSAs w = (w1, inr wsas) → client_ListCWSAs w1 = (w2, inr cwsas) →
  computeStateFromCluster i w = (w2, inr (state_of (live wsas cwsas))).
Proof.
  intros H1' H2'. unfold computeStateFromCluster, GetWorkloadServiceAccounts,
    GetClusterWorkloadServiceAccounts, bind, ret. rewrite H1'. cbn beta iota zeta. rewrite H2'.
  cbn beta iota zeta.
  rewrite (foldl_append_filter (λ wsa, time_IsZero (meta_DeletionTimestamp (wsa_ObjectMeta wsa)))).
  by rewrite (foldl_append_filter (λ cwsa, time_IsZero (meta_DeletionTimestamp (cwsa_ObjectMeta cwsa)))).
Qed.

Lemma computeStateFromCluster_cases `{RangeOrder} i w :
  (∃ wsas cwsas, (computeStateFromCluster i w).2 = inr (state_of (live wsas cwsas)) ∧
    (client_ListWSAs w).2 = inr wsas ∧ (client_ListCWSAs (client_ListWSAs w).1).2 = inr cwsas) ∨
  ∃ err, (computeStateFromCluster i w).2 = inl err.
Proof.
  destruct (client_ListWSAs w) as [w1 [e|wsas]] eqn:H1'.
  { right. unfold computeStateFromCluster, GetWorkloadServiceAccounts, bind, ret. rewrite H1'. eauto. }
  destruct (client_ListCWSAs w1) as [w2 [e|cwsas]] eqn:H2'.
  { right. unfold computeStateFromCluster, GetWorkloadServiceAccounts, GetClusterWorkloadServiceAccounts,
      bind, ret. rewrite H1'. cbn beta iota zeta. rewrite H2'. eauto. }
  left. exists wsas, cwsas. rewrite (computeStateFromCluster_ok i w w1 w2 wsas cwsas) by done.
  split; [done|]. by simpl; rewrite H2'.
Qed.

(** C35. Rebuilding and refreshing publish the mappings of the resources that are not being deleted, so
    that the next lookup answers for them; a refresh does not touch the map [handleDeletion] reads;
    and when a list fails both report an error and leave the engine as it was. *)
Theorem rebuild_refresh_correct `{RangeOrder} i w :
  (∃ wsas cwsas, (client_ListWSAs w).2 = inr wsas ∧ (client_ListCWSAs (client_ListWSAs w).1).2 = inr cwsas ∧
    let R := live wsas cwsas in
    let '(rebuilt, err) := (RebuildStateFromCluster i w).2 in
    let '(refreshed, err') := (RefreshScopeMappings i w).2 in
    err = None ∧ err' = None ∧
    eng_ScopeComputation rebuilt = published R ∧ eng_ScopeComputation refreshed = published R ∧
    eng_saToWsaMap rebuilt = serviceAccountToWSAs (mappings R) ∧
    eng_saToWsaMap refreshed = eng_saToWsaMap i) ∨
  (∃ err, (RebuildStateFromCluster i w).2 = (i, Some err) ∧ (RefreshScopeMappings i w).2 = (i, Some err)).
Proof.
  unfold RebuildStateFromCluster, RefreshScopeMappings, bind.
  destruct (computeStateFromCluster_cases i w) as [(wsas & cwsas & Hs & H1' & H2')|[err Hs]];
    destruct (computeStateFromCluster i w) as [w' res]; simpl in Hs; subst res.
  - left. exists wsas, cwsas. by split_and!.
  - right. by exists err.
Qed.

(** *** Namespaces *)

Lemma match_namespaces_spec MatchString candidates acc :
  match_namespaces (Some MatchString) candidates acc = ROk (acc ++ filter MatchString candidates).
Proof.
  revert acc. induction candidates as [|n l IH]; intros acc; simpl; [by rewrite app_nil_r|].
  rewrite IH, filter_cons. destruct (MatchString n); simpl; [|done]. by rewrite <-app_assoc.
Qed.

Lemma DiscoverTargetNamespaces_spec `{RangeOrder} MatchString w :
  ∃ namespaces, (DiscoverTargetNamespaces (mkNamespaceDiscoveryService (Some MatchString)) w).2 = ROk namespaces ∧
    NoDup namespaces ∧
    ∀ n, n ∈ namespaces ↔ MatchString n ∧
      n ∈ match (client_ListDeploymentNamespaces octopus_agent_labels w).2 with inr l => l | inl _ => [] end.
Proof.
  unfold DiscoverTargetNamespaces, bind, ret.
  destruct (client_ListDeploymentNamespaces _ w) as [w1 res]. cbn [snd TargetNamespaceRegex].
  rewrite match_namespaces_spec. eexists. split; [done|]. split.
  - apply NoDup_filter, NoDup_range_set.
  - intros n. rewrite app_nil_l, list_elem_of_filter, elem_of_range_set, (foldl_set_insert id).
    split; [intros [? [?%elem_of_empty|(? & ? & <-)]]|intros [? ?]; split; [|right; eexists]]; done.
Qed.

(** Namespaces that were configured are returned as they are; discovered ones are the namespaces
    of the labelled deployments that match the expression, without repetition, and within the time
    to live the answer is repeated without asking the cluster. *)
Theorem target_namespaces_correct `{RangeOrder} `{!ExpirableLRULaws} scheme regex ttl now w :
  (0 < ttl)%Z →
  (∀ namespaces, (GetOrDiscoverTargetNamespaces (NewInMemoryEngineWithNamespaces scheme namespaces) now w)
    = (w, (NewInMemoryEngineWithNamespaces scheme namespaces, ROk namespaces))) ∧
  let '(w1, (i1, res)) := GetOrDiscoverTargetNamespaces (NewInMemoryEngine scheme (Some regex) ttl) now w in
  ∃ namespaces, res = ROk namespaces ∧ NoDup namespaces ∧
    (∀ n, n ∈ namespaces ↔ regex n ∧
      n ∈ match (client_ListDeploymentNamespaces octopus_agent_labels w).2 with inr l => l | inl _ => [] end) ∧
    ∀ now' w', (now ≤ now' < now + ttl)%Z →
      GetOrDiscoverTargetNamespaces i1 now' w' = (w', (i1, ROk namespaces)).
Proof.
  intros Hpos. split; [done|]. unfold GetOrDiscoverTargetNamespaces at 1. simpl.
  rewrite lru_Get_New. unfold bind.
  destruct (DiscoverTargetNamespaces_spec regex w) as (namespaces & Hres & Hnd & Hin).
  destruct (DiscoverTargetNamespaces _ w) as [w1 res]. simpl in Hres. subst res. simpl.
  exists namespaces. split_and!; [done..|]. intros now' w' Hnow.
  unfold GetOrDiscoverTargetNamespaces. simpl. by rewrite lru_Get_Add_fresh by by rewrite lru_ttl_New.
Qed.

(** A failed list of deployments is not an error: the empty answer is returned and cached, and
    until the time to live is over every batch sees no target namespace, although the cluster
    would answer. *)
Theorem failed_discovery_cached `{RangeOrder} `{!ExpirableLRULaws} scheme regex ttl now w e :
  (0 < ttl)%Z → (client_ListDeploymentNamespaces octopus_agent_labels w).2 = inl e →
  let '(w1, (i1, res)) := GetOrDiscoverTargetNamespaces (NewInMemoryEngine scheme regex ttl) now w in
  res = ROk [] ∧
  ∀ now' w', (now ≤ now' < now + ttl)%Z →
    GetOrDiscoverTargetNamespaces i1 now' w' = (w', (i1, ROk [])).
Proof.
  intros Hpos He. unfold GetOrDiscoverTargetNamespaces at 1. simpl.
  rewrite lru_Get_New. unfold bind, DiscoverTargetNamespaces, bind.
  destruct (client_ListDeploymentNamespaces _ w) as [w1 res]. simpl in He. subst res. cbn [foldl].
  assert (range_set "namespaceSet" (∅ : gset string) = []) as Hnil.
  { apply Permutation_nil_r. by rewrite range_set_perm. }
  rewrite Hnil. simpl. split; [done|]. intros now' w' Hnow.
  unfold GetOrDiscoverTargetNamespaces. simpl. by rewrite lru_Get_Add_fresh by by rewrite lru_ttl_New.
Qed.

(** *** The map of [IsWSAInMaps] *)

Lemma IsWSAInMaps_spec `{RangeOrder} i key :
  IsWSAInMaps i key ↔ ∃ n wm, eng_saToWsaMap i !! n = Some wm ∧ is_Some (wm !! key).
Proof.
  unfold IsWSAInMaps. rewrite Is_true_true, existsb_exists. setoid_rewrite <-list_elem_of_In. split.
  - intros ([n wm] & Hin%elem_of_range_map & Hk%bool_decide_eq_true). eauto.
  - intros (n & wm & Hin & Hk). exists (n, wm). by rewrite elem_of_range_map, bool_decide_eq_true.
Qed.

(** Every resource covers some scope. *)
Lemma coverage_nonempty `{RangeOrder} r v : ∃ k, k ∈ computeWSACoverage r v.
Proof.
  set (f := λ d, match dim_get d (GetScope r) with [] => WildcardValue | x :: _ => x end).
  exists (foldl (λ x d, dim_set d (f d) x) (mkDims "" "" "" "" "" "") dimension_indices).
  apply computeWSACoverage_elem. intros d.
  rewrite foldl_dim_set, decide_True by apply elem_of_dimension_indices.
  unfold covers_value, f. destruct (dim_get d (GetScope r)) as [|x l]; [by left|apply list_elem_of_here].
Qed.

Lemma IsWSAInMaps_swap `{RangeOrder} `{!ThirdPartyLaws} i R key :
  resources_ok R →
  let i' := swap i (cs_scopeToSA (state_of R)) (cs_saToWSAMap (state_of R)) (cs_vocabulary (state_of R)) in
  (IsWSAInMaps i' key → ∃ r, r ∈ R ∧ GetNamespacedName r = key) ∧
  (names_separate R → (∃ r, r ∈ R ∧ GetNamespacedName r = key) → IsWSAInMaps i' key).
Proof.
  intros HR i'. rewrite IsWSAInMaps_spec. simpl. unfold mappings. split.
  - intros (n & wm & Hwm & [r Hr]).
    apply serviceAccountToWSAs_spec in Hwm as (ss & Hss & _ & <-).
    destruct ss as [|k ss'] eqn:Heq; [by apply is_group_lookup in Hss as [? _]|]. rewrite <-Heq in *.
    assert (k ∈ ss) as Hk by (rewrite Heq; apply list_elem_of_here).
    pose proof (group_entry R ss k HR Hss Hk) as He.
    apply scope_map_lookup in He as [_ He]; [|by apply ok_keys]. rewrite He in Hr.
    apply wsa_map_lookup in Hr as [Hr <-]; [|by apply keys_distinct_filter, ok_keys].
    apply elem_of_covering in Hr as [Hr _]. eauto.
  - intros Hsep (r & Hr & <-). destruct (coverage_nonempty r (buildGlobalVocabulary R)) as [k Hk].
    apply (scope_map_entry R) in Hk as Hentry; [|by apply ok_keys|done].
    destruct (scope_map R !! k) as [wm|] eqn:Hwm; [|by simpl in Hentry; rewrite lookup_empty in Hentry; destruct Hentry].
    destruct (is_group_covers _ k wm Hwm) as (ss & Hss & Hin).
    assert (k ∈ ss) as Hkss by (apply Hin; eauto).
    destruct (serviceAccountToWSAs_spec (scope_map R) (group_name ss)) as [Hval Hdom].
    destruct (proj2 Hdom) as [wm' Hwm']; [eauto|]. exists (group_name ss), wm'. split; [done|].
    apply Hval in Hwm' as (ss' & Hss' & Hname & <-). rewrite (Hsep ss' ss) by done.
    pose proof (group_entry R ss k HR Hss Hkss) as He. rewrite Hwm in He. injection He as <-. done.
Qed.

(** After the state for the resources [R] is swapped in, the engine reports a key as present only
    if a resource of [R] has it, so that a deleted resource is reported as gone once a batch that
    no longer lists it was applied; with separate names, it reports every resource of [R]. *)
Theorem IsWSAInMaps_after_swap `{RangeOrder} `{!ThirdPartyLaws} i R key :
  resources_ok R →
  let i' := swap i (cs_scopeToSA (state_of R)) (cs_saToWSAMap (state_of R)) (cs_vocabulary (state_of R)) in
  (IsWSAInMaps i' key → ∃ r, r ∈ R ∧ GetNamespacedName r = key) ∧
  (names_separate R → (∃ r, r ∈ R ∧ GetNamespacedName r = key) → IsWSAInMaps i' key).
Proof. apply IsWSAInMaps_swap. Qed.
End correctness.

(** ** The tracker *)

Section tracker.
Context `{Client W} `{!GCTrackerInterface W} `{SchemeInterface} `{ExpirableLRU} `{RangeOrder} `{ThirdParty}.

(** The constructors store the service by value, so the type assertion of [SetGCTracker] fails:
    the call changes nothing and no object is ever marked before it is deleted.  With a pointer
    the tracker would be used. *)
Theorem tracker_never_wired scheme regex ttl namespaces tracker o :
  SetGCTracker (NewInMemoryEngine scheme regex ttl) tracker = NewInMemoryEngine scheme regex ttl ∧
  SetGCTracker (NewInMemoryEngineWithNamespaces scheme namespaces) tracker =
    NewInMemoryEngineWithNamespaces scheme namespaces ∧
  (∀ e, e = NewInMemoryEngine scheme regex ttl ∨ e = NewInMemoryEngineWithNamespaces scheme namespaces →
    markForDeletion (rms_of (eng_ResourceManagement (SetGCTracker e tracker))) o ≈ ret ()) ∧
  ∀ e s, eng_ResourceManagement e = RMSPointer s →
    markForDeletion (rms_of (eng_ResourceManagement (SetGCTracker e tracker))) o ≈
    MarkForDeletion tracker (obj_UID o).
Proof.
  split_and!; [done|done|by intros e [-> | ->]|].
  intros [] s Hs. simpl in Hs. subst. done.
Qed.
End tracker.

(** ** Concrete runs *)

Module EngineExamples.
Import InMemory ResourceExamples.
#[local] Existing Instance range_forward.
#[local] Existing Instance reference_third_party.
#[local] Existing Instance reference_third_party_laws.
#[local] Existing Instance reference_lru.
#[local] Existing Instance reference_lru_laws.

Definition starts_with_a : Regexp := λ s, bool_decide (str_prefix 1 s = "a").
Definition engine0 : InMemoryEngine := NewInMemoryEngine (Some ()) (Some starts_with_a) 60.

Lemma target_namespaces_correct_witness :
  (GetOrDiscoverTargetNamespaces engine0 0 w0).2.2 = ROk ["apps"] ∧
  let '(w1, (i1, res)) := GetOrDiscoverTargetNamespaces engine0 0 w0 in
  ∃ namespaces, res = ROk namespaces ∧ NoDup namespaces ∧
    (∀ n, n ∈ namespaces ↔ starts_with_a n ∧
      n ∈ match (client_ListDeploymentNamespaces octopus_agent_labels w0).2 with inr l => l | inl _ => [] end) ∧
    ∀ now' w', (0 ≤ now' < 0 + 60)%Z →
      GetOrDiscoverTargetNamespaces i1 now' w' = (w', (i1, ROk namespaces)).
Proof.
  split; [by vm_compute|].
  exact (proj2 (target_namespaces_correct (Some ()) starts_with_a 60 0 w0 eq_refl)).
Defined.

Lemma failed_discovery_cached_witness :
  let '(w1, (i1, res)) := GetOrDiscoverTargetNamespaces engine0 0 (world [true]) in
  res = ROk [] ∧ GetOrDiscoverTargetNamespaces i1 30 w0 = (w0, (i1, ROk [])).
Proof.
  pose proof (failed_discovery_cached (Some ()) (Some starts_with_a) 60 0 (world [true]) fault
    eq_refl eq_refl) as Hc.
  fold engine0 in Hc. destruct (GetOrDiscoverTargetNamespaces engine0 0 (world [true])) as [w1 [i1 res]].
  destruct Hc as [Hres Hc]. split; [exact Hres|]. apply Hc. lia.
Defined.

Lemma listed_ok : resources_ok R.
Proof. apply resources_okb_sound. by vm_compute. Defined.

Lemma IsWSAInMaps_after_swap_witness :
  let cs := state_of R in
  let i' := swap engine0 (cs_scopeToSA cs) (cs_saToWSAMap cs) (cs_vocabulary cs) in
  IsWSAInMaps i' (GetNamespacedName app) ∧ ∃ r, r ∈ R ∧ GetNamespacedName r = GetNamespacedName app.
Proof.
  intros cs i'. assert (IsWSAInMaps i' (GetNamespacedName app)) as Hin by by vm_compute.
  split; [exact Hin|]. exact (proj1 (IsWSAInMaps_after_swap engine0 R (GetNamespacedName app) listed_ok) Hin).
Defined.

End EngineExamples.
