(* ===== verification/Webhooks.v ===== *)
(** * The admission webhooks

    The pod webhook of src/internal/webhook/v1/pod_webhook.go, which chooses the service account of a
    deployment's pod, and the validation of new resources of
    src/internal/webhook/v1beta1/workloadserviceaccount_webhook.go. *)

From Stdlib Require Import ZArith.
From S2P Require Import Prelude GoLib Api Scopes ServiceAccounts Access Cluster Resources Engine.

(** ** Pods *)

Record EnvVar := mkEnvVar { env_Name : string; env_Value : string }.

Record Container := mkContainer { ctr_Name : string; ctr_Env : list EnvVar }.

(** core/v1 [Pod]: what the webhook reads and writes, and one field for the rest. *)
Record Pod := mkPod {
  pod_Name : string;
  pod_Labels : gmap string string;
  pod_Annotations : gmap string string;
  pod_ServiceAccountName : string;
  pod_InitContainers : list Container;
  pod_Containers : list Container;
  pod_Rest : string
}.

#[export] Instance EnvVar_eq_dec : EqDecision EnvVar.
Proof. solve_decision. Defined.
#[export] Instance Container_eq_dec : EqDecision Container.
Proof. solve_decision. Defined.

(** ** The interface [rules.Engine], as far as the webhook uses it *)

Class ScopeResolver (E : Type) := { resolve : E → Scope → Result string }.

#[export] Instance InMemoryEngine_resolver `{GCTrackerInterface W} `{SchemeInterface} `{ExpirableLRU} :
  ScopeResolver InMemoryEngine := { resolve := eng_GetServiceAccountForScope }.

#[export] Instance ScopeComputationService_resolver : ScopeResolver ScopeComputationService :=
  { resolve := GetServiceAccountForScope }.

(** ** The pod webhook *)

Definition EnabledLabelKey : string := "agent.octopus.com/permissions".
Definition ProjectAnnotationKey : string := "agent.octopus.com/project".
Definition ProjectGroupAnnotationKey : string := "agent.octopus.com/project-group".
Definition EnvironmentAnnotationKey : string := "agent.octopus.com/environment".
Definition TenantAnnotationKey : string := "agent.octopus.com/tenant".
Definition StepAnnotationKey : string := "agent.octopus.com/step".
Definition SpaceAnnotationKey : string := "agent.octopus.com/space".
Definition OPCVersionEnvVarKey : string := "OCTOPUS__K8STENTACLE__OPCVERSION".

Record PodCustomDefaulter (E : Type) := mkPodCustomDefaulter { def_engine : E; def_version : string }.
Arguments mkPodCustomDefaulter {E} _ _.
Arguments def_engine {E} _.
Arguments def_version {E} _.

(** The defaulter given to the manager. *)
Definition SetupPodWebhookWithManager {E} (engine : E) (version : string) : PodCustomDefaulter E :=
  mkPodCustomDefaulter engine version.

Definition shouldRunOnPod (p : Pod) : bool :=
  match pod_Labels p !! EnabledLabelKey with
  | Some val => bool_decide (val = "enabled")
  | None => false
  end.

Definition getPodScope (p : Pod) : Scope :=
  let scope := mkDims "" "" "" "" "" "" in
  let scope := match pod_Annotations p !! ProjectAnnotationKey with
    Some project => dim_set ProjectIndex project scope | None => scope end in
  let scope := match pod_Annotations p !! ProjectGroupAnnotationKey with
    Some projectGroup => dim_set ProjectGroupIndex projectGroup scope | None => scope end in
  let scope := match pod_Annotations p !! EnvironmentAnnotationKey with
    Some environment => dim_set EnvironmentIndex environment scope | None => scope end in
  let scope := match pod_Annotations p !! TenantAnnotationKey with
    Some tenant => dim_set TenantIndex tenant scope | None => scope end in
  let scope := match pod_Annotations p !! StepAnnotationKey with
    Some step => dim_set StepIndex step scope | None => scope end in
  match pod_Annotations p !! SpaceAnnotationKey with
    Some space => dim_set SpaceIndex space scope | None => scope end.

(** The inner loop: sets the value of the first variable with the key, and tells whether there is
    one. *)
Fixpoint set_first_env (version : string) (env : list EnvVar) : list EnvVar * bool :=
  match env with
  | [] => ([], false)
  | envVar :: env =>
      if decide (env_Name envVar = OPCVersionEnvVarKey)
      then (mkEnvVar (env_Name envVar) version :: env, true)
      else let '(env, envVarExists) := set_first_env version env in (envVar :: env, envVarExists)
  end.

Definition inject_container (version : string) (container : Container) : Container :=
  let '(env, envVarExists) := set_first_env version (ctr_Env container) in
  mkContainer (ctr_Name container)
    (if envVarExists then env else env ++ [mkEnvVar OPCVersionEnvVarKey version]).

Definition injectVersionEnvironmentVariable {E} (d : PodCustomDefaulter E) (pod : Pod) : Pod :=
  mkPod (pod_Name pod) (pod_Labels pod) (pod_Annotations pod) (pod_ServiceAccountName pod)
    (inject_container (def_version d) <$> pod_InitContainers pod)
    (inject_container (def_version d) <$> pod_Containers pod) (pod_Rest pod).

Definition set_ServiceAccountName (n : string) (pod : Pod) : Pod :=
  mkPod (pod_Name pod) (pod_Labels pod) (pod_Annotations pod) n (pod_InitContainers pod)
    (pod_Containers pod) (pod_Rest pod).

(** What a request leaves behind: the pod, the returned error, the label of the duration metric, and
    the argument of the request counter if it is counted. *)
Record Outcome := mkOutcome {
  out_pod : Pod;
  out_err : option error;
  out_result : string;
  out_request : option bool
}.

(** [None]: the lookup panicked. *)
Definition Default `{ScopeResolver E} (d : PodCustomDefaulter E) (obj : Pod) : option Outcome :=
  if negb (shouldRunOnPod obj) then Some (mkOutcome obj None "skipped" None)
  else
    let obj := injectVersionEnvironmentVariable d obj in
    let scope := getPodScope obj in
    if IsEmpty scope then Some (mkOutcome obj None "skipped" None)
    else
      match resolve (def_engine d) scope with
      | RPanic => None
      | ROk serviceAccountName =>
          if decide (serviceAccountName ≠ "")
          then Some (mkOutcome (set_ServiceAccountName serviceAccountName obj) None "success" (Some true))
          else Some (mkOutcome obj None "success" (Some false))
      | RErr err => Some (mkOutcome obj (Some err) "error" (Some false))
      end.

(** ** The validating webhook *)

Definition ValidateCreate (obj : WorkloadServiceAccount) : list string * option error :=
  let scope := wsa_Scope obj in
  if decide (length (Project scope) + length (ProjectGroup scope) + length (Environment scope) +
             length (Tenant scope) + length (Step scope) + length (Space scope) = 0)
  then ([], Some (ErrNew
    "at least one scope must be defined (projects, project-groups, environments, tenants, steps, or spaces)"))
  else ([], None).

Definition ValidateUpdate (oldObj newObj : WorkloadServiceAccount) : list string * option error := ([], None).
Definition ValidateDelete (obj : WorkloadServiceAccount) : list string * option error := ([], None).

(** ** What they do *)

(** The scope of a pod, dimension by dimension. *)
Definition annotation_key (d : DimensionIndex) : string :=
  match d with
  | ProjectIndex => ProjectAnnotationKey
  | ProjectGroupIndex => ProjectGroupAnnotationKey
  | EnvironmentIndex => EnvironmentAnnotationKey
  | TenantIndex => TenantAnnotationKey
  | StepIndex => StepAnnotationKey
  | SpaceIndex => SpaceAnnotationKey
  end.

Lemma getPodScope_get p d : dim_get d (getPodScope p) = default "" (pod_Annotations p !! annotation_key d).
Proof.
  unfold getPodScope. destruct d; cbv beta iota delta [annotation_key];
  destruct (pod_Annotations p !! ProjectAnnotationKey), (pod_Annotations p !! ProjectGroupAnnotationKey),
    (pod_Annotations p !! EnvironmentAnnotationKey), (pod_Annotations p !! TenantAnnotationKey),
    (pod_Annotations p !! StepAnnotationKey), (pod_Annotations p !! SpaceAnnotationKey); done.
Qed.

(** The values of the version variable in a list of variables. *)
Definition version_values (env : list EnvVar) : list string :=
  env_Value <$> filter (λ v, env_Name v = OPCVersionEnvVarKey) env.

(** The variables with another name. *)
Definition other_env (env : list EnvVar) : list EnvVar :=
  filter (λ v, env_Name v ≠ OPCVersionEnvVarKey) env.

Lemma version_values_cons n v env :
  version_values (mkEnvVar n v :: env) =
  if decide (n = OPCVersionEnvVarKey) then v :: version_values env else version_values env.
Proof. unfold version_values. rewrite filter_cons. simpl. by case_decide. Qed.

Lemma other_env_cons n v env :
  other_env (mkEnvVar n v :: env) =
  if decide (n = OPCVersionEnvVarKey) then other_env env else mkEnvVar n v :: other_env env.
Proof. unfold other_env. rewrite filter_cons. simpl. do 2 case_decide; done. Qed.

Lemma set_first_env_spec version env :
  let '(env', exists_) := set_first_env version env in
  other_env env' = other_env env ∧
  exists_ = bool_decide (version_values env ≠ []) ∧
  version_values env' = match version_values env with [] => [] | _ :: rest => version :: rest end.
Proof.
  induction env as [|[n v] env IH]; [done|]. cbn [set_first_env env_Name].
  rewrite version_values_cons, other_env_cons. case_decide as Hn.
  - rewrite version_values_cons, other_env_cons, !decide_True by done. split_and!; [done| |done].
    by rewrite bool_decide_true.
  - destruct (set_first_env version env) as [env' e]. destruct IH as (IH1 & IH2 & IH3).
    rewrite version_values_cons, other_env_cons, !decide_False by done. by rewrite IH1.
Qed.

(** Injection sets the variable and keeps the others. *)
Lemma inject_container_spec version c :
  ctr_Name (inject_container version c) = ctr_Name c ∧
  other_env (ctr_Env (inject_container version c)) = other_env (ctr_Env c) ∧
  version_values (ctr_Env (inject_container version c)) = version :: tail (version_values (ctr_Env c)).
Proof.
  unfold inject_container. pose proof (set_first_env_spec version (ctr_Env c)) as Hs.
  destruct (set_first_env version (ctr_Env c)) as [env' e]. destruct Hs as (H1 & -> & H3). simpl.
  split; [done|]. destruct (version_values (ctr_Env c)) as [|x l].
  - rewrite bool_decide_false by tauto. unfold other_env, version_values in *.
    rewrite !filter_app, H1. split; [by rewrite app_nil_r|]. rewrite fmap_app, H3. done.
  - by rewrite bool_decide_true.
Qed.

Section webhook.
Context `{ScopeResolver E}.
Implicit Types (d : PodCustomDefaulter E) (p : Pod).

(** C32. Only a pod labelled as enabled is changed.  Of such a pod the webhook changes the version
    variable of every container, and the service account, which becomes the one found for the
    annotations if there is one; a pod without annotations, a scope without account and an error
    leave the service account alone, and an error is returned. *)
Theorem Default_correct d p out :
  Default d p = Some out →
  let scope := getPodScope p in
  (¬ shouldRunOnPod p → out_pod out = p ∧ out_err out = None) ∧
  (shouldRunOnPod p →
    out_pod out = set_ServiceAccountName (pod_ServiceAccountName (out_pod out)) (injectVersionEnvironmentVariable d p) ∧
    Forall2 (λ c c', ctr_Name c' = ctr_Name c ∧ other_env (ctr_Env c') = other_env (ctr_Env c) ∧
        version_values (ctr_Env c') = def_version d :: tail (version_values (ctr_Env c)))
      (pod_InitContainers p ++ pod_Containers p)
      (pod_InitContainers (out_pod out) ++ pod_Containers (out_pod out)) ∧
    match resolve (def_engine d) scope with
    | ROk n => out_err out = None ∧
        pod_ServiceAccountName (out_pod out) =
          if decide (IsEmpty scope ∨ n = "") then pod_ServiceAccountName p else n
    | RErr err => out_err out = (if IsEmpty scope then None else Some err) ∧
        pod_ServiceAccountName (out_pod out) = pod_ServiceAccountName p
    | RPanic => IsEmpty scope
    end).
Proof.
  assert (∀ n, Forall2 (λ c c', ctr_Name c' = ctr_Name c ∧ other_env (ctr_Env c') = other_env (ctr_Env c) ∧
        version_values (ctr_Env c') = def_version d :: tail (version_values (ctr_Env c)))
      (pod_InitContainers p ++ pod_Containers p)
      (pod_InitContainers (set_ServiceAccountName n (injectVersionEnvironmentVariable d p)) ++
       pod_Containers (set_ServiceAccountName n (injectVersionEnvironmentVariable d p)))) as Hctr.
  { intros n. simpl. rewrite <-fmap_app, Forall2_fmap_r. apply Forall_Forall2_diag, Forall_forall.
    intros c _. apply inject_container_spec. }
  unfold Default. destruct (shouldRunOnPod p) eqn:Hrun; simpl.
  2:{ intros [= <-]. split; [by intros _|]. by intros []. }
  change (getPodScope (injectVersionEnvironmentVariable d p)) with (getPodScope p).
  intros Hout. split; [by intros []|intros _].
  destruct (IsEmpty (getPodScope p)) eqn:He.
  { injection Hout as <-. split_and!; [done|apply (Hctr (pod_ServiceAccountName p))|].
    destruct (resolve (def_engine d) (getPodScope p)); [|done|done]. split; [done|].
    by rewrite decide_True by (by left). }
  destruct (resolve (def_engine d) (getPodScope p)) as [n|err|]; [|injection Hout as <-|done].
  - case_decide as Hn; injection Hout as <-; (split_and!; [done|apply (Hctr _)|done|]).
    + by rewrite decide_False by (by intros [?|?]).
    + assert (n = "") as -> by (destruct (decide (n = "")); tauto). by rewrite decide_True by (by right).
  - split_and!; [done|apply (Hctr (pod_ServiceAccountName p))|done|done].
Qed.
End webhook.

(** The pod of a deployment: when the engine serves the mappings of the resources [R], a labelled pod
      with annotations gets an account that is bound to every resource whose scope matches the
      annotations and, if account names separate, to no other; when none matches, the pod keeps its
      account. *)
Theorem pod_runs_as_granted `{RangeOrder} `{ThirdPartyLaws} (R : list WSAResource) version (p : Pod) :
  resources_ok R → shouldRunOnPod p → IsEmpty (getPodScope p) = false →
  ∃ out, Default (mkPodCustomDefaulter (published R) version) p = Some out ∧ out_err out = None ∧
    let n := pod_ServiceAccountName (out_pod out) in
    ((∀ r, r ∈ R → ¬ scope_matches r (getPodScope p)) → n = pod_ServiceAccountName p) ∧
    ((∃ r, r ∈ R ∧ scope_matches r (getPodScope p)) →
      (∀ r, r ∈ R → scope_matches r (getPodScope p) → granted R r n) ∧
      (names_separate R → ∀ r, r ∈ R → granted R r n → scope_matches r (getPodScope p))).
Proof.
  intros HR Hrun He. unfold Default. destruct (shouldRunOnPod p); [|done]. simpl.
  change (getPodScope (injectVersionEnvironmentVariable _ p)) with (getPodScope p). rewrite He.
  destruct (account_correct R (getPodScope p) HR) as (n & -> & Hnone & Hall & Hsound).
  case_decide as Hn; eexists; (split_and!; [done|done|..]); simpl.
  - intros Hno. by apply Hnone in Hno.
  - intros _. split; [done|]. intros Hsep. by apply Hsound.
  - done.
  - intros (r & Hr & Hm). exfalso. assert (n = "") as Hn' by (destruct (decide (n = "")); tauto).
    by apply (proj1 Hnone Hn' r).
Qed.

(** A resource without any scope, which would apply to every deployment, is refused when it is
    created and not when it is updated; a resource that lists a value is accepted. *)
Theorem ValidateCreate_correct (obj obj' : WorkloadServiceAccount) (s : Scope) :
  (is_Some (ValidateCreate obj).2 ↔ ∀ d, dim_get d (wsa_Scope obj) = []) ∧
  (is_Some (ValidateCreate obj).2 → scope_matches (NewWSAResource obj) s) ∧
  (ValidateUpdate obj' obj).2 = None.
Proof.
  assert (is_Some (ValidateCreate obj).2 ↔ ∀ d, dim_get d (wsa_Scope obj) = []) as Hiff.
  { unfold ValidateCreate. destruct (wsa_Scope obj) as [a b c d e f]. simpl.
    case_decide as Hlen; simpl.
    - split; [|eauto]. intros _ dim. destruct a, b, c, d, e, f; try discriminate. by destruct dim.
    - split; [by intros [? ?]|]. intros Hd. destruct Hlen.
      pose proof (Hd ProjectIndex). pose proof (Hd ProjectGroupIndex). pose proof (Hd EnvironmentIndex).
      pose proof (Hd TenantIndex). pose proof (Hd StepIndex). pose proof (Hd SpaceIndex).
      simpl in *. by subst. }
  split_and!; [done| |done]. intros Hd. pose proof (proj1 Hiff Hd) as Hnil. apply scope_matches_spec.
  intros d. simpl. by rewrite Hnil.
Qed.

(** ** Concrete requests *)

Module WebhookExamples.
Import AccessExamples.
#[local] Existing Instance range_forward.
#[local] Existing Instance reference_third_party.
#[local] Existing Instance reference_third_party_laws.

Definition pod : Pod := mkPod "script" {[EnabledLabelKey := "enabled"]}
  {[ProjectAnnotationKey := "project-1"; EnvironmentAnnotationKey := "staging"; SpaceAnnotationKey := "space-1"]}
  "default" [] [mkContainer "main" [mkEnvVar "A" "1"; mkEnvVar OPCVersionEnvVarKey "0"]] "".

Definition defaulter : PodCustomDefaulter ScopeComputationService := mkPodCustomDefaulter (published R) "1.0".

(** The account found for the pod is the one of the project. *)
Example pod_account :
  pod_ServiceAccountName ∘ out_pod <$> Default defaulter pod =
  Some (group_name [mkDims "project-1" "*" "*" "*" "*" "space-1"]).
Proof. by vm_compute. Qed.

Lemma Default_correct_witness :
  ∃ out, Default defaulter pod = Some out ∧
    (version_values ∘ ctr_Env <$> pod_Containers (out_pod out)) = [["1.0"]] ∧
    out_pod out = set_ServiceAccountName (pod_ServiceAccountName (out_pod out))
      (injectVersionEnvironmentVariable defaulter pod).
Proof.
  destruct (Default defaulter pod) as [out|] eqn:Hout; [|by vm_compute in Hout].
  destruct (proj2 (Default_correct defaulter pod out Hout) ltac:(by vm_compute)) as (Hpod & _ & _).
  exists out. split_and!; [done| |exact Hpod]. rewrite Hpod. by vm_compute.
Defined.

Lemma pod_runs_as_granted_witness :
  ∃ out, Default defaulter pod = Some out ∧
    ∀ r, r ∈ R → granted R r (pod_ServiceAccountName (out_pod out)) → scope_matches r (getPodScope pod).
Proof.
  destruct (pod_runs_as_granted R "1.0" pod R_ok ltac:(by vm_compute) ltac:(by vm_compute))
    as (out & Hout & _ & _ & Hex).
  exists out. split; [exact Hout|].
  refine (proj2 (Hex _) R_separate). exists project.
  split; [apply list_elem_of_further, list_elem_of_here|by vm_compute].
Defined.
End WebhookExamples.
