(* ===== verification/Pipeline.v ===== *)
(** * Batches and the stages they go through

    The data of src/internal/reconciliation/types.go, the condition patch of
    src/internal/condition/apply.go, the planning, validation and execution stages of
    src/internal/reconciliation/stages and the orchestrator's handling of one batch
    (src/internal/reconciliation/orchestrator.go). *)

From Stdlib Require Import ZArith.
From stdpp Require Import pretty.
From S2P Require Import Prelude GoLib Api Scopes ServiceAccounts Access Cluster Resources SameSpec Engine.

(** ** Data *)

Inductive EventType := EventTypeCreate | EventTypeUpdate | EventTypeDelete.

Record EventInfo := mkEventInfo {
  ev_Resource : WSAResource;
  ev_EventType : EventType;
  ev_Generation : Z;
  ev_ResourceVersion : string;
  ev_Timestamp : Z
}.

Definition NewEventInfo (resource : WSAResource) (eventType : EventType) (now : Z) : EventInfo := {|
  ev_Resource := resource;
  ev_EventType := eventType;
  ev_Generation := GetGeneration resource;
  ev_ResourceVersion := GetResourceVersion resource;
  ev_Timestamp := now
|}.

Definition NewCreateOrUpdateEventInfo (resource : WSAResource) (now : Z) : EventInfo :=
  let eventType := if (GetGeneration resource =? 1)%Z then EventTypeCreate else EventTypeUpdate in
  NewEventInfo resource eventType now.

(** The elements of [AllResources] are pointers to objects nothing but the plan and its batch uses: the
    list is the store of these objects, in their current state.  The values of the inner maps of
    [SAToWSAMap] are pointers to them too, but no code follows one, only the keys are looked up: a value
    is the resource as it was when the map was made. *)
Record Plan := mkPlan {
  plan_ScopeToSA : gmap Scope string;
  plan_SAToWSAMap : gmap string (gmap NamespacedName WSAResource);
  plan_WSAToSANames : gmap NamespacedName (list string);
  plan_Vocabulary : option GlobalVocabulary;
  plan_UniqueAccounts : list ServiceAccount;
  plan_AllResources : list WSAResource;
  plan_TargetNamespaces : list string
}.

#[export] Instance Plan_BatchPlan : BatchPlan Plan := {
  plan_GetScopeToSA := plan_ScopeToSA;
  plan_GetSAToWSAMap := plan_SAToWSAMap;
  plan_GetVocabulary := plan_Vocabulary
}.

(** [ValidationError] and [ValidationWarning] have the same fields. *)
Record ValidationMessage := mkValidationMessage {
  vm_Type : string;
  vm_Resource : string;
  vm_Message : string
}.

Record ValidationResult := mkValidationResult {
  vr_Valid : bool;
  vr_Errors : list ValidationMessage;
  vr_Warnings : list ValidationMessage
}.

Definition NewValidationResult : ValidationResult := mkValidationResult true [] [].

Definition AddError (vr : ValidationResult) (errorType resource message : string) : ValidationResult :=
  mkValidationResult false (vr_Errors vr ++ [mkValidationMessage errorType resource message]) (vr_Warnings vr).

Definition AddWarning (vr : ValidationResult) (warningType resource message : string) : ValidationResult :=
  mkValidationResult (vr_Valid vr) (vr_Errors vr)
    (vr_Warnings vr ++ [mkValidationMessage warningType resource message]).

(** An element of [batch.Resources] is a pointer: to an object of the batch's own, which came with an
    event, or to the object [AllResources[i]] of the batch's plan. *)
Inductive BatchResource :=
| Own (resource : WSAResource)
| Planned (i : nat).

(** The identifier is a fresh UUID, given by its text. *)
Record Batch := mkBatch {
  b_ID : string;
  b_Resources : list BatchResource;
  b_StartTime : Z;
  b_Plan : option Plan;
  b_ValidationResult : option ValidationResult;
  b_LastError : option error;
  b_RequeueAfter : Z
}.

Definition NewBatch (id : string) (now : Z) (events : list EventInfo) : Batch :=
  mkBatch id ((λ event, Own (ev_Resource event)) <$> events) now None None None 0.

Definition set_Resources (l : list BatchResource) (b : Batch) : Batch :=
  mkBatch (b_ID b) l (b_StartTime b) (b_Plan b) (b_ValidationResult b) (b_LastError b) (b_RequeueAfter b).
Definition set_Plan (p : Plan) (b : Batch) : Batch :=
  mkBatch (b_ID b) (b_Resources b) (b_StartTime b) (Some p) (b_ValidationResult b) (b_LastError b) (b_RequeueAfter b).
Definition set_ValidationResult (r : ValidationResult) (b : Batch) : Batch :=
  mkBatch (b_ID b) (b_Resources b) (b_StartTime b) (b_Plan b) (Some r) (b_LastError b) (b_RequeueAfter b).
Definition set_LastError (e : error) (b : Batch) : Batch :=
  mkBatch (b_ID b) (b_Resources b) (b_StartTime b) (b_Plan b) (b_ValidationResult b) (Some e) (b_RequeueAfter b).

Definition set_AllResources (l : list WSAResource) (p : Plan) : Plan :=
  mkPlan (plan_ScopeToSA p) (plan_SAToWSAMap p) (plan_WSAToSANames p) (plan_Vocabulary p)
    (plan_UniqueAccounts p) l (plan_TargetNamespaces p).

(** The object behind a pointer; the batches of the program have no other pointers. *)
Definition deref (b : Batch) (p : BatchResource) : option WSAResource :=
  match p with
  | Own resource => Some resource
  | Planned i => b_Plan b ≫= λ plan, plan_AllResources plan !! i
  end.

(** What a loop over [batch.Resources] reads. *)
Definition batch_resources (b : Batch) : list WSAResource := omap (deref b) (b_Resources b).

(** Overwrites the object behind the [j]-th element of [batch.Resources]: for an object of the plan, the
    execution stage reads what was written. *)
Definition write_resource (j : nat) (resource : WSAResource) (b : Batch) : Batch :=
  match b_Resources b !! j with
  | Some (Own _) => set_Resources (<[j := Own resource]> (b_Resources b)) b
  | Some (Planned i) =>
      match b_Plan b with
      | Some plan => set_Plan (set_AllResources (<[i := resource]> (plan_AllResources plan)) plan) b
      | None => b
      end
  | None => b
  end.

(** The outcome of a stage: no error, an error, or a panic. *)
Abbreviation Outcome := (Result ()).

Definition outcome (err : option error) : Outcome :=
  match err with None => ROk () | Some e => RErr e end.

(** ** Planning *)

Section planning.
Context `{Client W} `{!GCTrackerInterface W} `{SchemeInterface} `{ExpirableLRU} `{RangeOrder} `{ThirdParty}.

Definition getAllResources : M W (Or (list WSAResource)) :=
  let* res := GetWorkloadServiceAccounts in
  match res with
  | inl err => ret (inl (ErrWrap "failed to list WorkloadServiceAccounts" err))
  | inr wsaIter =>
      let allResources := foldl (λ allResources wsa,
        if time_IsZero (meta_DeletionTimestamp (wsa_ObjectMeta wsa))
        then allResources ++ [NewWSAResource wsa] else allResources) [] wsaIter in
      let* res := GetClusterWorkloadServiceAccounts in
      match res with
      | inl err => ret (inl (ErrWrap "failed to list ClusterWorkloadServiceAccounts" err))
      | inr cwsaIter =>
          ret (inr (foldl (λ allResources cwsa,
            if time_IsZero (meta_DeletionTimestamp (cwsa_ObjectMeta cwsa))
            then allResources ++ [NewClusterWSAResource cwsa] else allResources) allResources cwsaIter))
      end
  end.

Definition convertWSAToSANames (wsaToSANames : gmap NamespacedName (list string)) :
    gmap NamespacedName (list string) :=
  foldl (λ result '(wsa, saNames), <[wsa := id <$> saNames]> result) ∅
    (range_map "wsaToSANames" wsaToSANames).

(** The pointers of the plan replace those of the batch; what is listed no more stays the batch's own. *)
Definition updateBatchResourceVersions (batchResources freshResources : list WSAResource) : list BatchResource :=
  let freshByKey : gmap NamespacedName nat :=
    foldl (λ freshByKey '(i, r), <[GetNamespacedName r := i]> freshByKey) ∅ (imap pair freshResources) in
  foldl (λ updated r,
    match freshByKey !! GetNamespacedName r with
    | Some fresh => updated ++ [Planned fresh]
    | None => updated ++ [Own r]
    end) [] batchResources.

(** Stages get the engine, the batch and the time, and leave an engine and a batch. *)
Definition PlanningStage_Execute (engine : InMemoryEngine) (now : Z) (batch : Batch) :
    M W (InMemoryEngine * Batch * Outcome) :=
  let* res := getAllResources in
  match res with
  | inl err => ret (engine, batch, RErr (ErrWrap "failed to get all resources" err))
  | inr allResources =>
      let* (engine, res) := GetOrDiscoverTargetNamespaces engine now in
      ret (match res with
      | RPanic => (engine, batch, RPanic)
      | RErr err => (engine, batch, RErr (ErrWrap "failed to get target namespaces" err))
      | ROk targetNamespaces =>
          let scopeComputation := NewScopeComputationService None None in
          let '(scopeMap, vocabulary) := ComputeScopesForWSAs scopeComputation allResources in
          let mappings := svc_GenerateServiceAccountMappings scopeComputation scopeMap in
          let resources := batch_resources batch in
          let batch := set_Plan {|
            plan_ScopeToSA := scopeToServiceAccount mappings;
            plan_SAToWSAMap := serviceAccountToWSAs mappings;
            plan_WSAToSANames := convertWSAToSANames (wsaToServiceAccountNames mappings);
            plan_Vocabulary := Some vocabulary;
            plan_UniqueAccounts := serviceAccountsToCreate mappings;
            plan_AllResources := allResources;
            plan_TargetNamespaces := targetNamespaces
          |} batch in
          (engine, set_Resources (updateBatchResourceVersions resources allResources) batch, ROk ())
      end)
  end.
End planning.

(** ** Validation *)

Section validation.
Context `{Client W}.

Definition checkOwnerReferences (batch : Batch) (result : ValidationResult) : M W (Or ValidationResult) :=
  match b_Plan batch with
  | None => ret (inl (ErrNew "batch plan is nil"))
  | Some plan =>
      let* res := for_each_or (plan_UniqueAccounts plan) result (λ sa result,
        for_each_or (plan_TargetNamespaces plan) result (λ namespace result,
          let* res := client_Get KServiceAccount (mkNN namespace (sa_Name sa)) in
          ret (match res with
               | inl err =>
                   if IsNotFound err then inr result
                   else inl (ErrWrap ("failed to get service account " +:+ namespace +:+ "/" +:+ sa_Name sa) err)
               | inr existing =>
                   inr (if IsOctopusManaged (obj_Labels existing) then result
                        else AddError result "OwnerConflict"
                          ("ServiceAccount/" +:+ namespace +:+ "/" +:+ sa_Name sa)
                          "Service account exists but is not managed by octopus-permissions-controller")
               end))) in
      match res with
      | inl err => ret (inl err)
      | inr result =>
          for_each_or (batch_resources batch) result (λ resource result,
            let roleName := "octopus-" +:+ GetName resource in
            let namespace := GetNamespace resource in
            if decide (namespace = "") then ret (inr result)
            else
              let* res := client_Get KRole (mkNN namespace roleName) in
              ret (match res with
                   | inl err =>
                       if IsNotFound err then inr result
                       else inl (ErrWrap ("failed to get role " +:+ namespace +:+ "/" +:+ roleName) err)
                   | inr existing =>
                       inr (if IsOctopusManaged (obj_Labels existing) then result
                            else AddWarning result "OwnerConflict" ("Role/" +:+ namespace +:+ "/" +:+ roleName)
                              "Role exists but is not managed by octopus-permissions-controller")
                   end))
      end
  end.

Definition checkNamespaceExistence (batch : Batch) (result : ValidationResult) : M W (Or ValidationResult) :=
  match b_Plan batch with
  | None => ret (inl (ErrNew "batch plan is nil"))
  | Some plan =>
      for_each_or (plan_TargetNamespaces plan) result (λ namespace result,
        let* err := client_GetNamespace namespace in
        ret (match err with
             | Some err =>
                 if IsNotFound err
                 then inr (AddError result "NamespaceNotFound" ("Namespace/" +:+ namespace)
                        ("Target namespace '" +:+ namespace +:+ "' does not exist"))
                 else inl (ErrWrap ("failed to get namespace " +:+ namespace) err)
             | None => inr result
             end))
  end.

Definition ValidationStage_Execute `{GCTrackerInterface W} `{SchemeInterface} `{ExpirableLRU}
    (engine : InMemoryEngine) (now : Z) (batch : Batch) : M W (InMemoryEngine * Batch * Outcome) :=
  let* res := checkOwnerReferences batch NewValidationResult in
  match res with
  | inl err => ret (engine, batch, RErr (ErrWrap "failed to check owner references" err))
  | inr result =>
      let* res := checkNamespaceExistence batch result in
      ret (match res with
           | inl err => (engine, batch, RErr (ErrWrap "failed to check namespace existence" err))
           | inr result =>
               let batch := set_ValidationResult result batch in
               if vr_Valid result then (engine, batch, ROk ())
               else (engine, batch, RErr (ErrNew
                 ("validation failed with " +:+ pretty (length (vr_Errors result)) +:+ " errors")))
           end)
  end.
End validation.

(** ** Execution *)

Section execution.
Context `{Client W} `{!GCTrackerInterface W} `{SchemeInterface} `{ExpirableLRU} `{RangeOrder} `{ThirdParty}.

Definition ensureRoleBindings (r : ResourceManagementService) (plan : Plan)
    (allResources : list WSAResource) (createdRoles : gmap NamespacedName Role)
    (targetNamespaces : list string) : M W (option error) :=
  let wsaToServiceAccountNames : gmap NamespacedName (list string) :=
    foldl (λ result '(wsa, saNames), <[wsa := id <$> saNames]> result) ∅
      (range_map "WSAToSANames" (plan_WSAToSANames plan)) in
  EnsureRoleBindings r allResources createdRoles wsaToServiceAccountNames targetNamespaces.

Definition garbageCollect (r : ResourceManagementService) (plan : Plan) (allResources : list WSAResource)
    (targetNamespaces : list string) : M W (option error) :=
  let expectedSAs : gset string :=
    foldl (λ expectedSAs sa, {[sa_Name sa]} ∪ expectedSAs) ∅ (plan_UniqueAccounts plan) in
  let targetNSSet : gset string :=
    foldl (λ targetNSSet ns, {[ns]} ∪ targetNSSet) ∅ targetNamespaces in
  let* (_, err) := GarbageCollectServiceAccounts r expectedSAs targetNSSet in
  match err with
  | Some err => ret (Some (ErrWrap "failed to garbage collect service accounts" err))
  | None =>
  let* err := GarbageCollectRoles r allResources in
  match err with
  | Some err => ret (Some (ErrWrap "failed to garbage collect roles" err))
  | None =>
  let* err := GarbageCollectRoleBindings r allResources targetNamespaces in
  match err with
  | Some err => ret (Some (ErrWrap "failed to garbage collect role bindings" err))
  | None =>
  let* err := GarbageCollectClusterRoleBindings r allResources in
  match err with
  | Some err => ret (Some (ErrWrap "failed to garbage collect cluster role bindings" err))
  | None => ret None
  end end end end.

(** The part guarded by [len(allResources) > 0]. *)
Definition ensure_all (r : ResourceManagementService) (plan : Plan) : M W (option error) :=
  let* (createdRoles, err) := EnsureRoles r (plan_AllResources plan) in
  match err with
  | Some err => ret (Some (ErrWrap "failed to ensure roles" err))
  | None =>
  let* err := EnsureServiceAccounts r (plan_UniqueAccounts plan) (plan_TargetNamespaces plan) in
  match err with
  | Some err => ret (Some (ErrWrap "failed to ensure service accounts" err))
  | None =>
  let* err := ensureRoleBindings r plan (plan_AllResources plan) createdRoles (plan_TargetNamespaces plan) in
  match err with
  | Some err => ret (Some (ErrWrap "failed to ensure role bindings" err))
  | None => ret None
  end end end.

Definition ExecutionStage_Execute (engine : InMemoryEngine) (now : Z) (batch : Batch) :
    M W (InMemoryEngine * Batch * Outcome) :=
  match b_Plan batch with
  | None => ret (engine, batch, RErr (ErrNew "batch plan is nil"))
  | Some plan =>
      let r := rms_of (eng_ResourceManagement engine) in
      let targetNamespaces := plan_TargetNamespaces plan in
      if decide (targetNamespaces = [])
      then ret (engine, batch, RErr (ErrNew "no target namespaces in plan"))
      else
        let allResources := plan_AllResources plan in
        let* err := if decide (allResources = []) then ret None else ensure_all r plan in
        match err with
        | Some err => ret (engine, batch, RErr err)
        | None =>
            let* err := garbageCollect r plan allResources targetNamespaces in
            match err with
            | Some err => ret (engine, batch, RErr (ErrWrap "failed to garbage collect" err))
            | None => ret (ApplyBatchPlan engine plan, batch, ROk ())
            end
        end
  end.
End execution.

(** ** One batch *)

(** A value of the interface [Stage]. *)
Record Stage `{GCTrackerInterface W} `{SchemeInterface} `{ExpirableLRU} := mkStage {
  stage_Name : string;
  stage_Execute : InMemoryEngine → Z → Batch → M W (InMemoryEngine * Batch * Outcome)
}.
Arguments mkStage {W _ _ _} _ _.

Definition ConditionTypeReady : string := "Ready".
Definition ConditionTypePlanning : string := "Planning".
Definition ConditionTypeValidation : string := "Validation".
Definition ConditionTypeExecution : string := "Execution".
Definition ReasonInProgress : string := "InProgress".
Definition ReasonSucceeded : string := "Succeeded".
Definition ReasonFailed : string := "Failed".

Definition stageToConditionType : gmap string string :=
  {["planning" := ConditionTypePlanning; "validation" := ConditionTypeValidation;
    "execution" := ConditionTypeExecution]}.

Definition GetConditions (r : WSAResource) : list Condition :=
  match r with wsaAdapter w => wsa_Conditions w | clusterWSAAdapter c => cwsa_Conditions c end.

Definition SetConditions (conditions : list Condition) (r : WSAResource) : WSAResource :=
  match r with
  | wsaAdapter w => wsaAdapter (mkWSA (wsa_ObjectMeta w) (wsa_Scope w) (wsa_ClusterRoles w) (wsa_Roles w)
      (wsa_Permissions w) conditions)
  | clusterWSAAdapter c => clusterWSAAdapter (mkCWSA (cwsa_ObjectMeta c) (cwsa_Scope c)
      (cwsa_ClusterRoles c) (cwsa_Permissions c) conditions)
  end.

Section batch.
Context `{Client W} `{!GCTrackerInterface W} `{!EventRecorder W} `{SchemeInterface} `{ExpirableLRU}
  `{RangeOrder} `{ThirdParty}.

(** [condition.Apply] on the object of a resource; encoding the patch does not fail. *)
Definition condition_Apply (obj : WSAResource) (conditionType : string) (status : ConditionStatus)
    (reason message : string) : M W (WSAResource * option error) :=
  let conditions := SetStatusCondition (GetConditions obj) {|
    cond_Type := conditionType;
    cond_Status := status;
    cond_Reason := reason;
    cond_Message := message;
    cond_ObservedGeneration := GetGeneration obj
  |} in
  client_PatchStatus (SetConditions conditions obj) conditions.

Definition UpdateCondition := condition_Apply.

(** The recorder may be nil. *)
Record StageOrchestrator := mkStageOrchestrator {
  so_stages : list Stage;
  so_has_recorder : bool;
  so_maxRetries : Z
}.

Definition NewStageOrchestrator (stages : list Stage) (has_recorder : bool) : StageOrchestrator := {|
  so_stages := stages;
  so_has_recorder := has_recorder;
  so_maxRetries := 3
|}.

(** Errors are logged.  The answer of the server, specification included, is decoded into the object behind
    the pointer, which is the plan's own object once the batch is planned. *)
Definition updateConditions (batch : Batch) (conditionType : string) (status : ConditionStatus)
    (reason message : string) : M W Batch :=
  for_each (seq 0 (length (b_Resources batch))) batch (λ j batch,
    match b_Resources batch !! j ≫= deref batch with
    | Some res =>
        let* (res, _) := UpdateCondition res conditionType status reason message in
        ret (write_resource j res batch)
    | None => ret batch
    end).

Definition updateStageStatus (batch : Batch) (stageName reason message : string) : M W Batch :=
  let conditionType := default "" (stageToConditionType !! stageName) in
  if decide (conditionType = "") then ret batch
  else
    let status :=
      if decide (reason = ReasonSucceeded) then ConditionTrue
      else if decide (reason = ReasonInProgress) then ConditionUnknown
      else ConditionFalse in
    updateConditions batch conditionType status reason message.

Definition emitEvent (so : StageOrchestrator) (batch : Batch) (eventType reason message : string) : M W () :=
  if so_has_recorder so then
    for_each (batch_resources batch) () (λ res _, recorder_Event res eventType reason message)
  else ret ().

Definition emitReconcileEvents (so : StageOrchestrator) (batch : Batch) : M W () :=
  if so_has_recorder so then
    match b_Plan batch with
    | None => ret ()
    | Some plan =>
        for_each (batch_resources batch) () (λ resource _,
          let saNames := default [] (plan_WSAToSANames plan !! GetNamespacedName resource) in
          if decide (saNames = []) then
            recorder_Event resource "Normal" "Reconciled" "No ServiceAccounts generated (no matching scopes)"
          else
            recorder_Event resource "Normal" "Reconciled"
              ("Reconciled " +:+ pretty (length saNames) +:+ " ServiceAccount(s): " +:+
               strings_Join saNames ", " +:+ " across " +:+
               pretty (length (plan_TargetNamespaces plan)) +:+ " namespace(s)"))
    end
  else ret ().

Definition updateFinalConditions (batch : Batch) (failedStage : string) (err : option error) : M W Batch :=
  if decide (failedStage ≠ "") then
    let message := "Stage " +:+ failedStage +:+ " failed: " +:+ from_option error_Error "" err in
    updateConditions batch ConditionTypeReady ConditionFalse ReasonFailed message
  else
    updateConditions batch ConditionTypeReady ConditionTrue ReasonSucceeded "All stages completed successfully".

(** The loop over the stages; it ends at the first one that fails, and its result names it. *)
Fixpoint run_stages (so : StageOrchestrator) (stages : list Stage) (engine : InMemoryEngine) (now : Z)
    (batch : Batch) : M W (InMemoryEngine * Batch * Res (string * error) ()) :=
  match stages with
  | [] => ret (engine, batch, ROk ())
  | stage :: stages =>
      let* batch := updateStageStatus batch (stage_Name stage) ReasonInProgress "Processing" in
      let* _ := emitEvent so batch "Normal" "StageStarted"
        ("Stage " +:+ stage_Name stage +:+ " started (batch " +:+ b_ID batch +:+ ")") in
      let* (engine, batch, err) := stage_Execute stage engine now batch in
      match err with
      | RPanic => ret (engine, batch, RPanic)
      | RErr err =>
          let* batch := updateStageStatus batch (stage_Name stage) ReasonFailed (error_Error err) in
          let* _ := emitEvent so batch "Warning" "StageFailed"
            ("Stage " +:+ stage_Name stage +:+ " failed: " +:+ error_Error err +:+
             " (batch " +:+ b_ID batch +:+ ")") in
          ret (engine, batch, RErr (stage_Name stage, err))
      | ROk _ =>
          let* batch := updateStageStatus batch (stage_Name stage) ReasonSucceeded "Complete" in
          let* since := time_Since in
          let* _ := emitEvent so batch "Normal" "StageCompleted"
            ("Stage " +:+ stage_Name stage +:+ " completed (batch " +:+ b_ID batch +:+
             ", duration " +:+ since +:+ ")") in
          run_stages so stages engine now batch
      end
  end.

(** The last result tells whether a follow-up reconciliation is scheduled. *)
Definition processBatch (so : StageOrchestrator) (engine : InMemoryEngine) (now : Z) (batch : Batch) :
    M W (InMemoryEngine * Batch * Outcome * bool) :=
  if decide (b_Resources batch = []) then ret (engine, batch, ROk (), false)
  else
    let* (engine, batch, res) := run_stages so (so_stages so) engine now batch in
    match res with
    | RPanic => ret (engine, batch, RPanic, false)
    | RErr (failedStage, stageErr) =>
        let* batch := updateFinalConditions batch failedStage (Some stageErr) in
        ret (engine, batch, RErr (ErrWrap ("stage " +:+ failedStage +:+ " failed") stageErr), false)
    | ROk _ =>
        let* batch := updateFinalConditions batch "" None in
        let* _ := emitReconcileEvents so batch in
        ret (engine, batch, ROk (), bool_decide (0 < b_RequeueAfter batch)%Z)
    end.

(** The stages main.go installs. *)
Definition staging_stages : list Stage :=
  [mkStage "planning" PlanningStage_Execute; mkStage "validation" ValidationStage_Execute;
   mkStage "execution" ExecutionStage_Execute].
End batch.

(** ** The plan of a list of resources *)

Section plans.
Context `{RangeOrder} `{ThirdParty}.

Definition plan_for (R : list WSAResource) (targetNamespaces : list string) : Plan := {|
  plan_ScopeToSA := scopeToServiceAccount (mappings R);
  plan_SAToWSAMap := serviceAccountToWSAs (mappings R);
  plan_WSAToSANames := wsaToServiceAccountNames (mappings R);
  plan_Vocabulary := Some (buildGlobalVocabulary R);
  plan_UniqueAccounts := serviceAccountsToCreate (mappings R);
  plan_AllResources := R;
  plan_TargetNamespaces := targetNamespaces
|}.

(** The plan made for [R] when its objects are [X] by now. *)
Definition plan_of (R X : list WSAResource) (targetNamespaces : list string) : Plan :=
  set_AllResources X (plan_for R targetNamespaces).

(** Copying a map entry by entry gives the map. *)
Lemma copy_map site (m : gmap NamespacedName (list string)) :
  foldl (λ (result : gmap NamespacedName (list string)) '(wsa, saNames), <[wsa := id <$> saNames]> result) ∅
    (range_map site m) = m.
Proof.
  assert (∀ l (acc : gmap NamespacedName (list string)),
    foldl (λ result '(wsa, saNames), <[wsa := id <$> saNames]> result) acc l =
    foldl (λ result p, <[p.1 := p.2]> result) acc l) as ->.
  { induction l as [|[k v] l IH]; intros acc; [done|]. cbn [foldl fst snd]. by rewrite list_fmap_id, IH. }
  apply map_eq. intros k. apply option_eq. intros v.
  rewrite foldl_insert_lookup_nodup by apply NoDup_fst_range_map. split.
  - intros ([k' v'] & Hin%elem_of_range_map & <- & <-). done.
  - intros Hk. exists (k, v). by rewrite elem_of_range_map.
Qed.

Lemma convertWSAToSANames_id m : convertWSAToSANames m = m.
Proof. apply copy_map. Qed.
End plans.

(** ** What a successful execution leaves behind *)

Section deployment.
Context `{ClientLaws W} `{SchemeInterface} `{ExpirableLRU} `{RangeOrder} `{ThirdPartyLaws}.
Implicit Types (r : ResourceManagementService) (R X : list WSAResource).

(** The accounts are those of the resources [R] a plan was made for; the roles are those of [X], the same
    resources as the execution finds them.  Every account a resource is granted exists in every target
    namespace and is a subject of a binding to every role the resource refers to, and the role of its
    inline rules carries them. *)
Record deployed R X (targetNamespaces : list string) (w : W) : Prop := {
  dep_account x n namespace : x ∈ X → granted R x n → namespace ∈ targetNamespaces →
    ∃ o, view w !! (KServiceAccount, mkNN namespace n) = Some o ∧ IsOctopusManaged (obj_Labels o);
  dep_binding x n namespace roleRef : x ∈ X → granted R x n → namespace ∈ targetNamespaces →
    roleRef ∈ role_refs x (created_roles X) →
    ∃ o subjects, view w !! binding_ref x roleRef = Some o ∧ obj_Body o = BindingBody roleRef subjects ∧
      ∀ s, s ∈ subjects ↔ ∃ n' namespace', granted R x n' ∧ namespace' ∈ targetNamespaces ∧
        s = mkSubject "ServiceAccount" n' namespace';
  dep_role x : x ∈ X → GetPermissionRules x ≠ [] →
    ∃ o, view w !! role_ref x = Some o ∧ obj_Body o = RoleBody (GetPermissionRules x);
  dep_managed x n roleRef o : x ∈ X → granted R x n → roleRef ∈ role_refs x (created_roles X) →
    view w !! binding_ref x roleRef = Some o → IsOctopusManaged (obj_Labels o)
}.

(** What the writes must not do: two bindings that differ but share an object, or roles of one
    name with different rules. *)
Record no_clash r R X (targetNamespaces : list string) : Prop := {
  nc_bindings : no_conflict (all_bindings r X (created_roles X) (wsaToServiceAccountNames (mappings R)) targetNamespaces);
  nc_roles x1 x2 : x1 ∈ X → x2 ∈ X → GetPermissionRules x1 ≠ [] → GetPermissionRules x2 ≠ [] →
    role_ref x1 = role_ref x2 → GetPermissionRules x1 = GetPermissionRules x2
}.

Lemma ensure_all_steps r R X targetNamespaces w w' :
  ensure_all r (plan_of R X targetNamespaces) w = (w', None) →
  ∃ w1 w2, EnsureRoles r X w = (w1, (created_roles X, None)) ∧
    EnsureServiceAccounts r (serviceAccountsToCreate (mappings R)) targetNamespaces w1 = (w2, None) ∧
    EnsureRoleBindings r X (created_roles X) (wsaToServiceAccountNames (mappings R)) targetNamespaces w2 = (w', None).
Proof.
  unfold ensure_all, bind. cbn [plan_of set_AllResources plan_for plan_AllResources plan_UniqueAccounts plan_TargetNamespaces].
  destruct (EnsureRoles r X w) as [w1 [roles [e|]]] eqn:H1'; [done|].
  pose proof (EnsureRoles_created _ _ _ _ _ H1') as ->.
  destruct (EnsureServiceAccounts _ _ _ w1) as [w2 [e|]] eqn:H2'; [done|].
  unfold ensureRoleBindings. rewrite copy_map. cbn [plan_of set_AllResources plan_for plan_WSAToSANames].
  destruct (EnsureRoleBindings _ _ _ _ _ w2) as [w3 [e|]] eqn:H3'; [done|].
  unfold ret. intros [= <-]. by exists w1, w2.
Qed.

Lemma granted_names R x :
  (∃ n, granted R x n) → ∃ names, wsaToServiceAccountNames (mappings R) !! GetNamespacedName x = Some names ∧
    names ≠ [] ∧ ∀ n, n ∈ names ↔ granted R x n.
Proof.
  unfold granted. intros [n Hn].
  destruct (wsaToServiceAccountNames (mappings R) !! GetNamespacedName x) as [names|]; simpl in *.
  - exists names. split_and!; [done| |done]. intros ->. by apply elem_of_nil in Hn.
  - by apply elem_of_nil in Hn.
Qed.

Lemma granted_created R x n :
  granted R x n → ∃ sa, sa ∈ serviceAccountsToCreate (mappings R) ∧ sa_Name sa = n.
Proof.
  intros (ss & Hss & <- & _)%granted_spec.
  by apply (proj1 (proj2 (serviceAccountsToCreate_spec (scope_map R)))).
Qed.

(** A binding of a resource that was granted an account is stored as it was applied. *)
Lemma ensured_binding r R X targetNamespaces w w' :
  no_conflict (all_bindings r X (created_roles X) (wsaToServiceAccountNames (mappings R)) targetNamespaces) →
  EnsureRoleBindings r X (created_roles X) (wsaToServiceAccountNames (mappings R)) targetNamespaces w = (w', None) →
  ∀ x n roleRef, x ∈ X → granted R x n → roleRef ∈ role_refs x (created_roles X) →
  ∃ names o, (∀ n, n ∈ names ↔ granted R x n) ∧ view w' !! binding_ref x roleRef = Some o ∧
    IsOctopusManaged (obj_Labels o) ∧ obj_Body o = BindingBody roleRef (subjects_of names targetNamespaces).
Proof.
  intros Hnc Hrun x n roleRef Hx Hg Hrr.
  destruct (granted_names R x) as (names & Hnames & Hne & Hin); [eauto|].
  destruct (EnsureRoleBindings_stored r X (created_roles X) (wsaToServiceAccountNames (mappings R))
    targetNamespaces w w' (binding_config r x (subjects_of names targetNamespaces) roleRef)) as (o & Ho & Hc);
    [done..| |].
  { apply list_elem_of_bind. exists x. split; [|done]. unfold resource_bindings. rewrite Hnames. simpl.
    rewrite decide_False by done. by apply list_elem_of_fmap_2. }
  rewrite ac_ref_binding in Ho. destruct Hc as (_ & Hl & _ & _ & Hb).
  exists names, o. split_and!; [done|done|by apply managed_labels_managed|done].
Qed.

(** After the ensure steps everything is there. *)
Lemma ensure_all_deploys r R X targetNamespaces w w' :
  no_clash r R X targetNamespaces →
  ensure_all r (plan_of R X targetNamespaces) w = (w', None) → deployed R X targetNamespaces w'.
Proof.
  intros [Hnc Hsep] (w1 & w2 & H1' & H2' & H3')%ensure_all_steps.
  assert (∀ ref, ref.1 ≠ KRoleBinding → ref.1 ≠ KClusterRoleBinding → view w' !! ref = view w2 !! ref) as Hkeep3.
  { intros ref Hne1 Hne2. replace w' with (EnsureRoleBindings r X (created_roles X)
      (wsaToServiceAccountNames (mappings R)) targetNamespaces w2).1 by by rewrite H3'.
    apply EnsureRoleBindings_frame. intros (ac & (x & Hac & _)%list_elem_of_bind & <-).
    unfold resource_bindings in Hac. case_decide; [by apply elem_of_nil in Hac|].
    apply list_elem_of_fmap in Hac as (roleRef & -> & _). rewrite ac_ref_binding in *.
    unfold binding_ref in *. by destruct (IsClusterScoped x). }
  pose proof (ensured_binding r R X targetNamespaces w2 w' Hnc H3') as Hstored.
  split.
  - intros x n namespace Hx Hg Hns. destruct (granted_created R x n Hg) as (sa & Hsa & <-).
    destruct (EnsureServiceAccounts_stored r _ _ w1 w2 sa namespace
      (proj2 (proj2 (serviceAccountsToCreate_spec (scope_map R)))) H2' Hsa Hns) as (o & Ho & Hm & _).
    exists o. by rewrite Hkeep3.
  - intros x n namespace roleRef Hx Hg Hns Hrr.
    destruct (Hstored x n roleRef Hx Hg Hrr) as (names & o & Hin & Ho & _ & Hb).
    exists o, (subjects_of names targetNamespaces). split_and!; [done..|].
    intros s. rewrite elem_of_subjects_of. by setoid_rewrite Hin.
  - intros x Hx Hp. destruct (EnsureRoles_stored r X w w1 _ x Hsep H1' Hx Hp) as (o & Ho & Hb).
    exists o. split; [|done].
    assert (ref_kind : (role_ref x).1 = KRole ∨ (role_ref x).1 = KClusterRole).
    { unfold role_ref. destruct (IsClusterScoped x); auto. }
    rewrite Hkeep3 by (destruct ref_kind as [-> | ->]; done). rewrite <-Ho.
    replace w2 with (EnsureServiceAccounts r (serviceAccountsToCreate (mappings R)) targetNamespaces w1).1
      by by rewrite H2'.
    apply EnsureServiceAccounts_frame. intros (Hk & _). destruct ref_kind as [E|E]; by rewrite E in Hk.
  - intros x n roleRef o Hx Hg Hrr Ho. destruct (Hstored x n roleRef Hx Hg Hrr) as (_ & o' & _ & Ho' & Hm & _).
    rewrite Ho in Ho'. by injection Ho' as ->.
Qed.
End deployment.

(** ** The execution stage *)

Section execution_correct.
Context `{ClientLaws W} `{SchemeInterface} `{ExpirableLRU} `{RangeOrder} `{ThirdPartyLaws}.
Implicit Types (r : ResourceManagementService) (R X : list WSAResource) (e : InMemoryEngine).

(** What a plan needs: the roles and bindings of [X], and the accounts of [R]. *)
Definition needed R X (targetNamespaces : list string) (ref : Ref) : Prop :=
  asked_ref X ref ∨
  (ref.1 = KServiceAccount ∧ nn_Namespace ref.2 ∈ targetNamespaces ∧
    nn_Name ref.2 ∈ sa_Name <$> serviceAccountsToCreate (mappings R)).

Lemma asked_ref_kind R ref : asked_ref R ref → ref.1 ≠ KServiceAccount.
Proof.
  intros [(x & _ & _ & ->)|(x & rf & _ & -> & _)];
    [unfold role_ref|unfold binding_ref]; by destruct (IsClusterScoped x).
Qed.

Lemma collectors_keep r R X targetNamespaces ref :
  needed R X targetNamespaces ref →
  keeps ref (GarbageCollectRoles r X) ∧ keeps ref (GarbageCollectRoleBindings r X targetNamespaces) ∧
  keeps ref (GarbageCollectClusterRoleBindings r X).
Proof.
  intros [Ha|(Hk & _)].
  - split_and!; intros w; by apply (gc_keeps_asked r X targetNamespaces ref w).
  - split_and!; intros w; apply managed_gc_keeps; intros o Ho Hko; exfalso; subst ref; simpl in Hk;
      by rewrite Hko in Hk.
Qed.

Lemma garbageCollect_keeps r R X targetNamespaces ref :
  needed R X targetNamespaces ref → keeps ref (garbageCollect r (plan_of R X targetNamespaces) X targetNamespaces).
Proof.
  intros Hn. destruct (collectors_keep r R X targetNamespaces ref Hn) as (H1' & H2' & H3').
  unfold garbageCollect. cbv zeta. apply keeps_bind.
  - eapply keeps_writes_only; [apply GarbageCollectServiceAccounts_frame|].
    intros [Hk Hno]. destruct Hn as [Ha|(_ & Hns & Hname)]; [by apply asked_ref_kind in Ha|].
    apply Hno. rewrite (foldl_set_insert id), (foldl_set_insert sa_Name). simpl.
    apply list_elem_of_fmap in Hname as (sa & Heq & ?). split; right; eauto.
  - intros [_ []]; keep; done.
Qed.

(** Garbage collection keeps what is deployed. *)
Lemma garbageCollect_deployed r R X targetNamespaces w :
  keys_distinct X → deployed R X targetNamespaces w →
  deployed R X targetNamespaces (garbageCollect r (plan_of R X targetNamespaces) X targetNamespaces w).1.
Proof.
  intros Hd Hdep.
  assert (∀ ref, needed R X targetNamespaces ref →
    view (garbageCollect r (plan_of R X targetNamespaces) X targetNamespaces w).1 !! ref = view w !! ref) as Hkeep.
  { intros ref Hn. by apply garbageCollect_keeps. }
  assert (∀ x roleRef, x ∈ X → roleRef ∈ role_refs x (created_roles X) →
    needed R X targetNamespaces (binding_ref x roleRef)) as Hneed.
  { intros x roleRef Hx Hrr. left. right. exists x, roleRef.
    destruct (role_refs_names X (created_roles X) x roleRef) as [? ?]; [done|done| |done|by split_and!].
    intros role Hrole. exists x. rewrite (created_roles_lookup X x) in Hrole by done.
    case_decide; [done|]. by injection Hrole as <-. }
  split.
  - intros x n namespace Hx Hg Hns. rewrite Hkeep; [by eapply dep_account|].
    right. split_and!; [done..|]. destruct (granted_created R x n Hg) as (sa & ? & <-).
    cbn [snd nn_Name]. by apply list_elem_of_fmap_2.
  - intros x n namespace roleRef Hx Hg Hns Hrr. rewrite Hkeep by by apply Hneed. by eapply dep_binding.
  - intros x Hx Hp. rewrite Hkeep; [by eapply dep_role|]. left. left. by exists x.
  - intros x n roleRef o Hx Hg Hrr. rewrite Hkeep by by apply Hneed. by eapply dep_managed.
Qed.

(** What the program manages in the cluster is needed: nothing is left of earlier plans, cluster
    roles apart, which are never collected. *)
Definition tidy R X (targetNamespaces : list string) (w : W) : Prop :=
  ∀ o, view w !! obj_ref o = Some o → IsOctopusManaged (obj_Labels o) →
    match obj_Kind o with
    | KServiceAccount => obj_Namespace o ∈ targetNamespaces ∧
        obj_Name o ∈ sa_Name <$> serviceAccountsToCreate (mappings R)
    | KRole => obj_Name o ∈ expected_roles X
    | KRoleBinding => mkNN (obj_Namespace o) (obj_Name o) ∈ expected_role_bindings X
    | KClusterRoleBinding => obj_Name o ∈ expected_cluster_role_bindings X
    | KClusterRole => True
    end.

(** The later collectors leave the other kinds alone. *)
Lemma managed_gc_other k msg msg' (r : ResourceManagementService) keep describe ref :
  ref.1 ≠ k →
  keeps ref
    (let* res := get_managed k msg in
     match res with
     | inl err => ret (Some (ErrWrap msg' err))
     | inr iter => delete_unexpected r keep describe iter
     end).
Proof.
  intros Hk w. apply managed_gc_keeps. intros o <- Ho. by destruct Hk.
Qed.

Lemma garbageCollect_tidy `{!CurrentReads W} r R X targetNamespaces w w' :
  garbageCollect r (plan_of R X targetNamespaces) X targetNamespaces w = (w', None) → tidy R X targetNamespaces w'.
Proof.
  unfold garbageCollect. cbv zeta. unfold bind at 1.
  set (expectedSAs := foldl _ ∅ _). set (targetNSSet := foldl _ ∅ targetNamespaces).
  destruct (GarbageCollectServiceAccounts r expectedSAs targetNSSet w) as [w1 [res [e|]]] eqn:H1'; [done|].
  unfold bind at 1. destruct (GarbageCollectRoles r X w1) as [w2 [e|]] eqn:H2'; [done|].
  unfold bind at 1. destruct (GarbageCollectRoleBindings r X targetNamespaces w2) as [w3 [e|]] eqn:H3'; [done|].
  unfold bind at 1. destruct (GarbageCollectClusterRoleBindings r X w3) as [w4 [e|]] eqn:H4'; [done|].
  intros [= <-] o Ho Hm.
  assert (Hback : ∀ k m (v v' : W), (∀ ref, ref.1 ≠ k → keeps ref m) → m v = (v', @None error) →
    obj_Kind o ≠ k → view v' !! obj_ref o = Some o → view v !! obj_ref o = Some o).
  { intros k m v v' Hkeep Hrun Hk. pose proof (Hkeep (obj_ref o) Hk v) as E. rewrite Hrun in E. simpl in E. by rewrite E. }
  assert (H34 : obj_Kind o ≠ KClusterRoleBinding → view w3 !! obj_ref o = Some o).
  { intros Hk. by eapply Hback; [intros ref; apply managed_gc_other|exact H4'|..]. }
  assert (H23 : obj_Kind o ≠ KClusterRoleBinding → obj_Kind o ≠ KRoleBinding → view w2 !! obj_ref o = Some o).
  { intros Hk Hk'. eapply Hback; [intros ref; apply managed_gc_other|exact H3'|done|auto]. }
  destruct (obj_Kind o) eqn:Hk; [| |done|..].
  - assert (view w1 !! obj_ref o = Some o) as Ho1.
    { eapply Hback; [intros ref; apply managed_gc_other|exact H2'|done|auto]. }
    destruct (GarbageCollectServiceAccounts_left _ _ _ _ _ _ _ H1' Ho1 Hk Hm) as [Hns Hn].
    unfold targetNSSet in Hns. unfold expectedSAs in Hn. rewrite (foldl_set_insert id) in Hns.
    rewrite foldl_insert_names in Hn. split.
    + by destruct Hns as [?%elem_of_empty|(x & ? & <-)].
    + by destruct Hn as [?%elem_of_empty|].
  - eapply (bool_decide_unpack _), (managed_gc_left _ _ _ _ _ _ _ _ _ H2'); auto.
  - pose proof (managed_gc_left _ _ _ _ _ _ _ _ o H3') as Hleft.
    eapply (bool_decide_unpack _), Hleft; auto.
  - eapply (bool_decide_unpack _), (managed_gc_left _ _ _ _ _ _ _ _ _ H4'); auto.
Qed.

(** The accounts and the keys of the resources each stands for. *)
Definition wsa_keys (m : gmap string (gmap NamespacedName WSAResource)) : gmap string (gset NamespacedName) :=
  dom <$> m.

(** What the execution of a plan for [R] has done when it succeeds: the lookups of the engine are those of
    [R], the cluster has what the plan needs and, if lists are current, nothing else. *)
Record executed r R X (targetNamespaces : list string) (e' : InMemoryEngine) (w' : W) : Prop := {
  ex_published : eng_ScopeComputation e' = published R;
  ex_keys : wsa_keys (eng_saToWsaMap e') = wsa_keys (serviceAccountToWSAs (mappings R));
  ex_namespaces : targetNamespaces ≠ [];
  ex_tidy : CurrentReads W → tidy R X targetNamespaces w';
  ex_deployed : keys_distinct X → no_clash r R X targetNamespaces → deployed R X targetNamespaces w'
}.

Lemma ExecutionStage_spec e now batch R X targetNamespaces w :
  b_Plan batch = Some (plan_of R X targetNamespaces) →
  let '(w', (e', batch', res)) := ExecutionStage_Execute e now batch w in
  batch' = batch ∧
  (res = ROk () → executed (rms_of (eng_ResourceManagement e)) R X targetNamespaces e' w') ∧
  (res ≠ ROk () → e' = e).
Proof.
  intros Hplan. unfold ExecutionStage_Execute. rewrite Hplan. cbv zeta.
  set (r := rms_of (eng_ResourceManagement e)).
  case_decide as Hne; [by cbn; split_and!|].
  unfold bind at 1. cbn [plan_of set_AllResources plan_for plan_AllResources plan_TargetNamespaces] in *.
  assert (∀ w1, no_clash r R X targetNamespaces →
    (if decide (X = []) then ret None else ensure_all r (plan_of R X targetNamespaces)) w = (w1, None) →
    deployed R X targetNamespaces w1) as Hens.
  { intros w1 Hnc. case_decide as HXe; [|by apply ensure_all_deploys].
    intros _. assert (∀ x, x ∉ X) as Hno by (rewrite HXe; apply not_elem_of_nil).
    split; intros; exfalso; by eapply Hno. }
  destruct ((if decide (X = []) then ret None else ensure_all r (plan_of R X targetNamespaces)) w)
    as [w1 [err|]]; [by cbn; split_and!|].
  unfold bind. pose proof (garbageCollect_deployed r R X targetNamespaces w1) as Hgc.
  destruct (garbageCollect r (plan_of R X targetNamespaces) X targetNamespaces w1) as [w2 [err|]] eqn:Hrun;
    cbv beta iota; unfold ret; [by split_and!|].
  split_and!; [done| |done]. intros _. split; [done|done|done|intros; by eapply garbageCollect_tidy|].
  intros HX Hnc. apply Hgc; [done|by apply Hens].
Qed.

(** When the execution stage succeeds on a plan made for [R], whose objects are [X] by now, the engine
    publishes the mappings of [R], and then every account they name exists in every target namespace
    and is bound to exactly what the resources of [X] with its keys ask for: garbage collection took
    nothing of it away, and it left nothing the plan does not need when its lists are current.  When it
    fails, the engine is unchanged: mappings are published only after the objects exist. *)
Theorem execution_correct e now batch R X targetNamespaces w :
  b_Plan batch = Some (plan_of R X targetNamespaces) →
  let '(w', (e', batch', res)) := ExecutionStage_Execute e now batch w in
  batch' = batch ∧
  (res = ROk () → executed (rms_of (eng_ResourceManagement e)) R X targetNamespaces e' w') ∧
  (res ≠ ROk () → e' = e).
Proof. apply ExecutionStage_spec. Qed.
End execution_correct.

(** ** One batch through the stages *)

Section batch_correct.
Context `{EventRecorderLaws W} `{SchemeInterface} `{ExpirableLRU} `{RangeOrder} `{ThirdPartyLaws}.
Implicit Types (so : StageOrchestrator) (R : list WSAResource) (e : InMemoryEngine) (b : Batch).

(** Nobody writes a specification while a batch is under way: the server answers a status patch with the
    specification the patch was sent for. *)
Class SettledSpecs (V : Type) `{Client V} : Prop :=
  PatchStatus_spec obj conditions (w : V) : spec_of (client_PatchStatus obj conditions w).2.1 = spec_of obj.

(** A status patch may leave any other version of the resource behind the pointer. *)
Definition patched_resource (x x' : WSAResource) : Prop :=
  GetNamespacedName x' = GetNamespacedName x ∧ IsClusterScoped x' = IsClusterScoped x ∧
  (SettledSpecs W → spec_of x' = spec_of x).

#[local] Instance patched_resource_preorder : PreOrder patched_resource.
Proof.
  split; [done|]. intros x1 x2 x3 (Hk1&Hs1&H1') (Hk2&Hs2&H2'). split_and!; [congruence..|].
  intros Hs. by rewrite H2', H1'.
Qed.

(** The keys of two lists of resources, in order. *)
Definition same_keys (R X : list WSAResource) : Prop := GetNamespacedName <$> X = GetNamespacedName <$> R.

Lemma same_keys_distinct R X : same_keys R X → keys_distinct R → keys_distinct X.
Proof. unfold same_keys, keys_distinct. by intros ->. Qed.

Lemma same_keys_elem R X x : same_keys R X → x ∈ X → ∃ y, y ∈ R ∧ GetNamespacedName y = GetNamespacedName x.
Proof.
  intros Hk Hx%(list_elem_of_fmap_2 GetNamespacedName). rewrite Hk in Hx. apply list_elem_of_fmap in Hx as (y & ? & ?). eauto.
Qed.

#[local] Instance same_keys_sym : Symmetric same_keys.
Proof. by unfold same_keys; intros R X ->. Qed.

(** The accounts of a resource go by its key. *)
Lemma granted_key R x y n : GetNamespacedName x = GetNamespacedName y → granted R x n ↔ granted R y n.
Proof. unfold granted. by intros ->. Qed.

Definition patched : list WSAResource → list WSAResource → Prop := Forall2 patched_resource.

#[local] Instance patched_preorder : PreOrder patched.
Proof. unfold patched. split; apply _. Qed.

Lemma patched_keys X X' : patched X X' → same_keys X X'.
Proof. unfold same_keys. induction 1 as [|x x' X X' [Hk _] _ IH]; [done|]. cbn [fmap list_fmap]. by rewrite Hk, <-IH. Qed.

Lemma patched_specs `{!SettledSpecs W} X X' : patched X X' → spec_of <$> X' = spec_of <$> X.
Proof.
  induction 1 as [|x x' X X' (_ & _ & Hs) _ IH]; [done|]. cbn [fmap list_fmap]. by rewrite Hs, <-IH.
Qed.

(** Status updates change the objects behind the resources of a batch and nothing else: the mappings of
    its plan stay, the resources of the plan are patched. *)
Definition same_plan (p p' : Plan) : Prop :=
  p' = set_AllResources (plan_AllResources p') p ∧ patched (plan_AllResources p) (plan_AllResources p').

#[local] Instance same_plan_preorder : PreOrder same_plan.
Proof.
  split; [by intros []; split|]. intros p1 p2 p3 [H1' Hp1] [H2' Hp2]. split; [|by etrans].
  rewrite H2', H1'. done.
Qed.

Definition same_batch b b' : Prop :=
  b_ID b' = b_ID b ∧ b_RequeueAfter b' = b_RequeueAfter b ∧ option_Forall2 same_plan (b_Plan b) (b_Plan b') ∧
  patched (batch_resources b) (batch_resources b') ∧ length (b_Resources b') = length (b_Resources b).

#[local] Instance same_batch_equivalence : PreOrder same_batch.
Proof.
  split; [by intros b; split_and!|]. intros b1 b2 b3 (?&?&Hp1&?&?) (?&?&Hp2&?&?).
  split_and!; [congruence..| |by etrans|congruence].
  inversion Hp1 as [p1 p2 Hp E1 E2|E1 E2]; rewrite <-E2 in Hp2; inversion Hp2; subst; constructor. by etrans.
Qed.

Lemma same_batch_plan R X targetNamespaces b b' :
  same_batch b b' → b_Plan b = Some (plan_of R X targetNamespaces) →
  ∃ X', b_Plan b' = Some (plan_of R X' targetNamespaces) ∧ patched X X'.
Proof.
  intros (_ & _ & Hp & _) Hb. rewrite Hb in Hp. inversion_clear Hp as [? p' [Heq Hpat]|].
  exists (plan_AllResources p'). split; [by f_equal|done].
Qed.

(** Objects read through other pointers, or through the same after a write. *)
Lemma omap_patched {A} (f g : A → option WSAResource) l l' :
  Forall2 (λ p p', option_Forall2 patched_resource (f p) (g p')) l l' → patched (omap f l) (omap g l').
Proof.
  induction 1 as [|p p' l l' Hp _ IH]; [constructor|]. simpl. destruct Hp; [by constructor|done].
Qed.

Lemma option_patched_refl (o : option WSAResource) : option_Forall2 patched_resource o o.
Proof. destruct o; by constructor. Qed.

Lemma write_resource_same j res obj b :
  b_Resources b !! j ≫= deref b = Some res → patched_resource res obj → same_batch b (write_resource j obj b).
Proof.
  intros Hj Hp. unfold write_resource. destruct (b_Resources b !! j) as [[r|i]|] eqn:Hptr; [| |done]; simpl in Hj.
  - injection Hj as ->. split_and!; [done..| | |by simpl; rewrite length_insert].
    + simpl. destruct (b_Plan b); by constructor.
    + apply omap_patched, Forall2_same_length_lookup. simpl. split; [by rewrite length_insert|].
      intros k p p' Hk [(<- & <- & _)|[_ Hk']]%list_lookup_insert_Some.
      * rewrite Hptr in Hk. injection Hk as <-. by constructor.
      * rewrite Hk in Hk'. injection Hk' as <-. destruct p; apply option_patched_refl.
  - destruct (b_Plan b) as [plan|] eqn:Hplan; [|done]. simpl in Hj.
    assert (patched (plan_AllResources plan) (<[i := obj]> (plan_AllResources plan))) as Hall.
    { apply Forall2_same_length_lookup. split; [by rewrite length_insert|].
      intros k x x' Hk [(<- & <- & _)|[_ Hk']]%list_lookup_insert_Some.
      - rewrite Hj in Hk. by injection Hk as <-.
      - rewrite Hk in Hk'. by injection Hk' as <-. }
    split_and!; [done..| | |done].
    + rewrite Hplan. simpl. constructor. by split.
    + apply omap_patched, Forall2_same_length_lookup. simpl. split; [done|]. intros k' p p' Hk' Hk''.
      rewrite Hk' in Hk''. injection Hk'' as <-. destruct p as [r|k]; [by constructor|]. simpl. rewrite Hplan. simpl. destruct (plan_AllResources plan !! k) as [x|] eqn:Hk.
      * destruct (Forall2_lookup_l _ _ _ _ _ Hall Hk) as (x' & -> & ?). by constructor.
      * assert (<[i:=obj]> (plan_AllResources plan) !! k = None) as ->; [|constructor].
        apply lookup_ge_None. rewrite length_insert. by apply lookup_ge_None.
Qed.

(** The objects are the same in both worlds. *)
Definition same_view (w w' : W) : Prop := ∀ ref, view w' !! ref = view w !! ref.

#[local] Instance same_view_equivalence : PreOrder same_view.
Proof. split; [done|]. intros w1 w2 w3 H12 H23 ref. by rewrite H23. Qed.

Lemma deployed_same_view R X targetNamespaces w w' :
  same_view w w' → deployed R X targetNamespaces w → deployed R X targetNamespaces w'.
Proof.
  intros Hv [Ha Hb Hr Hm]. split.
  4: { intros x n roleRef o Hx Hg Hrr. rewrite Hv. by eapply Hm. }
  all: intros.
  - rewrite Hv. by eapply Ha.
  - rewrite Hv. by eapply Hb.
  - rewrite Hv. by eapply Hr.
Qed.

Lemma tidy_same_view R X targetNamespaces w w' :
  same_view w w' → tidy R X targetNamespaces w → tidy R X targetNamespaces w'.
Proof. intros Hv Ht o. rewrite Hv. apply Ht. Qed.

Lemma executed_same_view r R X targetNamespaces e w w' :
  same_view w w' → executed r R X targetNamespaces e w → executed r R X targetNamespaces e w'.
Proof.
  intros Hv [? ? ? Ht Hd]. split; [done..| |].
  - intros Hcur. by eapply tidy_same_view, Ht.
  - intros HX Hnc. by eapply deployed_same_view, Hd.
Qed.

Lemma keeps_same_view {A} (m : M W A) w w' a : (∀ ref, keeps ref m) → m w = (w', a) → same_view w w'.
Proof. intros Hm Hr ref. replace w' with (m w).1 by by rewrite Hr. apply Hm. Qed.

Lemma UpdateCondition_patched res t s r m w : patched_resource res (UpdateCondition res t s r m w).2.1.
Proof.
  unfold UpdateCondition, condition_Apply. cbv zeta. split_and!.
  - rewrite PatchStatus_key. by destruct res.
  - rewrite PatchStatus_scoped. by destruct res.
  - intros Hs. rewrite PatchStatus_spec. by destruct res.
Qed.

Lemma updateConditions_spec b t s r m w w' b' :
  updateConditions b t s r m w = (w', b') → same_view w w' ∧ same_batch b b'.
Proof.
  intros Hrun. split.
  - eapply keeps_same_view; [|done]. intros ref. unfold updateConditions, UpdateCondition, condition_Apply. keep.
  - unfold updateConditions in Hrun. revert Hrun. generalize (seq 0 (length (b_Resources b))). intros js. revert b w.
    induction js as [|j js IH]; intros b w Hrun; [by injection Hrun as _ <-|]. simpl in Hrun. unfold bind at 1 in Hrun.
    destruct (b_Resources b !! j ≫= deref b) as [res|] eqn:Hj; [|by apply IH in Hrun].
    unfold bind at 1 in Hrun. pose proof (UpdateCondition_patched res t s r m w) as Hp.
    destruct (UpdateCondition res t s r m w) as [w1 [res' e']]. apply IH in Hrun.
    etrans; [by eapply write_resource_same|done].
Qed.

Lemma updateStageStatus_spec b n r m w w' b' :
  updateStageStatus b n r m w = (w', b') → same_view w w' ∧ same_batch b b'.
Proof.
  unfold updateStageStatus. cbv zeta. case_decide; [by intros [= -> ->]|]. apply updateConditions_spec.
Qed.

Lemma emitEvent_spec so b t r m w w' a : emitEvent so b t r m w = (w', a) → same_view w w'.
Proof. apply keeps_same_view. intros ref. unfold emitEvent. keep. Qed.

Lemma emitReconcileEvents_spec so b w w' a : emitReconcileEvents so b w = (w', a) → same_view w w'.
Proof. apply keeps_same_view. intros ref. unfold emitReconcileEvents. keep. Qed.

(** What is written and told before a stage runs. *)
Definition announce so (stage : Stage) b : M W Batch :=
  let* b := updateStageStatus b (stage_Name stage) ReasonInProgress "Processing" in
  let* _ := emitEvent so b "Normal" "StageStarted"
    ("Stage " +:+ stage_Name stage +:+ " started (batch " +:+ b_ID b +:+ ")") in
  ret b.

(** What is written and told after a stage that succeeded. *)
Definition report so (stage : Stage) b : M W Batch :=
  let* b := updateStageStatus b (stage_Name stage) ReasonSucceeded "Complete" in
  let* since := time_Since in
  let* _ := emitEvent so b "Normal" "StageCompleted"
    ("Stage " +:+ stage_Name stage +:+ " completed (batch " +:+ b_ID b +:+ ", duration " +:+ since +:+ ")") in
  ret b.

(** The cluster as planning finds it. *)
Definition at_planning so b w : W := (announce so (mkStage "planning" PlanningStage_Execute) b w).1.

(** The batch as the execution stage gets it, when the two stages before succeed. *)
Definition at_execution so e now b : M W Batch :=
  let* b := announce so (mkStage "planning" PlanningStage_Execute) b in
  let* (e, b, _) := PlanningStage_Execute e now b in
  let* b := report so (mkStage "planning" PlanningStage_Execute) b in
  let* b := announce so (mkStage "validation" ValidationStage_Execute) b in
  let* (_, b, _) := ValidationStage_Execute e now b in
  let* b := report so (mkStage "validation" ValidationStage_Execute) b in
  announce so (mkStage "execution" ExecutionStage_Execute) b.

(** The resources as the execution stage reads them: those that were listed, after what the status patches
    of the stages have written into them. *)
Definition as_executed so e now b w : list WSAResource :=
  from_option plan_AllResources [] (b_Plan (at_execution so e now b w).2).

(** One stage: its status before, the stage, its status after, then the other stages unless it failed. *)
Lemma run_stages_cons so stage stages e now b w w' e' b' res :
  run_stages so (stage :: stages) e now b w = (w', (e', b', res)) →
  ∃ w1 b1, announce so stage b w = (w1, b1) ∧ same_view w w1 ∧ same_batch b b1 ∧
    let '(w2, (e2, b2, out)) := stage_Execute stage e now b1 w1 in
    match out with
    | ROk _ => ∃ w3 b3, report so stage b2 w2 = (w3, b3) ∧ same_view w2 w3 ∧ same_batch b2 b3 ∧
        run_stages so stages e2 now b3 w3 = (w', (e', b', res))
    | RErr err => same_view w2 w' ∧ same_batch b2 b' ∧ e' = e2 ∧ res = RErr (stage_Name stage, err)
    | RPanic => e' = e2 ∧ res = RPanic
    end.
Proof.
  simpl. unfold bind at 1.
  destruct (updateStageStatus b (stage_Name stage) ReasonInProgress "Processing" w) as [w0 b0] eqn:H1'.
  apply updateStageStatus_spec in H1' as Hspec. destruct Hspec as [Hv1 Hb1]. unfold bind at 1.
  destruct (emitEvent _ _ _ _ _ w0) as [w1 []] eqn:H2'. apply emitEvent_spec in H2' as Hv2.
  intros Hrun. exists w1, b0. split; [unfold announce, bind; by rewrite H1', H2'|].
  split; [by etrans|]. split; [done|]. unfold bind at 1 in Hrun.
  destruct (stage_Execute stage e now b0 w1) as [w2 [[e2 b2] [[]|err|]]].
  - unfold bind at 1 in Hrun.
    destruct (updateStageStatus b2 (stage_Name stage) ReasonSucceeded "Complete" w2) as [w3 b3] eqn:H3'.
    apply updateStageStatus_spec in H3' as Hs3. destruct Hs3 as [Hv3 Hb3]. unfold bind at 1 in Hrun.
    destruct (time_Since w3) as [w4 since] eqn:H4'. pose proof H4' as Hv4. eapply (keeps_same_view time_Since) in Hv4; [|auto with opc].
    unfold bind at 1 in Hrun. destruct (emitEvent _ _ _ _ _ w4) as [w5 []] eqn:H5''. apply emitEvent_spec in H5'' as H5'.
    exists w5, b3. split; [unfold report, bind; by rewrite H3', H4', H5''|].
    split_and!; [by repeat (etrans; [eassumption|])|done|done].
  - unfold bind at 1 in Hrun.
    destruct (updateStageStatus b2 (stage_Name stage) ReasonFailed _ w2) as [w3 b3] eqn:H3'.
    apply updateStageStatus_spec in H3' as [Hv3 Hb3]. unfold bind at 1 in Hrun.
    destruct (emitEvent _ _ _ _ _ w3) as [w4 []] eqn:H5'. apply emitEvent_spec in H5'.
    injection Hrun as -> -> -> <-. split_and!; [by etrans|done|done|done].
  - by injection Hrun as _ -> _ <-.
Qed.

(** The cache of namespaces aside, the engine is the same. *)
Definition same_engine e e' : Prop :=
  eng_ScopeComputation e' = eng_ScopeComputation e ∧ eng_saToWsaMap e' = eng_saToWsaMap e ∧
  eng_ResourceManagement e' = eng_ResourceManagement e.

#[local] Instance same_engine_equivalence : PreOrder same_engine.
Proof.
  split; [done|]. intros e1 e2 e3 (?&?&?) (?&?&?). split_and!; etrans; eassumption.
Qed.

(** The pointer to the last resource of a key. *)
Lemma fresh_pointer (fresh : list WSAResource) key i :
  foldl (λ (m : gmap NamespacedName nat) '(i, r), <[GetNamespacedName r := i]> m) ∅ (imap pair fresh) !! key = Some i →
  ∃ r, fresh !! i = Some r ∧ GetNamespacedName r = key.
Proof.
  assert (∀ l (m : gmap NamespacedName nat), (∀ p, p ∈ l → fresh !! p.1 = Some p.2) →
    map_Forall (λ key i, ∃ r, fresh !! i = Some r ∧ GetNamespacedName r = key) m →
    map_Forall (λ key i, ∃ r, fresh !! i = Some r ∧ GetNamespacedName r = key)
      (foldl (λ m '(i, r), <[GetNamespacedName r := i]> m) m l)) as Hgen.
  { induction l as [|[k r] l IH]; intros m Hl Hm; [done|]. cbn [foldl]. apply IH.
    - intros p Hp. by apply Hl, list_elem_of_further.
    - apply map_Forall_insert_2; [|done]. exists r. split; [|done]. exact (Hl (k, r) (list_elem_of_here _ _)). }
  intros Hk. refine (Hgen (imap pair fresh) ∅ _ (map_Forall_empty _) _ _ Hk).
  intros [k r] (k' & r' & Heq & Hr)%elem_of_lookup_imap_1. by injection Heq as -> ->.
Qed.

(** The resources of the batch point to the listed versions of them, if there are. *)
Lemma updateBatchResourceVersions_keys plan b resources :
  b_Plan b = Some plan →
  GetNamespacedName <$> batch_resources (set_Resources (updateBatchResourceVersions resources (plan_AllResources plan)) b) =
  GetNamespacedName <$> resources.
Proof.
  intros Hplan. unfold batch_resources, updateBatchResourceVersions. cbv zeta. cbn [set_Resources b_Resources].
  pose proof (fresh_pointer (plan_AllResources plan)) as Hfresh. set (m := foldl _ ∅ _) in *.
  match goal with |- context [foldl ?g [] resources] => set (f := g) end.
  set (d := deref _).
  assert (∀ acc, GetNamespacedName <$> omap d (foldl f acc resources) =
    (GetNamespacedName <$> omap d acc) ++ (GetNamespacedName <$> resources)) as ->; [|done].
  induction resources as [|x l IH]; intros acc; cbn [foldl fmap list_fmap]; [by rewrite app_nil_r|].
  rewrite IH. unfold f. destruct (m !! GetNamespacedName x) as [i|] eqn:Hi; rewrite omap_app, fmap_app, <-app_assoc; [|done].
  destruct (Hfresh _ _ Hi) as (r & Hr & Hkey). simpl. rewrite Hplan. simpl. rewrite Hr. simpl. by rewrite Hkey.
Qed.

Lemma updateBatchResourceVersions_length resources fresh :
  length (updateBatchResourceVersions resources fresh) = length resources.
Proof.
  unfold updateBatchResourceVersions. cbv zeta. set (m := foldl _ ∅ _).
  match goal with |- context [foldl ?g [] resources] => set (f := g) end.
  assert (∀ acc, length (foldl f acc resources) = length acc + length resources) as ->; [|done].
  induction resources as [|x l IH]; intros acc; cbn [foldl length]; [lia|].
  rewrite IH. unfold f. destruct (m !! GetNamespacedName x); rewrite length_app; simpl; lia.
Qed.

Lemma GetOrDiscover_spec e now w w' e' res :
  GetOrDiscoverTargetNamespaces e now w = (w', (e', res)) → same_view w w' ∧ same_engine e e'.
Proof.
  intros Hrun. split.
  - eapply keeps_same_view; [|done]. intros ref. unfold GetOrDiscoverTargetNamespaces, DiscoverTargetNamespaces. keep.
  - unfold GetOrDiscoverTargetNamespaces in Hrun.
    destruct (eng_namespaceCache e) as [c|]; [|by injection Hrun as _ <- _].
    destruct (lru_Get c now namespaceCacheKey); [by injection Hrun as _ <- _|].
    unfold bind in Hrun. destruct (DiscoverTargetNamespaces _ w) as [w1 [ns|err|]]; by injection Hrun as _ <- _.
Qed.

Lemma getAllResources_listed w w1 R : getAllResources w = (w1, inr R) → listed w R.
Proof.
  unfold getAllResources, GetWorkloadServiceAccounts, GetClusterWorkloadServiceAccounts, bind, ret.
  destruct (client_ListWSAs w) as [v1 [err|wsas]] eqn:H1'; [done|].
  destruct (client_ListCWSAs v1) as [v2 [err|cwsas]] eqn:H2'; [done|]. intros [= <- <-].
  exists wsas, cwsas. rewrite H1'. simpl. rewrite H2'. split_and!; [done..|]. unfold live.
  rewrite (foldl_append_filter (λ wsa, time_IsZero (meta_DeletionTimestamp (wsa_ObjectMeta wsa)))).
  by rewrite (foldl_append_filter (λ cwsa, time_IsZero (meta_DeletionTimestamp (cwsa_ObjectMeta cwsa)))).
Qed.

Lemma PlanningStage_spec e now b w w' e' b' res :
  PlanningStage_Execute e now b w = (w', (e', b', res)) →
  same_view w w' ∧ same_engine e e' ∧
  (res = ROk () → ∃ R targetNamespaces, listed w R ∧ b_Plan b' = Some (plan_of R R targetNamespaces)) ∧
  GetNamespacedName <$> batch_resources b' = GetNamespacedName <$> batch_resources b.
Proof.
  unfold PlanningStage_Execute. unfold bind at 1. destruct (getAllResources w) as [w1 r] eqn:H1'.
  assert (same_view w w1) as Hv1.
  { eapply keeps_same_view; [|exact H1']. intros ref.
    unfold getAllResources, GetWorkloadServiceAccounts, GetClusterWorkloadServiceAccounts. keep. }
  destruct r as [err|R]; [by intros [= -> -> -> <-]|]. apply getAllResources_listed in H1' as HR. unfold bind at 1.
  destruct (GetOrDiscoverTargetNamespaces e now w1) as [w2 [e2 r]] eqn:H2'.
  apply GetOrDiscover_spec in H2' as [Hv2 He2].
  assert (same_view w w2) as Hv by by etrans.
  destruct r as [targetNamespaces|err|]; intros [= -> -> <- <-]; [|by split_and!..].
  split_and!; [done|done| |].
  - intros _. exists R, targetNamespaces. split; [done|].
    cbn [set_Plan set_Resources b_Plan]. unfold plan_of, plan_for. by rewrite convertWSAToSANames_id.
  - match goal with |- context [set_Plan ?p b] => exact (updateBatchResourceVersions_keys p (set_Plan p b) _ eq_refl) end.
Qed.

Lemma ValidationStage_spec e now b w w' e' b' res :
  ValidationStage_Execute e now b w = (w', (e', b', res)) →
  same_view w w' ∧ e' = e ∧ same_batch b b'.
Proof.
  intros Hrun. split.
  - eapply keeps_same_view; [|exact Hrun]. intros ref.
    unfold ValidationStage_Execute, checkOwnerReferences, checkNamespaceExistence. keep.
  - unfold ValidationStage_Execute in Hrun. unfold bind at 1 in Hrun.
    destruct (checkOwnerReferences b NewValidationResult w) as [w1 [err|r]]; [by injection Hrun as _ <- <- _|].
    unfold bind at 1 in Hrun.
    destruct (checkNamespaceExistence b r w1) as [w2 [err|r']]; [by injection Hrun as _ <- <- _|].
    unfold ret in Hrun. destruct (vr_Valid r'); by injection Hrun as _ <- <- _.
Qed.

(** The three stages in order: what a run that succeeds has established, and that a run that fails
    publishes nothing. *)
Lemma run_staging_stages so e now b w w1 e1 b1 res1 :
  run_stages so staging_stages e now b w = (w1, (e1, b1, res1)) →
  match res1 with
  | ROk _ => ∃ R targetNamespaces X, listed (at_planning so b w) R ∧ patched R (as_executed so e now b w) ∧
      b_Plan b1 = Some (plan_of R X targetNamespaces) ∧ patched R X ∧
      executed (rms_of (eng_ResourceManagement e)) R (as_executed so e now b w) targetNamespaces e1 w1
  | _ => same_engine e e1
  end.
Proof.
  intros Hrun.
  apply run_stages_cons in Hrun as (v1 & c1 & Hat & Hv1 & Hc1 & Hrun). cbn [stage_Execute stage_Name] in Hrun.
  destruct (PlanningStage_Execute e now c1 v1) as [v2 [[e2 c2] out1]] eqn:Hp.
  apply PlanningStage_spec in Hp as Hpspec. destruct Hpspec as (Hv2 & He2 & Hplan & _).
  destruct out1 as [[]|err|]; [|by destruct Hrun as (_ & _ & -> & ->)|by destruct Hrun as (-> & ->)].
  destruct Hplan as (R & tns & Hlisted & Hplan); [done|]. destruct Hrun as (v3 & c3 & Hrep1 & Hv3 & Hc3 & Hrun).
  apply run_stages_cons in Hrun as (v4 & c4 & Hat4 & Hv4 & Hc4 & Hrun). cbn [stage_Execute stage_Name] in Hrun.
  destruct (ValidationStage_Execute e2 now c4 v4) as [v5 [[e5 c5] out2]] eqn:Hval.
  apply ValidationStage_spec in Hval as Hvspec. destruct Hvspec as (Hv5 & -> & Hc5).
  destruct out2 as [[]|err|]; [|by destruct Hrun as (_ & _ & -> & ->)|by destruct Hrun as (-> & ->)].
  destruct Hrun as (v6 & c6 & Hrep2 & Hv6 & Hc6 & Hrun).
  apply run_stages_cons in Hrun as (v7 & c7 & Hat7 & Hv7 & Hc7 & Hrun). cbn [stage_Execute stage_Name] in Hrun.
  assert (same_batch c2 c7) as Hc27 by by repeat (etrans; [eassumption|]).
  destruct (same_batch_plan R R tns c2 c7 Hc27 Hplan) as (X & HplanX & HpX).
  assert (as_executed so e now b w = X) as HX.
  { unfold as_executed, at_execution, bind. rewrite Hat, Hp, Hrep1, Hat4, Hval, Hrep2, Hat7. simpl. by rewrite HplanX. }
  pose proof (ExecutionStage_spec e2 now c7 R X tns v7 HplanX) as Hex.
  destruct (ExecutionStage_Execute e2 now c7 v7) as [v8 [[e8 c8] out3]].
  destruct Hex as (-> & Hok & Hfail).
  destruct out3 as [[]|err|];
    [|destruct Hrun as (_ & _ & -> & ->); by rewrite Hfail|destruct Hrun as (-> & ->); by rewrite Hfail].
  destruct Hrun as (v9 & c9 & _ & Hv9 & Hc9 & Hrun). injection Hrun as -> -> -> <-.
  destruct (same_batch_plan R X tns c7 b1 Hc9 HplanX) as (X' & HplanX' & HpX').
  exists R, tns, X'. rewrite HX. split; [unfold at_planning; by rewrite Hat|].
  split_and!; [done|done|by etrans|].
  destruct He2 as (_ & _ & <-). by eapply executed_same_view, Hok.
Qed.

(** An object execution keeps, a batch keeps. *)
Lemma run_staging_keeps so e now b w w1 e1 b1 res1 ref :
  (∀ e' b' plan, b_Plan b' = Some plan → plan_AllResources plan = as_executed so e now b w →
    keeps ref (ExecutionStage_Execute e' now b')) →
  run_stages so staging_stages e now b w = (w1, (e1, b1, res1)) → res1 ≠ RPanic → view w1 !! ref = view w !! ref.
Proof.
  intros Hkeep Hrun Hres.
  apply run_stages_cons in Hrun as (v1 & c1 & Hat & Hv1 & Hc1 & Hrun). cbn [stage_Execute stage_Name] in Hrun.
  destruct (PlanningStage_Execute e now c1 v1) as [v2 [[e2 c2] out1]] eqn:Hp.
  apply PlanningStage_spec in Hp as Hpspec. destruct Hpspec as (Hv2 & _ & Hplan & _).
  destruct out1 as [[]|err|]; [|destruct Hrun as (Hv & _); by rewrite Hv, Hv2, Hv1|by destruct Hrun as (_ & ->)].
  destruct Hplan as (R & tns & _ & Hplan); [done|]. destruct Hrun as (v3 & c3 & Hrep1 & Hv3 & Hc3 & Hrun).
  apply run_stages_cons in Hrun as (v4 & c4 & Hat4 & Hv4 & Hc4 & Hrun). cbn [stage_Execute stage_Name] in Hrun.
  destruct (ValidationStage_Execute e2 now c4 v4) as [v5 [[e5 c5] out2]] eqn:Hval.
  apply ValidationStage_spec in Hval as Hvspec. destruct Hvspec as (Hv5 & -> & Hc5).
  destruct out2 as [[]|err|];
    [|destruct Hrun as (Hv & _); by rewrite Hv, Hv5, Hv4, Hv3, Hv2, Hv1|by destruct Hrun as (_ & ->)].
  destruct Hrun as (v6 & c6 & Hrep2 & Hv6 & Hc6 & Hrun).
  apply run_stages_cons in Hrun as (v7 & c7 & Hat7 & Hv7 & Hc7 & Hrun). cbn [stage_Execute stage_Name] in Hrun.
  assert (same_batch c2 c7) as Hc27 by by repeat (etrans; [eassumption|]).
  destruct (same_batch_plan R R tns c2 c7 Hc27 Hplan) as (X & HplanX & _).
  specialize (Hkeep e2 c7 (plan_of R X tns) HplanX). pose proof (λ HX, Hkeep HX v7) as Hkeep7. clear Hkeep.
  destruct (ExecutionStage_Execute e2 now c7 v7) as [v8 [[e8 c8] out3]]. simpl in Hkeep7.
  assert (view v8 !! ref = view w !! ref) as Hv8.
  { rewrite Hkeep7; [by rewrite Hv7, Hv6, Hv5, Hv4, Hv3, Hv2, Hv1|].
    unfold as_executed, at_execution, bind. rewrite Hat, Hp, Hrep1, Hat4, Hval, Hrep2, Hat7. simpl. by rewrite HplanX. }
  destruct out3 as [[]|err|]; [|destruct Hrun as (Hv & _); by rewrite Hv|by destruct Hrun as (_ & ->)].
  destruct Hrun as (v9 & c9 & _ & Hv9 & _ & Hrun). injection Hrun as <- _ _ _. by rewrite Hv9.
Qed.

Lemma processBatch_spec so e now b w :
  so_stages so = staging_stages → b_Resources b ≠ [] →
  let '(w', (e', b', res, _)) := processBatch so e now b w in
  (res = ROk () → ∃ R targetNamespaces X, listed (at_planning so b w) R ∧ patched R (as_executed so e now b w) ∧
    b_Plan b' = Some (plan_of R X targetNamespaces) ∧ patched R X ∧
    executed (rms_of (eng_ResourceManagement e)) R (as_executed so e now b w) targetNamespaces e' w') ∧
  (res ≠ ROk () → eng_ScopeComputation e' = eng_ScopeComputation e ∧ eng_saToWsaMap e' = eng_saToWsaMap e).
Proof.
  intros Hstages Hne. unfold processBatch. case_decide; [done|]. rewrite Hstages. unfold bind at 1.
  destruct (run_stages so staging_stages e now b w) as [w1 [[e1 b1] res1]] eqn:Hrun.
  apply run_staging_stages in Hrun as Hres1.
  destruct res1 as [[]|[n err]|].
  - unfold bind at 1. destruct (updateFinalConditions b1 "" None w1) as [w2 b2] eqn:Hf.
    unfold bind. destruct (emitReconcileEvents so b2 w2) as [w3 []] eqn:Hev.
    apply emitReconcileEvents_spec in Hev.
    unfold updateFinalConditions in Hf. simpl in Hf. apply updateConditions_spec in Hf as [Hv2 Hb2].
    split; [|done]. intros _. destruct Hres1 as (R & tns & X & HR & Hpat & Hplan & HpX & Hex).
    destruct (same_batch_plan R X tns b1 b2 Hb2 Hplan) as (X' & HplanX' & HpX').
    exists R, tns, X'. split_and!; [done|done|done|by etrans|]. eapply executed_same_view, Hex. by etrans.
  - unfold bind. destruct (updateFinalConditions b1 n (Some err) w1) as [w2 b2]. split; [done|].
    intros _. by destruct Hres1 as (? & ? & ?).
  - split; [done|]. intros _. by destruct Hres1 as (? & ? & ?).
Qed.

(** No batch holds a pointer that leads nowhere. *)
Definition pointers_ok b : Prop := length (batch_resources b) = length (b_Resources b).

Lemma NewBatch_resources id now events : batch_resources (NewBatch id now events) = ev_Resource <$> events.
Proof.
  unfold batch_resources. cbn [NewBatch b_Resources]. set (f := deref _).
  assert (∀ r, f (Own r) = Some r) as Hf by done. clearbody f.
  induction events as [|event events IH]; [done|]. simpl. rewrite Hf. by f_equal.
Qed.

Lemma pointers_ok_new id now events : pointers_ok (NewBatch id now events).
Proof. unfold pointers_ok. rewrite NewBatch_resources. simpl. by rewrite !length_fmap. Qed.

Lemma pointers_ok_same b b' : same_batch b b' → pointers_ok b → pointers_ok b'.
Proof. intros (_ & _ & _ & Hp%Forall2_length & Hl). unfold pointers_ok. congruence. Qed.

Lemma pointers_ok_planning e now b w : pointers_ok b → pointers_ok (PlanningStage_Execute e now b w).2.1.2.
Proof.
  intros Hb. destruct (PlanningStage_Execute e now b w) as [w' [[e' b'] res]] eqn:Hp.
  pose proof (PlanningStage_spec _ _ _ _ _ _ _ _ Hp) as (_ & _ & _ & Hk). apply (f_equal length) in Hk.
  rewrite !length_fmap in Hk. unfold pointers_ok in *. simpl. rewrite Hk, Hb. clear Hk.
  unfold PlanningStage_Execute, bind in Hp. destruct (getAllResources w) as [w1 [err|R]]; [by injection Hp as _ _ <- _|].
  destruct (GetOrDiscoverTargetNamespaces e now w1) as [w2 [e2 [tns|err|]]]; injection Hp as _ _ <- _; [|done..].
  cbn [set_Resources b_Resources]. by rewrite updateBatchResourceVersions_length.
Qed.

End batch_correct.

(** ** Validation *)

Section validation_correct.
Context `{Client W} `{GCTrackerInterface W} `{SchemeInterface} `{ExpirableLRU}.

Lemma and_holds (P Q : Prop) : Q → (P ↔ P ∧ Q).
Proof. tauto. Qed.

(** A loop whose iterations read without error and keep track of validity. *)
Lemma for_each_or_valid {A} (l : list A) (f : A → ValidationResult → M W (Or ValidationResult)) (P : A → Prop) acc w :
  (∀ x acc, x ∈ l → ∃ acc', f x acc w = (w, inr acc') ∧ (vr_Valid acc' ↔ vr_Valid acc ∧ P x)) →
  ∃ acc', for_each_or l acc f w = (w, inr acc') ∧ (vr_Valid acc' ↔ vr_Valid acc ∧ ∀ x, x ∈ l → P x).
Proof.
  revert acc. induction l as [|x l IH]; intros acc Hf.
  - exists acc. split; [done|]. split; [|tauto]. intros ?. split; [done|]. by intros ? ?%elem_of_nil.
  - destruct (Hf x acc) as (acc1 & Hx & Hv1); [apply list_elem_of_here|].
    destruct (IH acc1) as (acc2 & Hl & Hv2).
    { intros y acc' Hy. by apply Hf, list_elem_of_further. }
    exists acc2. simpl. unfold bind. rewrite Hx. split; [done|]. rewrite Hv2, Hv1. split.
    + intros [[? ?] Hall]. split; [done|]. intros y [->|?]%elem_of_cons; auto.
    + intros [? Hall]. split_and!; [done|apply Hall, list_elem_of_here|].
      intros y ?. by apply Hall, list_elem_of_further.
Qed.

(** The first check, when the reads answer [get]. *)
Lemma checkOwnerReferences_valid b plan w get :
  b_Plan b = Some plan → (∀ k key, client_Get k key w = (w, get k key)) →
  (∀ k key err, get k key = inl err → IsNotFound err) →
  ∃ r1, checkOwnerReferences b NewValidationResult w = (w, inr r1) ∧
    (vr_Valid r1 ↔ ∀ sa, sa ∈ plan_UniqueAccounts plan → ∀ namespace, namespace ∈ plan_TargetNamespaces plan →
      ∀ o, get KServiceAccount (mkNN namespace (sa_Name sa)) = inr o → IsOctopusManaged (obj_Labels o)).
Proof.
  intros Hplan Hget Hget_err.
  unfold checkOwnerReferences. rewrite Hplan. unfold bind at 1.
  match goal with |- context [for_each_or (plan_UniqueAccounts plan) _ ?f] =>
    destruct (for_each_or_valid (plan_UniqueAccounts plan) f (λ sa, ∀ namespace,
      namespace ∈ plan_TargetNamespaces plan → ∀ o,
      get KServiceAccount (mkNN namespace (sa_Name sa)) = inr o → IsOctopusManaged (obj_Labels o))
      NewValidationResult w) as (a & -> & Ha) end.
  { intros sa acc Hsa. apply (for_each_or_valid (plan_TargetNamespaces plan) _ (λ namespace,
      ∀ o, get KServiceAccount (mkNN namespace (sa_Name sa)) = inr o → IsOctopusManaged (obj_Labels o))).
    intros namespace acc' Hn. unfold bind, ret. rewrite Hget.
    destruct (get KServiceAccount _) as [err|o] eqn:Hg.
    - rewrite (Is_true_true_1 _ (Hget_err _ _ _ Hg)). eexists. split; [done|]. by apply and_holds.
    - eexists. split; [done|]. destruct (IsOctopusManaged (obj_Labels o)) eqn:Hm; simpl.
      + apply and_holds. intros o' [= <-]. by rewrite Hm.
      + split; [done|]. intros [_ Ho]. specialize (Ho o eq_refl). by rewrite Hm in Ho. }
  cbv beta iota.
  match goal with |- context [for_each_or (batch_resources b) a ?f] =>
    destruct (for_each_or_valid (batch_resources b) f (λ _, True) a w) as (a' & -> & Hv') end.
  { intros resource acc Hres. cbv zeta. case_decide; [eexists; split; [done|tauto]|].
    unfold bind, ret. rewrite Hget. destruct (get KRole _) as [err|o] eqn:Hg.
    - rewrite (Is_true_true_1 _ (Hget_err _ _ _ Hg)). eexists. split; [done|tauto].
    - eexists. split; [done|]. destruct (IsOctopusManaged (obj_Labels o)); simpl; tauto. }
  exists a'. split; [done|]. rewrite Hv', Ha. simpl. tauto.
Qed.

(** The second check adds to the result of the first. *)
Lemma checkNamespaceExistence_valid b plan r1 w getNamespace :
  b_Plan b = Some plan → (∀ n, client_GetNamespace n w = (w, getNamespace n)) →
  (∀ n err, getNamespace n = Some err → IsNotFound err) →
  ∃ r2, checkNamespaceExistence b r1 w = (w, inr r2) ∧
    (vr_Valid r2 ↔ vr_Valid r1 ∧ ∀ namespace, namespace ∈ plan_TargetNamespaces plan → getNamespace namespace = None).
Proof.
  intros Hplan Hns Hns_err.
  unfold checkNamespaceExistence. rewrite Hplan. apply for_each_or_valid.
  intros namespace acc Hn. unfold bind, ret. rewrite Hns.
  destruct (getNamespace namespace) as [err|] eqn:Hg; [|eexists; split; [done|tauto]].
  rewrite (Is_true_true_1 _ (Hns_err _ _ Hg)). eexists. split; [done|]. simpl. split; [done|by intros [_ ?]].
Qed.

(** Against a cluster that answers reads ([get], [getNamespace]) with an object or with not-found,
    validation writes nothing and passes exactly when no account to be created exists unmanaged in
    a target namespace and every target namespace exists; roles that exist unmanaged only warn. *)
Theorem validation_correct (e : InMemoryEngine) now b plan w get getNamespace :
  b_Plan b = Some plan →
  (∀ k key, client_Get k key w = (w, get k key)) →
  (∀ n, client_GetNamespace n w = (w, getNamespace n)) →
  (∀ k key err, get k key = inl err → IsNotFound err) →
  (∀ n err, getNamespace n = Some err → IsNotFound err) →
  ∃ result res, ValidationStage_Execute e now b w = (w, (e, set_ValidationResult result b, res)) ∧
    (res = ROk () ↔
      (∀ sa namespace o, sa ∈ plan_UniqueAccounts plan → namespace ∈ plan_TargetNamespaces plan →
        get KServiceAccount (mkNN namespace (sa_Name sa)) = inr o → IsOctopusManaged (obj_Labels o)) ∧
      (∀ namespace, namespace ∈ plan_TargetNamespaces plan → getNamespace namespace = None)).
Proof.
  intros Hplan Hget Hns Hget_err Hns_err.
  destruct (checkOwnerReferences_valid b plan w get Hplan Hget Hget_err) as (r1 & Hr1 & Hv1).
  destruct (checkNamespaceExistence_valid b plan r1 w getNamespace Hplan Hns Hns_err) as (r2 & Hr2 & Hv2).
  unfold ValidationStage_Execute, bind. rewrite Hr1, Hr2. unfold ret. exists r2.
  destruct (vr_Valid r2) eqn:Hvalid; eexists; (split; [done|]).
  - split; [intros _|done]. destruct (proj1 Hv2 I) as [Hr1v Hall]. split; [|done].
    intros sa namespace o Hsa Hn. by apply (proj1 Hv1 Hr1v).
  - split; [done|]. intros [H1' H2']. exfalso. apply Hv2. split; [|done]. apply Hv1. eauto.
Qed.
End validation_correct.

(** ** Concrete batches *)

Module PipelineExamples.
Import InMemory ResourceExamples.
#[local] Existing Instance range_forward.
#[local] Existing Instance reference_third_party.
#[local] Existing Instance reference_third_party_laws.
#[local] Existing Instance reference_lru.
#[local] Existing Instance reference_lru_laws.

Definition app_scope : WorkloadServiceAccountScope := mkDims ["p1"] [] [] [] [] [].
Definition app_wsa : WorkloadServiceAccount := mkWSA (meta "app" "team-a") app_scope [] [role "reader"] [rule] [].
Definition admin_cwsa : ClusterWorkloadServiceAccount :=
  mkCWSA (meta "admin" "") (mkDims [] [] ["prod"] [] [] []) [cluster_role "admin"] [] [].

(** The leftovers of the earlier examples, one agent, and the two resources. *)
Definition cluster (wsas : list WorkloadServiceAccount) (faults : list bool) : World :=
  mkWorld (store w0) wsas [admin_cwsa] ["apps"] {["apps"]} faults [] [] [].
Definition engine0 : InMemoryEngine := NewInMemoryEngine (Some ()) (Some (λ _, true)) 300.
Definition orchestrator : StageOrchestrator := NewStageOrchestrator staging_stages true.
Definition batch0 : Batch := NewBatch "b" 0 [NewCreateOrUpdateEventInfo (wsaAdapter app_wsa) 0].

Definition run0 := processBatch orchestrator engine0 0 batch0 (cluster [app_wsa] []).
Definition deployment : Scope := mkDims "p1" "" "prod" "" "" "".

Definition R1 : list WSAResource := [wsaAdapter app_wsa; clusterWSAAdapter admin_cwsa].

Lemma R1_ok : resources_ok R1.
Proof. apply resources_okb_sound. by vm_compute. Defined.

(** The reference client answers a status patch with what was sent. *)
#[export] Instance settled : SettledSpecs World.
Proof. intros obj conditions w. simpl. unfold call. by destruct (script w) as [|[] ?]. Defined.

(** The resources as the first batch executes them: the status patches have set conditions. *)
Definition X1 : list WSAResource := as_executed orchestrator engine0 0 batch0 (cluster [app_wsa] []).

Lemma no_clash_of r R X targetNamespaces :
  bool_decide (NoDup (ac_ref <$> all_bindings r X (created_roles X) (wsaToServiceAccountNames (mappings R)) targetNamespaces)) →
  bool_decide (NoDup (role_ref <$> filter (λ x, GetPermissionRules x ≠ []) X)) →
  no_clash r R X targetNamespaces.
Proof.
  intros Hb%bool_decide_unpack Hr%bool_decide_unpack. split; [by apply NoDup_no_conflict|].
  intros x1 x2 H1' H2' Hp1 Hp2 Heq. f_equal.
  assert (∀ x, x ∈ X → GetPermissionRules x ≠ [] → x ∈ filter (λ x, GetPermissionRules x ≠ []) X) as Hin.
  { intros x ? ?. by apply list_elem_of_filter. }
  apply (Hin x1) in H1' as (i & Hi)%list_elem_of_lookup; [|done].
  apply (Hin x2) in H2' as (j & Hj)%list_elem_of_lookup; [|done].
  assert (i = j) as ->; [|congruence].
  apply (NoDup_lookup _ i j (role_ref x1) Hr); [by rewrite list_lookup_fmap, Hi|by rewrite list_lookup_fmap, Hj, Heq].
Defined.

Lemma R1_no_clash : no_clash (rms_of (eng_ResourceManagement engine0)) R1 X1 ["apps"].
Proof. apply no_clash_of; by vm_compute. Defined.

Lemma listed_R1 R : listed (at_planning orchestrator batch0 (cluster [app_wsa] [])) R → R = R1.
Proof.
  intros (wsas & cwsas & Hw & Hcw & ->). vm_compute in Hw, Hcw. injection Hw as <-. injection Hcw as <-. reflexivity.
Defined.


Definition planned : Batch := set_Plan (plan_for R1 ["apps"]) batch0.

Lemma execution_correct_witness :
  deployed R1 R1 ["apps"] (ExecutionStage_Execute engine0 0 planned (cluster [app_wsa] [])).1.
Proof.
  pose proof (execution_correct engine0 0 planned R1 R1 ["apps"] (cluster [app_wsa] []) eq_refl) as Hc.
  assert ((ExecutionStage_Execute engine0 0 planned (cluster [app_wsa] [])).2.2 = ROk ()) as Hok by (vm_compute; reflexivity).
  destruct (ExecutionStage_Execute _ _ _ _) as [w' [[e' b'] res]]. simpl in *.
  refine (ex_deployed _ _ _ _ _ _ (proj1 (proj2 Hc) Hok) (ok_keys _ R1_ok) (no_clash_of _ _ _ _ _ _)); by vm_compute.
Defined.

(** The first account of the plan exists, unmanaged. *)
Definition conflict : Object :=
  mkObject KServiceAccount (mkNN "apps" (group_name [mkDims "p1" "*" "prod" "*" "*" "*"])) "uid" None ∅ [] AccountBody.
Definition conflict_world : World := set_store {[obj_ref conflict := conflict]} (cluster [app_wsa] []).

Lemma validation_correct_witness :
  ∃ result res, ValidationStage_Execute engine0 0 planned conflict_world =
      (conflict_world, (engine0, set_ValidationResult result planned, res)) ∧ res ≠ ROk ().
Proof.
  destruct (validation_correct engine0 0 planned (plan_for R1 ["apps"]) conflict_world
    (λ k key, (client_Get k key conflict_world).2) (λ n, (client_GetNamespace n conflict_world).2))
    as (result & res & Hrun & Hiff).
  - done.
  - done.
  - done.
  - intros k key err. simpl. destruct (_ !! _); by intros [= <-].
  - intros n err. simpl. destruct (decide _); by intros [= <-].
  - exists result, res. split; [exact Hrun|]. intros Hok.
    destruct (proj1 Hiff Hok) as [Hmanaged _].
    assert (Exists (λ sa, sa_Name sa = nn_Name (obj_Key conflict)) (plan_UniqueAccounts (plan_for R1 ["apps"])))
      as (sa & Hsa & Hname)%Exists_exists.
    { apply (bool_decide_unpack _). by vm_compute. }
    assert (IsOctopusManaged (obj_Labels conflict)) as [].
    apply (Hmanaged sa "apps" conflict Hsa (list_elem_of_here _ _)). rewrite Hname. by vm_compute.
Defined.

(** After the first batch, the namespaced resource is deleted; in the batch that follows, the list of
    role bindings fails. *)
Definition run1 := processBatch orchestrator run0.2.1.1.1 10
  (NewBatch "b2" 0 [NewEventInfo (wsaAdapter app_wsa) EventTypeDelete 0])
  (mkWorld (store run0.1) [] [admin_cwsa] ["apps"] {["apps"]} (replicate 20 false ++ [true]) [] [] []).

(** Garbage collection runs before the new mappings are published: when it fails half-way, the
    engine keeps the old mappings and answers deployments with an account that has been deleted. *)
Theorem failed_gc_stale_mapping :
  ∃ n err, eng_GetServiceAccountForScope run0.2.1.1.1 deployment = ROk n ∧ n ≠ "" ∧
    is_Some (store run0.1 !! (KServiceAccount, mkNN "apps" n)) ∧
    run1.2.1.2 = RErr err ∧
    eng_GetServiceAccountForScope run1.2.1.1.1 deployment = ROk n ∧
    store run1.1 !! (KServiceAccount, mkNN "apps" n) = None.
Proof.
  do 2 eexists. split_and!; [by vm_compute|done|eexists; by vm_compute|by vm_compute|by vm_compute|by vm_compute].
Qed.
End PipelineExamples.
