(* ===== verification/Admission.v ===== *)
(** * What the API server admits

    The names and labels the program makes up in src/internal/rules/generator.go and
    src/internal/rules/resource_management.go are hashes behind a prefix: whatever the resources are
    called and whatever values their scopes list, they have the form the API server validates. *)

From Stdlib Require Import Ascii.
From S2P Require Import Prelude GoLib Api Scopes ServiceAccounts Access Cluster Resources Engine Pipeline.

(** ** The formats of Kubernetes *)

Definition lower_alnum (a : ascii) : bool :=
  let n := nat_of_ascii a in
  ((48 <=? n) && (n <=? 57)) || ((97 <=? n) && (n <=? 122)).

Definition alnum (a : ascii) : bool :=
  let n := nat_of_ascii a in
  lower_alnum a || ((65 <=? n) && (n <=? 90)).

Definition is_char (c a : ascii) : bool := bool_decide (a = c).

Fixpoint str_last (a : ascii) (s : string) : ascii :=
  match s with EmptyString => a | String b s => str_last b s end.

(** A string of at most [max] characters that satisfy [P], of which the first and the last satisfy [Q]. *)
Definition delimited (max : nat) (P Q : ascii → bool) (s : string) : bool :=
  match s with
  | EmptyString => false
  | String a s' => (String.length s <=? max) && str_all P s && Q a && Q (str_last a s')
  end.

(** RFC 1123: the format of the name of a service account, and of the labels of a domain name. *)
Definition dns_label : string → bool :=
  delimited 63 (λ a, lower_alnum a || is_char "-" a) lower_alnum.

(** The value of a label. *)
Definition label_value (s : string) : bool :=
  bool_decide (s = "") ||
  delimited 63 (λ a, alnum a || is_char "-" a || is_char "_" a || is_char "." a) alnum s.

(** ** Hashes behind a prefix *)

Lemma str_last_all (P : ascii → bool) a s : P a → str_all P s → P (str_last a s).
Proof.
  revert a. induction s as [|b s IH]; intros a Ha; [done|]. simpl. rewrite andb_True. intros [? ?]. by apply IH.
Qed.

Lemma str_last_app a s b t : str_last a (s +:+ String b t) = str_last b t.
Proof. revert a. induction s as [|c s IH]; intros a; [done|]. apply IH. Qed.

Lemma hex_lower_alnum a : hex_char a → lower_alnum a.
Proof. destruct a as [[] [] [] [] [] [] [] []]; by vm_compute. Qed.

Lemma lower_alnum_alnum a : lower_alnum a → alnum a.
Proof. unfold alnum. rewrite orb_True. by left. Qed.

Lemma prefixed_hash max (P Q : ascii → bool) c prefix s :
  (∀ a, Q a → P a) → (∀ a, lower_alnum a → Q a) → Q c → str_all P prefix → S (String.length prefix) + 32 ≤ max →
  delimited max P Q (String c prefix +:+ shortHash s).
Proof.
  intros HQP HlQ Hc Hp Hmax. pose proof (length_shortHash s) as Hl. pose proof (shortHash_chars s) as Hh.
  assert (str_all Q (shortHash s)) as HhQ by (eapply str_all_weaken; [|exact Hh]; auto using hex_lower_alnum).
  assert (str_all P (shortHash s)) as HhP by (by eapply str_all_weaken; [|exact HhQ]).
  generalize dependent (shortHash s). intros h Hl _ HhQ HhP. change (String c prefix +:+ h) with (String c (prefix +:+ h)).
  unfold delimited. rewrite !andb_True. split_and!.
  - apply Is_true_true, Nat.leb_le. simpl. rewrite str_length_app. lia.
  - simpl. rewrite str_all_app, !andb_True. auto.
  - done.
  - destruct h as [|b h]; [done|]. rewrite str_last_app. simpl in HhQ. apply andb_True in HhQ as [? ?].
    by apply str_last_all.
Qed.

Lemma hash_alone max (P Q : ascii → bool) s :
  (∀ a, Q a → P a) → (∀ a, lower_alnum a → Q a) → 32 ≤ max → delimited max P Q (shortHash s).
Proof.
  intros HQP HlQ Hmax. pose proof (length_shortHash s) as Hl. pose proof (shortHash_chars s) as Hh.
  assert (str_all Q (shortHash s)) as HhQ by (eapply str_all_weaken; [|exact Hh]; auto using hex_lower_alnum).
  assert (str_all P (shortHash s)) as HhP by (by eapply str_all_weaken; [|exact HhQ]).
  generalize dependent (shortHash s). intros h Hl _ HhQ HhP.
  destruct h as [|b h]; [done|]. unfold delimited. rewrite !andb_True. pose proof HhQ as [? ?]%andb_True.
  split_and!; [|done|done|by apply str_last_all].
  apply Is_true_true, Nat.leb_le. by rewrite Hl.
Qed.

Section admission.
Context `{ClientLaws W} `{SchemeInterface} `{RangeOrder} `{ThirdPartyLaws}.
Implicit Types (R : list WSAResource).

Lemma dns_prefixed c prefix s :
  lower_alnum c → str_all (λ a, lower_alnum a || is_char "-" a) prefix → S (String.length prefix) ≤ 31 →
  dns_label (String c prefix +:+ shortHash s).
Proof.
  intros Hc Hp Hl. apply prefixed_hash; [|done|done|done|lia]. intros a Ha. rewrite orb_True. by left.
Qed.

Lemma label_value_hash s : label_value (shortHash s).
Proof.
  unfold label_value. rewrite orb_True. right. apply hash_alone; [|apply lower_alnum_alnum|lia].
  intros a Ha. rewrite !orb_True. auto.
Qed.

Lemma group_name_label ss : dns_label (group_name ss).
Proof. by apply (dns_prefixed "o" "ctopus-sa-"); [..|simpl; lia]. Qed.

Lemma rules_role_name_label x : dns_label (rules_role_name x).
Proof.
  unfold rules_role_name, clusterRoleName, roleName, hashPermissions. destruct (IsClusterScoped x);
    [apply (dns_prefixed "o" "ctopus-clusterrole-")|apply (dns_prefixed "o" "ctopus-role-")]; try done; simpl; lia.
Qed.

Lemma binding_ref_label x roleRef : dns_label (nn_Name (binding_ref x roleRef).2).
Proof.
  unfold binding_ref, clusterRoleBindingName, roleBindingName. destruct (IsClusterScoped x); cbn [snd nn_Name];
    [apply (dns_prefixed "o" "ctopus-crb-")|apply (dns_prefixed "o" "ctopus-rb-")]; try done; simpl; lia.
Qed.

Lemma set_if_nonempty_values key values (m : gmap string string) :
  map_Forall (λ _ v, label_value v) m → map_Forall (λ _ v, label_value v) (set_if_nonempty shortHash key values m).
Proof. intros Hm. destruct values; [done|]. apply map_Forall_insert_2; [apply label_value_hash|done]. Qed.

(** Everything the ensure functions write for a plan has a name that is a DNS label. *)
Lemma ensure_all_names r R X targetNamespaces :
  writes_only (λ ref, dns_label (nn_Name ref.2)) (ensure_all r (plan_of R X targetNamespaces)).
Proof.
  unfold ensure_all. apply writes_only_bind.
  { eapply writes_only_mono, EnsureRoles_frame. intros ref (x & _ & _ & ->). unfold role_ref.
    destruct (IsClusterScoped x); apply rules_role_name_label. }
  intros [createdRoles [err|]]; [auto with opc|]. apply writes_only_bind.
  { eapply writes_only_mono, EnsureServiceAccounts_frame. intros ref (_ & Hn & _).
    apply list_elem_of_fmap in Hn as (sa & -> & Hsa).
    apply (proj1 (serviceAccountsToCreate_spec (scope_map R))) in Hsa as (ss & _ & ->). apply group_name_label. }
  intros [err|]; [auto with opc|]. apply writes_only_bind; [|intros [err|]; auto with opc].
  unfold ensureRoleBindings. eapply writes_only_mono, EnsureRoleBindings_frame.
  intros ref (ac & (x & Hac & _)%list_elem_of_bind & <-). unfold resource_bindings in Hac.
  case_decide; [by apply elem_of_nil in Hac|]. apply list_elem_of_fmap in Hac as (roleRef & -> & _).
  rewrite ac_ref_binding. apply binding_ref_label.
Qed.

(** C14. Whatever the resources a plan was made for and whatever they are when it is executed, their
    names, scopes and rules, and whether or not a call fails: every object the execution writes has a name that is a DNS label of at most 63 characters;
    and every label of an account has a value of at most 63 characters that Kubernetes admits,
    although it stands for a list of any length. *)
Theorem written_objects_admissible r R X targetNamespaces :
  writes_only (λ ref, dns_label (nn_Name ref.2)) (ensure_all r (plan_of R X targetNamespaces)) ∧
  Forall (λ sa, dns_label (sa_Name sa) ∧
      ∀ namespace, map_Forall (λ _ v, label_value v) (ac_Labels (account_config namespace sa)))
    (plan_UniqueAccounts (plan_of R X targetNamespaces)).
Proof.
  split; [apply ensure_all_names|]. apply Forall_forall. intros sa Hsa. simpl in Hsa.
  apply (proj1 (serviceAccountsToCreate_spec (scope_map R))) in Hsa as (ss & _ & ->).
  split; [apply group_name_label|]. intros namespace. simpl. apply map_Forall_insert_2; [done|].
  unfold generateServiceAccountLabelsFromGrouped. repeat apply set_if_nonempty_values.
  by apply map_Forall_singleton.
Qed.
End admission.

(** A longer prefix would still be within the bound; a name with the value itself would not. *)
Example dns_label_bounds :
  dns_label "octopus-sa-0123456789abcdef0123456789abcdef" ∧
  dns_label "octopus-sa-0123456789abcdef0123456789abcdef0123456789abcdef0123456" = false ∧
  dns_label "octopus-sa-" = false ∧ dns_label "Projects-1" = false ∧ label_value "-a" = false ∧ label_value "A_1.b".
Proof. by vm_compute. Qed.
