(* ===== verification/EngineInvariant.v ===== *)
(** * The type of the engine's state

    The three maps of src/internal/rules/engine.go are written by batches, rebuilds and refreshes and
    read by webhook requests.  [well_typed] says what holds of them in every state the program can
    reach, whatever the cluster answers and whichever calls fail; a lookup in such a state is total. *)

From Stdlib Require Import Ascii ZArith.
From S2P Require Import Prelude GoLib Api Scopes ServiceAccounts Access Cluster Resources Engine Pipeline Admission.

(** ** The invariant *)

(** The scopes of the map are made of known values and wildcards, and are mapped to account names. *)
Definition scope_typed (v : GlobalVocabulary) (k : Scope) (n : string) : Prop :=
  (∀ d, dim_get d k = WildcardValue ∨ dim_get d k ∈ dim_get d v) ∧ dns_label n.

(** An account is mapped to some resources, each under its own key. *)
Definition account_typed (n : string) (wm : gmap NamespacedName WSAResource) : Prop :=
  dns_label n ∧ wm ≠ ∅ ∧ map_Forall (λ key r, GetNamespacedName r = key) wm.

Record well_typed `{GCTrackerInterface W} `{SchemeInterface} `{ExpirableLRU} (e : InMemoryEngine) : Prop := {
  wt_service : eng_ScopeComputation e =
    NewScopeComputationService (Some (eng_vocabulary e)) (Some (eng_scopeToSA e));
  wt_scopes : map_Forall (scope_typed (eng_vocabulary e)) (eng_scopeToSA e);
  wt_accounts : map_Forall account_typed (eng_saToWsaMap e)
}.

(** ** The mappings of any list of resources

    The API server lists no two resources with one key, but nothing here depends on it. *)

Section mappings.
Context `{RangeOrder} `{ThirdParty}.
Implicit Types (R : list WSAResource).

(** The resources at the indices of a scope, by their keys. *)
Lemma resources_at R (ixs : list nat) : ∀ m : gmap NamespacedName WSAResource,
  map_Forall (λ key r, GetNamespacedName r = key) m →
  let m' := foldl (λ wsaMap wsaIndex,
    match R !! wsaIndex with Some r => <[GetNamespacedName r := r]> wsaMap | None => wsaMap end) m ixs in
  map_Forall (λ key r, GetNamespacedName r = key) m' ∧
  (m ≠ ∅ ∨ (∃ i r, i ∈ ixs ∧ R !! i = Some r) → m' ≠ ∅).
Proof.
  induction ixs as [|i ixs IH]; intros m Hm; cbn [foldl].
  { split; [done|]. intros [?|(? & ? & ?%elem_of_nil & _)]; done. }
  destruct (R !! i) as [r|] eqn:Hr.
  - destruct (IH (<[GetNamespacedName r := r]> m)) as [Hkeys Hne]; [by apply map_Forall_insert_2|].
    split; [done|]. intros _. apply Hne. left. apply insert_non_empty.
  - destruct (IH m Hm) as [Hkeys Hne]. split; [done|]. intros [?|(j & r & [->|Hj]%elem_of_cons & Hr')]; apply Hne;
      [by left|by rewrite Hr in Hr'|right; eauto].
Qed.

Lemma scope_map_typed R v :
  map_Forall (λ k wm, (∃ r, r ∈ R ∧ k ∈ computeWSACoverage r v) ∧ wm ≠ ∅ ∧
    map_Forall (λ key r, GetNamespacedName r = key) wm) (computeMinimalServiceAccountScopes R v).
Proof.
  destruct R as [|r0 R0]; [apply map_Forall_empty|]. unfold computeMinimalServiceAccountScopes.
  set (R := r0 :: R0). clearbody R. unfold buildScopeToWSAMapping. set (m := findScopeIntersections _).
  match goal with |- map_Forall ?P _ => set (good := P) end.
  assert (∀ l (acc : gmap Scope (gmap NamespacedName WSAResource)), (∀ s ixs, (s, ixs) ∈ l → m !! s = Some ixs) →
    map_Forall good acc →
    map_Forall good (foldl (λ result '(scope, wsaIndices), if decide (0 < size wsaIndices) then
        <[scope := foldl (λ m i, match R !! i with
          Some r => <[GetNamespacedName r := r]> m | None => m end) ∅
          (range_set "buildScopeToWSAMapping.indices" wsaIndices)]> result else result) acc l)) as Hgen.
  { induction l as [|[s ixs] l IH]; intros acc Hl Hacc; [done|]. cbn [foldl].
    apply IH; [intros s' ixs' ?; by apply Hl, list_elem_of_further|].
    destruct (decide (0 < size ixs)); [|done]. apply map_Forall_insert_2; [|done].
    pose proof (Hl s ixs (list_elem_of_here _ _)) as Hs. apply scope_indices_covering in Hs as (Hne & _ & Hin).
    destruct (covering v s R) as [|r rs] eqn:Hc; [done|].
    assert (r ∈ covering v s R) as Hr by (rewrite Hc; apply list_elem_of_here). rewrite <-Hc in Hin.
    pose proof (proj1 (Hin r) Hr) as (i & Hi & HRi). apply elem_of_covering in Hr as [Hr Hcov].
    destruct (resources_at R (range_set "buildScopeToWSAMapping.indices" ixs) ∅ (map_Forall_empty _)) as [Hk Hm].
    split; [by exists r|]. split; [|done]. apply Hm. right. exists i, r. by rewrite elem_of_range_set. }
  apply Hgen; [|apply map_Forall_empty]. intros s ixs Hin. by eapply elem_of_range_map.
Qed.

Lemma mappings_scopes R : map_Forall (scope_typed (buildGlobalVocabulary R)) (scopeToServiceAccount (mappings R)).
Proof.
  intros k n Hk. split.
  - assert (is_Some (scope_map R !! k)) as [wm Hwm] by (apply scopeToServiceAccount_dom; eauto).
    destruct (scope_map_typed R (buildGlobalVocabulary R) k wm Hwm) as [(r & Hr & Hcov) _]. intros d.
    rewrite computeWSACoverage_elem in Hcov. specialize (Hcov d). unfold covers_value in Hcov.
    destruct (dim_get d (GetScope r)) as [|x l] eqn:Hd; [done|]. right. apply buildGlobalVocabulary_elem.
    exists r. by rewrite Hd.
  - destruct (proj1 (scopeToServiceAccount_spec (scope_map R) k n) Hk) as (ss & _ & _ & <-).
    apply group_name_label.
Qed.

Lemma mappings_accounts R : map_Forall account_typed (serviceAccountToWSAs (mappings R)).
Proof.
  intros n wm Hn. destruct (serviceAccountToWSAs_spec (scope_map R) n) as [Hs _].
  destruct (Hs wm Hn) as (ss & Hss & <- & <-). split; [apply group_name_label|].
  apply is_group_lookup in Hss as (Hne & _ & gk & Hin). unfold group_wsas. destruct ss as [|s0 ss]; [done|].
  destruct (proj1 (Hin s0) (list_elem_of_here _ _)) as (wm & Hwm & _). rewrite Hwm.
  exact (proj2 (scope_map_typed R (buildGlobalVocabulary R) s0 wm Hwm)).
Qed.
End mappings.

(** ** Every operation keeps it *)

Section operations.
Context `{EventRecorderLaws W} `{SchemeInterface} `{ExpirableLRU} `{RangeOrder} `{ThirdPartyLaws}.
Implicit Types (e : InMemoryEngine) (b : Batch).

Lemma well_typed_swap e R accounts :
  map_Forall account_typed accounts →
  well_typed (swap e (scopeToServiceAccount (mappings R)) accounts (buildGlobalVocabulary R)).
Proof. intros Ha. split; [done|apply mappings_scopes|done]. Qed.

Lemma well_typed_cache e c : well_typed e → well_typed (set_cache c e).
Proof. by intros [? ? ?]. Qed.

Lemma well_typed_ApplyBatchPlan e R X targetNamespaces : well_typed (ApplyBatchPlan e (plan_of R X targetNamespaces)).
Proof. apply well_typed_swap, mappings_accounts. Qed.

Lemma well_typed_GetOrDiscover e now w :
  well_typed e → well_typed (GetOrDiscoverTargetNamespaces e now w).2.1.
Proof.
  intros He. unfold GetOrDiscoverTargetNamespaces. destruct (eng_namespaceCache e) as [c|]; [|done].
  destruct (lru_Get c now namespaceCacheKey); [done|]. unfold bind.
  destruct (DiscoverTargetNamespaces _ w) as [w1 [ns|err|]]; try done. by apply well_typed_cache.
Qed.

Lemma well_typed_rebuild e w :
  well_typed e → well_typed (RebuildStateFromCluster e w).2.1 ∧ well_typed (RefreshScopeMappings e w).2.1.
Proof.
  intros He. unfold RebuildStateFromCluster, RefreshScopeMappings, bind.
  destruct (computeStateFromCluster_cases e w) as [(wsas & cwsas & Hs & _)|[err Hs]];
    destruct (computeStateFromCluster e w) as [w' res]; simpl in Hs; subst res; [|done].
  split; [exact (well_typed_swap e _ _ (mappings_accounts _))|exact (well_typed_swap e _ _ (wt_accounts _ He))].
Qed.

(** *** Batches *)

(** The plan of a batch, if it has one, is that of some list of resources; and the resources of the batch
    are objects there are. *)
Record planned b : Prop := {
  pl_plan plan : b_Plan b = Some plan → ∃ R X targetNamespaces, plan = plan_of R X targetNamespaces;
  pl_pointers : pointers_ok b
}.

Definition ready e b : Prop := well_typed e ∧ planned b.

Lemma ready_same_batch e b b' : same_batch b b' → ready e b → ready e b'.
Proof.
  intros Hsame [He [Hb Hok]]. split; [done|]. split; [|by eapply pointers_ok_same]. intros plan' Hplan'. pose proof Hsame as (_ & _ & Hp & _). rewrite Hplan' in Hp.
  inversion Hp as [plan ? [Heq _] Hplan|]. subst. destruct (Hb plan) as (R & X & targetNamespaces & ->); [done|].
  exists R, (plan_AllResources plan'), targetNamespaces. exact Heq.
Qed.

(** What every stage keeps, and the handling of statuses, the loop keeps. *)
Lemma run_stages_keeps (I : InMemoryEngine → Batch → Prop) so stages now :
  (∀ e b b', same_batch b b' → I e b → I e b') →
  Forall (λ stage, ∀ e b w, I e b → I (stage_Execute stage e now b w).2.1.1 (stage_Execute stage e now b w).2.1.2) stages →
  ∀ e b w w' e' b' res, run_stages so stages e now b w = (w', (e', b', res)) → res ≠ RPanic → I e b → I e' b'.
Proof.
  intros Hsame. induction 1 as [|stage stages Hst _ IH]; intros e b w w' e' b' res Hrun Hres HI.
  { by injection Hrun as _ <- <- _. }
  apply run_stages_cons in Hrun as (w1 & b1 & _ & _ & Hb1 & Hrun). specialize (Hst e b1 w1 (Hsame _ _ _ Hb1 HI)).
  destruct (stage_Execute stage e now b1 w1) as [w2 [[e2 b2] out]]. simpl in Hst. destruct out as [[]|err|].
  - destruct Hrun as (w3 & b3 & _ & _ & Hb3 & Hrun). by eapply IH, Hsame.
  - destruct Hrun as (_ & Hb' & -> & _). by eapply Hsame.
  - by destruct Hrun as (_ & ->).
Qed.

Lemma planning_ready e now b w :
  ready e b → ready (PlanningStage_Execute e now b w).2.1.1 (PlanningStage_Execute e now b w).2.1.2.
Proof.
  intros [He [Hb Hok]]. pose proof (pointers_ok_planning e now b w Hok) as Hok'.
  unfold PlanningStage_Execute, bind in *.
  destruct (getAllResources w) as [w1 [err|R]]; [by split|]. simpl in Hok'.
  pose proof (well_typed_GetOrDiscover e now w1 He) as He2.
  destruct (GetOrDiscoverTargetNamespaces e now w1) as [w2 [e2 [tns|err|]]]; [|by split..].
  split; [done|]. split; [|exact Hok']. intros plan [= <-]. exists R, R, tns. unfold plan_of, plan_for. by rewrite convertWSAToSANames_id.
Qed.

Lemma validation_ready e now b w :
  ready e b → ready (ValidationStage_Execute e now b w).2.1.1 (ValidationStage_Execute e now b w).2.1.2.
Proof.
  intros Hr. destruct (ValidationStage_Execute e now b w) as [w' [[e' b'] res]] eqn:Hv.
  apply ValidationStage_spec in Hv as (_ & -> & Hb). by eapply ready_same_batch.
Qed.

Lemma execution_ready e now b w :
  ready e b → ready (ExecutionStage_Execute e now b w).2.1.1 (ExecutionStage_Execute e now b w).2.1.2.
Proof.
  intros [He Hb]. unfold ExecutionStage_Execute. destruct (b_Plan b) as [plan|] eqn:Hplan; [|by split]. cbv zeta.
  case_decide; [by split|]. destruct (pl_plan _ Hb plan Hplan) as (R & X & tns & ->). unfold bind.
  match goal with |- context [match ?m w with _ => _ end] => destruct (m w) as [w1 [err|]]; [by split|] end.
  destruct (garbageCollect _ _ _ _ w1) as [w2 [err|]]; [by split|].
  split; [apply well_typed_ApplyBatchPlan|done].
Qed.

Lemma staging_ready so e now b w w' e' b' res :
  run_stages so staging_stages e now b w = (w', (e', b', res)) → res ≠ RPanic → ready e b → ready e' b'.
Proof.
  apply run_stages_keeps; [apply ready_same_batch|].
  apply Forall_cons_2; [|apply Forall_cons_2; [|apply Forall_cons_2; [|apply Forall_nil_2]]]; simpl; intros.
  - by apply planning_ready.
  - by apply validation_ready.
  - by apply execution_ready.
Qed.

Lemma updateFinalConditions_ready e b n err w :
  ready e b → ready e (updateFinalConditions b n err w).2.
Proof.
  intros Hr. destruct (updateFinalConditions b n err w) as [w' b'] eqn:Hf. unfold updateFinalConditions in Hf.
  case_decide; apply updateConditions_spec in Hf as [_ Hb]; by eapply ready_same_batch.
Qed.

Lemma processBatch_ready so e now b w w' e' b' res requeue :
  so_stages so = staging_stages → processBatch so e now b w = (w', (e', b', res, requeue)) → res ≠ RPanic →
  ready e b → ready e' b'.
Proof.
  intros Hstages. unfold processBatch. case_decide; [by intros [= _ <- <- _ _]|]. rewrite Hstages. unfold bind at 1.
  destruct (run_stages so staging_stages e now b w) as [w1 [[e1 b1] res1]] eqn:Hrun.
  pose proof (staging_ready _ _ _ _ _ _ _ _ _ Hrun) as Hready. destruct res1 as [[]|[n err]|].
  - unfold bind at 1. pose proof (updateFinalConditions_ready e1 b1 "" None w1) as Hf.
    destruct (updateFinalConditions b1 "" None w1) as [w2 b2]. unfold bind.
    destruct (emitReconcileEvents so b2 w2) as [w3 []]. intros [= _ <- <- _ _] _ Hr. by apply Hf, Hready.
  - unfold bind. pose proof (updateFinalConditions_ready e1 b1 n (Some err) w1) as Hf.
    destruct (updateFinalConditions b1 n (Some err) w1) as [w2 b2]. intros [= _ <- <- _ _] _ Hr. by apply Hf, Hready.
  - by intros [= _ _ _ <- _].
Qed.
End operations.

(** ** The states the program reaches *)

Section reachable.
Context `{EventRecorderLaws W} `{SchemeInterface} `{ExpirableLRU} `{RangeOrder} `{ThirdPartyLaws}.

(** An engine and the batches made so far.  The worlds of the steps are not related: other programs
    change the cluster in between.  A panic ends the program. *)
Inductive reachable : InMemoryEngine → list Batch → Prop :=
| reach_discovering scheme regex ttl : reachable (NewInMemoryEngine scheme regex ttl) []
| reach_configured scheme namespaces : reachable (NewInMemoryEngineWithNamespaces scheme namespaces) []
| reach_tracker e bs tracker : reachable e bs → reachable (SetGCTracker e tracker) bs
| reach_namespaces e bs now w : reachable e bs → reachable (GetOrDiscoverTargetNamespaces e now w).2.1 bs
| reach_rebuild e bs w : reachable e bs → reachable (RebuildStateFromCluster e w).2.1 bs
| reach_refresh e bs w : reachable e bs → reachable (RefreshScopeMappings e w).2.1 bs
| reach_batch e bs id now events : reachable e bs → reachable e (NewBatch id now events :: bs)
| reach_process so e bs now b w w' e' b' res requeue :
    reachable e bs → b ∈ bs → so_stages so = staging_stages →
    processBatch so e now b w = (w', (e', b', res, requeue)) → res ≠ RPanic → reachable e' (b' :: bs)
| reach_failed e bs b err : reachable e bs → b ∈ bs → reachable e (set_LastError err b :: bs).

Lemma reachable_ready e bs : reachable e bs → well_typed e ∧ Forall planned bs.
Proof.
  induction 1 as [| |e bs tracker _ [He Hb]|e bs now w _ [He Hb]|e bs w _ [He Hb]|e bs w _ [He Hb]
    |e bs id now events _ [He Hb]|so e bs now b w w' e' b' res requeue _ [He Hb] Hin Hst Hrun Hres|e bs b err _ [He Hb] Hin].
  - split; [|done]. split; [done|apply map_Forall_empty|apply map_Forall_empty].
  - split; [|done]. split; [done|apply map_Forall_empty|apply map_Forall_empty].
  - split; [|done]. unfold SetGCTracker. destruct (eng_ResourceManagement e); [done|]. by destruct He.
  - split; [by apply well_typed_GetOrDiscover|done].
  - split; [exact (proj1 (well_typed_rebuild e w He))|done].
  - split; [exact (proj2 (well_typed_rebuild e w He))|done].
  - split; [done|]. constructor; [|done]. split; [by intros plan|apply pointers_ok_new].
  - rewrite Forall_forall in Hb. destruct (processBatch_ready _ _ _ _ _ _ _ _ _ _ Hst Hrun Hres) as [He' Hb'].
    { split; [done|by apply Hb]. }
    split; [done|]. constructor; [done|by apply Forall_forall].
  - rewrite Forall_forall in Hb. split; [done|]. constructor; [by destruct (Hb b Hin)|by apply Forall_forall].
Qed.

(** C13. In every state the program reaches, whatever the cluster answers and whichever calls fail, the
    engine is well typed: the service a webhook asks is made of the very vocabulary and map the engine
    holds, every scope of the map consists of known values and wildcards and has the name of an
    account, and every account stands for some resources, filed under their own keys.  So a lookup is
    total: it answers with no account or with a name the API server admits. *)
Theorem engine_well_typed e bs scope :
  reachable e bs →
  well_typed e ∧
  ∃ n, eng_GetServiceAccountForScope e scope = ROk n ∧ (n = "" ∨ dns_label n).
Proof.
  intros [He _]%reachable_ready. split; [done|]. destruct He as [Hsvc Hscopes _].
  unfold eng_GetServiceAccountForScope. rewrite Hsvc. unfold GetServiceAccountForScope. simpl.
  destruct (eng_scopeToSA e !! _) as [n|] eqn:Hn; eexists; (split; [done|]); [right|by left].
  by apply Hscopes in Hn as [_ ?].
Qed.
End reachable.

Module EngineInvariantExamples.
Import InMemory ResourceExamples PipelineExamples.
#[local] Existing Instance range_forward.
#[local] Existing Instance reference_third_party.
#[local] Existing Instance reference_third_party_laws.
#[local] Existing Instance reference_lru.

Lemma reachable_run0 : reachable run0.2.1.1.1 [run0.2.1.1.2; batch0].
Proof.
  assert (match run0.2.1.2 with RPanic => false | _ => true end) as Hres by by vm_compute.
  destruct run0 as [w' [[[e' b'] res] requeue]] eqn:Hrun. simpl in *. unfold run0 in Hrun.
  eapply (reach_process orchestrator engine0 [batch0] 0 batch0); [|apply list_elem_of_here|done|exact Hrun|by intros ->].
  apply reach_batch, reach_discovering.
Defined.

(** After a batch the lookup of a deployment names an account. *)
Lemma engine_well_typed_witness :
  ∃ n, eng_GetServiceAccountForScope run0.2.1.1.1 deployment = ROk n ∧ (n = "" ∨ dns_label n).
Proof. exact (proj2 (engine_well_typed run0.2.1.1.1 _ deployment reachable_run0)). Defined.
End EngineInvariantExamples.
