(* ===== verification/Locking.v ===== *)
(** * The lock of the engine

    The leader's batches and its retry goroutines, the state syncer and the webhook requests run in
    different goroutines and share the engine of src/internal/rules/engine.go.  The cluster is read
    without the lock; the mappings are put in place, and questions answered, by sections between [Lock]
    and [Unlock] or between [RLock] and [RUnlock].  Here the instructions of these sections
    interleave, one at a time. *)

From Stdlib Require Import ZArith.
From S2P Require Import Prelude GoLib Api Scopes ServiceAccounts Access Cluster Resources Engine Pipeline.

(** ** The mutex *)

(** [ReadLocked n] is held by [n + 1] readers. *)
Inductive RWMutex := Unlocked | WriteLocked | ReadLocked (others : nat).

(** What an instruction does to the mutex; [None] when it waits.  (A [Lock] that waits keeps new readers
    out in Go; here they may also go first.) *)
Definition mutex_after `{GCTrackerInterface W} `{SchemeInterface} (ins : Instruction) (mu : RWMutex) : option RWMutex :=
  match ins, mu with
  | mu_Lock, Unlocked => Some WriteLocked
  | mu_Lock, _ => None
  | mu_Unlock, WriteLocked => Some Unlocked
  | mu_Unlock, _ => None
  | mu_RLock, Unlocked => Some (ReadLocked 0)
  | mu_RLock, ReadLocked n => Some (ReadLocked (S n))
  | mu_RLock, WriteLocked => None
  | mu_RUnlock, ReadLocked 0 => Some Unlocked
  | mu_RUnlock, ReadLocked (S n) => Some (ReadLocked n)
  | mu_RUnlock, _ => None
  | _, _ => Some mu
  end.

(** ** Goroutines *)

Inductive Answer :=
| AccountAnswer (scope : Scope) (res : Result string)
| PresentAnswer (wsaKey : NamespacedName) (present : bool).

Section goroutines.
Context `{ClientLaws W} `{SchemeInterface} `{ExpirableLRU} `{ThirdPartyLaws}.
Implicit Types (e : InMemoryEngine) (R : list WSAResource) (L : list (list WSAResource)).

(** The engine, its mutex, what each goroutine has left to do, and, for the statements only, the lists of
    resources read and the answers given so far. *)
Record Shared := mkShared {
  sh_engine : InMemoryEngine;
  sh_mu : RWMutex;
  sh_goroutines : list (list Instruction);
  sh_lists : list (list WSAResource);
  sh_answers : list Answer
}.

Definition answer `{RangeOrder} e (ins : Instruction) : list Answer :=
  match ins with
  | AskAccount scope => [AccountAnswer scope (eng_GetServiceAccountForScope e scope)]
  | AskPresent wsaKey => [PresentAnswer wsaKey (IsWSAInMaps e wsaKey)]
  | _ => []
  end.

(** A goroutine runs its next instruction. *)
Definition run `{RangeOrder} (g : nat) (s : Shared) : option Shared :=
  match sh_goroutines s !! g with
  | Some (ins :: rest) =>
      match mutex_after ins (sh_mu s) with
      | Some mu => Some (mkShared (assign (sh_engine s) ins) mu (<[g := rest]> (sh_goroutines s)) (sh_lists s)
          (sh_answers s ++ answer (sh_engine s) ins))
      | None => None
      end
  | _ => None
  end.

(** A goroutine that is in no section calls a method, having read [read] from the cluster. *)
Definition calls (g : nat) (section : list Instruction) (read : list (list WSAResource)) e (s : Shared) : Shared :=
  mkShared e (sh_mu s) (<[g := section]> (sh_goroutines s)) (read ++ sh_lists s) (sh_answers s).

Definition idle (g : nat) (s : Shared) : Prop := sh_goroutines s !! g = Some [].

(** The cluster and the order of iteration may be others at each step. *)
Inductive step : Shared → Shared → Prop :=
| step_run (O : RangeOrder) g s s' : run g s = Some s' → step s s'
(** [RebuildStateFromCluster] and [RefreshScopeMappings], when the lists succeed *)
| step_rebuild (O : RangeOrder) g w R state s :
    idle g s → listed w R → (computeStateFromCluster (sh_engine s) w).2 = inr state →
    step s (calls g (rebuild_section state) [R] (sh_engine s) s)
| step_refresh (O : RangeOrder) g w R state s :
    idle g s → listed w R → (computeStateFromCluster (sh_engine s) w).2 = inr state →
    step s (calls g (refresh_section state) [R] (sh_engine s) s)
(** the planning stage, which may fill the cache of namespaces, and at the end of the execution stage
    [ApplyBatchPlan]; status patches have written to the objects of the plan since *)
| step_plan (O : RangeOrder) g now b w w' e b' plan X R s :
    idle g s → listed w R → PlanningStage_Execute (sh_engine s) now b w = (w', (e, b', ROk ())) →
    b_Plan b' = Some plan →
    step s (calls g (plan_section (set_AllResources X plan)) [R] e s)
(** [GetServiceAccountForScope] and [IsWSAInMaps] *)
| step_account g scope s : idle g s → step s (calls g (account_section scope) [] (sh_engine s) s)
| step_present g wsaKey s : idle g s → step s (calls g (present_section wsaKey) [] (sh_engine s) s).

Definition start e (n : nat) : Shared := mkShared e Unlocked (replicate n []) [] [].

Definition writes (ins : Instruction) : bool :=
  match ins with SetScopeToSA _ | SetSaToWsaMap _ | SetVocabulary _ | SetScopeComputation => true | _ => false end.

Definition asks (ins : Instruction) : bool :=
  match ins with AskAccount _ | AskPresent _ => true | _ => false end.

(** Two goroutines are about to use the fields, and one of them is about to write. *)
Definition race (s : Shared) : Prop :=
  ∃ g g' ins rest ins' rest', g ≠ g' ∧ sh_goroutines s !! g = Some (ins :: rest) ∧
    sh_goroutines s !! g' = Some (ins' :: rest') ∧ writes ins ∧ (writes ins' ∨ asks ins').

(** ** Invariant *)

(** Whether a goroutine is between [Lock] and [Unlock], or between [RLock] and [RUnlock]. *)
Fixpoint writing (l : list Instruction) : bool :=
  match l with
  | [] => false
  | mu_Lock :: _ => false
  | mu_Unlock :: _ => true
  | _ :: l => writing l
  end.

Fixpoint reading (l : list Instruction) : bool :=
  match l with
  | [] => false
  | mu_RLock :: _ => false
  | mu_RUnlock :: _ => true
  | _ :: l => reading l
  end.

Definition count (P : list Instruction → bool) (gs : list (list Instruction)) : nat :=
  sum_list_with (λ l, Nat.b2n (P l)) gs.

Definition mutex_counts (mu : RWMutex) (writers readers : nat) : Prop :=
  match mu with
  | Unlocked => writers = 0 ∧ readers = 0
  | WriteLocked => writers = 1 ∧ readers = 0
  | ReadLocked n => writers = 0 ∧ readers = S n
  end.

(** One of the lists read, or no resource before the first section. *)
Definition was_read L R : Prop := R = [] ∨ R ∈ L.

(** The service is that of the fields, and belongs to one list, as do the accounts. *)
Record coherent L e : Prop := {
  co_service : eng_ScopeComputation e =
    NewScopeComputationService (Some (eng_vocabulary e)) (Some (eng_scopeToSA e));
  co_published : ∃ (O : RangeOrder) R, was_read L R ∧ eng_ScopeComputation e = published R;
  co_accounts : ∃ (O : RangeOrder) R, was_read L R ∧ eng_saToWsaMap e = serviceAccountToWSAs (mappings R)
}.

Inductive goroutine L e : list Instruction → Prop :=
| gor_idle : goroutine L e []
| gor_rebuild (O : RangeOrder) R : was_read L R → goroutine L e (rebuild_section (state_of R))
| gor_refresh (O : RangeOrder) R : was_read L R → goroutine L e (refresh_section (state_of R))
| gor_writing l : Forall writes l → coherent L (critical e (l ++ [mu_Unlock])) → goroutine L e (l ++ [mu_Unlock])
| gor_question ins : asks ins → goroutine L e [mu_RLock; ins; mu_RUnlock]
| gor_asking ins : asks ins → goroutine L e [ins; mu_RUnlock]
| gor_asked : goroutine L e [mu_RUnlock].

Definition answered L (a : Answer) : Prop :=
  match a with
  | AccountAnswer scope res => ∃ (O : RangeOrder) R, was_read L R ∧ res = GetServiceAccountForScope (published R) scope
  | PresentAnswer key present => ∃ (O : RangeOrder) R, was_read L R ∧ (resources_ok R →
      (present → ∃ r, r ∈ R ∧ GetNamespacedName r = key) ∧
      (names_separate R → (∃ r, r ∈ R ∧ GetNamespacedName r = key) → present))
  end.

Record invariant (s : Shared) : Prop := {
  inv_goroutines : Forall (goroutine (sh_lists s) (sh_engine s)) (sh_goroutines s);
  inv_mutex : mutex_counts (sh_mu s) (count writing (sh_goroutines s)) (count reading (sh_goroutines s));
  inv_engine : count writing (sh_goroutines s) = 0 → coherent (sh_lists s) (sh_engine s);
  inv_answers : Forall (answered (sh_lists s)) (sh_answers s)
}.
End goroutines.

(** ** The goroutines keep it *)

Section lemmas.
Context `{ClientLaws W} `{SchemeInterface} `{ExpirableLRU} `{ThirdPartyLaws}.
Implicit Types (e : InMemoryEngine) (R : list WSAResource) (L : list (list WSAResource)) (s : Shared)
  (P : list Instruction → bool).

(** *** Counting *)

Lemma count_insert P gs g l l' :
  gs !! g = Some l → count P (<[g := l']> gs) + Nat.b2n (P l) = count P gs + Nat.b2n (P l').
Proof.
  revert g. induction gs as [|l0 gs IH]; intros [|g]; simpl; [done|done| |].
  - intros [= ->]. unfold count. simpl. lia.
  - intros Hg%IH. unfold count in *. simpl. lia.
Qed.

Lemma count_zero P gs l : count P gs = 0 → l ∈ gs → P l = false.
Proof.
  intros Hc Hl. induction Hl as [l gs|l l0 gs _ IH]; unfold count in *; simpl in Hc.
  - destruct (P l); [simpl in Hc; lia|done].
  - apply IH. lia.
Qed.

(** Where there is one, there is no other. *)
Lemma count_one P gs g l g' l' :
  P [] = false → count P gs = 1 → gs !! g = Some l → P l → g ≠ g' → gs !! g' = Some l' → P l' = false.
Proof.
  intros Hnil Hc Hg Hl Hne Hg'. pose proof (count_insert P gs g l [] Hg) as Hi. rewrite Hc, Hnil in Hi.
  destruct (P l); [|done]. simpl in Hi. apply (count_zero P (<[g := []]> gs)); [lia|].
  apply (list_elem_of_lookup_2 _ g'). by rewrite list_lookup_insert_ne.
Qed.

Lemma count_some P gs l : l ∈ gs → P l → 0 < count P gs.
Proof.
  intros Hl HP. destruct (count P gs) eqn:Hc; [|lia]. by rewrite (count_zero P gs l) in HP.
Qed.

(** *** Sections *)

Lemma was_read_more L L' R : was_read L R → was_read (L' ++ L) R.
Proof. intros [->|?]; [by left|right; apply elem_of_app; auto]. Qed.

Lemma coherent_more L L' e : coherent L e → coherent (L' ++ L) e.
Proof.
  intros [Hs (O & R & HR & Hp) (O' & R' & HR' & Ha)].
  split; [done|exists O, R|exists O', R']; split; try done; by apply was_read_more.
Qed.

Lemma goroutine_more L L' e l : goroutine L e l → goroutine (L' ++ L) e l.
Proof.
  destruct 1; try by constructor; eauto using was_read_more.
  constructor; [done|by apply coherent_more].
Qed.

Lemma answered_more L L' a : answered L a → answered (L' ++ L) a.
Proof.
  destruct a; intros (O & R & HR & Ha); exists O, R; (split; [by apply was_read_more|done]).
Qed.

Lemma goroutine_other L e e' l : writing l = false → goroutine L e l → goroutine L e' l.
Proof.
  intros Hw Hg. destruct Hg as [| | |l Hl _| | |]; try by constructor. exfalso. revert Hw.
  induction Hl as [|ins l Hins _ IH]; [done|]. by destruct ins.
Qed.

(** The instructions on the mutex and the questions leave the fields alone. *)
Lemma assign_reads e ins : ¬ writes ins → assign e ins = e.
Proof. by destruct e, ins. Qed.

(** A whole section makes the engine coherent again. *)
Lemma coherent_rebuild (O : RangeOrder) L R e : was_read L R → coherent L (critical e (rebuild_section (state_of R))).
Proof. intros HR. split; [done|exists O, R; by split..]. Qed.

Lemma coherent_refresh (O : RangeOrder) L R e :
  was_read L R → coherent L e → coherent L (critical e (refresh_section (state_of R))).
Proof. intros HR [_ _ Ha]. split; [done|exists O, R; by split|exact Ha]. Qed.

(** Planning may fill the cache of namespaces, which nothing here reads. *)
Lemma planning_engine `{RangeOrder} e now b w w' e' b' res :
  PlanningStage_Execute e now b w = (w', (e', b', res)) → e' = e ∨ ∃ c, e' = set_cache c e.
Proof.
  unfold PlanningStage_Execute, bind. destruct (getAllResources w) as [w1 [err|R]]; [by intros [= _ <- _ _]; left|].
  unfold GetOrDiscoverTargetNamespaces, bind.
  destruct (eng_namespaceCache e) as [c|]; [|by intros [= _ <- _ _]; left].
  destruct (lru_Get c now namespaceCacheKey); [by intros [= _ <- _ _]; left|].
  destruct (DiscoverTargetNamespaces _ w1) as [w2 [ns|err|]]; intros [= _ <- _ _]; [right; by eexists|by left..].
Qed.

Lemma critical_cache c e l : critical (set_cache c e) l = set_cache c (critical e l).
Proof. revert e. induction l as [|ins l IH]; intros e; [done|]. simpl. rewrite <-IH. done. Qed.

Lemma coherent_cache L c e : coherent L e → coherent L (set_cache c e).
Proof. by intros [? ? ?]. Qed.

Lemma goroutine_cache L c e l : goroutine L e l → goroutine L (set_cache c e) l.
Proof.
  destruct 1; try by constructor. constructor; [done|]. rewrite critical_cache. by apply coherent_cache.
Qed.

(** *** Calls *)

Lemma invariant_cache c gs mu L answers e :
  invariant (mkShared e mu gs L answers) → invariant (mkShared (set_cache c e) mu gs L answers).
Proof.
  intros [Hg Hm He Ha]. split; simpl in *; [|done|by intros ?; apply coherent_cache, He|done].
  eapply Forall_impl; [exact Hg|]. intros l. apply goroutine_cache.
Qed.

(** A goroutine in no section calls a method whose section is yet to lock. *)
Lemma invariant_call g section read s :
  idle g s → invariant s → writing section = false → reading section = false →
  goroutine (read ++ sh_lists s) (sh_engine s) section → invariant (calls g section read (sh_engine s) s).
Proof.
  intros Hidle [Hg Hm He Ha] Hw Hr Hsec.
  pose proof (count_insert writing _ _ _ section Hidle) as Hcw. pose proof (count_insert reading _ _ _ section Hidle) as Hcr.
  rewrite Hw in Hcw. rewrite Hr in Hcr. simpl in Hcw, Hcr. split; simpl.
  - apply Forall_insert; [|done]. eapply Forall_impl; [exact Hg|]. intros l. apply goroutine_more.
  - replace (count writing (<[g:=section]> (sh_goroutines s))) with (count writing (sh_goroutines s)) by lia.
    by replace (count reading (<[g:=section]> (sh_goroutines s))) with (count reading (sh_goroutines s)) by lia.
  - intros Hz. apply coherent_more, He. lia.
  - eapply Forall_impl; [exact Ha|]. intros a. apply answered_more.
Qed.
(** *** Instructions *)

Lemma writing_section l : Forall writes l → writing (l ++ [mu_Unlock]) ∧ reading (l ++ [mu_Unlock]) = false.
Proof. induction 1 as [|ins l Hins _ IH]; [done|]. by destruct ins. Qed.

Lemma question_held ins : asks ins → writing [ins; mu_RUnlock] = false ∧ reading [ins; mu_RUnlock] = true ∧
  writing [mu_RLock; ins; mu_RUnlock] = false.
Proof. by destruct ins. Qed.

(** The instruction leaves the fields alone. *)
Lemma invariant_read `{RangeOrder} e mu mu' gs L answers g ins rest :
  gs !! g = Some (ins :: rest) → ¬ writes ins → invariant (mkShared e mu gs L answers) → goroutine L e rest →
  mutex_counts mu' (count writing (<[g := rest]> gs)) (count reading (<[g := rest]> gs)) →
  (count writing (<[g := rest]> gs) = 0 → coherent L e) → Forall (answered L) (answer e ins) →
  invariant (mkShared (assign e ins) mu' (<[g := rest]> gs) L (answers ++ answer e ins)).
Proof.
  intros Hg Hins [Hgs _ _ Ha] Hrest Hm He Hans. rewrite assign_reads by done. split; simpl in *; try done.
  - by apply Forall_insert.
  - by apply Forall_app.
Qed.

Lemma invariant_lock `{RangeOrder} e mu mu' gs L answers g l :
  gs !! g = Some (mu_Lock :: l ++ [mu_Unlock]) → Forall writes l →
  (coherent L e → coherent L (critical e (l ++ [mu_Unlock]))) →
  mutex_after mu_Lock mu = Some mu' → invariant (mkShared e mu gs L answers) →
  invariant (mkShared (assign e mu_Lock) mu' (<[g := l ++ [mu_Unlock]]> gs) L (answers ++ answer e mu_Lock)).
Proof.
  intros Hg Hl Hco Hmu Hinv. pose proof (writing_section l Hl) as [Hw Hr]. pose proof Hinv as [_ Hm He _]. simpl in *.
  destruct mu; [|done|done]. injection Hmu as <-. destruct Hm as [Hmw Hmr].
  pose proof (count_insert writing _ _ _ (l ++ [mu_Unlock]) Hg) as Hcw.
  pose proof (count_insert reading _ _ _ (l ++ [mu_Unlock]) Hg) as Hcr. rewrite Hr in Hcr.
  destruct (writing (l ++ [mu_Unlock])); [|done]. simpl in Hcw, Hcr.
  apply (invariant_read e Unlocked); simpl; [done|by intros ?|done|by apply gor_writing; auto|lia|lia|done].
Qed.

(** The write lock is held. *)
Lemma invariant_writing `{RangeOrder} e mu mu' gs L answers g l ins rest :
  gs !! g = Some (ins :: rest) → l ++ [mu_Unlock] = ins :: rest → Forall writes l →
  coherent L (critical e (l ++ [mu_Unlock])) →
  mutex_after ins mu = Some mu' → invariant (mkShared e mu gs L answers) →
  invariant (mkShared (assign e ins) mu' (<[g := rest]> gs) L (answers ++ answer e ins)).
Proof.
  intros Hg Hrun Hl Hco Hmu Hinv. pose proof (writing_section l Hl) as [Hw Hr].
  pose proof Hinv as [Hgs Hm _ Ha]. simpl in *. rewrite Hrun in Hw, Hr.
  pose proof (count_some writing gs (ins :: rest) (list_elem_of_lookup_2 _ _ _ Hg) Hw) as Hpos.
  pose proof (count_insert writing _ _ _ rest Hg) as Hcw. pose proof (count_insert reading _ _ _ rest Hg) as Hcr.
  destruct mu as [| |n]; destruct Hm as [Hmw Hmr]; [lia| |lia].
  pose proof (λ g' l' Hne, count_one writing gs g (ins :: rest) g' l' eq_refl Hmw Hg Hw Hne) as Hothers.
  destruct l as [|ins0 l]; injection Hrun as <- <-.
  - simpl in *. injection Hmu as <-.
    apply (invariant_read e WriteLocked); simpl; [done|by intros ?|done|constructor|lia| |done].
    intros _. by rewrite assign_reads in Hco by by intros ?.
  - apply Forall_cons in Hl as [Hins Hl]. pose proof (writing_section l Hl) as [Hw' Hr'].
    assert (mu' = WriteLocked) as -> by by destruct ins0; try done; injection Hmu as <-.
    rewrite Hr, Hr' in Hcr. destruct (writing (ins0 :: l ++ [mu_Unlock])); [|done].
    destruct (writing (l ++ [mu_Unlock])); [|done]. simpl in Hcw, Hcr.
    assert (answer e ins0 = []) as -> by by destruct ins0. rewrite app_nil_r.
    split; simpl; [|lia|lia|done]. apply Forall_lookup. intros g' l' Hg'.
    destruct (decide (g = g')) as [<-|Hne].
    + rewrite list_lookup_insert_eq in Hg' by by eapply lookup_lt_Some. injection Hg' as <-. by constructor.
    + rewrite list_lookup_insert_ne in Hg' by done. apply (goroutine_other L e); [by eapply Hothers|].
      by eapply Forall_lookup_1.
Qed.

Lemma invariant_question `{RangeOrder} e mu mu' gs L answers g ins :
  gs !! g = Some [mu_RLock; ins; mu_RUnlock] → asks ins →
  mutex_after mu_RLock mu = Some mu' → invariant (mkShared e mu gs L answers) →
  invariant (mkShared (assign e mu_RLock) mu' (<[g := [ins; mu_RUnlock]]> gs) L (answers ++ answer e mu_RLock)).
Proof.
  intros Hg Hins Hmu Hinv. pose proof (question_held ins Hins) as (Hw & Hr & Hw'). pose proof Hinv as [_ Hm He _]. simpl in Hm, He.
  pose proof (count_insert writing _ _ _ [ins; mu_RUnlock] Hg) as Hcw.
  pose proof (count_insert reading _ _ _ [ins; mu_RUnlock] Hg) as Hcr.
  rewrite Hw, Hw' in Hcw. rewrite Hr in Hcr. simpl in Hcw, Hcr.
  apply (invariant_read e mu); simpl; [done|by intros ?|done|by constructor| | |done].
  - destruct mu; simplify_eq/=; lia.
  - intros Hz. apply He. lia.
Qed.

Lemma IsWSAInMaps_answered `{RangeOrder} L e wsaKey : coherent L e → answered L (PresentAnswer wsaKey (IsWSAInMaps e wsaKey)).
Proof.
  intros [_ _ (O & R & HR & Ha)]. exists O, R. split; [done|]. intros Hok.
  pose proof (IsWSAInMaps_swap (H5 := O) e R wsaKey Hok) as Hswap. cbv zeta in Hswap.
  rewrite !IsWSAInMaps_spec in *. simpl in Hswap. by rewrite Ha.
Qed.

(** The read lock is held. *)
Lemma invariant_asking `{RangeOrder} e mu mu' gs L answers g ins :
  gs !! g = Some [ins; mu_RUnlock] → asks ins →
  mutex_after ins mu = Some mu' → invariant (mkShared e mu gs L answers) →
  invariant (mkShared (assign e ins) mu' (<[g := [mu_RUnlock]]> gs) L (answers ++ answer e ins)).
Proof.
  intros Hg Hins Hmu Hinv. pose proof (question_held ins Hins) as (Hw & Hr & Hw'). pose proof Hinv as [_ Hm He _]. simpl in Hm, He.
  pose proof (count_some reading gs _ (list_elem_of_lookup_2 _ _ _ Hg) (Is_true_true_2 _ Hr)) as Hpos.
  pose proof (count_insert writing _ _ _ [mu_RUnlock] Hg) as Hcw. pose proof (count_insert reading _ _ _ [mu_RUnlock] Hg) as Hcr.
  rewrite Hw in Hcw. rewrite Hr in Hcr. simpl in Hcw, Hcr.
  assert (mu' = mu) as -> by by destruct ins; try done; injection Hmu as <-.
  assert (count writing gs = 0) as Hz by (destruct mu; simpl in Hm; lia).
  apply (invariant_read e mu); [done|by intros ?; destruct ins|done|constructor| |by intros _; apply He|].
  - destruct mu; simpl in *; lia.
  - specialize (He Hz). pose proof He as [_ (O & R & HR & Hp) _]. destruct ins; try done; apply Forall_singleton.
    + exists O, R. split; [done|]. unfold eng_GetServiceAccountForScope. by rewrite Hp.
    + by apply IsWSAInMaps_answered.
Qed.

Lemma invariant_asked `{RangeOrder} e mu mu' gs L answers g :
  gs !! g = Some [mu_RUnlock] →
  mutex_after mu_RUnlock mu = Some mu' → invariant (mkShared e mu gs L answers) →
  invariant (mkShared (assign e mu_RUnlock) mu' (<[g := []]> gs) L (answers ++ answer e mu_RUnlock)).
Proof.
  intros Hg Hmu Hinv. pose proof Hinv as [_ Hm He _]. simpl in *.
  pose proof (count_insert writing _ _ _ [] Hg) as Hcw. pose proof (count_insert reading _ _ _ [] Hg) as Hcr. simpl in Hcw, Hcr.
  apply (invariant_read e mu); simpl; [done|by intros ?|done|constructor| | |done].
  - destruct mu as [| |[|n]]; simplify_eq/=; lia.
  - intros Hz. apply He. lia.
Qed.

Lemma invariant_run `{RangeOrder} g s s' : run g s = Some s' → invariant s → invariant s'.
Proof.
  destruct s as [e mu gs L answers]. unfold run. simpl. destruct (gs !! g) as [[|ins rest]|] eqn:Hg; [done| |done].
  destruct (mutex_after ins mu) as [mu'|] eqn:Hmu; [|done]. intros [= <-] Hinv.
  pose proof (inv_goroutines _ Hinv) as Hgs. pose proof (Forall_lookup_1 _ _ _ _ Hgs Hg) as Hgor. simpl in Hgor.
  remember (ins :: rest) as l0 eqn:Heq. destruct Hgor as [|O R HR|O R HR|l Hl Hco|q Hq|q Hq|]; [done|..].
  - unfold rebuild_section in Heq. injection Heq as <- <-. apply (invariant_lock e mu mu' gs L answers g
      [SetScopeToSA _; SetSaToWsaMap _; SetVocabulary _; SetScopeComputation]); [done|by repeat constructor| |done|done].
    intros _. exact (coherent_rebuild O L R e HR).
  - unfold refresh_section in Heq. injection Heq as <- <-. apply (invariant_lock e mu mu' gs L answers g
      [SetScopeToSA _; SetVocabulary _; SetScopeComputation]); [done|by repeat constructor| |done|done].
    exact (coherent_refresh O L R e HR).
  - rewrite Heq in Hg. by eapply invariant_writing.
  - injection Heq as <- <-. by eapply (invariant_question _ mu).
  - injection Heq as <- <-. by eapply (invariant_asking _ mu).
  - injection Heq as <- <-. by eapply (invariant_asked _ mu).
Qed.

Lemma computed_state (O : RangeOrder) e w R state :
  listed w R → (computeStateFromCluster e w).2 = inr state → state = state_of R.
Proof.
  intros (wsas & cwsas & H1' & H2' & ->) Hs.
  destruct (computeStateFromCluster_cases e w) as [(wsas' & cwsas' & Hs' & H1'' & H2'')|[err Hs']]; [|by rewrite Hs' in Hs].
  rewrite H1' in H1''. injection H1'' as <-. rewrite H2' in H2''. injection H2'' as <-. rewrite Hs' in Hs. by injection Hs as <-.
Qed.

Lemma was_read_now L R : was_read ([R] ++ L) R.
Proof. right. apply list_elem_of_here. Qed.
Lemma invariant_step s s' : step s s' → invariant s → invariant s'.
Proof.
  intros Hs Hinv.
  destruct Hs as [O g s s' Hrun|O g w R state s Hidle HR Hst|O g w R state s Hidle HR Hst
    |O g now b w w' e b' plan X R s Hidle HR Hplan Hp|g scope s Hidle|g wsaKey s Hidle].
  - by eapply invariant_run.
  - rewrite (computed_state O _ w R state) by done. apply invariant_call; [done|done|done|done|].
    apply gor_rebuild, was_read_now.
  - rewrite (computed_state O _ w R state) by done. apply invariant_call; [done|done|done|done|].
    apply gor_refresh, was_read_now.
  - pose proof Hplan as (_ & _ & Hspec & _)%PlanningStage_spec. destruct (Hspec eq_refl) as (R' & tns & HR' & Hp').
    rewrite Hp in Hp'. injection Hp' as ->. rewrite (listed_inj w R R') by done.
    assert (invariant (calls g (plan_section (set_AllResources X (plan_of R' R' tns))) [R'] (sh_engine s) s)) as Hcall.
    { apply invariant_call; [done|done|done|done|]. apply (gor_rebuild _ _ O R'), was_read_now. }
    apply planning_engine in Hplan as [->|[c ->]]; [done|]. by apply invariant_cache.
  - apply invariant_call; [done|done|done|done|]. by apply gor_question.
  - apply invariant_call; [done|done|done|done|]. by apply gor_question.
Qed.

(** A goroutine about to write, or to ask, is in a section. *)
Lemma goroutine_held L e ins rest :
  goroutine L e (ins :: rest) →
  (writes ins → writing (ins :: rest)) ∧ (asks ins → reading (ins :: rest)).
Proof.
  remember (ins :: rest) as l0 eqn:Heq.
  destruct 1 as [|O R HR|O R HR|l Hl Hco|q Hq|q Hq|]; [done|injection Heq as <- <-; done..| | | |].
  - split; [intros _; by apply writing_section|]. destruct Hl as [|ins0 l Hins0 Hl]; injection Heq as <- <-; [done|].
    by destruct ins0.
  - by injection Heq as <- <-.
  - injection Heq as <- <-. split; [by destruct q|]. intros _. by rewrite (proj1 (proj2 (question_held q Hq))).
  - by injection Heq as <- <-.
Qed.

Lemma invariant_no_race s : invariant s → ¬ race s.
Proof.
  intros [Hgs Hm _ _] (g & g' & ins & rest & ins' & rest' & Hne & Hg & Hg' & Hw & Hu).
  destruct (goroutine_held _ _ _ _ (Forall_lookup_1 _ _ _ _ Hgs Hg)) as [Hwg _].
  destruct (goroutine_held _ _ _ _ (Forall_lookup_1 _ _ _ _ Hgs Hg')) as [Hwg' Hrg'].
  pose proof (count_some _ _ _ (list_elem_of_lookup_2 _ _ _ Hg) (Hwg Hw)) as Hpos.
  destruct (sh_mu s) as [| |n]; simpl in Hm; [lia| |lia]. destruct Hm as [Hmw Hmr].
  destruct Hu as [Hw'%Hwg'|Ha'%Hrg'].
  - by rewrite (count_one writing _ g _ g' _ eq_refl Hmw Hg (Hwg Hw) Hne Hg') in Hw'.
  - by rewrite (count_zero _ _ _ Hmr (list_elem_of_lookup_2 _ _ _ Hg')) in Ha'.
Qed.

(** *** The first state *)

Lemma published_empty (O : RangeOrder) : published [] = NewScopeComputationService (Some NewGlobalVocabulary) (Some ∅).
Proof.
  unfold published. f_equal. f_equal. apply map_eq. intros k. rewrite lookup_empty. apply eq_None_not_Some.
  unfold mappings. rewrite scopeToServiceAccount_dom.
  intros [wm [Hne _]%scope_map_lookup]; [|by apply NoDup_nil]. by destruct Hne.
Qed.

Lemma accounts_empty (O : RangeOrder) : serviceAccountToWSAs (mappings []) = ∅.
Proof.
  apply map_eq. intros n. rewrite lookup_empty. apply eq_None_not_Some. unfold mappings.
  destruct (serviceAccountToWSAs_spec (scope_map []) n) as [Hval _]. intros [wm Hn].
  apply Hval in Hn as (ss & Hss & _ & _). apply is_group_lookup in Hss as (Hne & _ & gk & Hin).
  destruct ss as [|k ss]; [done|]. destruct (proj1 (Hin k) (list_elem_of_here _ _)) as (wm' & Hwm & _).
  apply scope_map_lookup in Hwm as [Hwm _]; [|by apply NoDup_nil]. by destruct Hwm.
Qed.

(** The engine as its constructors make it. *)
Definition fresh e : Prop := ∃ scheme, (∃ regex ttl, e = NewInMemoryEngine scheme regex ttl) ∨
  ∃ namespaces, e = NewInMemoryEngineWithNamespaces scheme namespaces.

Lemma invariant_start e n : fresh e → invariant (start e n).
Proof.
  intros He. assert (∀ P, P [] = false → count P (replicate n []) = 0) as Hz.
  { intros P HP. induction n as [|n IH]; unfold count in *; simpl; [done|]. by rewrite HP, IH. }
  split; simpl.
  - apply Forall_replicate. constructor.
  - by rewrite !Hz.
  - intros _. split.
    + by destruct He as [scheme [(regex & ttl & ->)|(ns & ->)]].
    + exists range_forward, []. split; [by left|]. rewrite published_empty.
      by destruct He as [scheme [(regex & ttl & ->)|(ns & ->)]].
    + exists range_forward, []. split; [by left|]. rewrite accounts_empty.
      by destruct He as [scheme [(regex & ttl & ->)|(ns & ->)]].
  - constructor.
Qed.

Lemma invariant_reached e n s : fresh e → rtc step (start e n) s → invariant s.
Proof.
  intros He Hs. pose proof (invariant_start e n He) as Hinv. revert Hinv.
  induction Hs as [|s1 s2 s3 Hstep _ IH]; [done|]. intros ?. by eapply IH, invariant_step.
Qed.

End lemmas.

(** ** A run *)

Module LockingExamples.
Import InMemory ResourceExamples PipelineExamples.
#[local] Existing Instance range_forward.
#[local] Existing Instance reference_third_party.
#[local] Existing Instance reference_third_party_laws.
#[local] Existing Instance reference_lru.

Fixpoint run_all (gs : list nat) (s : Shared) : option Shared :=
  match gs with [] => Some s | g :: gs => match run g s with Some s' => run_all gs s' | None => None end end.

Lemma run_all_steps gs s s' : run_all gs s = Some s' → rtc step s s'.
Proof.
  revert s. induction gs as [|g gs IH]; intros s; simpl; [by intros [= ->]; apply rtc_refl|].
  destruct (run g s) as [s1|] eqn:Hrun; [|done]. intros Hall.
  eapply rtc_l; [by eapply (step_run range_forward)|by apply IH].
Defined.

(** A goroutine refreshes the mappings while another answers a request: the request waits for the lock,
    the answer names an account. *)
Definition refreshed : clusterState :=
  match (computeStateFromCluster engine0 (cluster [app_wsa] [])).2 with inr state => state | inl _ => state_of [] end.
Definition before : Shared :=
  calls 1 (account_section deployment) [] engine0
    (calls 0 (refresh_section refreshed) [live [app_wsa] [admin_cwsa]] engine0 (start engine0 2)).
Definition after : Shared := default before (run_all [0; 0; 0; 0; 0; 1; 1; 1] before).

Example request_waits : run_all [0; 0; 1] before = None.
Proof. by vm_compute. Qed.

Lemma before_reached : rtc step (start engine0 2) before.
Proof.
  eapply rtc_l; [|eapply rtc_l; [|apply rtc_refl]].
  - apply (step_refresh range_forward 0 (cluster [app_wsa] []) (live [app_wsa] [admin_cwsa]) refreshed); [done| |].
    + exists [app_wsa], [admin_cwsa]. by vm_compute.
    + vm_compute. reflexivity.
  - by apply step_account.
Defined.

End LockingExamples.
