(* ===== verification/EndToEnd.v ===== *)
(** * From the resources to a pod

    The parts together: a batch of src/internal/reconciliation/orchestrator.go goes through the stages
    and publishes its mappings in the engine, and the webhook of src/internal/webhook/v1/pod_webhook.go
    answers from that engine.  The specification is the one a user of the controller has in mind: the
    script of a deployment can do what the resources that apply to it grant, and nothing else.  Two ways in which it
    can do more end the file: cluster role bindings that are never collected, and a specification that changes while
    a batch is under way. *)

From Stdlib Require Import ZArith.
From S2P Require Import Prelude GoLib Api Scopes ServiceAccounts Access Cluster Resources SameSpec Engine Webhooks Pipeline.

(** ** Kubernetes' access control, seen from an account *)

Section access_control.
Context `{ClientLaws W}.

(** The binding stored at [ref] gives the role to the account. *)
Definition bound_to (w : W) (account namespace : string) (ref : Ref) (roleRef : RoleRef) : Prop :=
  ∃ o subjects, view w !! ref = Some o ∧ obj_Body o = BindingBody roleRef subjects ∧
    mkSubject "ServiceAccount" account namespace ∈ subjects.
End access_control.

(** ** What a planned list of resources leads to *)

Section references.
Context `{RangeOrder} `{ThirdPartyLaws}.
Implicit Types (R X : list WSAResource).

(** Every name a binding is expected for is the name of a reference. *)
Lemma ref_names_role_refs X x n :
  keys_distinct X → x ∈ X → n ∈ ref_names x → ∃ roleRef, roleRef ∈ role_refs x (created_roles X) ∧ rr_Name roleRef = n.
Proof.
  intros HX Hx. unfold ref_names, role_refs. rewrite (created_roles_lookup X x) by done.
  rewrite fmap_app, !elem_of_app. setoid_rewrite elem_of_app. setoid_rewrite elem_of_app.
  case_decide as Hp.
  - intros [Hn%elem_of_nil|[(rf & -> & ?)%list_elem_of_fmap|(rf & -> & ?)%list_elem_of_fmap]]; [done|eauto..].
  - intros [->%list_elem_of_singleton|[(rf & -> & ?)%list_elem_of_fmap|(rf & -> & ?)%list_elem_of_fmap]]; [|eauto..].
    eexists. split; [right; left; apply list_elem_of_here|]. apply created_role_name.
Qed.

(** No resource is without an account. *)
Lemma granted_some R x : resources_ok R → x ∈ R → ∃ n, granted R x n.
Proof.
  intros HR Hx. destruct (coverage_nonempty x (buildGlobalVocabulary R)) as [k Hk].
  assert (is_Some (scopeToServiceAccount (mappings R) !! k)) as [n Hn].
  { unfold mappings. rewrite scopeToServiceAccount_dom. apply (scope_map_entry R) in Hk as [r Hr]; [|auto with opc|done].
    destruct (scope_map R !! k); [eauto|]. simpl in Hr. by rewrite lookup_empty in Hr. }
  exists n. apply granted_iff; eauto.
Qed.

Lemma granted_some_key R X x : resources_ok R → same_keys R X → x ∈ X → ∃ n, granted R x n.
Proof.
  intros HR Hk Hx. destruct (same_keys_elem R X x Hk Hx) as (y & Hy & Heq).
  destruct (granted_some R y HR Hy) as [n Hn]. exists n. by rewrite <-(granted_key R y x).
Qed.
End references.

Section end_to_end.
Context `{EventRecorderLaws W} `{SchemeInterface} `{ExpirableLRU} `{RangeOrder} `{ThirdPartyLaws}.
Implicit Types (R X : list WSAResource) (e : InMemoryEngine).

(** A binding stored under the name of a reference of [x] is the one deployed for it, so that only
    accounts granted to [x] are bound by it. *)
Lemma deployed_binding R X targetNamespaces w x roleRef roleRef' n namespace namespace' :
  resources_ok R → same_keys R X → deployed R X targetNamespaces w → namespace' ∈ targetNamespaces →
  x ∈ X → roleRef ∈ role_refs x (created_roles X) →
  bound_to w n namespace (binding_ref x roleRef) roleRef' → roleRef' = roleRef ∧ granted R x n.
Proof.
  intros HR Hk Hdep Hns Hx Hrr (o & subjects & Ho & Hb & Hs). destruct (granted_some_key R X x HR Hk Hx) as [n0 Hg].
  destruct (dep_binding _ _ _ _ Hdep x n0 namespace' roleRef Hx Hg Hns Hrr) as (o' & subjects' & Ho' & Hb' & Hin).
  rewrite Ho in Ho'. injection Ho' as <-. rewrite Hb in Hb'. injection Hb' as -> ->. split; [done|].
  apply Hin in Hs as (n' & ? & Hg' & _ & [= -> _]). done.
Qed.

(** In a tidy cluster, a managed binding belongs to a resource. *)
Lemma tidy_binding R X targetNamespaces w o :
  keys_distinct X → tidy R X targetNamespaces w → view w !! obj_ref o = Some o → IsOctopusManaged (obj_Labels o) →
  obj_Kind o = KRoleBinding →
  ∃ x roleRef, x ∈ X ∧ roleRef ∈ role_refs x (created_roles X) ∧ obj_ref o = binding_ref x roleRef.
Proof.
  intros HX Ht Ho Hm Hk. specialize (Ht o Ho Hm). rewrite Hk in Ht.
  apply elem_of_expected_role_bindings in Ht as (x & n & Hx & Hc & Hn & Heq).
  destruct (ref_names_role_refs X x n HX Hx Hn) as (roleRef & Hrr & <-).
  exists x, roleRef. split_and!; [done..|]. unfold binding_ref. rewrite Hc, <-Heq. unfold obj_ref. rewrite Hk.
  f_equal. unfold obj_Namespace, obj_Name. by destruct (obj_Key o).
Qed.

(** The same for a cluster role binding, unless a namespaced resource has the name of the binding
    expected for nothing. *)
Lemma tidy_cluster_binding R X targetNamespaces w o :
  keys_distinct X → tidy R X targetNamespaces w → view w !! obj_ref o = Some o → IsOctopusManaged (obj_Labels o) →
  obj_Kind o = KClusterRoleBinding → nn_Namespace (obj_Key o) = "" →
  (∃ x roleRef, x ∈ X ∧ roleRef ∈ role_refs x (created_roles X) ∧ obj_ref o = binding_ref x roleRef) ∨
  ∃ x n, x ∈ X ∧ IsClusterScoped x = false ∧ n ∈ cluster_ref_names x ∧
    obj_Name o = clusterRoleBindingName (GetName x) n.
Proof.
  intros HX Ht Ho Hm Hk Hns. specialize (Ht o Ho Hm). rewrite Hk in Ht.
  apply elem_of_expected_cluster_role_bindings in Ht as (x & n & Hx & Hn & Heq).
  destruct (IsClusterScoped x) eqn:Hc; [left|right; by exists x, n].
  assert (n ∈ ref_names x) as Hn'.
  { unfold ref_names. rewrite fmap_app. unfold cluster_ref_names in Hn.
    rewrite elem_of_app in Hn. rewrite !elem_of_app. tauto. }
  destruct (ref_names_role_refs X x n HX Hx Hn') as (roleRef & Hrr & <-).
  exists x, roleRef. split_and!; [done..|]. unfold binding_ref. rewrite Hc, <-Heq. unfold obj_ref. rewrite Hk.
  f_equal. unfold obj_Name in *. destruct (obj_Key o). simpl in *. by subst.
Qed.

(** A resource as executed whose version as planned applies to a deployment. *)
Definition applies R X (scope : Scope) (x : WSAResource) : Prop :=
  x ∈ X ∧ ∃ y, y ∈ R ∧ GetNamespacedName y = GetNamespacedName x ∧ scope_matches y scope.

(** What a namespaced resource keeps by accident: a cluster role binding with the name of its own. *)
Definition kept_for_namespaced X (name : string) : Prop :=
  ∃ x rn, x ∈ X ∧ IsClusterScoped x = false ∧ rn ∈ cluster_ref_names x ∧ name = clusterRoleBindingName (GetName x) rn.

(** The account of a deployment may do what the resources that apply to it say, no more. *)
Definition account_exact R X (w : W) (n namespace : string) (scope : Scope) : Prop :=
  (∃ o, view w !! (KServiceAccount, mkNN namespace n) = Some o ∧ IsOctopusManaged (obj_Labels o)) ∧
  (∀ x roleRef, applies R X scope x → roleRef ∈ role_refs x (created_roles X) →
    bound_to w n namespace (binding_ref x roleRef) roleRef) ∧
  (∀ x, applies R X scope x → GetPermissionRules x ≠ [] →
    ∃ o, view w !! role_ref x = Some o ∧ obj_Body o = RoleBody (GetPermissionRules x)) ∧
  (∀ o roleRef, view w !! obj_ref o = Some o → IsOctopusManaged (obj_Labels o) →
    bound_to w n namespace (obj_ref o) roleRef →
    let of_a_resource := ∃ x, applies R X scope x ∧ roleRef ∈ role_refs x (created_roles X) ∧
      obj_ref o = binding_ref x roleRef in
    (obj_Kind o = KRoleBinding → of_a_resource) ∧
    (obj_Kind o = KClusterRoleBinding → nn_Namespace (obj_Key o) = "" →
      of_a_resource ∨ kept_for_namespaced X (obj_Name o))).

Lemma account_deployed R X targetNamespaces w n namespace scope :
  resources_ok R → same_keys R X → deployed R X targetNamespaces w → tidy R X targetNamespaces w →
  namespace ∈ targetNamespaces → (∃ y, y ∈ R ∧ scope_matches y scope) →
  (∀ r, r ∈ R → scope_matches r scope → granted R r n) → (∀ r, r ∈ R → granted R r n → scope_matches r scope) →
  account_exact R X w n namespace scope.
Proof.
  intros HR Hk Hdep Htidy Hns Happ Hall Hsound.
  assert (keys_distinct X) as HX by by eapply same_keys_distinct, ok_keys.
  assert (∀ x, applies R X scope x → granted R x n) as Hg.
  { intros x (_ & y & Hy & Hkey & Hm). rewrite <-(granted_key R y x) by done. by apply Hall. }
  split_and!.
  - destruct Happ as (y & Hy & Hm). destruct (same_keys_elem X R y) as (x & Hx & Hkey); [by symmetry|done|].
    apply (dep_account _ _ _ _ Hdep x); [done|apply Hg; split; eauto|done].
  - intros x roleRef Hx Hrr.
    destruct (dep_binding _ _ _ _ Hdep x n namespace roleRef) as (o & subjects & Ho & Hb & Hin); [by apply Hx|by auto..|].
    exists o, subjects. split_and!; [done..|]. apply Hin. exists n, namespace. auto.
  - intros x [Hx _] Hp. by apply (dep_role _ _ _ _ Hdep).
  - intros o roleRef Ho Hm Hbound.
    assert (Hof : (∃ x roleRef', x ∈ X ∧ roleRef' ∈ role_refs x (created_roles X) ∧ obj_ref o = binding_ref x roleRef') →
      ∃ x, applies R X scope x ∧ roleRef ∈ role_refs x (created_roles X) ∧ obj_ref o = binding_ref x roleRef).
    { intros (x & roleRef' & Hx & Hrr & Href). rewrite Href in Hbound.
      destruct (deployed_binding R X targetNamespaces w x roleRef' roleRef n namespace namespace) as [-> Hgx]; [done..|].
      exists x. split_and!; [|done..]. split; [done|].
      destruct (same_keys_elem R X x Hk Hx) as (y & Hy & Hkey). exists y. split_and!; [done..|].
      apply Hsound; [done|]. by rewrite (granted_key R y x). }
    split.
    + intros Hkind. by apply Hof, (tidy_binding R X targetNamespaces w o).
    + intros Hkind Hnn. destruct (tidy_cluster_binding R X targetNamespaces w o) as [?|?]; [done..|left; by apply Hof|by right].
Qed.

End end_to_end.

(** ** Cluster role bindings nobody asks for *)

Section stale.
Context `{EventRecorderLaws W} `{SchemeInterface} `{ExpirableLRU} `{RangeOrder} `{ThirdPartyLaws}.
Implicit Types (so : StageOrchestrator) (X : list WSAResource) (e : InMemoryEngine) (b : Batch) (ref : Ref).

Lemma ensure_all_keeps r plan ref :
  keys_distinct (plan_AllResources plan) → ¬ asked_ref (plan_AllResources plan) ref → ref.1 ≠ KServiceAccount →
  keeps ref (ensure_all r plan).
Proof.
  intros Hd Hna Hk w. unfold ensure_all, bind. pose proof (EnsureRoles_asked r (plan_AllResources plan) w ref Hna) as H1'.
  destruct (EnsureRoles r (plan_AllResources plan) w) as [w1 [roles [err|]]] eqn:Hroles; [done|]. simpl in H1'. rewrite <-H1'.
  pose proof (EnsureServiceAccounts_frame r (plan_UniqueAccounts plan) (plan_TargetNamespaces plan) w1 ref) as H2'.
  destruct (EnsureServiceAccounts _ _ _ w1) as [w2 [err|]]; simpl in H2';
    (assert (view w2 !! ref = view w1 !! ref) as H2'' by naive_solver); [done|].
  rewrite <-H2''. unfold ensureRoleBindings. rewrite copy_map.
  pose proof (EnsureRoleBindings_asked r (plan_AllResources plan) roles (plan_WSAToSANames plan) (plan_TargetNamespaces plan)
    Hd (λ key role Hkey, EnsureRoles_entry _ _ _ _ _ _ _ _ Hroles Hkey) w2 ref Hna) as H3'.
  by destruct (EnsureRoleBindings _ _ _ _ _ w2) as [w3 [err|]].
Qed.

(** The collectors keep the cluster role bindings whose names are expected, whoever they are expected for. *)
Lemma garbageCollect_keeps_expected r plan X targetNamespaces name :
  name ∈ expected_cluster_role_bindings X →
  keeps (KClusterRoleBinding, mkNN "" name) (garbageCollect r plan X targetNamespaces).
Proof.
  intros Hn. unfold garbageCollect. cbv zeta. apply keeps_bind.
  { eapply keeps_writes_only; [apply GarbageCollectServiceAccounts_frame|]. by intros [? _]. }
  assert (∀ k, k ≠ KClusterRoleBinding → (KClusterRoleBinding, mkNN "" name).1 ≠ k) as Hne by (by intros k Hk <-).
  intros [_ [err|]]; [auto with opc|]. apply keeps_bind; [by apply managed_gc_other, Hne|].
  intros [err|]; [auto with opc|]. apply keeps_bind; [by apply managed_gc_other, Hne|].
  intros [err|]; [auto with opc|]. apply keeps_bind; [|intros [err|]; auto with opc].
  intros w. apply managed_gc_keeps. intros o Ho _. apply bool_decide_spec. unfold obj_Name. unfold obj_ref in Ho.
  by injection Ho as _ ->.
Qed.

Lemma execution_keeps e now b plan name :
  b_Plan b = Some plan → keys_distinct (plan_AllResources plan) →
  name ∈ expected_cluster_role_bindings (plan_AllResources plan) →
  ¬ asked_ref (plan_AllResources plan) (KClusterRoleBinding, mkNN "" name) →
  keeps (KClusterRoleBinding, mkNN "" name) (ExecutionStage_Execute e now b).
Proof.
  intros Hplan Hd Hn Hna. unfold ExecutionStage_Execute. rewrite Hplan. cbv zeta. case_decide; [auto with opc|].
  apply keeps_bind.
  - case_decide; [auto with opc|]. by apply ensure_all_keeps.
  - intros [err|]; [auto with opc|]. apply keeps_bind; [by apply garbageCollect_keeps_expected|].
    intros [err|]; auto with opc.
Qed.
(** C39. A permission that was taken away can stay.  The names expected of cluster role bindings are
    computed for namespaced resources too, although these are bound by role bindings.  So when a
    resource refers to a cluster role and no resource asks for the cluster role binding of its name and that role (the
    resource is then a namespaced one), every batch, whether it succeeds or fails, leaves that binding
    alone: whoever a cluster-scoped resource of the same name had bound keeps the role. *)
Theorem stale_cluster_binding so e now b w w' e' b' res requeue x roleName :
  so_stages so = staging_stages → processBatch so e now b w = (w', (e', b', res, requeue)) → res ≠ RPanic →
  let X := as_executed so e now b w in
  let ref := (KClusterRoleBinding, mkNN "" (clusterRoleBindingName (GetName x) roleName)) in
  keys_distinct X → x ∈ X → roleName ∈ cluster_ref_names x → ¬ asked_ref X ref →
  view w' !! ref = view w !! ref ∧
  ∀ account namespace roleRef, bound_to w account namespace ref roleRef → bound_to w' account namespace ref roleRef.
Proof.
  intros Hstages Hrun Hres X ref Hd Hx Hn Hna. assert (view w' !! ref = view w !! ref) as Hview.
  { unfold processBatch in Hrun. case_decide; [by injection Hrun as -> _ _ _ _|]. rewrite Hstages in Hrun. unfold bind at 1 in Hrun.
    destruct (run_stages so staging_stages e now b w) as [w1 [[e1 b1] res1]] eqn:Hst.
    pose proof (run_staging_keeps so e now b w w1 e1 b1 res1 ref) as Hkeep.
    assert (res1 ≠ RPanic → view w1 !! ref = view w !! ref) as Hw1; [|clear Hkeep].
    { apply Hkeep; [|done]. intros e0 b0 plan Hplan HX. apply (execution_keeps e0 now b0 plan); rewrite ?HX; try done.
      apply elem_of_expected_cluster_role_bindings. by exists x, roleName. }
    destruct res1 as [[]|[n err]|].
    - unfold bind at 1 in Hrun. destruct (updateFinalConditions b1 "" None w1) as [w2 b2] eqn:Hf. unfold bind in Hrun.
      destruct (emitReconcileEvents so b2 w2) as [w3 []] eqn:Hev. apply emitReconcileEvents_spec in Hev.
      unfold updateFinalConditions in Hf. simpl in Hf. apply updateConditions_spec in Hf as [Hv2 _].
      injection Hrun as <- _ _ _ _. by rewrite Hev, Hv2, Hw1.
    - unfold bind in Hrun. destruct (updateFinalConditions b1 n (Some err) w1) as [w2 b2] eqn:Hf.
      unfold updateFinalConditions in Hf. simpl in Hf. case_decide; apply updateConditions_spec in Hf as [Hv2 _];
        injection Hrun as <- _ _ _ _; by rewrite Hv2, Hw1.
    - by injection Hrun as _ _ _ <- _. }
  split; [done|]. intros account namespace roleRef (o & subjects & Ho & Hb). exists o, subjects. by rewrite Hview.
Qed.
End stale.

(** ** Concrete runs *)

Module EndToEndExamples.
Import InMemory ResourceExamples PipelineExamples.
#[local] Existing Instance range_forward.
#[local] Existing Instance reference_third_party.
#[local] Existing Instance reference_third_party_laws.
#[local] Existing Instance reference_lru.
#[local] Existing Instance reference_lru_laws.

Lemma R1_separate : names_separate R1.
Proof. apply names_separateb_sound. by vm_compute. Defined.

Definition pod_of (annotations : gmap string string) : Pod :=
  mkPod "script" {[EnabledLabelKey := "enabled"]} annotations "default" [] [mkContainer "main" []] "".
Definition pod : Pod := pod_of {[ProjectAnnotationKey := "p1"; EnvironmentAnnotationKey := "staging"]}.


(** Two resources named [app], a namespaced one for project p1 and a cluster-scoped one for the
    environment prod, both with the cluster role [view]; then the latter is given [edit] instead. *)
Definition app_view : WorkloadServiceAccount :=
  mkWSA (meta "app" "team-a") app_scope [cluster_role "view"] [] [] [].
Definition cluster_app (roleRef : RoleRef) : ClusterWorkloadServiceAccount :=
  mkCWSA (meta "app" "") (mkDims [] [] ["prod"] [] [] []) [roleRef] [] [].

Definition first_run :=
  processBatch orchestrator engine0 0 batch0
    (mkWorld ∅ [app_view] [cluster_app (cluster_role "view")] ["apps"] {["apps"]} [] [] [] []).
Definition world2 : World :=
  mkWorld (store first_run.1) [app_view] [cluster_app (cluster_role "edit")] ["apps"] {["apps"]} [] [] [] [].
Definition second_run := processBatch orchestrator first_run.2.1.1.1 1 batch0 world2.
Definition X2 : list WSAResource := as_executed orchestrator first_run.2.1.1.1 1 batch0 world2.

(** A pod of another project in the environment prod. *)
Definition prod_pod : Pod := pod_of {[ProjectAnnotationKey := "p2"; EnvironmentAnnotationKey := "prod"]}.
Definition stale_ref : Ref := (KClusterRoleBinding, mkNN "" (clusterRoleBindingName "app" "view")).

(** The subjects of the binding at a reference, if it gives the role. *)
Definition subjects_at (w : World) (ref : Ref) (roleRef : RoleRef) : list Subject :=
  match obj_Body <$> store w !! ref with
  | Some (BindingBody rf subjects) => if decide (rf = roleRef) then subjects else []
  | _ => []
  end.

Lemma subjects_at_bound w ref roleRef account namespace :
  mkSubject "ServiceAccount" account namespace ∈ subjects_at w ref roleRef → bound_to w account namespace ref roleRef.
Proof.
  unfold subjects_at, bound_to. change (view w) with (store w). destruct (store w !! ref) as [o|]; simpl; [|by intros ?%elem_of_nil].
  destruct (obj_Body o) as [| |rf subjects] eqn:Hb; [by intros ?%elem_of_nil..|].
  destruct (decide (rf = roleRef)) as [->|]; [|by intros ?%elem_of_nil]. intros Hin. by exists o, subjects.
Qed.

Lemma run_parts {A B C D E} (p : A * (B * C * D * E)) : p = (p.1, (p.2.1.1.1, p.2.1.1.2, p.2.1.2, p.2.2)).
Proof. by destruct p as [? [[[? ?] ?] ?]]. Defined.

Lemma ok_no_panic {A} {a : A} {res : Result A} : res = ROk a → res ≠ RPanic.
Proof. by intros ->. Defined.

Lemma not_asked X name :
  forallb (λ y, negb (IsClusterScoped y) ||
    bool_decide (name ∉ (λ n, clusterRoleBindingName (GetName y) n) <$> cluster_ref_names y)) X = true →
  ¬ asked_ref X (KClusterRoleBinding, mkNN "" name).
Proof.
  intros Hall [(y & _ & _ & Hr)|(y & rf & Hy & Hr & _ & Hc)].
  - unfold role_ref in Hr. by destruct (IsClusterScoped y).
  - unfold binding_ref in Hr. rewrite forallb_forall in Hall. specialize (Hall y (proj1 (list_elem_of_In _ _) Hy)).
    destruct (IsClusterScoped y); [|done]. simpl in Hall. apply bool_decide_eq_true in Hall. apply Hall.
    injection Hr as ->. by apply (list_elem_of_fmap_2' _ _ (rr_Name rf)); [apply Hc|].
Defined.

(** Both batches succeed, and the account of a pod keeps the cluster role [view] although no resource that
    applies to the pod refers to it any more. *)
Lemma stale_cluster_binding_witness :
  second_run.2.1.2 = ROk () ∧
  ∃ n, eng_GetServiceAccountForScope second_run.2.1.1.1 (getPodScope prod_pod) = ROk n ∧ n ≠ "" ∧
    bound_to second_run.1 n "apps" stale_ref (cluster_role "view") ∧
    ∀ x, x ∈ [wsaAdapter app_view; clusterWSAAdapter (cluster_app (cluster_role "edit"))] →
      scope_matches x (getPodScope prod_pod) → cluster_role "view" ∉ Api.GetRoles x ++ Api.GetClusterRoles x.
Proof.
  assert (second_run.2.1.2 = ROk ()) as Hok by (vm_compute; reflexivity). split; [exact Hok|].
  exists (group_name [mkDims "*" "*" "prod" "*" "*" "*"]). split; [vm_compute; reflexivity|]. split; [by vm_compute|]. split.
  - assert (bound_to world2 (group_name [mkDims "*" "*" "prod" "*" "*" "*"]) "apps" stale_ref (cluster_role "view")) as Hb.
    { apply subjects_at_bound, (bool_decide_unpack _). vm_compute. exact I. }
    assert (keys_distinct X2) as Hd by (apply (bool_decide_unpack _); vm_compute; exact I).
    assert (existsb (λ x, String.eqb (GetName x) "app" && negb (IsClusterScoped x) &&
      bool_decide ("view" ∈ cluster_ref_names x)) X2 = true) as Hx by (vm_compute; reflexivity).
    apply existsb_exists in Hx as (x & Hx%list_elem_of_In & Hcond).
    apply andb_prop in Hcond as [[Hname%String.eqb_eq _]%andb_prop Hn%bool_decide_eq_true].
    assert (¬ asked_ref X2 stale_ref) as Hna by (apply not_asked; vm_compute; reflexivity).
    assert (stale_ref = (KClusterRoleBinding, mkNN "" (clusterRoleBindingName (GetName x) "view"))) as Href
      by (rewrite Hname; reflexivity).
    rewrite Href in Hna |- *.
    refine (proj2 (stale_cluster_binding orchestrator first_run.2.1.1.1 1 batch0 world2 _ _ _ _ _ x "view"
      eq_refl (run_parts second_run) (ok_no_panic Hok) Hd Hx Hn Hna) _ _ _ _).
    rewrite <-Href. exact Hb.
  - clear Hok. intros x [->|[->|?%elem_of_nil]%elem_of_cons]%elem_of_cons; [by intros []| |done].
    intros _. apply (bool_decide_unpack _). by vm_compute.
Defined.
End EndToEndExamples.

(** ** A specification that changes while a batch is under way

    The lists come from a cache, the answer to a status patch from the API server, which may know a newer
    specification.  Here the resource is moved from project p1 to p2 and given another role while its
    batch is processed. *)
Module NewerSpecification.
Import InMemory ResourceExamples PipelineExamples EndToEndExamples.
#[local] Existing Instance range_forward.
#[local] Existing Instance reference_third_party.
#[local] Existing Instance reference_lru.

Definition newer_wsa : WorkloadServiceAccount :=
  mkWSA (meta "app" "team-a") (mkDims ["p2"] [] [] [] [] []) [] [role "writer"] [] [].

#[local] Instance live_client : Client World := {|
  client_List := client_List;
  client_ListWSAs := client_ListWSAs;
  client_ListCWSAs := client_ListCWSAs;
  client_ListDeploymentNamespaces := client_ListDeploymentNamespaces;
  client_Get := client_Get;
  client_GetNamespace := client_GetNamespace;
  client_Apply := client_Apply;
  client_Delete := client_Delete;
  client_GetWSA := client_GetWSA;
  client_GetCWSA := client_GetCWSA;
  client_Patch := client_Patch;
  client_PatchStatus obj conditions :=
    let* (answer, err) := client_PatchStatus obj conditions in
    ret (if decide (GetNamespacedName obj = GetNamespacedName (wsaAdapter app_wsa)) then wsaAdapter newer_wsa else answer, err)
|}.

Definition live_run :=
  processBatch (NewStageOrchestrator staging_stages true) engine0 0 batch0 (cluster [app_wsa] []).
Definition p1_pod : Pod := pod_of {[ProjectAnnotationKey := "p1"; EnvironmentAnnotationKey := "staging"]}.

(** The batch succeeds.  The account a pod of p1 gets was planned from the older version, the binding was
    made from the newer one: the pod can use the role [writer], which the newer version grants to p2 only and
    the older one to nobody. *)
Example newer_specification_executed :
  live_run.2.1.2 = ROk () ∧
  ∃ n, eng_GetServiceAccountForScope live_run.2.1.1.1 (getPodScope p1_pod) = ROk n ∧ n ≠ "" ∧
    bound_to live_run.1 n "apps" (binding_ref (wsaAdapter newer_wsa) (role "writer")) (role "writer") ∧
    ¬ scope_matches (wsaAdapter newer_wsa) (getPodScope p1_pod) ∧
    role "writer" ∉ Api.GetRoles (wsaAdapter app_wsa) ++ Api.GetClusterRoles (wsaAdapter app_wsa).
Proof.
  split; [vm_compute; reflexivity|]. eexists. split; [vm_compute; reflexivity|]. split; [by vm_compute|]. split.
  - apply subjects_at_bound, (bool_decide_unpack _). vm_compute. exact I.
  - split; [by intros []|apply (bool_decide_unpack _); vm_compute; exact I].
Qed.
End NewerSpecification.
