(* ===== verification/Convergence.v ===== *)
(** * Convergence

    What the service accounts and role bindings of the cluster are after a batch of
    src/internal/reconciliation/orchestrator.go has succeeded, as a function of the custom resources
    alone: the state an administrator wants ([desired]), that the stages establish it from any state
    ([realises]), and that the history of the cluster leaves no trace.  The service account of a pod is
    in [EndToEnd]. *)

From Stdlib Require Import ZArith.
From S2P Require Import Prelude GoLib Api Scopes ServiceAccounts Access Cluster Resources SameSpec Engine Webhooks Pipeline EndToEnd.

(** ** The desired state *)

(** Contents of objects up to the order and repetition of subjects. *)
Definition body_equiv (b b' : Body) : Prop :=
  match b, b' with
  | BindingBody roleRef subjects, BindingBody roleRef' subjects' =>
      roleRef = roleRef' ∧ ∀ s, s ∈ subjects ↔ s ∈ subjects'
  | _, _ => b = b'
  end.

#[export] Instance body_equiv_equivalence : Equivalence body_equiv.
Proof.
  split.
  - by intros [].
  - intros [] []; simpl; try done. intros [-> H]. split; [done|]. intros s. by rewrite H.
  - intros [] [] []; simpl; try congruence. intros [-> H1] [-> H2]. split; [done|]. intros s. by rewrite H1.
Qed.

Section desired.
Context `{RangeOrder} `{ThirdParty}.

(** The accounts and bindings the resources ask for in the target namespaces, and the roles of their
    inline rules: the accounts of the resources as planned, [R], the roles of the resources as
    executed, [X]. *)
Inductive desired (R X : list WSAResource) (targetNamespaces : list string) : Ref → Body → Prop :=
| want_account x n namespace :
    x ∈ X → granted R x n → namespace ∈ targetNamespaces →
    desired R X targetNamespaces (KServiceAccount, mkNN namespace n) AccountBody
| want_binding x roleRef subjects :
    x ∈ X → roleRef ∈ role_refs x (created_roles X) →
    (∀ s, s ∈ subjects ↔ ∃ n namespace, granted R x n ∧ namespace ∈ targetNamespaces ∧
      s = mkSubject "ServiceAccount" n namespace) →
    desired R X targetNamespaces (binding_ref x roleRef) (BindingBody roleRef subjects)
| want_role x :
    x ∈ X → GetPermissionRules x ≠ [] →
    desired R X targetNamespaces (role_ref x) (RoleBody (GetPermissionRules x)).
End desired.

(** The objects whose existence the resources decide: service accounts and role bindings.  Roles are
    collected by name only and cluster roles never, so that old ones can stay. *)
Definition exact_kind (k : Kind) : bool :=
  match k with KServiceAccount | KRoleBinding => true | _ => false end.

Section realises.
Context `{ClientLaws W} `{RangeOrder} `{ThirdParty}.

(** What is desired is there, and of the accounts and role bindings the controller manages nothing
    else is. *)
Record realises (R X : list WSAResource) (targetNamespaces : list string) (w : W) : Prop := {
  re_stored ref b : desired R X targetNamespaces ref b → ∃ o, view w !! ref = Some o ∧
    (exact_kind ref.1 → IsOctopusManaged (obj_Labels o)) ∧ (ref.1 ≠ KServiceAccount → body_equiv (obj_Body o) b);
  re_wanted o : exact_kind (obj_Kind o) → view w !! obj_ref o = Some o → IsOctopusManaged (obj_Labels o) →
    ∃ b, desired R X targetNamespaces (obj_ref o) b
}.
End realises.

(** ** The desired state depends on the specifications only *)

Section order.
Context `{ThirdPartyLaws}.

Lemma desired_same (O1 O2 : RangeOrder) R1 R2 X1 X2 tns1 tns2 ref b :
  same_specs R1 R2 → same_specs X1 X2 → same_keys R1 X1 → resources_ok R1 →
  (∀ namespace, namespace ∈ tns1 ↔ namespace ∈ tns2) →
  @desired O1 _ R1 X1 tns1 ref b → @desired O2 _ R2 X2 tns2 ref b.
Proof.
  intros Hs HsX Hk HR1 Htns. assert (keys_distinct X1) as HX1 by by eapply same_keys_distinct, ok_keys.
  assert (keys_distinct X2) as HX2 by by rewrite <-HsX.
  assert (∀ x y n, x ∈ X1 → spec_of x = spec_of y → @granted O1 _ R1 x n ↔ @granted O2 _ R2 y n) as Hg.
  { intros x y n Hx Hspec. destruct (same_keys_elem R1 X1 x Hk Hx) as (x0 & Hx0 & Hkx).
    destruct (same_specs_elem R1 R2 x0 Hs Hx0) as (y0 & Hy0 & Hspec0).
    rewrite <-(@granted_key O1 _ R1 x0 x) by done.
    assert (GetNamespacedName y0 = GetNamespacedName y) as Hky.
    { by rewrite <-(spec_key _ _ Hspec0), Hkx, (spec_key _ _ Hspec). }
    rewrite <-(@granted_key O2 _ R2 y0 y) by done. by apply (granted_same O1 O2). }
  intros [x n namespace Hx Hgx Hns|x roleRef subjects Hx Hrr Hsub|x Hx Hp];
    destruct (same_specs_elem X1 X2 x HsX Hx) as (y & Hy & Hspec).
  - apply (want_account _ _ _ y); [done|by apply (Hg x)|by apply Htns].
  - rewrite (binding_ref_same x y) by done. apply want_binding; [done| |].
    + by rewrite <-(role_refs_same X1 X2 x y).
    + intros s. rewrite Hsub. setoid_rewrite Htns. split; intros (n & namespace & Hgx & ?); exists n, namespace;
        (split; [by apply (Hg x y n)|done]).
  - rewrite (role_ref_same x y), (spec_rules x y) by done. apply want_role; [done|]. by rewrite <-(spec_rules x y).
Qed.
End order.

(** ** A successful batch realises it *)

Section convergence.
Context `{EventRecorderLaws W} `{SchemeInterface} `{ExpirableLRU} `{RangeOrder} `{ThirdPartyLaws}.
Implicit Types (R X : list WSAResource) (e : InMemoryEngine).

(** Every account that is created belongs to a resource. *)
Lemma created_granted R sa :
  resources_ok R → sa ∈ serviceAccountsToCreate (mappings R) → ∃ x, x ∈ R ∧ granted R x (sa_Name sa).
Proof.
  intros HR (ss & Hss & ->)%(proj1 (serviceAccountsToCreate_spec (scope_map R))).
  destruct ss as [|k ss'] eqn:Heq; [by apply is_group_lookup in Hss as [? _]|]. rewrite <-Heq in *.
  assert (k ∈ ss) as Hk by (rewrite Heq; apply list_elem_of_here).
  pose proof (group_entry R ss k HR Hss Hk) as Hentry.
  destruct (scope_map_keys_ok R k _ HR Hentry) as [Hne _]. apply map_choose in Hne as (key & x & Hx).
  apply scope_map_lookup in Hentry as [_ Hwm]; [|auto with opc]. rewrite Hwm in Hx.
  apply wsa_map_lookup in Hx as [Hx <-]; [|by apply keys_distinct_filter; auto with opc].
  exists x. apply elem_of_covering in Hx as [HxR Hcov]. split; [done|].
  apply granted_spec. exists ss. split_and!; [done|done|]. apply (group_covered R ss k); auto.
Qed.

Lemma deployed_realises R X targetNamespaces w :
  resources_ok R → same_keys R X → targetNamespaces ≠ [] → deployed R X targetNamespaces w →
  tidy R X targetNamespaces w → realises R X targetNamespaces w.
Proof.
  intros HR Hk Htns Hdep Htidy. assert (keys_distinct X) as HX by by eapply same_keys_distinct, ok_keys. split.
  - intros ref b [x n namespace Hx Hg Hns|x roleRef subjects Hx Hrr Hs|x Hx Hp].
    + destruct (dep_account _ _ _ _ Hdep x n namespace) as (o & Ho & Hm); [done..|]. exists o. by split_and!.
    + destruct (granted_some_key R X x HR Hk Hx) as [n Hg]. destruct targetNamespaces as [|ns tns] eqn:Heq; [done|].
      rewrite <-Heq in *. assert (ns ∈ targetNamespaces) as Hns by (rewrite Heq; apply list_elem_of_here).
      destruct (dep_binding _ _ _ _ Hdep x n ns roleRef) as (o & subjects' & Ho & Hb & Hs'); [done..|].
      exists o. split_and!; [done| |].
      * intros _. by eapply dep_managed.
      * intros _. rewrite Hb. split; [done|]. intros s. by rewrite Hs, Hs'.
    + destruct (dep_role _ _ _ _ Hdep x Hx Hp) as (o & Ho & Hb). exists o. split_and!; [done| |by rewrite Hb].
      unfold role_ref. by destruct (IsClusterScoped x).
  - intros o Hkind' Ho Hm. destruct (obj_Kind o) eqn:Hkind; try done.
    + pose proof (Htidy o Ho Hm) as Ht. rewrite Hkind in Ht. destruct Ht as [Hns (sa & Hname & Hsa)%list_elem_of_fmap].
      destruct (created_granted R sa HR Hsa) as (y & Hy & Hg).
      destruct (same_keys_elem X R y) as (x & Hx & Hkey); [by unfold same_keys in *|done|]. exists AccountBody.
      replace (obj_ref o) with (KServiceAccount, mkNN (obj_Namespace o) (sa_Name sa)).
      { eapply want_account; [done| |done]. by rewrite (granted_key R x y). }
      unfold obj_ref. rewrite Hkind, <-Hname. unfold obj_Namespace, obj_Name. by destruct (obj_Key o).
    + destruct (tidy_binding R X targetNamespaces w o) as (x & roleRef & Hx & Hrr & ->); [done..|].
      eexists. eapply (want_binding _ _ _ _ _
        (subjects_of (default [] (wsaToServiceAccountNames (mappings R) !! GetNamespacedName x)) targetNamespaces)); [done..|].
      intros s. apply elem_of_subjects_of.
Qed.

(** What a plan publishes. *)
Lemma plan_of_published R X tns R' X' tns' :
  Some (plan_of R X tns) = Some (plan_of R' X' tns') → published R = published R'.
Proof.
  intros Hp%(inj Some). unfold published.
  pose proof (f_equal plan_ScopeToSA Hp : scopeToServiceAccount (mappings R) = scopeToServiceAccount (mappings R')) as ->.
  pose proof (f_equal plan_Vocabulary Hp : Some (buildGlobalVocabulary R) = Some (buildGlobalVocabulary R')) as Hv.
  exact (f_equal (λ v, NewScopeComputationService v (Some (scopeToServiceAccount (mappings R')))) Hv).
Qed.

Lemma executed_realises r R X targetNamespaces e (w : W) :
  CurrentReads W → same_keys R X → executed r R X targetNamespaces e w →
  resources_ok R → no_clash r R X targetNamespaces → realises R X targetNamespaces w.
Proof.
  intros Hcur Hk Hex HR Hnc. apply deployed_realises; [done|done|by eapply ex_namespaces| |by eapply ex_tidy].
  eapply ex_deployed; [done|by eapply same_keys_distinct, ok_keys|done].
Qed.

(** When specifications stay, what is realised is what was listed. *)
Lemma realises_listed R X targetNamespaces (w : W) :
  resources_ok R → spec_of <$> X = spec_of <$> R → realises R X targetNamespaces w → realises R R targetNamespaces w.
Proof.
  intros HR Hspec Hre. assert (same_specs R X) as HsX by (unfold same_specs; by rewrite Hspec).
  assert (same_keys R X) as Hk.
  { unfold same_keys. assert (∀ l : list WSAResource, GetNamespacedName <$> l = sp_key <$> (spec_of <$> l)) as Heq.
    { intros l. by rewrite <-list_fmap_compose. }
    by rewrite !Heq, Hspec. }
  split.
  - intros ref b Hd. apply (re_stored _ _ _ _ Hre). by apply (desired_same _ _ R R R X targetNamespaces targetNamespaces).
  - intros o Hkind Ho Hm. destruct (re_wanted _ _ _ _ Hre o Hkind Ho Hm) as [b Hb]. exists b.
    by apply (desired_same _ _ R R X R targetNamespaces targetNamespaces).
Qed.

(** Clusters that realise the state desired for the same specifications agree. *)
Lemma realised_agree R1 R2 X1 X2 tns1 tns2 (w1 w2 : W) o :
  same_specs R1 R2 → same_specs X1 X2 → same_keys R1 X1 → resources_ok R1 →
  (∀ namespace, namespace ∈ tns1 ↔ namespace ∈ tns2) →
  realises R1 X1 tns1 w1 → realises R2 X2 tns2 w2 →
  exact_kind (obj_Kind o) → view w1 !! obj_ref o = Some o → IsOctopusManaged (obj_Labels o) →
  ∃ o', view w2 !! obj_ref o = Some o' ∧ IsOctopusManaged (obj_Labels o') ∧
    (obj_Kind o = KRoleBinding → body_equiv (obj_Body o) (obj_Body o')).
Proof.
  intros Hsame HsameX Hkeys H1' Htns Hre1 Hre2 Hk Ho Hm.
  destruct (re_wanted _ _ _ _ Hre1 o Hk Ho Hm) as [b Hb].
  destruct (re_stored _ _ _ _ Hre1 _ _ Hb) as (o1 & Ho1 & _ & Heq1). rewrite Ho in Ho1. injection Ho1 as <-.
  destruct (re_stored _ _ _ _ Hre2 (obj_ref o) b) as (o2 & Ho2 & Hm2 & Heq2).
  { by eapply (desired_same _ _ R1 R2 X1 X2). }
  exists o2. split_and!; [done|by apply Hm2|]. intros Hkind.
  assert ((obj_ref o).1 ≠ KServiceAccount) as Hne by (simpl; by rewrite Hkind).
  etrans; [by apply Heq1|]. symmetry. by apply Heq2.
Qed.

(** C4. The stages refine the specification.  Let a batch succeed, with [R] the resources the cluster listed
    as planning began and [X] the same as execution read them.  Provided that lists are current
    ([CurrentReads]), that [R] is admissible ([resources_ok]) and that no two bindings or roles clash
    ([no_clash]), the batch makes the cluster realise the state desired for them, from whatever state
    the cluster was in: each account of [R] and each binding asked for in [X] is there, with exactly the
    subjects asked for, and no other service account or role binding that the controller manages is
    left.  When nobody writes specifications while the batch is under way ([SettledSpecs]), this is the
    state desired for [R] alone. *)
Theorem batch_realises so e now b w w' e' b' requeue :
  so_stages so = staging_stages → b_Resources b ≠ [] → CurrentReads W →
  processBatch so e now b w = (w', (e', b', ROk (), requeue)) →
  let X := as_executed so e now b w in
  ∃ R targetNamespaces, listed (at_planning so b w) R ∧ same_keys R X ∧
    plan_TargetNamespaces <$> b_Plan b' = Some targetNamespaces ∧
    (resources_ok R → no_clash (rms_of (eng_ResourceManagement e)) R X targetNamespaces →
      realises R X targetNamespaces w' ∧ (SettledSpecs W → realises R R targetNamespaces w')).
Proof.
  intros Hstages Hne Hcur Hrun. cbv zeta. pose proof (processBatch_spec so e now b w Hstages Hne) as Hspec.
  rewrite Hrun in Hspec. destruct (proj1 Hspec eq_refl) as (R & tns & X' & HRw & Hpat & Hplan & _ & Hex).
  exists R, tns. rewrite Hplan. pose proof (patched_keys _ _ Hpat) as Hk. split_and!; [done..|]. intros HR Hnc.
  pose proof (executed_realises _ _ _ _ _ _ Hcur Hk Hex HR Hnc) as Hre. split; [done|].
  intros Hs. eapply realises_listed; [done| |done]. by apply patched_specs.
Qed.

End convergence.

(** ** Examples *)

Module ConvergenceExamples.
Import InMemory ResourceExamples PipelineExamples.
#[local] Existing Instance range_forward.
#[local] Existing Instance reference_third_party.
#[local] Existing Instance reference_third_party_laws.
#[local] Existing Instance reference_lru.
#[local] Existing Instance reference_lru_laws.

(** Another history: a resource [old] was there first, and was deleted. *)
Definition old_wsa : WorkloadServiceAccount :=
  mkWSA (meta "old" "team-a") (mkDims ["p1"; "p2"] [] [] [] [] []) [] [role "reader"] [rule] [].
Definition old_run := processBatch orchestrator engine0 0 batch0
  (mkWorld ∅ [old_wsa] [admin_cwsa] ["apps"] {["apps"]} [] [] [] []).
Definition new_batch : Batch := NewBatch "c" 5 [NewEventInfo (wsaAdapter old_wsa) EventTypeDelete 5].
(** The same resource in a later version: its status was written and it has a finalizer. *)
Definition app_wsa2 : WorkloadServiceAccount :=
  mkWSA (mkMeta "app" "team-a" "uid" 1 "17" None None ["octopus.com/serviceaccount-cleanup"] [])
    app_scope [] [role "reader"] [rule] [mkCondition "Ready" ConditionTrue "Succeeded" "" 1].
Definition new_world : World := mkWorld (store old_run.1) [app_wsa2] [admin_cwsa] ["apps"] {["apps"]} [] [] [] [].
Definition new_run := processBatch orchestrator old_run.2.1.1.1 5 new_batch new_world.

Definition R2 : list WSAResource := [wsaAdapter app_wsa2; clusterWSAAdapter admin_cwsa].

Lemma R1_R2 : same_specs R1 R2.
Proof. exact (Permutation_refl (spec_of <$> R1)). Defined.

Lemma R2_ok : resources_ok R2.
Proof. apply resources_okb_sound. by vm_compute. Defined.

(** The batch is for a resource that is gone: no status patch reaches the planned resources. *)
Definition X2 : list WSAResource := as_executed orchestrator old_run.2.1.1.1 5 new_batch new_world.

Lemma R2_no_clash : no_clash (rms_of (eng_ResourceManagement old_run.2.1.1.1)) R2 X2 ["apps"].
Proof. apply no_clash_of; by vm_compute. Defined.

Lemma listed_R2 : listed (at_planning orchestrator new_batch new_world) R2.
Proof. exists [app_wsa2], [admin_cwsa]. split_and!; vm_compute; reflexivity. Defined.

Lemma R1_listed : listed (at_planning orchestrator batch0 (cluster [app_wsa] [])) R1.
Proof. exists [app_wsa], [admin_cwsa]. split_and!; vm_compute; reflexivity. Defined.

Lemma batch_realises_witness : realises R2 R2 ["apps"] new_run.1.
Proof.
  assert (new_run.2.1.2 = ROk ()) as Hok by (vm_compute; reflexivity).
  assert (plan_TargetNamespaces <$> b_Plan new_run.2.1.1.2 = Some ["apps"]) as Htns by (vm_compute; reflexivity).
  destruct new_run as [w' [[[e' b'] res] requeue]] eqn:Hrun. simpl in Hok, Htns |- *. subst res.
  destruct (batch_realises orchestrator old_run.2.1.1.1 5 new_batch new_world w' e' b' requeue eq_refl ltac:(done) _ Hrun)
    as (R & tns & HR & _ & Hp & Hre).
  rewrite Hp in Htns. injection Htns as ->. rewrite (listed_inj _ R R2 HR listed_R2) in Hre.
  exact (proj2 (Hre R2_ok R2_no_clash) settled).
Defined.


(** There is something to agree on. *)
Definition managed_count (w : World) : nat :=
  length (filter (λ p, exact_kind (obj_Kind p.2) && IsOctopusManaged (obj_Labels p.2)) (map_to_list (store w))).

Example something_managed : managed_count run0.1 = 5 ∧ managed_count old_run.1 = 5.
Proof. split; by vm_compute. Qed.
End ConvergenceExamples.
