(* ===== verification/Debouncer.v ===== *)
(** * The debouncer

    src/internal/reconciliation/debouncer.go: a goroutine that runs a callback some time after the
    first of a series of requests.  The collector and the state syncer each own one. *)

From S2P Require Import Prelude.

(** The state of the goroutine and of its channel. *)
Record BasicDebouncer := mkDebouncer {
  deb_timeChan : nat;                   (** times waiting in the channel, buffered, 100 *)
  deb_started : bool;                   (** [startedTime != nil]: the ticker runs *)
  deb_calling : bool                    (** the goroutine is in the callback *)
}.

Definition timeChanCap : nat := 100.

Definition NewDebouncer : BasicDebouncer := mkDebouncer 0 false false.

(** A guard in the option monad. *)
Abbreviation when b k := (if b then Some k else None).

(** Sends the time; blocks while the channel is full. *)
Definition Debounce (d : BasicDebouncer) : option BasicDebouncer :=
  when (bool_decide (deb_timeChan d < timeChanCap))
    (mkDebouncer (S (deb_timeChan d)) (deb_started d) (deb_calling d)).

(** [Start]: a time starts the ticker unless it runs. *)
Definition debouncer_receive (d : BasicDebouncer) : option BasicDebouncer :=
  match deb_timeChan d with
  | S n => when (negb (deb_calling d)) (mkDebouncer n true false)
  | O => None
  end.

(** [Start]: a tick stops the ticker and runs the callback. *)
Definition debouncer_tick (d : BasicDebouncer) : option BasicDebouncer :=
  when (deb_started d && negb (deb_calling d)) (mkDebouncer (deb_timeChan d) false true).

(** The callback returns. *)
Definition debouncer_return (d : BasicDebouncer) : option BasicDebouncer :=
  when (deb_calling d) (mkDebouncer (deb_timeChan d) (deb_started d) false).

(** A request is on its way to the callback. *)
Definition awake (d : BasicDebouncer) : Prop :=
  deb_timeChan d ≠ 0 ∨ deb_started d = true ∨ deb_calling d = true.

Lemma Debounce_awake d d' : Debounce d = Some d' → awake d'.
Proof. unfold Debounce. case_bool_decide; [|done]. intros [= <-]. by left. Qed.

Lemma receive_awake d d' : debouncer_receive d = Some d' → awake d'.
Proof.
  unfold debouncer_receive. destruct (deb_timeChan d), (deb_calling d); try done. intros [= <-]. right. by left.
Qed.

Lemma tick_awake d d' : debouncer_tick d = Some d' → awake d'.
Proof. unfold debouncer_tick. destruct (_ && _); [|done]. intros [= <-]. right. by right. Qed.

(** Only the return of the callback can end the activity. *)
Lemma return_calling d d' : debouncer_return d = Some d' → deb_calling d = true.
Proof. unfold debouncer_return. by destruct (deb_calling d). Qed.

Lemma asleep_blocked d :
  ¬ awake d → debouncer_receive d = None ∧ debouncer_tick d = None ∧ debouncer_return d = None.
Proof.
  unfold awake, debouncer_receive, debouncer_tick, debouncer_return. intros Hd.
  destruct (deb_timeChan d), (deb_started d), (deb_calling d); try done; exfalso; apply Hd; auto.
Qed.

Lemma NewDebouncer_asleep : ¬ awake NewDebouncer.
Proof. by intros [|[|]]. Qed.

(** The ways a debouncer that is not in its callback gets there. *)
Lemma awake_cases d :
  awake d → deb_calling d = false →
  (∃ d', debouncer_tick d = Some d' ∧ deb_calling d' = true) ∨
  (∃ d' d'', debouncer_receive d = Some d' ∧ debouncer_tick d' = Some d'' ∧ deb_calling d'' = true).
Proof.
  unfold awake, debouncer_receive, debouncer_tick. intros Hd Hc. rewrite Hc in *.
  destruct (deb_started d) eqn:Hs; [left; eauto|]. right.
  destruct (deb_timeChan d) as [|n]; [by destruct Hd as [|[|]]|]. do 2 eexists. split; [done|]. by split.
Qed.

#[export] Hint Resolve Debounce_awake receive_awake tick_awake : opc.
