(* ===== verification/Collector.v ===== *)
(** * Collecting events into batches

    The collector of src/internal/reconciliation/collector.go and its debouncer
    (src/internal/reconciliation/debouncer.go), as a transition system: the goroutines that add
    events, the debouncer, the collector's loop and the orchestrator, with the mutex, the bounded
    channels and their blocking sends.  Steps are an executable function on actions, so that runs
    can be evaluated. *)

From Stdlib Require Import ZArith.
From S2P Require Import Prelude GoLib Api Scopes ServiceAccounts Access Cluster Resources Engine Pipeline Debouncer.

Definition key_of (e : EventInfo) : NamespacedName := GetNamespacedName (ev_Resource e).

(** ** State *)

(** A batch as sent, with the number of events added before it was collected (bookkeeping for the
    theorems; the program has only the events). *)
Record Sent := mkSent { sent_stamp : nat; sent_events : list EventInfo }.

(** Where a goroutine is in [FlushEvents]. *)
Inductive FlushPC :=
| FIdle
| FCollect                  (** about to lock and collect *)
| FSend (b : Sent)          (** holds a batch, about to send it *)
| FReinsert (b : Sent).     (** the channel was full, about to lock and put the events back *)

(** Where the goroutine that holds the lock is in [AddEvent]. *)
Inductive AddPC :=
| ADebounce                 (** the event is stored, about to call [Debounce] *)
| ATrigger.                 (** about to compare the size of the map *)

(** The two goroutines that flush: the collector's loop and the orchestrator. *)
Inductive Flusher := Loop | Orchestrator.

#[export] Instance Flusher_eq_dec : EqDecision Flusher.
Proof. solve_decision. Defined.

Record EventCollector := mkCollector {
  ec_eventMap : gmap NamespacedName EventInfo;
  ec_maxBatchSize : Z;
  ec_batchReadyCh : list Sent;          (** buffered, 10 *)
  ec_batchTriggerCh : nat;              (** buffered, 1024 *)
  ec_eventDebouncer : BasicDebouncer;
  pc_add : option AddPC;                (** [Some]: an [AddEvent] holds the lock *)
  pc_loop : FlushPC;
  pc_orchestrator : FlushPC;
  so_triggerCh : nat;                   (** the orchestrator's, buffered, 10 *)
  added : list EventInfo;               (** bookkeeping: the events added so far, in order *)
  delivered : list Sent                 (** bookkeeping: the batches received by the orchestrator *)
}.

Definition batchReadyCap : nat := 10.
Definition batchTriggerCap : nat := 1024.
Definition triggerCap : nat := 10.

Definition NewEventCollector (maxBatchSize : Z) : EventCollector :=
  mkCollector ∅ maxBatchSize [] 0 NewDebouncer None FIdle FIdle 0 [] [].

Definition pc_of (f : Flusher) (s : EventCollector) : FlushPC :=
  match f with Loop => pc_loop s | Orchestrator => pc_orchestrator s end.

(** Updates, one per field that changes. *)
Definition set_map m s := mkCollector m (ec_maxBatchSize s) (ec_batchReadyCh s) (ec_batchTriggerCh s)
  (ec_eventDebouncer s) (pc_add s) (pc_loop s) (pc_orchestrator s) (so_triggerCh s) (added s) (delivered s).
Definition set_ready l s := mkCollector (ec_eventMap s) (ec_maxBatchSize s) l (ec_batchTriggerCh s)
  (ec_eventDebouncer s) (pc_add s) (pc_loop s) (pc_orchestrator s) (so_triggerCh s) (added s) (delivered s).
Definition set_trigger n s := mkCollector (ec_eventMap s) (ec_maxBatchSize s) (ec_batchReadyCh s) n
  (ec_eventDebouncer s) (pc_add s) (pc_loop s) (pc_orchestrator s) (so_triggerCh s) (added s) (delivered s).
Definition set_debouncer d s := mkCollector (ec_eventMap s) (ec_maxBatchSize s)
  (ec_batchReadyCh s) (ec_batchTriggerCh s) d (pc_add s) (pc_loop s) (pc_orchestrator s)
  (so_triggerCh s) (added s) (delivered s).
Definition set_add p s := mkCollector (ec_eventMap s) (ec_maxBatchSize s) (ec_batchReadyCh s)
  (ec_batchTriggerCh s) (ec_eventDebouncer s) p (pc_loop s) (pc_orchestrator s)
  (so_triggerCh s) (added s) (delivered s).
Definition set_pc f p s := mkCollector (ec_eventMap s) (ec_maxBatchSize s) (ec_batchReadyCh s)
  (ec_batchTriggerCh s) (ec_eventDebouncer s) (pc_add s)
  (match f with Loop => p | Orchestrator => pc_loop s end)
  (match f with Loop => pc_orchestrator s | Orchestrator => p end) (so_triggerCh s) (added s) (delivered s).
Definition set_added l s := mkCollector (ec_eventMap s) (ec_maxBatchSize s) (ec_batchReadyCh s)
  (ec_batchTriggerCh s) (ec_eventDebouncer s) (pc_add s) (pc_loop s)
  (pc_orchestrator s) (so_triggerCh s) l (delivered s).
Definition set_delivered l s := mkCollector (ec_eventMap s) (ec_maxBatchSize s) (ec_batchReadyCh s)
  (ec_batchTriggerCh s) (ec_eventDebouncer s) (pc_add s) (pc_loop s)
  (pc_orchestrator s) (so_triggerCh s) (added s) l.
Definition set_follow_up n s := mkCollector (ec_eventMap s) (ec_maxBatchSize s) (ec_batchReadyCh s)
  (ec_batchTriggerCh s) (ec_eventDebouncer s) (pc_add s) (pc_loop s)
  (pc_orchestrator s) n (added s) (delivered s).

(** ** Steps *)

(** [mu] is free when no [AddEvent] holds it; the other critical sections are single steps. *)
Definition unlocked (s : EventCollector) : bool := match pc_add s with None => true | Some _ => false end.

Section steps.
Context `{RangeOrder}.

(** The body of [AddEvent] up to [Debounce], after taking the lock. *)
Definition AddEvent_store (event : EventInfo) (s : EventCollector) : option EventCollector :=
  when (unlocked s)
    (set_add (Some ADebounce) (set_added (added s ++ [event])
      (set_map (<[key_of event := event]> (ec_eventMap s)) s))).

(** [Debounce] blocks while its channel is full. *)
Definition AddEvent_Debounce (s : EventCollector) : option EventCollector :=
  match pc_add s, Debounce (ec_eventDebouncer s) with
  | Some ADebounce, Some d => Some (set_add (Some ATrigger) (set_debouncer d s))
  | _, _ => None
  end.

(** A full batch triggers a flush, which blocks while the channel is full; then the lock is released. *)
Definition AddEvent_trigger (s : EventCollector) : option EventCollector :=
  match pc_add s with
  | Some ATrigger =>
      if bool_decide (ec_maxBatchSize s ≤ Z.of_nat (size (ec_eventMap s)))%Z
      then when (bool_decide (ec_batchTriggerCh s < batchTriggerCap))
             (set_add None (set_trigger (S (ec_batchTriggerCh s)) s))
      else Some (set_add None s)
  | _ => None
  end.

(** The debouncer's goroutine: a time arrives, the ticker fires, and the callback sends a trigger,
    which blocks while that channel is full. *)
Definition collector_debouncer (f : BasicDebouncer → option BasicDebouncer) (s : EventCollector) :
    option EventCollector :=
  match f (ec_eventDebouncer s) with Some d => Some (set_debouncer d s) | None => None end.

Definition debouncer_callback (s : EventCollector) : option EventCollector :=
  match debouncer_return (ec_eventDebouncer s) with
  | Some d =>
      when (bool_decide (ec_batchTriggerCh s < batchTriggerCap))
        (set_trigger (S (ec_batchTriggerCh s)) (set_debouncer d s))
  | None => None
  end.

(** [Start]: the loop receives a trigger and flushes. *)
Definition loop_receive (s : EventCollector) : option EventCollector :=
  match ec_batchTriggerCh s, pc_loop s with
  | S n, FIdle => Some (set_pc Loop FCollect (set_trigger n s))
  | _, _ => None
  end.

(** A batch asked for a follow-up, whose time has come; the send does not block. *)
Definition triggerReconcile (s : EventCollector) : option EventCollector :=
  Some (if bool_decide (so_triggerCh s < triggerCap) then set_follow_up (S (so_triggerCh s)) s else s).

(** The orchestrator receives the request and flushes. *)
Definition orchestrator_flush (s : EventCollector) : option EventCollector :=
  match so_triggerCh s, pc_orchestrator s with
  | S n, FIdle => Some (set_pc Orchestrator FCollect (set_follow_up n s))
  | _, _ => None
  end.

Definition collectEventsIntoBatch (f : Flusher) (s : EventCollector) : option EventCollector :=
  match pc_of f s with
  | FCollect =>
      when (unlocked s)
        (if decide (size (ec_eventMap s) = 0) then set_pc f FIdle s
         else
           let batch := snd <$> range_map "collectEventsIntoBatch" (ec_eventMap s) in
           set_pc f (FSend (mkSent (length (added s)) batch)) (set_map ∅ s))
  | _ => None
  end.

(** [sendBatch]: the send does not block. *)
Definition sendBatch (f : Flusher) (s : EventCollector) : option EventCollector :=
  match pc_of f s with
  | FSend b =>
      Some (if bool_decide (length (ec_batchReadyCh s) < batchReadyCap)
            then set_pc f FIdle (set_ready (ec_batchReadyCh s ++ [b]) s)
            else set_pc f (FReinsert b) s)
  | _ => None
  end.

(** Its default branch, under the lock: an event goes back unless a newer one came in. *)
Definition reinsert_event (m : gmap NamespacedName EventInfo) (event : EventInfo) :
    gmap NamespacedName EventInfo :=
  match m !! key_of event with
  | None => <[key_of event := event]> m
  | Some existing =>
      if bool_decide (ev_Generation existing < ev_Generation event)%Z then <[key_of event := event]> m else m
  end.

Definition sendBatch_default (f : Flusher) (s : EventCollector) : option EventCollector :=
  match pc_of f s with
  | FReinsert b =>
      when (unlocked s) (set_pc f FIdle (set_map (foldl reinsert_event (ec_eventMap s) (sent_events b)) s))
  | _ => None
  end.

(** The orchestrator's loop receives a batch. *)
Definition orchestrator_receive (s : EventCollector) : option EventCollector :=
  match pc_orchestrator s, ec_batchReadyCh s with
  | FIdle, b :: l => Some (set_delivered (b :: delivered s) (set_ready l s))
  | _, _ => None
  end.

Inductive Action :=
| ActAdd (event : EventInfo)
| ActDebounce
| ActTrigger
| ActDebouncerReceive
| ActDebouncerTick
| ActDebouncerCallback
| ActLoopReceive
| ActTriggerReconcile
| ActOrchestratorFlush
| ActCollect (f : Flusher)
| ActSend (f : Flusher)
| ActReinsert (f : Flusher)
| ActOrchestratorReceive.

Definition exec (a : Action) : EventCollector → option EventCollector :=
  match a with
  | ActAdd event => AddEvent_store event
  | ActDebounce => AddEvent_Debounce
  | ActTrigger => AddEvent_trigger
  | ActDebouncerReceive => collector_debouncer debouncer_receive
  | ActDebouncerTick => collector_debouncer debouncer_tick
  | ActDebouncerCallback => debouncer_callback
  | ActLoopReceive => loop_receive
  | ActTriggerReconcile => triggerReconcile
  | ActOrchestratorFlush => orchestrator_flush
  | ActCollect f => collectEventsIntoBatch f
  | ActSend f => sendBatch f
  | ActReinsert f => sendBatch_default f
  | ActOrchestratorReceive => orchestrator_receive
  end.

Fixpoint exec_all (l : list Action) (s : EventCollector) : option EventCollector :=
  match l with
  | [] => Some s
  | a :: l => match exec a s with Some s' => exec_all l s' | None => None end
  end.

Definition step (s s' : EventCollector) : Prop := ∃ a, exec a s = Some s'.

Lemma exec_all_rtc l s s' : exec_all l s = Some s' → rtc step s s'.
Proof.
  revert s. induction l as [|a l IH]; intros s; simpl; [by intros [= ->]|].
  destruct (exec a s) as [s1|] eqn:Ha; [|done]. intros ?. eapply rtc_l; [by exists a|by apply IH].
Qed.
End steps.

(** ** Every added event is in the map or in a batch *)

Definition pc_batches (p : FlushPC) : list Sent :=
  match p with FSend b | FReinsert b => [b] | _ => [] end.

(** The batches in the hands of the goroutines, in the channel and received. *)
Definition in_flight (s : EventCollector) : list Sent :=
  pc_batches (pc_loop s) ++ pc_batches (pc_orchestrator s) ++ ec_batchReadyCh s ++ delivered s.

(** The events of a resource come with generations that do not decrease. *)
Definition monotone (l : list EventInfo) : Prop :=
  ∀ i j e e', l !! i = Some e → l !! j = Some e' → i ≤ j → key_of e = key_of e' →
    (ev_Generation e ≤ ev_Generation e')%Z.

(** [e'] stands for [e]: the same resource, and no older when events arrive in order. *)
Definition stands_for (s : EventCollector) (e e' : EventInfo) : Prop :=
  key_of e' = key_of e ∧ (monotone (added s) → (ev_Generation e ≤ ev_Generation e')%Z).

(** The [i]-th added event [e] is still to be handled, or was handed to the orchestrator in a batch
    that was collected after it came in. *)
Definition kept (s : EventCollector) (i : nat) (e : EventInfo) : Prop :=
  (∃ e', ec_eventMap s !! key_of e = Some e' ∧ stands_for s e e') ∨
  (∃ b e', b ∈ in_flight s ∧ i < sent_stamp b ∧ e' ∈ sent_events b ∧ stands_for s e e').

Record inv (s : EventCollector) : Prop := mkInv {
  inv_map k e : ec_eventMap s !! k = Some e → key_of e = k ∧ e ∈ added s;
  inv_batches b : b ∈ in_flight s →
    sent_events b ≠ [] ∧ NoDup (key_of <$> sent_events b) ∧ ∀ e, e ∈ sent_events b → e ∈ added s;
  inv_kept i e : added s !! i = Some e → kept s i e
}.

Lemma reinsert_event_spec m x k :
  reinsert_event m x !! k =
    if decide (key_of x = k) then
      match m !! k with
      | Some y => Some (if bool_decide (ev_Generation y < ev_Generation x)%Z then x else y)
      | None => Some x
      end
    else m !! k.
Proof.
  unfold reinsert_event. case_decide as Hk; subst.
  - destruct (m !! key_of x) as [y|] eqn:Hy; [case_bool_decide|]; simplify_map_eq; done.
  - destruct (m !! key_of x) as [y|]; [case_bool_decide|]; by simplify_map_eq.
Qed.

Lemma reinsert_keeps l m k y :
  m !! k = Some y → ∃ z, foldl reinsert_event m l !! k = Some z ∧ (ev_Generation y ≤ ev_Generation z)%Z.
Proof.
  revert m y. induction l as [|x l IH]; intros m y Hy; simpl; [exists y; split; [done|lia]|].
  assert (∃ z, reinsert_event m x !! k = Some z ∧ (ev_Generation y ≤ ev_Generation z)%Z) as (z & Hz & Hle).
  { rewrite reinsert_event_spec, Hy. case_decide; [case_bool_decide|]; eexists; (split; [done|]); lia. }
  destruct (IH _ _ Hz) as (z' & ? & ?). exists z'. split; [done|lia].
Qed.

Lemma reinsert_adds l m x :
  x ∈ l → ∃ z, foldl reinsert_event m l !! key_of x = Some z ∧ (ev_Generation x ≤ ev_Generation z)%Z.
Proof.
  revert m. induction l as [|x' l IH]; intros m; [by intros ?%elem_of_nil|].
  intros [->|Hx]%elem_of_cons; simpl; [|by apply IH].
  assert (∃ z, reinsert_event m x' !! key_of x' = Some z ∧ (ev_Generation x' ≤ ev_Generation z)%Z) as (z & Hz & Hle).
  { rewrite reinsert_event_spec, decide_True by done.
    destruct (m !! key_of x'); [case_bool_decide|]; eexists; (split; [done|]); lia. }
  destruct (reinsert_keeps l _ _ _ Hz) as (z' & ? & ?). exists z'. split; [done|lia].
Qed.

Lemma reinsert_source l m k z :
  foldl reinsert_event m l !! k = Some z → m !! k = Some z ∨ z ∈ l ∧ key_of z = k.
Proof.
  revert m. induction l as [|x l IH]; intros m; simpl; [by left|].
  intros [Hz|[? ?]]%IH; [|right; split; [by right|done]].
  rewrite reinsert_event_spec in Hz. case_decide; [|by left].
  destruct (m !! k) as [y|]; [case_bool_decide|]; simplify_eq; auto; right; (split; [by left|done]).
Qed.

(** A step that moves neither events nor batches. *)
Lemma inv_same s s' :
  ec_eventMap s' = ec_eventMap s → added s' = added s → (∀ b, b ∈ in_flight s' ↔ b ∈ in_flight s) →
  inv s → inv s'.
Proof.
  intros Hm Ha Hb [H1 H2 H3]. split.
  - intros k e. rewrite Hm, Ha. apply H1.
  - intros b Hin%Hb. rewrite Ha. by apply H2.
  - intros i e. rewrite Ha. intros Hi%H3. unfold kept, stands_for in *. rewrite Hm, Ha.
    destruct Hi as [?|(b & e' & Hin & ?)]; [by left|right; exists b, e'; by rewrite Hb].
Qed.

Section invariant.
Context `{RangeOrder}.

Lemma monotone_app l l' : monotone (l ++ l') → monotone l.
Proof. intros Hm i j e e' Hi Hj. by apply Hm; apply lookup_app_l_Some. Qed.

Lemma inv_AddEvent event s s' : AddEvent_store event s = Some s' → inv s → inv s'.
Proof.
  unfold AddEvent_store. destruct (unlocked s); [|done]. intros [= <-] [H1 H2 H3]. split; simpl.
  - intros k e [[<- <-]|[? Hk]]%lookup_insert_Some; [|destruct (H1 _ _ Hk)]; set_solver.
  - intros b Hb. destruct (H2 b Hb) as (? & ? & Hin). split_and!; [done..|]. set_solver.
  - assert (∀ e e', stands_for s e e' →
      stands_for (set_add (Some ADebounce) (set_added (added s ++ [event])
        (set_map (<[key_of event:=event]> (ec_eventMap s)) s))) e e') as Hs.
    { intros e e' [? Hle]. split; [done|]. simpl. intros Hm. by apply Hle, (monotone_app _ [event]). }
    intros i e Hi. destruct (decide (key_of e = key_of event)) as [Hk|Hk].
    + left. exists event. simpl. rewrite Hk, lookup_insert_eq. split; [done|]. split; [done|]. simpl.
      intros Hm. apply (Hm i (length (added s)) _ _ Hi); [by rewrite list_lookup_middle| |done].
      apply lookup_lt_Some in Hi. rewrite length_app in Hi. simpl in Hi. lia.
    + apply lookup_app_Some in Hi as [Hi|[? Hi]];
        [|apply list_lookup_singleton_Some in Hi as [_ ->]; done].
      destruct (H3 _ _ Hi) as [(e' & ? & ?)|(b & e' & ? & ? & ? & ?)].
      * left. exists e'. simpl. rewrite lookup_insert_ne by done. auto.
      * right. exists b, e'. auto.
Qed.

Lemma inv_collect f s s' : collectEventsIntoBatch f s = Some s' → inv s → inv s'.
Proof.
  unfold collectEventsIntoBatch. destruct (pc_of f s) eqn:Hpc; try done.
  destruct (unlocked s); [|done]. case_decide as Hsize; intros [= <-] Hinv.
  { revert Hinv. apply inv_same; [by destruct f..|]. intros b. destruct f; unfold in_flight; simpl in *; by rewrite Hpc. }
  destruct Hinv as [H1 H2 H3].
  set (sent := mkSent _ _). set (s' := set_pc _ _ _).
  assert (∀ b, b ∈ in_flight s' ↔ b = sent ∨ b ∈ in_flight s) as Hfl.
  { intros b. unfold s'. destruct f; unfold in_flight; simpl in *; rewrite Hpc; set_solver. }
  assert (∀ e, e ∈ sent_events sent ↔ ∃ k, ec_eventMap s !! k = Some e) as Hev.
  { intros e. unfold sent. simpl. rewrite list_elem_of_fmap. split.
    - intros ([k x] & -> & Hin%elem_of_range_map). by exists k.
    - intros [k Hk]. exists (k, e). by rewrite elem_of_range_map. }
  assert (added s' = added s) as Ha by by destruct f.
  split.
  - intros k e. by destruct f.
  - intros b [->|Hb]%Hfl.
    + split_and!.
      * intros Hnil. apply Hsize, map_size_empty_iff, map_empty. intros k.
        destruct (ec_eventMap s !! k) as [e|] eqn:Hk; [|done].
        assert (e ∈ sent_events sent) as He by (apply Hev; eauto). rewrite Hnil in He. by apply elem_of_nil in He.
      * unfold sent. simpl. rewrite <- list_fmap_compose.
        erewrite list_fmap_ext; [apply (NoDup_fst_range_map "collectEventsIntoBatch")|].
        intros i [k e] Hi%list_elem_of_lookup_2%elem_of_range_map. by destruct (H1 _ _ Hi).
      * intros e [k Hk]%Hev. rewrite Ha. by destruct (H1 _ _ Hk).
    + destruct (H2 b Hb) as (? & ? & ?). by rewrite Ha.
  - intros i e Hi. rewrite Ha in Hi. right. unfold stands_for. rewrite Ha.
    destruct (H3 i e Hi) as [(e' & Hk & Hs)|(b & e' & Hb & Hs)].
    + exists sent, e'. split_and!; [apply Hfl; by left|by apply lookup_lt_Some in Hi|apply Hev; eauto|apply Hs..].
    + exists b, e'. split; [apply Hfl; by right|done].
Qed.

Lemma inv_send f s s' : sendBatch f s = Some s' → inv s → inv s'.
Proof.
  unfold sendBatch. destruct (pc_of f s) as [| |sent|] eqn:Hpc; try done. intros [= <-].
  case_bool_decide; (apply inv_same; [by destruct f..|]); intros b'; destruct f; unfold in_flight; simpl in *;
    rewrite Hpc; simpl; clear; set_solver.
Qed.

Lemma inv_reinsert f s s' : sendBatch_default f s = Some s' → inv s → inv s'.
Proof.
  unfold sendBatch_default. destruct (pc_of f s) as [| | |sent] eqn:Hpc; try done.
  destruct (unlocked s); [|done]. intros [= <-] [H1 H2 H3]. set (s' := set_pc _ _ _).
  assert (∀ b, b ∈ in_flight s ↔ b = sent ∨ b ∈ in_flight s') as Hfl.
  { intros b. unfold s'. destruct f; unfold in_flight; simpl in *; rewrite Hpc; set_solver. }
  assert (added s' = added s) as Ha by by destruct f.
  assert (ec_eventMap s' = foldl reinsert_event (ec_eventMap s) (sent_events sent)) as Hm by by destruct f.
  destruct (H2 sent) as (_ & _ & Hsent); [apply Hfl; by left|].
  split.
  - intros k e. rewrite Hm, Ha. intros [?|[? ?]]%reinsert_source; eauto.
  - intros b Hb. rewrite Ha. apply H2, Hfl. by right.
  - assert (∀ e e' z, stands_for s e e' → ec_eventMap s' !! key_of e' = Some z →
      (ev_Generation e' ≤ ev_Generation z)%Z → ∃ z, ec_eventMap s' !! key_of e = Some z ∧ stands_for s' e z) as Hz.
    { intros e e' z [Hk Hle] Hl Hle'. exists z. rewrite <- Hk. split; [done|]. split.
      - rewrite <- Hk. rewrite Hm in Hl. apply reinsert_source in Hl as [Hl|[? ?]]; [|done]. by destruct (H1 _ _ Hl).
      - rewrite Ha. intros Hmon. specialize (Hle Hmon). lia. }
    intros i e. rewrite Ha. intros Hi. destruct (H3 _ _ Hi) as [(e' & Hk & Hs)|(b & e' & Hb & Hlt & Hin & Hs)].
    + left. destruct (reinsert_keeps (sent_events sent) _ _ _ Hk) as (z & Hl & ?).
      apply (Hz e e' z Hs); [|done]. rewrite Hm. by destruct Hs as [-> _].
    + apply Hfl in Hb as [->|Hb].
      * left. destruct (reinsert_adds _ (ec_eventMap s) _ Hin) as (z & ? & ?). apply (Hz e e' z Hs); [by rewrite Hm|done].
      * right. exists b, e'. unfold stands_for. by rewrite Ha.
Qed.

Lemma inv_exec a s s' : exec a s = Some s' → inv s → inv s'.
Proof.
  destruct a; simpl; intros Ha.
  - by eapply inv_AddEvent.
  - unfold AddEvent_Debounce in Ha. repeat case_match; simplify_eq. by apply inv_same.
  - unfold AddEvent_trigger in Ha. repeat case_match; simplify_eq; by apply inv_same.
  - unfold collector_debouncer in Ha. repeat case_match; simplify_eq. by apply inv_same.
  - unfold collector_debouncer in Ha. repeat case_match; simplify_eq. by apply inv_same.
  - unfold debouncer_callback in Ha. repeat case_match; simplify_eq. by apply inv_same.
  - unfold loop_receive in Ha. repeat case_match; simplify_eq. apply inv_same; [done..|].
    intros b. unfold in_flight. simpl. by rewrite H1.
  - unfold triggerReconcile in Ha. repeat case_match; simplify_eq; by apply inv_same.
  - unfold orchestrator_flush in Ha. repeat case_match; simplify_eq. apply inv_same; [done..|].
    intros b. unfold in_flight. simpl. by rewrite H1.
  - by eapply inv_collect.
  - by eapply inv_send.
  - by eapply inv_reinsert.
  - unfold orchestrator_receive in Ha. repeat case_match; simplify_eq. apply inv_same; [done..|].
    intros b'. unfold in_flight. simpl. rewrite H0, H1.
    rewrite ?elem_of_app, ?elem_of_cons, ?elem_of_app, ?elem_of_cons. tauto.
Qed.

Lemma inv_reachable n s : rtc step (NewEventCollector n) s → inv s.
Proof.
  assert (∀ s1 s2, rtc step s1 s2 → inv s1 → inv s2) as Hrtc.
  { induction 1 as [|s1 s2 s3 [a Ha] _ IH]; [done|]. intros ?. eapply IH, inv_exec; eauto. }
  intros Hs. apply (Hrtc _ _ Hs). split; simpl.
  - intros k e. by rewrite lookup_empty.
  - intros b ?%elem_of_nil. done.
  - intros i e. by rewrite lookup_nil.
Qed.
End invariant.

(** ** A flush is on its way *)

(** Something will wake the collector's loop, or it is about to collect. *)
Definition pending (s : EventCollector) : Prop :=
  awake (ec_eventDebouncer s) ∨ ec_batchTriggerCh s ≠ 0 ∨ pc_loop s = FCollect ∨ pc_add s = Some ADebounce.

(** The actions of the collector's and the debouncer's goroutines. *)
Definition collector_action (a : Action) : bool :=
  match a with
  | ActDebouncerReceive | ActDebouncerTick | ActDebouncerCallback | ActLoopReceive
  | ActCollect Loop | ActSend Loop | ActReinsert Loop => true
  | _ => false
  end.

(** What happens without another [AddEvent] and without a follow-up. *)
Definition no_request (a : Action) : bool :=
  match a with ActAdd _ | ActTriggerReconcile => false | _ => true end.

Section triggers.
Context `{RangeOrder}.

(** A step after which no goroutine has found the channel of batches full. *)
Definition step_room (s s' : EventCollector) : Prop := step s s' ∧ ∀ f b, pc_of f s' ≠ FReinsert b.

Definition steps_of (P : Action → bool) (s s' : EventCollector) : Prop := ∃ a, P a ∧ exec a s = Some s'.

Lemma pending_step a s s' :
  exec a s = Some s' → (∀ f b, pc_of f s ≠ FReinsert b) →
  (ec_eventMap s ≠ ∅ → pending s) → ec_eventMap s' ≠ ∅ → pending s'.
Proof.
  unfold pending. intros Ha Hroom Hs. destruct a as [event| | | | | | | | |f|f|f|]; simpl in Ha.
  - unfold AddEvent_store in Ha. repeat case_match; simplify_eq. simpl. tauto.
  - unfold AddEvent_Debounce in Ha. repeat case_match; simplify_eq. simpl. eauto with opc.
  - unfold AddEvent_trigger in Ha. repeat case_match; simplify_eq; simpl; intros Hm; specialize (Hs Hm); naive_solver.
  - unfold collector_debouncer in Ha. repeat case_match; simplify_eq. simpl. eauto with opc.
  - unfold collector_debouncer in Ha. repeat case_match; simplify_eq. simpl. eauto with opc.
  - unfold debouncer_callback in Ha. repeat case_match; simplify_eq. simpl. auto.
  - unfold loop_receive in Ha. repeat case_match; simplify_eq. simpl. tauto.
  - unfold triggerReconcile in Ha. repeat case_match; simplify_eq; simpl; tauto.
  - unfold orchestrator_flush in Ha. repeat case_match; simplify_eq. simpl. tauto.
  - unfold collectEventsIntoBatch in Ha. repeat case_match; simplify_eq; destruct f; simpl; try done;
      intros Hm; exfalso; by apply Hm, map_size_empty_iff.
  - unfold sendBatch in Ha. destruct f; simpl in Ha; repeat case_match; simplify_eq; simpl;
      intros Hm; specialize (Hs Hm); naive_solver.
  - unfold sendBatch_default in Ha. specialize (Hroom f).
    destruct (pc_of f s) as [| | |b]; try done. by destruct (Hroom b).
  - unfold orchestrator_receive in Ha. repeat case_match; simplify_eq. simpl. tauto.
Qed.

Lemma pending_reachable n s :
  rtc step_room (NewEventCollector n) s →
  (∀ f b, pc_of f s ≠ FReinsert b) ∧ (ec_eventMap s ≠ ∅ → pending s).
Proof.
  assert (∀ s1 s2, rtc step_room s1 s2 →
    (∀ f b, pc_of f s1 ≠ FReinsert b) ∧ (ec_eventMap s1 ≠ ∅ → pending s1) →
    (∀ f b, pc_of f s2 ≠ FReinsert b) ∧ (ec_eventMap s2 ≠ ∅ → pending s2)) as Hrtc.
  { induction 1 as [|s1 s2 s3 [[a Ha] Hr] _ IH]; [done|]. intros [? ?]. apply IH. split; [done|].
    by eapply pending_step. }
  intros Hs. apply (Hrtc _ _ Hs). split; [by intros []|done].
Qed.

Lemma loop_collects s :
  pc_loop s = FCollect → unlocked s →
  ∃ s', steps_of collector_action s s' ∧ ec_eventMap s' = ∅ ∧ added s' = added s.
Proof.
  intros Hpc Hu. destruct (decide (size (ec_eventMap s) = 0)) as [Hz|Hz].
  - exists (set_pc Loop FIdle s). split; [exists (ActCollect Loop); split; [done|]|].
    + simpl. unfold collectEventsIntoBatch. simpl. rewrite Hpc. destruct (unlocked s); [|done]. by rewrite decide_True.
    + split; [|done]. by apply map_size_empty_iff.
  - eexists. split; [exists (ActCollect Loop); split; [done|]|].
    + simpl. unfold collectEventsIntoBatch. simpl. rewrite Hpc. destruct (unlocked s); [|done].
      rewrite decide_False by done. done.
    + done.
Qed.

(** From a trigger, the loop flushes once it is idle. *)
Lemma trigger_collects s :
  ec_batchTriggerCh s ≠ 0 → pc_loop s = FIdle → unlocked s →
  ∃ s', rtc (steps_of collector_action) s s' ∧ ec_eventMap s' = ∅ ∧ added s' = added s.
Proof.
  intros Ht Hpc Hu. destruct (ec_batchTriggerCh s) as [|n] eqn:Hn; [done|].
  destruct (loop_collects (set_pc Loop FCollect (set_trigger n s))) as (s' & Hs' & ? & ?); [done..|].
  exists s'. split; [|done]. eapply rtc_l; [|by apply rtc_once]. exists ActLoopReceive. split; [done|].
  simpl. unfold loop_receive. by rewrite Hn, Hpc.
Qed.

(** The debouncer is in its callback. *)
Lemma calling_collects s :
  deb_calling (ec_eventDebouncer s) = true → ec_batchTriggerCh s < batchTriggerCap → pc_loop s = FIdle → unlocked s →
  ∃ s', rtc (steps_of collector_action) s s' ∧ ec_eventMap s' = ∅ ∧ added s' = added s.
Proof.
  intros Hc Ht Hpc Hu. destruct (debouncer_return (ec_eventDebouncer s)) as [d|] eqn:Hd;
    [|by unfold debouncer_return in Hd; rewrite Hc in Hd].
  destruct (trigger_collects (set_trigger (S (ec_batchTriggerCh s)) (set_debouncer d s))) as (s' & Hs' & ? & ?); [done..|].
  exists s'. split; [|done]. eapply rtc_l; [|exact Hs'].
  exists ActDebouncerCallback. split; [done|]. simpl. unfold debouncer_callback. rewrite Hd.
  by rewrite bool_decide_eq_true_2.
Qed.

Lemma debouncer_step f a s d :
  collector_action a → exec a = collector_debouncer f → f (ec_eventDebouncer s) = Some d →
  steps_of collector_action s (set_debouncer d s).
Proof. intros Ha He Hf. exists a. split; [done|]. rewrite He. unfold collector_debouncer. by rewrite Hf. Qed.

Lemma idle_collects s :
  pending s → pc_loop s = FIdle → ec_batchTriggerCh s < batchTriggerCap → unlocked s →
  ∃ s', rtc (steps_of collector_action) s s' ∧ ec_eventMap s' = ∅ ∧ added s' = added s.
Proof.
  intros [Hp|Hp] Hpc Ht Hu.
  - destruct (deb_calling (ec_eventDebouncer s)) eqn:Hc; [by apply calling_collects|].
    destruct (awake_cases _ Hp Hc) as [(d & Hd & Hcd)|(d1 & d2 & Hd1 & Hd2 & Hcd)].
    + destruct (calling_collects (set_debouncer d s)) as (s' & Hs' & ? & ?); [done..|].
      exists s'. split; [|done]. eapply rtc_l; [|exact Hs']. by eapply (debouncer_step _ ActDebouncerTick).
    + destruct (calling_collects (set_debouncer d2 s)) as (s' & Hs' & ? & ?); [done..|].
      exists s'. split; [|done]. eapply rtc_l; [by eapply (debouncer_step _ ActDebouncerReceive)|].
      eapply rtc_l; [|exact Hs']. by eapply (debouncer_step _ ActDebouncerTick (set_debouncer d1 s)).
  - apply trigger_collects; [|done|done].
    unfold unlocked in Hu. rewrite Hpc in Hp. destruct (pc_add s); [done|]. by destruct Hp as [?|[?|?]].
Qed.

Lemma flush_collects n s :
  rtc step_room (NewEventCollector n) s → ec_eventMap s ≠ ∅ → unlocked s →
  ec_batchTriggerCh s < batchTriggerCap → length (ec_batchReadyCh s) < batchReadyCap →
  ∃ s', rtc (steps_of collector_action) s s' ∧ ec_eventMap s' = ∅ ∧ added s' = added s.
Proof.
  intros Hs Hm Hu Ht Hr. destruct (pending_reachable _ _ Hs) as [Hroom Hp]. specialize (Hp Hm).
  destruct (pc_loop s) as [| |b|b] eqn:Hpc.
  - by apply idle_collects.
  - destruct (loop_collects s Hpc Hu) as (s' & ? & ?). exists s'. split; [by apply rtc_once|done].
  - edestruct (idle_collects (set_pc Loop FIdle (set_ready (ec_batchReadyCh s ++ [b]) s)))
      as (s' & Hs' & ? & Hadd); [|done..|].
    { unfold pending in *. simpl. rewrite Hpc in Hp. naive_solver. }
    exists s'. split; [|split; [done|exact Hadd]]. eapply rtc_l; [|exact Hs'].
    exists (ActSend Loop). split; [done|]. simpl. unfold sendBatch. simpl. rewrite Hpc.
    by rewrite bool_decide_eq_true_2.
  - by destruct (Hroom Loop b).
Qed.
End triggers.

(** ** Properties *)

Section properties.
Context `{RangeOrder}.

(** No added event is lost: in every reachable state of the collector, the debouncer, the loop
    and the orchestrator, the [i]-th added event (or a later one of the same resource, no older when
    a resource's events come in order of generation) is pending in the map, or is in a batch
    collected after it was added that a goroutine holds, that waits in the channel or that the
    orchestrator has received.  A full channel loses nothing. *)
Theorem no_event_lost (n : Z) (s : EventCollector) (i : nat) (e : EventInfo) :
  rtc step (NewEventCollector n) s → added s !! i = Some e → kept s i e.
Proof. intros Hs. by apply inv_kept, (inv_reachable n). Qed.

(** Every batch that reaches the orchestrator is non-empty, names each resource once and holds
    only events that were added. *)
Theorem batches_well_formed (n : Z) (s : EventCollector) (b : Sent) :
  rtc step (NewEventCollector n) s → b ∈ delivered s →
  sent_events b ≠ [] ∧ NoDup (key_of <$> sent_events b) ∧ ∀ e, e ∈ sent_events b → e ∈ added s.
Proof.
  intros Hs Hb. apply (inv_batches _ (inv_reachable n s Hs)). unfold in_flight.
  rewrite !elem_of_app. tauto.
Qed.

(** C37. As long as the channel of batches was never found full, pending events are on their way:
    whenever the map is non-empty, no [AddEvent] holds the lock and the two channels have room, the
    debouncer and the collector's loop can empty the map into a batch without any further request. *)
Theorem pending_events_get_flushed (n : Z) (s : EventCollector) :
  rtc step_room (NewEventCollector n) s → ec_eventMap s ≠ ∅ → unlocked s →
  ec_batchTriggerCh s < batchTriggerCap → length (ec_batchReadyCh s) < batchReadyCap →
  ∃ s', rtc (steps_of collector_action) s s' ∧ ec_eventMap s' = ∅ ∧ added s' = added s.
Proof. apply flush_collects. Qed.

Lemma stuck_without_request s :
  ¬ awake (ec_eventDebouncer s) → ec_batchTriggerCh s = 0 →
  pc_loop s = FIdle → pc_orchestrator s = FIdle → pc_add s = None → so_triggerCh s = 0 →
  ∀ s', rtc (steps_of no_request) s s' → ec_eventMap s' = ec_eventMap s.
Proof.
  intros (Hr & Ht & Hc)%asleep_blocked H4 H5 H6 H7 H8 s' Hs.
  induction Hs as [|s1 s2 s3 (a & Hp & Ha) _ IH]; [done|].
  destruct a as [event| | | | | | | | |f|f|f|]; try done; try destruct f; simpl in Ha;
    unfold AddEvent_Debounce, AddEvent_trigger, collector_debouncer, debouncer_callback, loop_receive,
      orchestrator_flush, collectEventsIntoBatch, sendBatch, sendBatch_default, orchestrator_receive in Ha;
    simpl in Ha; rewrite ?Hr, ?Ht, ?Hc, ?H4, ?H5, ?H6, ?H7, ?H8 in Ha; try done.
  destruct (ec_batchReadyCh s1); [done|]. simplify_eq. by apply IH.
Qed.

(** The lock is held by an [AddEvent] that waits for room in the trigger channel, whose only
    receiver waits for the lock. *)
Definition deadlocked (s : EventCollector) : Prop :=
  pc_add s = Some ATrigger ∧ batchTriggerCap ≤ ec_batchTriggerCh s ∧
  (ec_maxBatchSize s ≤ Z.of_nat (size (ec_eventMap s)))%Z ∧ pc_loop s = FCollect.

Definition deadlockedb (s : EventCollector) : bool :=
  match pc_add s, pc_loop s with
  | Some ATrigger, FCollect =>
      (batchTriggerCap <=? ec_batchTriggerCh s) && (ec_maxBatchSize s <=? Z.of_nat (size (ec_eventMap s)))%Z
  | _, _ => false
  end.

Lemma deadlockedb_sound s : deadlockedb s = true → deadlocked s.
Proof.
  unfold deadlockedb, deadlocked. destruct (pc_add s) as [[]|]; try done. destruct (pc_loop s); try done.
  rewrite andb_true_iff, Nat.leb_le, Z.leb_le. tauto.
Qed.

Lemma deadlocked_step a s s' : exec a s = Some s' → deadlocked s → deadlocked s'.
Proof.
  unfold deadlocked. intros Ha (H1 & H2 & H3 & H4).
  assert (unlocked s = false) as Hu by (unfold unlocked; by rewrite H1).
  destruct a as [event| | | | | | | | |f|f|f|]; simpl in Ha.
  - unfold AddEvent_store in Ha. by rewrite Hu in Ha.
  - unfold AddEvent_Debounce in Ha. by rewrite H1 in Ha.
  - unfold AddEvent_trigger in Ha. rewrite H1, bool_decide_eq_true_2, bool_decide_eq_false_2 in Ha by (done || lia). done.
  - unfold collector_debouncer in Ha. destruct (debouncer_receive _); [|done]. by injection Ha as <-.
  - unfold collector_debouncer in Ha. destruct (debouncer_tick _); [|done]. by injection Ha as <-.
  - unfold debouncer_callback in Ha. destruct (debouncer_return _); [|done].
    rewrite (bool_decide_eq_false_2 (_ < _)) in Ha by lia. done.
  - unfold loop_receive in Ha. rewrite H4 in Ha. by destruct (ec_batchTriggerCh s).
  - unfold triggerReconcile in Ha. injection Ha as <-. by case_bool_decide.
  - unfold orchestrator_flush in Ha. destruct (so_triggerCh s), (pc_orchestrator s); try done. by injection Ha as <-.
  - unfold collectEventsIntoBatch in Ha. rewrite Hu in Ha. by destruct (pc_of f s).
  - unfold sendBatch in Ha. destruct f; simpl in Ha; [by rewrite H4 in Ha|].
    destruct (pc_orchestrator s); try done. injection Ha as <-. by case_bool_decide.
  - unfold sendBatch_default in Ha. rewrite Hu in Ha. by destruct (pc_of f s).
  - unfold orchestrator_receive in Ha. destruct (pc_orchestrator s), (ec_batchReadyCh s); try done. by injection Ha as <-.
Qed.

Lemma deadlocked_forever s s' :
  rtc step s s' → deadlocked s → pc_add s' = Some ATrigger ∧ pc_loop s' = FCollect.
Proof.
  induction 1 as [s|s1 s2 s3 [a Ha] _ IH]; [by intros (? & _ & _ & ?)|].
  intros ?. by eapply IH, deadlocked_step.
Qed.
End properties.

(** ** Examples *)

Module CollectorExamples.
Import ResourceExamples PipelineExamples.
#[local] Existing Instance range_forward.

Definition event (r : WSAResource) : EventInfo := NewCreateOrUpdateEventInfo r 0.
Definition app_event : EventInfo := event (wsaAdapter app_wsa).
Definition admin_event : EventInfo := event (clusterWSAAdapter admin_cwsa).

(** One event goes through the debouncer and reaches the channel. *)
Definition one_batch (e : EventInfo) : list Action :=
  [ActAdd e; ActDebounce; ActTrigger; ActDebouncerReceive; ActDebouncerTick; ActDebouncerCallback;
   ActLoopReceive; ActCollect Loop; ActSend Loop].

Definition after (l : list Action) : EventCollector := default (NewEventCollector 100) (exec_all l (NewEventCollector 100)).

Lemma after_rtc l : exec_all l (NewEventCollector 100) ≠ None → rtc step (NewEventCollector 100) (after l).
Proof.
  intros Hl. unfold after. destruct (exec_all l _) as [s|] eqn:Hs; [|done]. by eapply exec_all_rtc.
Defined.

Definition two_events : EventCollector := after (one_batch app_event ++ [ActOrchestratorReceive; ActAdd admin_event]).

Lemma no_event_lost_witness : kept two_events 0 app_event ∧ kept two_events 1 admin_event.
Proof.
  assert (rtc step (NewEventCollector 100) two_events) as Hs by (apply after_rtc; by vm_compute).
  split; apply (no_event_lost 100 two_events _ _ Hs); by vm_compute.
Defined.

Lemma batches_well_formed_witness : NoDup (key_of <$> sent_events (mkSent 1 [app_event])).
Proof.
  assert (rtc step (NewEventCollector 100) two_events) as Hs by (apply after_rtc; by vm_compute).
  assert (delivered two_events = [mkSent 1 [app_event]]) as Hd by by vm_compute.
  apply (batches_well_formed 100 two_events (mkSent 1 [app_event]) Hs). rewrite Hd. apply list_elem_of_here.
Defined.

Definition has_room (s : EventCollector) : bool :=
  match pc_loop s, pc_orchestrator s with FReinsert _, _ | _, FReinsert _ => false | _, _ => true end.

Fixpoint all_have_room (l : list Action) (s : EventCollector) : bool :=
  match l with
  | [] => true
  | a :: l => match exec a s with Some s' => has_room s' && all_have_room l s' | None => false end
  end.

Lemma after_room l :
  all_have_room l (NewEventCollector 100) = true → rtc step_room (NewEventCollector 100) (after l).
Proof.
  unfold after. generalize (NewEventCollector 100) at 1 2 4. induction l as [|a l IH]; intros s; simpl; [done|].
  destruct (exec a s) as [s1|] eqn:Ha; [|done]. intros [Hr ?]%andb_true_iff. eapply rtc_l; [|by apply IH].
  split; [by exists a|]. unfold has_room in Hr.
  intros [] b Hb; simpl in Hb; rewrite Hb in Hr; [done|by destruct (pc_loop s1)].
Defined.

Definition one_event : EventCollector := after [ActAdd app_event; ActDebounce; ActTrigger].

Lemma pending_events_get_flushed_witness :
  ∃ s', rtc (steps_of collector_action) one_event s' ∧ ec_eventMap s' = ∅ ∧ added s' = added one_event.
Proof.
  apply (pending_events_get_flushed 100).
  - apply after_room. by vm_compute.
  - intros Hm. assert (size (ec_eventMap one_event) = 1) as Hone by by vm_compute. by rewrite Hm in Hone.
  - by vm_compute.
  - by apply Nat.ltb_lt.
  - by apply Nat.ltb_lt.
Defined.

(** Ten batches fill the channel; the eleventh goes back into the map. *)
Definition stranded : EventCollector :=
  after (mjoin (replicate 11 (one_batch app_event)) ++ [ActReinsert Loop]).

(** When the channel of batches is full the events go back into the map, and nothing retries
    them: the debouncer's ticker is stopped and no trigger is sent, so although the orchestrator
    goes on to receive every waiting batch, no further step of the program but another [AddEvent]
    (or a follow-up request, which no stage makes) ever moves them. *)
Theorem stranded_events :
  rtc step (NewEventCollector 100) stranded ∧ ec_eventMap stranded !! key_of app_event = Some app_event ∧
  ∀ s', rtc (steps_of no_request) stranded s' → ec_eventMap s' !! key_of app_event = Some app_event.
Proof.
  assert (ec_eventMap stranded !! key_of app_event = Some app_event) as Hm by by vm_compute.
  split; [apply after_rtc; by vm_compute|]. split; [done|].
  assert (ec_eventDebouncer stranded = NewDebouncer) as Hd by by vm_compute.
  assert (¬ awake (ec_eventDebouncer stranded)) as Ha by (rewrite Hd; apply NewDebouncer_asleep).
  intros s' Hs. rewrite <-Hm. f_equal. revert s' Hs. apply (stuck_without_request stranded Ha); by vm_compute.
Qed.

(** A collector that flushes every event: the loop is about to collect when 1025 more events come in. *)
Definition add_one : list Action := [ActAdd app_event; ActDebounce; ActDebouncerReceive; ActTrigger].
Definition overrun : list Action :=
  add_one ++ [ActLoopReceive] ++ mjoin (replicate 1024 add_one) ++ [ActAdd app_event; ActDebounce].

(** The trigger channel bounds the events: when the loop is about to take the lock while its
    buffer of 1024 triggers is full, the next [AddEvent] that finds a full batch waits for room
    with the lock held, the loop waits for the lock, and no step of the program ends this. *)
Theorem trigger_deadlock :
  ∃ s, rtc step (NewEventCollector 1) s ∧
    ∀ s', rtc step s s' → pc_add s' = Some ATrigger ∧ pc_loop s' = FCollect.
Proof.
  assert (match exec_all overrun (NewEventCollector 1) with Some s => deadlockedb s | None => false end = true)
    as Hd by by vm_compute.
  destruct (exec_all overrun (NewEventCollector 1)) as [s|] eqn:Hs; [|done]. apply deadlockedb_sound in Hd.
  exists s. split; [exact (exec_all_rtc _ _ _ Hs)|]. intros s' Hs'. exact (deadlocked_forever _ _ Hs' Hd).
Qed.
End CollectorExamples.
