(* ===== verification/Retry.v ===== *)
(** * Retrying batches

    The queue of failed batches (src/internal/reconciliation/batch_queue.go) and the orchestrator's
    handling of a batch's outcome: the retry, the permanent failure and the events put back
    (src/internal/reconciliation/orchestrator.go, processBatchWithRetry to requeueFailedResources).  These last calls of [AddEvent] may wait, and other
    goroutines run meanwhile: the handling of a batch ends with them as a resumption ([Adding]). *)

From Stdlib Require Import ZArith.
From stdpp Require Import pretty.
From S2P Require Import Prelude GoLib Api Scopes ServiceAccounts Access Cluster Resources Engine Pipeline Collector.

(** ** The rate limiting queue

    [workqueue.TypedRateLimitingInterface] of client-go, with string items.  [q_Get] is [None] while it
    would block; its item is [None] once the queue is shut down. *)
Class RateLimitingQueue := {
  Queue : Type;
  q_new : Queue;
  q_Add : Queue → string → Queue;
  q_AddRateLimited : Queue → string → Queue;
  q_Get : Queue → option (option string * Queue);
  q_Done : Queue → string → Queue;
  q_Forget : Queue → string → Queue;
  q_NumRequeues : Queue → string → Z;
  q_ShutDown : Queue → Queue
}.

(** What its documentation says of the count of requeues: rate limited adds count, [Forget] resets. *)
Class RateLimitingQueueLaws `{RateLimitingQueue} : Prop := {
  requeues_new id : q_NumRequeues q_new id = 0%Z;
  requeues_AddRateLimited q id id' :
    q_NumRequeues (q_AddRateLimited q id) id' = (q_NumRequeues q id' + if decide (id' = id) then 1 else 0)%Z;
  requeues_Forget q id id' :
    q_NumRequeues (q_Forget q id) id' = if decide (id' = id) then 0%Z else q_NumRequeues q id';
  requeues_Add q id id' : q_NumRequeues (q_Add q id) id' = q_NumRequeues q id';
  requeues_Done q id id' : q_NumRequeues (q_Done q id) id' = q_NumRequeues q id';
  requeues_Get q item q' id : q_Get q = Some (item, q') → q_NumRequeues q' id = q_NumRequeues q id
}.

(** A queue without delays: the items that wait, those being processed, those to be processed again,
    and the counts. *)
Record SimpleQueue := mkSimpleQueue {
  sq_waiting : list string;
  sq_processing : gset string;
  sq_again : gset string;
  sq_failures : gmap string Z;
  sq_down : bool
}.

Definition simple_add (q : SimpleQueue) (id : string) : SimpleQueue :=
  if sq_down q then q
  else if decide (id ∈ sq_waiting q) then q
  else if decide (id ∈ sq_processing q)
  then mkSimpleQueue (sq_waiting q) (sq_processing q) ({[id]} ∪ sq_again q) (sq_failures q) false
  else mkSimpleQueue (sq_waiting q ++ [id]) (sq_processing q) (sq_again q) (sq_failures q) false.

Definition simple_count (q : SimpleQueue) (id : string) : Z := default 0%Z (sq_failures q !! id).

Definition reference_queue : RateLimitingQueue := {|
  Queue := SimpleQueue;
  q_new := mkSimpleQueue [] ∅ ∅ ∅ false;
  q_Add := simple_add;
  q_AddRateLimited q id :=
    simple_add (mkSimpleQueue (sq_waiting q) (sq_processing q) (sq_again q)
      (<[id := (simple_count q id + 1)%Z]> (sq_failures q)) (sq_down q)) id;
  q_Get q :=
    match sq_waiting q with
    | [] => if sq_down q then Some (None, q) else None
    | id :: l => Some (Some id, mkSimpleQueue l ({[id]} ∪ sq_processing q) (sq_again q) (sq_failures q) (sq_down q))
    end;
  q_Done q id :=
    mkSimpleQueue (sq_waiting q ++ (if decide (id ∈ sq_again q) then [id] else [])) (sq_processing q ∖ {[id]})
      (sq_again q ∖ {[id]}) (sq_failures q) (sq_down q);
  q_Forget q id :=
    mkSimpleQueue (sq_waiting q) (sq_processing q) (sq_again q) (delete id (sq_failures q)) (sq_down q);
  q_NumRequeues := simple_count;
  q_ShutDown q := mkSimpleQueue (sq_waiting q) (sq_processing q) (sq_again q) (sq_failures q) true
|}.

Lemma simple_count_add q id id' : simple_count (simple_add q id) id' = simple_count q id'.
Proof. unfold simple_add, simple_count. by destruct (sq_down q); repeat case_decide. Qed.

Lemma reference_queue_laws : @RateLimitingQueueLaws reference_queue.
Proof.
  split; simpl.
  - intros id. unfold simple_count. simpl. by rewrite lookup_empty.
  - intros q id id'. rewrite simple_count_add. unfold simple_count. simpl.
    case_decide; subst; [by rewrite lookup_insert_eq|rewrite lookup_insert_ne by done; lia].
  - intros q id id'. unfold simple_count. simpl.
    case_decide; subst; [by rewrite lookup_delete_eq|by rewrite lookup_delete_ne].
  - intros q id id'. apply simple_count_add.
  - done.
  - intros q item q' id Hget. destruct (sq_waiting q); [destruct (sq_down q)|]; by simplify_eq.
Qed.

(** ** The batch queue *)

Section batch_queue.
Context `{RateLimitingQueue}.

Record batchQueue := mkBatchQueue {
  bq_queue : Queue;
  bq_batches : gmap string Batch
}.

Definition NewBatchQueue : batchQueue := mkBatchQueue q_new ∅.

(** The argument may be nil. *)
Definition bq_Add (q : batchQueue) (batch : option Batch) : batchQueue :=
  match batch with
  | None => q
  | Some batch => mkBatchQueue (q_Add (bq_queue q) (b_ID batch)) (<[b_ID batch := batch]> (bq_batches q))
  end.

Definition bq_AddRateLimited (q : batchQueue) (batch : option Batch) : batchQueue :=
  match batch with
  | None => q
  | Some batch => mkBatchQueue (q_AddRateLimited (bq_queue q) (b_ID batch)) (<[b_ID batch := batch]> (bq_batches q))
  end.

(** The batch (nil when the identifier is unknown) and whether the queue is shut down; [None] while
    it blocks. *)
Definition bq_Get (q : batchQueue) : option (option Batch * bool * batchQueue) :=
  match q_Get (bq_queue q) with
  | None => None
  | Some (None, queue) => Some (None, true, mkBatchQueue queue (bq_batches q))
  | Some (Some id, queue) =>
      match bq_batches q !! id with
      | None => Some (None, false, mkBatchQueue (q_Forget (q_Done queue id) id) (bq_batches q))
      | Some batch => Some (Some batch, false, mkBatchQueue queue (bq_batches q))
      end
  end.

Definition bq_Done (q : batchQueue) (batch : option Batch) : batchQueue :=
  match batch with
  | None => q
  | Some batch => mkBatchQueue (q_Done (bq_queue q) (b_ID batch)) (bq_batches q)
  end.

Definition bq_Forget (q : batchQueue) (batch : option Batch) : batchQueue :=
  match batch with
  | None => q
  | Some batch => mkBatchQueue (q_Forget (bq_queue q) (b_ID batch)) (delete (b_ID batch) (bq_batches q))
  end.

Definition bq_NumRequeues (q : batchQueue) (batch : option Batch) : Z :=
  match batch with None => 0 | Some batch => q_NumRequeues (bq_queue q) (b_ID batch) end.

Definition bq_ShutDown (q : batchQueue) : batchQueue :=
  mkBatchQueue (q_ShutDown (bq_queue q)) (bq_batches q).
End batch_queue.

(** ** What happens to a batch *)

(** A computation that calls the collector's [AddEvent], which takes a lock and sends to channels and may
    wait for ever: it has returned, or it is at a call, and goes on in whatever world there is when the
    call returns, if it does. *)
Inductive Adding (W : Type) :=
| Returned
| CallAddEvent (event : EventInfo) (continue : W → W * Adding W).
Arguments Returned {W}.
Arguments CallAddEvent {W} _ _.

Section retry.
Context `{Client W} `{!GCTrackerInterface W} `{!EventRecorder W} `{SchemeInterface} `{ExpirableLRU}
  `{RangeOrder} `{ThirdParty} `{RateLimitingQueue}.

(** Reads the current version of a resource: an empty object of its kind is filled by the client. *)
Definition fetch_fresh (res : WSAResource) : M W (Or WSAResource) :=
  let key := GetNamespacedName res in
  if IsClusterScoped res
  then let* r := client_GetCWSA key in
       ret (match r with inl err => inl err | inr o => inr (NewClusterWSAResource o) end)
  else let* r := client_GetWSA key in
       ret (match r with inl err => inl err | inr o => inr (NewWSAResource o) end).

(** The loop; each resource is read after the call for the one before it has returned. *)
Fixpoint requeue_loop (now : Z) (resources : list WSAResource) : M W (Adding W) :=
  match resources with
  | [] => ret Returned
  | res :: resources =>
      let* r := fetch_fresh res in
      match r with
      | inl _ => requeue_loop now resources
      | inr fresh => ret (CallAddEvent (NewEventInfo fresh EventTypeUpdate now) (requeue_loop now resources))
      end
  end.

Definition requeueFailedResources (now : Z) (batch : Batch) : M W (Adding W) :=
  requeue_loop now (batch_resources batch).

(** The engine is left as it is when the first event is added, or at the end. *)
Definition handlePermanentFailure (so : StageOrchestrator) (engine : InMemoryEngine) (now : Z) (batch : Batch)
    (retryCount : Z) (err : error) : M W (InMemoryEngine * Adding W) :=
  let* _ := emitEvent so batch "Warning" "ReconcileFailed"
    ("Permanent failure after " +:+ pretty retryCount +:+ " retries: " +:+ error_Error err +:+
     " (batch " +:+ b_ID batch +:+ ")") in
  let* (engine, rebuildErr) := RebuildStateFromCluster engine in
  match rebuildErr with
  | Some _ => ret (engine, Returned)
  | None => let* adding := requeueFailedResources now batch in ret (engine, adding)
  end.

(** Up to the first call of [AddEvent], or to the end.  The last result is a panic of a stage, which ends
    the program. *)
Definition processBatchWithRetry (so : StageOrchestrator) (engine : InMemoryEngine) (queue : batchQueue) (now : Z)
    (batch : Batch) : M W (InMemoryEngine * batchQueue * Adding W * Outcome) :=
  let* (engine, batch, res, _) := processBatch so engine now batch in
  match res with
  | RPanic => ret (engine, queue, Returned, RPanic)
  | RErr err =>
      let batch := set_LastError err batch in
      let retryCount := (bq_NumRequeues queue (Some batch) + 1)%Z in
      if (retryCount <=? so_maxRetries so)%Z then
        let* _ := emitEvent so batch "Warning" "RetryQueued"
          ("Queued for retry " +:+ pretty retryCount +:+ "/" +:+ pretty (so_maxRetries so) +:+ ": " +:+
           error_Error err) in
        ret (engine, bq_AddRateLimited queue (Some batch), Returned, ROk ())
      else
        let queue := bq_Forget queue (Some batch) in
        let* (engine, adding) := handlePermanentFailure so engine now batch retryCount err in
        ret (engine, queue, adding, ROk ())
  | ROk _ => ret (engine, bq_Forget queue (Some batch), Returned, ROk ())
  end.

(** One turn of the loop of the retry goroutine, up to its first call of [AddEvent] or to its end, when
    [Done] is called for the batch. *)
Inductive Turn :=
| Blocked
| Returns
| Continues (engine : InMemoryEngine) (queue : batchQueue) (adding : Adding W) (handled : option Batch) (res : Outcome).

Definition processRetryQueue (so : StageOrchestrator) (engine : InMemoryEngine) (queue : batchQueue) (now : Z) :
    M W Turn :=
  match bq_Get queue with
  | None => ret Blocked
  | Some (_, true, _) => ret Returns
  | Some (None, false, queue) => ret (Continues engine queue Returned None (ROk ()))
  | Some (Some batch, false, queue) =>
      let* (engine, queue, adding, res) := processBatchWithRetry so engine queue now batch in
      ret (Continues engine queue adding (Some batch) res)
  end.
End retry.

(** ** Properties *)

Section retry_correct.
Context `{EventRecorderLaws W} `{SchemeInterface} `{ExpirableLRU} `{RangeOrder} `{ThirdPartyLaws}
  `{RateLimitingQueueLaws}.
Implicit Types (so : StageOrchestrator) (e : InMemoryEngine) (b : Batch) (q : batchQueue) (id : string).

(** The stages leave a part of a batch alone. *)
Definition stages_keep {A} (f : Batch → A) (stages : list Stage) : Prop :=
  Forall (λ stage, ∀ e now b w, f (stage_Execute stage e now b w).2.1.2 = f b) stages.

(** The identifier. *)
Definition stages_keep_ID : list Stage → Prop := stages_keep b_ID.

(** The keys of the resources. *)
Definition batch_keys b : list NamespacedName := GetNamespacedName <$> batch_resources b.

Lemma same_batch_ID b b' : same_batch b b' → b_ID b' = b_ID b.
Proof. by intros (? & _). Qed.
Lemma same_batch_keys b b' : same_batch b b' → batch_keys b' = batch_keys b.
Proof. by intros (_ & _ & _ & Hp%patched_keys & _). Qed.

Lemma PlanningStage_ID e now b w : b_ID (PlanningStage_Execute e now b w).2.1.2 = b_ID b.
Proof.
  unfold PlanningStage_Execute. unfold bind at 1. destruct (getAllResources w) as [w1 [err|R]]; [done|].
  unfold bind at 1. by destruct (GetOrDiscoverTargetNamespaces e now w1) as [w2 [e2 [tns|err|]]].
Qed.

Lemma ExecutionStage_batch e now b w : (ExecutionStage_Execute e now b w).2.1.2 = b.
Proof.
  unfold ExecutionStage_Execute. destruct (b_Plan b) as [plan|]; [|done]. cbv zeta. case_decide; [done|].
  unfold bind at 1.
  match goal with |- context [match ?m w with _ => _ end] => destruct (m w) as [w1 [err|]]; [done|] end.
  unfold bind. by destruct (garbageCollect _ _ _ _ w1) as [w2 [err|]].
Qed.

Lemma staging_stages_keep_ID : stages_keep_ID staging_stages.
Proof.
  repeat constructor; cbn [stage_Execute]; intros e now b w.
  - apply PlanningStage_ID.
  - destruct (ValidationStage_Execute e now b w) as [w' [[e' b'] res]] eqn:Hv.
    apply ValidationStage_spec in Hv as (_ & _ & ? & _). done.
  - by rewrite ExecutionStage_batch.
Qed.

Lemma PlanningStage_keys e now b w : batch_keys (PlanningStage_Execute e now b w).2.1.2 = batch_keys b.
Proof.
  destruct (PlanningStage_Execute e now b w) as [w' [[e' b'] res]] eqn:Hp.
  by apply PlanningStage_spec in Hp as (_ & _ & _ & ?).
Qed.

Lemma staging_stages_keep_keys : stages_keep batch_keys staging_stages.
Proof.
  repeat constructor; cbn [stage_Execute]; intros e now b w.
  - apply PlanningStage_keys.
  - destruct (ValidationStage_Execute e now b w) as [w' [[e' b'] res]] eqn:Hv.
    apply ValidationStage_spec in Hv as (_ & _ & ?). by apply same_batch_keys.
  - by rewrite ExecutionStage_batch.
Qed.

Section kept_part.
Context {A : Type} (f : Batch → A) (Hf : ∀ b b', same_batch b b' → f b' = f b).

Lemma run_stages_keep so stages e now b w :
  stages_keep f stages → f (run_stages so stages e now b w).2.1.2 = f b.
Proof.
  intros Hkeep. revert e b w. induction Hkeep as [|stage stages Hst _ IH]; intros e b w; [done|].
  simpl. unfold bind at 1.
  destruct (updateStageStatus b _ _ _ w) as [w1 b1] eqn:H1'. apply updateStageStatus_spec in H1' as [_ Hb1%Hf].
  unfold bind at 1. destruct (emitEvent _ _ _ _ _ w1) as [w2 []].
  unfold bind at 1. pose proof (Hst e now b1 w2) as Hb2.
  destruct (stage_Execute stage e now b1 w2) as [w3 [[e3 b3] out]]. simpl in Hb2.
  destruct out as [[]|err|].
  - unfold bind at 1. destruct (updateStageStatus b3 _ _ _ w3) as [w4 b4] eqn:H4'.
    apply updateStageStatus_spec in H4' as [_ Hb4%Hf].
    unfold bind at 1. destruct (time_Since w4) as [w5 since]. unfold bind at 1.
    destruct (emitEvent _ _ _ _ _ w5) as [w6 []]. rewrite IH. congruence.
  - unfold bind at 1. destruct (updateStageStatus b3 _ _ _ w3) as [w4 b4] eqn:H4'.
    apply updateStageStatus_spec in H4' as [_ Hb4%Hf].
    unfold bind. destruct (emitEvent _ _ _ _ _ w4) as [w5 []]. simpl. congruence.
  - simpl. congruence.
Qed.

Lemma processBatch_keep so e now b w :
  stages_keep f (so_stages so) → f (processBatch so e now b w).2.1.1.2 = f b.
Proof.
  intros Hkeep. unfold processBatch. case_decide; [done|]. unfold bind at 1.
  pose proof (run_stages_keep so (so_stages so) e now b w Hkeep) as Hb1.
  destruct (run_stages so (so_stages so) e now b w) as [w1 [[e1 b1] [[]|[n err]|]]]; simpl in Hb1; [| |done].
  - unfold bind at 1. destruct (updateFinalConditions b1 "" None w1) as [w2 b2] eqn:Hc.
    apply updateConditions_spec in Hc as [_ Hb2%Hf].
    unfold bind. destruct (emitReconcileEvents so b2 w2) as [w3 []]. simpl. congruence.
  - unfold bind. destruct (updateFinalConditions b1 n (Some err) w1) as [w2 b2] eqn:Hc.
    unfold updateFinalConditions in Hc. case_decide; apply updateConditions_spec in Hc as [_ Hb2%Hf]; simpl; congruence.
Qed.
End kept_part.

Lemma processBatch_ID so e now b w :
  stages_keep_ID (so_stages so) → b_ID (processBatch so e now b w).2.1.1.2 = b_ID b.
Proof. apply processBatch_keep, same_batch_ID. Qed.

(** The only operations on the queue are on the batch itself. *)
Lemma processBatchWithRetry_queue so e q now b w w' e' q' adding out :
  stages_keep_ID (so_stages so) →
  processBatchWithRetry so e q now b w = (w', (e', q', adding, out)) →
  q' = q ∨ ∃ b', b_ID b' = b_ID b ∧ (q' = bq_AddRateLimited q (Some b') ∨ q' = bq_Forget q (Some b')).
Proof.
  intros Hkeep. pose proof (processBatch_ID so e now b w Hkeep) as Hid. unfold processBatchWithRetry.
  unfold bind at 1. destruct (processBatch so e now b w) as [w1 [[[e1 b1] res] f]]. simpl in Hid.
  destruct res as [[]|err|]; unfold ret.
  - intros [= <- <- <- <- <-]. right. exists b1. auto.
  - cbv zeta. intros Hrun. right. exists (set_LastError err b1). split; [done|]. revert Hrun. destruct (_ <=? _)%Z; unfold bind.
    + destruct (emitEvent _ _ _ _ _ w1) as [w2 []]. intros [= <- <- <- <- <-]. by left.
    + destruct (handlePermanentFailure _ _ _ _ _ _ w1) as [w2 [e2 adding2]]. intros [= <- <- <- <- <-]. by right.
  - intros [= <- <- <- <- <-]. by left.
Qed.

(** The batch is out of the queue and its count is reset. *)
Definition forgotten q id : Prop := bq_batches q !! id = None ∧ q_NumRequeues (bq_queue q) id = 0%Z.

Lemma bq_Forget_spec q b : forgotten (bq_Forget q (Some b)) (b_ID b).
Proof. split; simpl; [by rewrite lookup_delete_eq|by rewrite requeues_Forget, decide_True]. Qed.

Lemma processBatchWithRetry_spec so e q now b w :
  stages_keep_ID (so_stages so) →
  let id := b_ID b in
  let retries := q_NumRequeues (bq_queue q) id in
  let '(w1, (e1, b1, res, _)) := processBatch so e now b w in
  let '(w', (e', q', adding, out)) := processBatchWithRetry so e q now b w in
  match res with
  | ROk _ => out = ROk () ∧ e' = e1 ∧ adding = Returned ∧ forgotten q' id
  | RErr err =>
      out = ROk () ∧
      ((retries < so_maxRetries so)%Z ∧ e' = e1 ∧ adding = Returned ∧
         bq_batches q' !! id = Some (set_LastError err b1) ∧
         q_NumRequeues (bq_queue q') id = (retries + 1)%Z ∨
       (so_maxRetries so ≤ retries)%Z ∧ forgotten q' id ∧
         ∃ w2, (RebuildStateFromCluster e1 w2).2.1 = e' ∧
           (is_Some (RebuildStateFromCluster e1 w2).2.2 → adding = Returned))
  | RPanic => out = RPanic ∧ q' = q
  end ∧
  (∀ id', id' ≠ id → bq_batches q' !! id' = bq_batches q !! id' ∧
    q_NumRequeues (bq_queue q') id' = q_NumRequeues (bq_queue q) id').
Proof.
  intros Hkeep. cbv zeta. pose proof (processBatch_ID so e now b w Hkeep) as Hid. unfold processBatchWithRetry.
  unfold bind at 1. destruct (processBatch so e now b w) as [w1 [[[e1 b1] res] f]]. simpl in Hid.
  rewrite <-Hid. clear Hid.
  assert (∀ id', id' ≠ b_ID b1 → bq_batches (bq_Forget q (Some b1)) !! id' = bq_batches q !! id' ∧
    q_NumRequeues (bq_queue (bq_Forget q (Some b1))) id' = q_NumRequeues (bq_queue q) id') as Hother.
  { intros id' Hne. simpl. by rewrite lookup_delete_ne, requeues_Forget, decide_False. }
  destruct res as [[]|err|].
  - unfold ret. split_and!; [done|done|done|apply bq_Forget_spec|apply Hother].
  - cbv zeta. change (bq_NumRequeues q (Some (set_LastError err b1))) with (q_NumRequeues (bq_queue q) (b_ID b1)).
    destruct (Z.leb_spec (q_NumRequeues (bq_queue q) (b_ID b1) + 1) (so_maxRetries so)) as [Hle|Hgt].
    + unfold bind. destruct (emitEvent _ _ _ _ _ w1) as [w2 []]. unfold ret. split.
      * split; [done|]. left. split_and!; [lia|done|done|simpl; by rewrite lookup_insert_eq|].
        simpl. by rewrite requeues_AddRateLimited, decide_True.
      * intros id' Hne. simpl. rewrite lookup_insert_ne by done. split; [done|].
        rewrite requeues_AddRateLimited, decide_False by done. lia.
    + unfold handlePermanentFailure, bind at 1. unfold bind at 1.
      destruct (emitEvent _ _ _ _ _ w1) as [w2 []]. unfold bind at 1.
      destruct (RebuildStateFromCluster e1 w2) as [w3 [e3 [rerr|]]] eqn:Hreb.
      * unfold ret. split; [|apply Hother]. split; [done|]. right. split_and!; [lia|apply (bq_Forget_spec q b1)..|].
        exists w2. by rewrite Hreb.
      * unfold bind. destruct (requeueFailedResources _ _ w3) as [w4 adding4]. unfold ret.
        split; [|apply Hother]. split; [done|]. right. split_and!; [lia|apply (bq_Forget_spec q b1)..|].
        exists w2. rewrite Hreb. split; [done|]. by intros [? ?].
  - done.
Qed.

(** What can happen between two attempts: the cluster and the engine change at will, the queue does
    not lose the batch. *)
Record Round := mkRound {
  rd_world : W → W;
  rd_engine : InMemoryEngine → InMemoryEngine;
  rd_queue : batchQueue → batchQueue;
  rd_now : Z
}.

Definition leaves id (r : Round) : Prop :=
  ∀ q, bq_batches (rd_queue r q) !! id = bq_batches q !! id ∧
    q_NumRequeues (bq_queue (rd_queue r q)) id = q_NumRequeues (bq_queue q) id.

(** The life of a batch: attempts until it is no longer in the queue.  The result is the number of
    attempts and whether the batch was done within the given rounds. *)
Fixpoint attempts so (rounds : list Round) e q b w : nat * bool :=
  match rounds with
  | [] => (0, false)
  | r :: rounds =>
      let '(w', (e', q', adding, out)) :=
        processBatchWithRetry so (rd_engine r e) (rd_queue r q) (rd_now r) b (rd_world r w) in
      match out, bq_batches q' !! b_ID b with
      | RPanic, _ | _, None => (1, true)
      | _, Some b' => let '(n, fin) := attempts so rounds e' q' b' w' in (S n, fin)
      end
  end.

Lemma attempts_bounded so rounds e q b w :
  stages_keep_ID (so_stages so) → Forall (leaves (b_ID b)) rounds →
  let left := (so_maxRetries so - q_NumRequeues (bq_queue q) (b_ID b))%Z in
  (0 ≤ left)%Z → (left < Z.of_nat (length rounds))%Z →
  ∃ n, attempts so rounds e q b w = (n, true) ∧ (1 ≤ Z.of_nat n ≤ left + 1)%Z.
Proof.
  intros Hkeep Hrounds. cbv zeta. remember (b_ID b) as id eqn:Hid.
  revert e q b w Hid. induction Hrounds as [|r rounds Hr _ IH]; intros e q b w -> Hleft Hlen;
    cbn [length] in Hlen; [lia|].
  cbn [attempts]. destruct (Hr q) as [_ Hreq].
  pose proof (processBatchWithRetry_spec so (rd_engine r e) (rd_queue r q) (rd_now r) b (rd_world r w) Hkeep) as Hs.
  pose proof (processBatch_ID so (rd_engine r e) (rd_now r) b (rd_world r w) Hkeep) as Hb1. cbv zeta in Hs.
  rewrite Hreq in Hs.
  destruct (processBatch so _ _ b _) as [w1 [[[e1 b1] res] f]]. simpl in Hb1.
  destruct (processBatchWithRetry so _ _ _ b _) as [w' [[[e' q'] added'] out]].
  destruct Hs as [Hs _]. destruct res as [[]|err|].
  - destruct Hs as (-> & _ & _ & -> & _). exists 1. split; [done|lia].
  - destruct Hs as [-> [(Hlt & _ & _ & Hq' & Hn')|(Hge & [Hq' _] & _)]]; rewrite Hq'; [|exists 1; split; [done|lia]].
    destruct (IH e' q' (set_LastError err b1) w') as (n & Hn & ?); [done|rewrite Hn'; lia|rewrite Hn'; lia|].
    exists (S n). rewrite Hn. split; [done|]. rewrite Hn' in *. lia.
  - destruct Hs as [-> _]. exists 1. split; [done|lia].
Qed.

(** A resource that still exists is put back as an update of its current version. *)
Definition fresh_event (getWSA : NamespacedName → Or WorkloadServiceAccount)
    (getCWSA : NamespacedName → Or ClusterWorkloadServiceAccount) (now : Z) (res : WSAResource) : option EventInfo :=
  let key := GetNamespacedName res in
  if IsClusterScoped res
  then match getCWSA key with inr o => Some (NewEventInfo (NewClusterWSAResource o) EventTypeUpdate now) | inl _ => None end
  else match getWSA key with inr o => Some (NewEventInfo (NewWSAResource o) EventTypeUpdate now) | inl _ => None end.

(** The events added when the calls return at once and nothing else happens. *)
Fixpoint calls_of (adding : Adding W) (w : W) : list EventInfo :=
  match adding with
  | Returned => []
  | CallAddEvent event continue => let '(w, adding) := continue w in event :: calls_of adding w
  end.

Lemma requeueFailedResources_spec getWSA getCWSA now b w :
  (∀ key, client_GetWSA key w = (w, getWSA key)) → (∀ key, client_GetCWSA key w = (w, getCWSA key)) →
  (requeueFailedResources now b w).1 = w ∧
  calls_of (requeueFailedResources now b w).2 w = omap (fresh_event getWSA getCWSA now) (batch_resources b).
Proof.
  intros Hw Hc. unfold requeueFailedResources. induction (batch_resources b) as [|x l IH]; [done|]. simpl.
  unfold bind at 1 2. unfold fetch_fresh, fresh_event. cbv zeta.
  destruct (IsClusterScoped x); unfold bind; rewrite ?Hw, ?Hc; unfold ret.
  - destruct (getCWSA (GetNamespacedName x)); simpl; [done|]. split; [done|].
    destruct (requeue_loop now l w) as [w' adding]. simpl in IH. destruct IH as [-> ->]. done.
  - destruct (getWSA (GetNamespacedName x)); simpl; [done|]. split; [done|].
    destruct (requeue_loop now l w) as [w' adding]. simpl in IH. destruct IH as [-> ->]. done.
Qed.

(** Every outcome of a batch: a success forgets the batch; a failure within the limit of retries
    counts one more retry and keeps the batch, with its error, in the queue; any further failure
    forgets it and rebuilds the engine from the cluster; only then are events put back.  Other
    batches in the queue are not touched. *)
Theorem processBatchWithRetry_correct so e q now b w :
  stages_keep_ID (so_stages so) →
  let id := b_ID b in
  let retries := q_NumRequeues (bq_queue q) id in
  let '(w1, (e1, b1, res, _)) := processBatch so e now b w in
  let '(w', (e', q', adding, out)) := processBatchWithRetry so e q now b w in
  match res with
  | ROk _ => out = ROk () ∧ e' = e1 ∧ adding = Returned ∧ forgotten q' id
  | RErr err =>
      out = ROk () ∧
      ((retries < so_maxRetries so)%Z ∧ e' = e1 ∧ adding = Returned ∧
         bq_batches q' !! id = Some (set_LastError err b1) ∧
         q_NumRequeues (bq_queue q') id = (retries + 1)%Z ∨
       (so_maxRetries so ≤ retries)%Z ∧ forgotten q' id ∧
         ∃ w2, (RebuildStateFromCluster e1 w2).2.1 = e' ∧
           (is_Some (RebuildStateFromCluster e1 w2).2.2 → adding = Returned))
  | RPanic => out = RPanic ∧ q' = q
  end ∧
  (∀ id', id' ≠ id → bq_batches q' !! id' = bq_batches q !! id' ∧
    q_NumRequeues (bq_queue q') id' = q_NumRequeues (bq_queue q) id').
Proof. apply processBatchWithRetry_spec. Qed.

(** C12. A batch is not retried for ever: whatever the cluster, the engine and the other batches do
    between its attempts, a new batch is attempted at least once and at most [maxRetries] + 1 times,
    and then it has succeeded or has been forgotten. *)
Theorem retry_terminates so rounds e q b w :
  stages_keep_ID (so_stages so) → Forall (leaves (b_ID b)) rounds →
  q_NumRequeues (bq_queue q) (b_ID b) = 0%Z → (0 ≤ so_maxRetries so < Z.of_nat (length rounds))%Z →
  ∃ n, attempts so rounds e q b w = (n, true) ∧ (1 ≤ Z.of_nat n ≤ so_maxRetries so + 1)%Z.
Proof.
  intros Hkeep Hrounds H0' Hlen.
  destruct (attempts_bounded so rounds e q b w Hkeep Hrounds) as (n & ? & ?); rewrite ?H0' in *; [lia..|].
  exists n. split; [done|]. lia.
Qed.

(** A permanent failure rebuilds the engine from the resources of the cluster and puts back an
    update event for each resource of the batch that still exists; when the rebuild fails, the engine
    is left as it is and nothing is put back. *)
Theorem permanent_failure_correct so e now b n err w getWSA getCWSA :
  let w1 := (emitEvent so b "Warning" "ReconcileFailed"
    ("Permanent failure after " +:+ pretty n +:+ " retries: " +:+ error_Error err +:+ " (batch " +:+ b_ID b +:+ ")") w).1 in
  let w2 := (RebuildStateFromCluster e w1).1 in
  (∀ key, client_GetWSA key w2 = (w2, getWSA key)) → (∀ key, client_GetCWSA key w2 = (w2, getCWSA key)) →
  let '(w', (e', adding)) := handlePermanentFailure so e now b n err w in
  w' = w2 ∧
  ((∃ wsas cwsas, (client_ListWSAs w1).2 = inr wsas ∧ (client_ListCWSAs (client_ListWSAs w1).1).2 = inr cwsas ∧
      eng_ScopeComputation e' = published (live wsas cwsas) ∧
      eng_saToWsaMap e' = serviceAccountToWSAs (mappings (live wsas cwsas)) ∧
      calls_of adding w' = omap (fresh_event getWSA getCWSA now) (batch_resources b)) ∨
   (∃ rerr, (RebuildStateFromCluster e w1).2 = (e, Some rerr)) ∧ e' = e ∧ adding = Returned).
Proof.
  cbv zeta. unfold handlePermanentFailure. unfold bind at 1. destruct (emitEvent _ _ _ _ _ w) as [w1 []]. cbn [fst].
  unfold bind at 1. unfold RebuildStateFromCluster. unfold bind.
  destruct (computeStateFromCluster_cases e w1) as [(wsas & cwsas & Hs & Hw & Hc)|[rerr Hs]];
    destruct (computeStateFromCluster e w1) as [w2 r]; simpl in Hs; subst r; unfold ret; cbn [fst]; intros HW HC.
  - destruct (requeueFailedResources_spec getWSA getCWSA now b w2 HW HC) as [Hw2 Hcalls].
    destruct (requeueFailedResources now b w2) as [w3 adding]. simpl in Hw2, Hcalls. subst w3.
    split; [done|]. left. by exists wsas, cwsas.
  - split; [done|]. right. eauto.
Qed.
End retry_correct.

(** ** Examples *)

Module RetryExamples.
Import InMemory ResourceExamples PipelineExamples.
#[local] Existing Instance range_forward.
#[local] Existing Instance reference_third_party.
#[local] Existing Instance reference_third_party_laws.
#[local] Existing Instance reference_lru.
#[local] Existing Instance reference_lru_laws.
#[local] Existing Instance reference_queue.
#[local] Existing Instance reference_queue_laws.

Lemma orchestrator_keeps_ID : stages_keep_ID (so_stages orchestrator).
Proof. apply staging_stages_keep_ID. Defined.

(** A cluster without agents has no target namespaces, so that every batch fails. *)
Definition no_agents : World := mkWorld ∅ [app_wsa] [] [] ∅ [] [] [] [].

Definition first_attempt := processBatchWithRetry orchestrator engine0 NewBatchQueue 0 batch0 no_agents.

Lemma processBatchWithRetry_correct_witness :
  is_Some (bq_batches first_attempt.2.1.1.2 !! "b") ∧ q_NumRequeues (bq_queue first_attempt.2.1.1.2) "b" = 1%Z.
Proof.
  pose proof (processBatchWithRetry_correct orchestrator engine0 NewBatchQueue 0 batch0 no_agents orchestrator_keeps_ID)
    as Hc.
  assert (match (processBatch orchestrator engine0 0 batch0 no_agents).2.1.2 with RErr _ => true | _ => false end = true)
    as Hres by (vm_compute; reflexivity).
  cbv zeta in Hc. unfold first_attempt. destruct (processBatch _ _ _ _ _) as [w1 [[[e1 b1] res] f]]. cbn [fst snd] in Hres.
  destruct (processBatchWithRetry _ _ _ _ _ _) as [w' [[[e' q'] adding] out]]. cbn [fst snd].
  destruct res as [|err|]; [done| |done].
  destruct Hc as [[_ [(_ & _ & _ & Hb & Hn)|[Hge _]]] _].
  - split; [by eexists|exact Hn].
  - exfalso. by apply (Z.lt_irrefl 0), (Z.lt_le_trans _ 3).
Defined.

(** Nothing changes between the attempts. *)
Definition quiet : Round := mkRound id id id 0.

Lemma retry_terminates_witness :
  ∃ n, attempts orchestrator (replicate 4 quiet) engine0 NewBatchQueue batch0 no_agents = (n, true) ∧
    (1 ≤ Z.of_nat n ≤ so_maxRetries orchestrator + 1)%Z.
Proof.
  apply (retry_terminates orchestrator (replicate 4 quiet) engine0 NewBatchQueue batch0 no_agents orchestrator_keeps_ID).
  - by apply Forall_replicate.
  - done.
  - done.
Defined.

(** It takes all four. *)
Example four_attempts :
  attempts orchestrator (replicate 4 quiet) engine0 NewBatchQueue batch0 no_agents = (4, true).
Proof. by vm_compute. Qed.

Definition failed := handlePermanentFailure orchestrator engine0 0 batch0 4 (ErrNew "x") no_agents.

Lemma permanent_failure_correct_witness : calls_of failed.2.2 failed.1 = [NewEventInfo (wsaAdapter app_wsa) EventTypeUpdate 0].
Proof.
  set (w2 := (RebuildStateFromCluster engine0 (emitEvent orchestrator batch0 "Warning" "ReconcileFailed"
    ("Permanent failure after " +:+ pretty 4%Z +:+ " retries: " +:+ error_Error (ErrNew "x") +:+ " (batch " +:+
     b_ID batch0 +:+ ")") no_agents).1).1).
  pose proof (permanent_failure_correct orchestrator engine0 0 batch0 4 (ErrNew "x") no_agents
    (λ key, (client_GetWSA key w2).2) (λ key, (client_GetCWSA key w2).2)) as Hc. cbv zeta in Hc.
  assert (w2 = mkWorld ∅ [app_wsa] [] [] ∅ [] [] [] [(GetNamespacedName (wsaAdapter app_wsa), "ReconcileFailed")])
    as Hw2 by (vm_compute; reflexivity).
  fold w2 in Hc. specialize (Hc ltac:(rewrite Hw2; done) ltac:(rewrite Hw2; done)).
  assert (omap (fresh_event (λ key, (client_GetWSA key w2).2) (λ key, (client_GetCWSA key w2).2) 0) (batch_resources batch0)
    = [NewEventInfo (wsaAdapter app_wsa) EventTypeUpdate 0]) as Hf by (rewrite Hw2; vm_compute; reflexivity).
  rewrite Hf in Hc. unfold failed. destruct (handlePermanentFailure _ _ _ _ _ _ _) as [w' [e' adding]].
  destruct Hc as [_ [(wsas & cwsas & _ & _ & _ & _ & Hcalls)|((rerr & Hr) & _)]]; [exact Hcalls|exfalso].
  apply (f_equal (λ p, bool_decide (p.2 = None))) in Hr. vm_compute in Hr. discriminate Hr.
Defined.

(** Two goroutines handle batches: a retried batch is planned, then a resource is created and its
    batch goes through all stages, then the first batch is executed. *)
Definition app2_wsa : WorkloadServiceAccount :=
  mkWSA (meta "app2" "team-a") (mkDims ["p2"] [] [] [] [] []) [] [role "reader"] [] [].
Definition deployment2 : Scope := mkDims "p2" "" "staging" "" "" "".
Definition planned_first := PlanningStage_Execute engine0 0 batch0 (cluster [app_wsa] []).
Definition second := processBatch orchestrator planned_first.2.1.1 0
  (NewBatch "c" 0 [NewCreateOrUpdateEventInfo (wsaAdapter app2_wsa) 0]) (cluster [app_wsa; app2_wsa] []).
Definition executed_last := ExecutionStage_Execute second.2.1.1.1 0 planned_first.2.1.2 second.1.

(** Batches of the orchestrator's loop and of the retry goroutine are not serialised: a batch that
    was planned before another one and is executed after it succeeds, takes the mappings of the newer
    batch back and deletes the service account that batch had just created. *)
Example overlapping_batches_undo :
  ∃ n, second.2.1.2 = ROk () ∧ eng_GetServiceAccountForScope second.2.1.1.1 deployment2 = ROk n ∧ n ≠ "" ∧
    is_Some (store second.1 !! (KServiceAccount, mkNN "apps" n)) ∧
    executed_last.2.2 = ROk () ∧
    eng_GetServiceAccountForScope executed_last.2.1.1 deployment2 = ROk "" ∧
    store executed_last.1 !! (KServiceAccount, mkNN "apps" n) = None.
Proof.
  eexists. split_and!; [by vm_compute|by vm_compute|done|eexists; by vm_compute|by vm_compute|by vm_compute|by vm_compute].
Qed.
End RetryExamples.
