(* ===== verification/Lifecycle.v ===== *)
(** * Starting and stopping the background goroutines

    The select loops of EventCollector.Start (src/internal/reconciliation/collector.go),
    BasicDebouncer.Start (src/internal/reconciliation/debouncer.go) and StageOrchestrator.Start with
    its two goroutines for the queue of retries (src/internal/reconciliation/orchestrator.go): what
    each does when the context is cancelled, on top of the steps of [Collector] and [Retry]. *)

From Stdlib Require Import ZArith.
From S2P Require Import Prelude GoLib Api Scopes ServiceAccounts Access Cluster Resources Engine Pipeline Debouncer Collector Retry.

(** ** The loops *)

(** The three goroutines with a select loop. *)
Inductive Goroutine := GCollector | GDebouncer | GOrchestrator.

#[export] Instance Goroutine_eq_dec : EqDecision Goroutine.
Proof. solve_decision. Defined.

Record Running := mkRunning {
  rn_ec : EventCollector;               (** channels, map and program counters *)
  rn_done : bool;                       (** the context is cancelled *)
  rn_collector : bool;                  (** the collector's [Start] runs; else [batchReadyCh] is closed *)
  rn_debouncer : bool;                  (** the debouncer's goroutine runs *)
  rn_orchestrator : bool;               (** the orchestrator's [Start] runs *)
  rn_panicked : bool                    (** a send on the closed channel ended the program *)
}.

(** [Start] of the orchestrator has started the collector, and that the debouncer. *)
Definition Start (maxBatchSize : Z) : Running :=
  mkRunning (NewEventCollector maxBatchSize) false true true true false.

Definition rn_runs (g : Goroutine) (s : Running) : bool :=
  match g with
  | GCollector => rn_collector s
  | GDebouncer => rn_debouncer s
  | GOrchestrator => rn_orchestrator s
  end.

Definition set_ec (ec : EventCollector) (s : Running) : Running :=
  mkRunning ec (rn_done s) (rn_collector s) (rn_debouncer s) (rn_orchestrator s) (rn_panicked s).
Definition cancel (s : Running) : Running :=
  mkRunning (rn_ec s) true (rn_collector s) (rn_debouncer s) (rn_orchestrator s) (rn_panicked s).
Definition panic (s : Running) : Running :=
  mkRunning (rn_ec s) (rn_done s) (rn_collector s) (rn_debouncer s) (rn_orchestrator s) true.
Definition stop (g : Goroutine) (s : Running) : Running :=
  mkRunning (rn_ec s) (rn_done s)
    (match g with GCollector => false | _ => rn_collector s end)
    (match g with GDebouncer => false | _ => rn_debouncer s end)
    (match g with GOrchestrator => false | _ => rn_orchestrator s end) (rn_panicked s).

(** The goroutine at the top of its loop, where the select is. *)
Definition at_select (g : Goroutine) (ec : EventCollector) : bool :=
  match g with
  | GCollector => match pc_loop ec with FIdle => true | _ => false end
  | GDebouncer => negb (deb_calling (ec_eventDebouncer ec))
  | GOrchestrator => match pc_orchestrator ec with FIdle => true | _ => false end
  end.

Definition goroutine_of (f : Flusher) : Goroutine :=
  match f with Loop => GCollector | Orchestrator => GOrchestrator end.

(** Who takes a step of the collector; the callers of [AddEvent] and the timers are others. *)
Definition owner (a : Action) : option Goroutine :=
  match a with
  | ActAdd _ | ActDebounce | ActTrigger | ActTriggerReconcile => None
  | ActDebouncerReceive | ActDebouncerTick | ActDebouncerCallback => Some GDebouncer
  | ActLoopReceive => Some GCollector
  | ActCollect f | ActSend f | ActReinsert f => Some (goroutine_of f)
  | ActOrchestratorFlush | ActOrchestratorReceive => Some GOrchestrator
  end.

Definition is_send (a : Action) : bool := match a with ActSend _ => true | _ => false end.

Inductive LoopAction :=
| Run (a : Action)          (** a step of the collector's transition system *)
| Cancel                    (** the manager cancels the context *)
| Done (g : Goroutine)      (** the branch of [ctx.Done()] *)
| ChannelClosed.            (** the orchestrator's receive from the closed, empty channel *)

Section steps.
Context `{RangeOrder}.

(** A step of a goroutine that runs; a send on a closed channel panics, even in a select. *)
Definition run_step (a : Action) (s : Running) : option Running :=
  when (match owner a with Some g => rn_runs g s | None => true end)
    (if is_send a && negb (rn_collector s) then panic s else s)
  ≫= λ s, ec ← exec a (rn_ec s); Some (set_ec ec s).

(** [case <-ctx.Done(): return]; the collector closes its channel first. *)
Definition ctx_done (g : Goroutine) (s : Running) : option Running :=
  when (rn_done s && rn_runs g s && at_select g (rn_ec s)) (stop g s).

(** [case events, ok := <-batchChan: if !ok { return nil }]: what is buffered is received first. *)
Definition channel_closed (s : Running) : option Running :=
  match ec_batchReadyCh (rn_ec s) with
  | [] => when (negb (rn_collector s) && rn_orchestrator s && at_select GOrchestrator (rn_ec s)) (stop GOrchestrator s)
  | _ => None
  end.

Definition loop_exec (a : LoopAction) (s : Running) : option Running :=
  if rn_panicked s then None
  else match a with
  | Run a => run_step a s
  | Cancel => when (negb (rn_done s)) (cancel s)
  | Done g => ctx_done g s
  | ChannelClosed => channel_closed s
  end.

Fixpoint loop_exec_all (l : list LoopAction) (s : Running) : option Running :=
  match l with
  | [] => Some s
  | a :: l => s' ← loop_exec a s; loop_exec_all l s'
  end.

Definition loop_step (P : LoopAction → bool) (s s' : Running) : Prop := ∃ a, P a ∧ loop_exec a s = Some s'.
End steps.

(** ** Runs of the loops are runs of the collector *)

Lemma run_step_spec `{RangeOrder} a s s' :
  run_step a s = Some s' →
  (∀ g, owner a = Some g → rn_runs g s = true) ∧
  ∃ ec, exec a (rn_ec s) = Some ec ∧
    s' = set_ec ec (if is_send a && negb (rn_collector s) then panic s else s).
Proof.
  unfold run_step. destruct (match owner a with Some g => rn_runs g s | None => true end) eqn:Hg; [|done].
  simpl. intros Hs. split; [by intros g Ha; rewrite Ha in Hg|].
  destruct (is_send a && negb (rn_collector s)); simpl in Hs;
    (destruct (exec a (rn_ec s)) as [ec|]; [|done]); injection Hs as <-; by exists ec.
Qed.

Lemma ctx_done_spec g s s' :
  ctx_done g s = Some s' →
  rn_done s = true ∧ rn_runs g s = true ∧ at_select g (rn_ec s) = true ∧ s' = stop g s.
Proof.
  unfold ctx_done. destruct (rn_done s), (rn_runs g s), (at_select g (rn_ec s)); simpl; try done.
  by intros [= <-].
Qed.

Lemma channel_closed_spec s s' :
  channel_closed s = Some s' →
  ec_batchReadyCh (rn_ec s) = [] ∧ rn_collector s = false ∧ rn_orchestrator s = true ∧
  pc_orchestrator (rn_ec s) = FIdle ∧ s' = stop GOrchestrator s.
Proof.
  unfold channel_closed. destruct (ec_batchReadyCh (rn_ec s)); [|done]. simpl.
  destruct (rn_collector s), (rn_orchestrator s), (pc_orchestrator (rn_ec s)); simpl; try done.
  by intros [= <-].
Qed.

Lemma loop_exec_spec `{RangeOrder} a s s' :
  loop_exec a s = Some s' →
  rn_panicked s = false ∧
  match a with
  | Run a => run_step a s
  | Cancel => when (negb (rn_done s)) (cancel s)
  | Done g => ctx_done g s
  | ChannelClosed => channel_closed s
  end = Some s'.
Proof. unfold loop_exec. by destruct (rn_panicked s). Qed.

Lemma loop_step_collector `{RangeOrder} P s s' :
  loop_step P s s' → rtc step (rn_ec s) (rn_ec s').
Proof.
  intros (a & _ & [_ Ha]%loop_exec_spec). destruct a as [a| |g|].
  - apply run_step_spec in Ha as (_ & ec & Hec & ->). apply rtc_once. by exists a.
  - destruct (rn_done s); [done|]. by injection Ha as <-.
  - by apply ctx_done_spec in Ha as (_ & _ & _ & ->).
  - by apply channel_closed_spec in Ha as (_ & _ & _ & _ & ->).
Qed.

Lemma loops_collector `{RangeOrder} P s s' :
  rtc (loop_step P) s s' → rtc step (rn_ec s) (rn_ec s').
Proof. induction 1; [done|]. etrans; [by eapply loop_step_collector|done]. Qed.

(** ** No send on the closed channel *)

(** Without follow-ups: the requests that [RequeueAfter] schedules. *)
Definition no_follow_up (a : LoopAction) : bool :=
  match a with Run ActTriggerReconcile => false | _ => true end.

(** The orchestrator never flushes, and the collector is idle when it has returned. *)
Definition calm (s : Running) : Prop :=
  so_triggerCh (rn_ec s) = 0 ∧ pc_orchestrator (rn_ec s) = FIdle ∧
  (rn_collector s = false → pc_loop (rn_ec s) = FIdle) ∧ rn_panicked s = false.

(** What one step of the collector's system does to the two flushing goroutines. *)
Lemma exec_calm `{RangeOrder} a ec ec' :
  exec a ec = Some ec' → a ≠ ActTriggerReconcile → so_triggerCh ec = 0 → pc_orchestrator ec = FIdle →
  so_triggerCh ec' = 0 ∧ pc_orchestrator ec' = FIdle ∧
  (owner a ≠ Some GCollector → pc_loop ec' = pc_loop ec) ∧ (is_send a = true → owner a = Some GCollector).
Proof.
  intros Ha Hne Ht Ho.
  destruct a as [event| | | | | | | | |f|f|f|]; try done; try destruct f; simpl in Ha;
    unfold AddEvent_store, AddEvent_Debounce, AddEvent_trigger, collector_debouncer, debouncer_callback,
      loop_receive, orchestrator_flush, collectEventsIntoBatch, sendBatch, sendBatch_default,
      orchestrator_receive in Ha; simpl in Ha; rewrite ?Ht, ?Ho in Ha; try done;
    repeat case_match; simplify_eq; simpl; try done.
Qed.

Lemma calm_step `{RangeOrder} s s' : loop_step no_follow_up s s' → calm s → calm s'.
Proof.
  intros (a & HP & [_ Ha]%loop_exec_spec) (Ht & Ho & Hl & Hp). destruct a as [a| |g|].
  - apply run_step_spec in Ha as (Hown & ec & Hec & ->).
    destruct (exec_calm _ _ _ Hec) as (Ht' & Ho' & Hl' & Hs); [by intros ->|done..|].
    assert (is_send a && negb (rn_collector s) = false) as Hb.
    { destruct (is_send a); [|done]. specialize (Hown GCollector (Hs eq_refl)). simpl in Hown. by rewrite Hown. }
    rewrite Hb. unfold calm. simpl. split_and!; [done..| |done].
    intros Hc. rewrite Hl'; [by apply Hl|]. intros Hg. specialize (Hown _ Hg). simpl in Hown. congruence.
  - destruct (rn_done s); [done|]. by injection Ha as <-.
  - apply ctx_done_spec in Ha as (_ & _ & Hg & ->). unfold calm. split_and!; [done..| |done].
    destruct g; simpl in *; auto. by destruct (pc_loop (rn_ec s)).
  - by apply channel_closed_spec in Ha as (_ & _ & _ & _ & ->).
Qed.

Lemma calm_reachable `{RangeOrder} n s : rtc (loop_step no_follow_up) (Start n) s → calm s.
Proof.
  assert (∀ s1 s2, rtc (loop_step no_follow_up) s1 s2 → calm s1 → calm s2) as Hrtc.
  { induction 1; [done|]. eauto using calm_step. }
  intros Hs. by apply (Hrtc _ _ Hs).
Qed.

(** ** The work left *)

(** The steps of the goroutines and of the calls of [AddEvent] under way. *)
Definition no_new_request (a : LoopAction) : bool :=
  match a with Run a => no_request a | _ => true end.

Definition flush_work (p : FlushPC) : nat :=
  match p with FIdle => 0 | FCollect => 4 | FSend _ => 3 | FReinsert _ => 2 end.

(** What a step of the debouncer leaves to do. *)
Definition debouncer_work (d : BasicDebouncer) : nat :=
  8 * deb_timeChan d + (if deb_started d then 7 else 0) + (if deb_calling d then 6 else 0).

Lemma Debounce_work d d' : Debounce d = Some d' → debouncer_work d' = 8 + debouncer_work d.
Proof. unfold Debounce, debouncer_work. case_bool_decide; [|done]. intros [= <-]. cbn [deb_timeChan deb_started deb_calling]. lia. Qed.

Lemma receive_work d d' : debouncer_receive d = Some d' → debouncer_work d' < debouncer_work d.
Proof.
  unfold debouncer_receive, debouncer_work. destruct (deb_timeChan d), (deb_calling d); try done.
  intros [= <-]. cbn [deb_timeChan deb_started deb_calling]. destruct (deb_started d); lia.
Qed.

Lemma tick_work d d' : debouncer_tick d = Some d' → debouncer_work d' < debouncer_work d.
Proof.
  unfold debouncer_tick, debouncer_work. destruct (deb_started d), (deb_calling d); try done.
  intros [= <-]. cbn [deb_timeChan deb_started deb_calling]. lia.
Qed.

Lemma return_work d d' : debouncer_return d = Some d' → 6 + debouncer_work d' = debouncer_work d.
Proof.
  unfold debouncer_return, debouncer_work. destruct (deb_calling d); [|done].
  intros [= <-]. cbn [deb_timeChan deb_started deb_calling]. lia.
Qed.

Definition add_work (p : option AddPC) : nat :=
  match p with None => 0 | Some ATrigger => 6 | Some ADebounce => 15 end.

Definition ec_work (ec : EventCollector) : nat :=
  add_work (pc_add ec) + debouncer_work (ec_eventDebouncer ec) + 5 * ec_batchTriggerCh ec + 5 * so_triggerCh ec +
  flush_work (pc_loop ec) + flush_work (pc_orchestrator ec) + length (ec_batchReadyCh ec).

(** A bound of the number of steps. *)
Definition work (s : Running) : nat :=
  ec_work (rn_ec s) + (if rn_done s then 0 else 1) +
  (if rn_collector s then 1 else 0) + (if rn_debouncer s then 1 else 0) + (if rn_orchestrator s then 1 else 0).

Lemma exec_work `{RangeOrder} a ec ec' :
  exec a ec = Some ec' → no_request a = true → ec_work ec' < ec_work ec.
Proof.
  unfold ec_work. intros Ha Hr.
  destruct a as [event| | | | | | | | |f|f|f|]; try done; cbn [exec] in Ha.
  - unfold AddEvent_Debounce in Ha. destruct (pc_add ec) as [[]|]; try done.
    destruct (Debounce _) as [d|] eqn:Hd; [|done]. apply Debounce_work in Hd. injection Ha as <-. simpl. lia.
  - unfold AddEvent_trigger in Ha. destruct (pc_add ec) as [[]|]; try done.
    repeat case_bool_decide; try done; injection Ha as <-; simpl; lia.
  - unfold collector_debouncer in Ha. destruct (debouncer_receive _) as [d|] eqn:Hd; [|done].
    apply receive_work in Hd. injection Ha as <-. simpl. lia.
  - unfold collector_debouncer in Ha. destruct (debouncer_tick _) as [d|] eqn:Hd; [|done].
    apply tick_work in Hd. injection Ha as <-. simpl. lia.
  - unfold debouncer_callback in Ha. destruct (debouncer_return _) as [d|] eqn:Hd; [|done].
    apply return_work in Hd. case_bool_decide; [|done]. injection Ha as <-. simpl. lia.
  - unfold loop_receive in Ha. destruct (ec_batchTriggerCh ec), (pc_loop ec); try done. injection Ha as <-. simpl. lia.
  - unfold orchestrator_flush in Ha. destruct (so_triggerCh ec), (pc_orchestrator ec); try done.
    injection Ha as <-. simpl. lia.
  - unfold collectEventsIntoBatch in Ha. destruct (pc_of f ec) eqn:Hpc; try done. destruct (unlocked ec); [|done].
    case_decide; injection Ha as <-; destruct f; simpl in *; rewrite Hpc; simpl; lia.
  - unfold sendBatch in Ha. destruct (pc_of f ec) eqn:Hpc; try done.
    case_bool_decide; injection Ha as <-; destruct f; simpl in *; rewrite Hpc, ?length_app; simpl; lia.
  - unfold sendBatch_default in Ha. destruct (pc_of f ec) eqn:Hpc; try done. destruct (unlocked ec); [|done].
    injection Ha as <-; destruct f; simpl in *; rewrite Hpc; simpl; lia.
  - unfold orchestrator_receive in Ha. destruct (pc_orchestrator ec) eqn:Hpc, (ec_batchReadyCh ec); try done.
    injection Ha as <-. simpl. rewrite Hpc. simpl. lia.
Qed.

Lemma loop_step_work `{RangeOrder} s s' : loop_step no_new_request s s' → work s' < work s.
Proof.
  intros (a & HP & [_ Ha]%loop_exec_spec). unfold work. destruct a as [a| |g|].
  - apply run_step_spec in Ha as (_ & ec & Hec & ->). pose proof (exec_work _ _ _ Hec) as Hw.
    destruct (is_send a && negb (rn_collector s)); simpl; specialize (Hw ltac:(by destruct a)); lia.
  - destruct (rn_done s); [done|]. injection Ha as <-. simpl. lia.
  - apply ctx_done_spec in Ha as (_ & Hr & _ & ->). destruct g; simpl in *; rewrite Hr; lia.
  - apply channel_closed_spec in Ha as (_ & _ & Hr & _ & ->). simpl. rewrite Hr. lia.
Qed.

(** ** Where the goroutines come to rest *)

Definition all_stopped (s : Running) : Prop := ∀ g, rn_runs g s = false.

(** An [AddEvent] holds the lock and waits for room in a channel, or the debouncer's callback waits. *)
Definition add_blocked (ec : EventCollector) : Prop :=
  pc_add ec = Some ADebounce ∧ timeChanCap ≤ deb_timeChan (ec_eventDebouncer ec) ∨
  pc_add ec = Some ATrigger ∧ batchTriggerCap ≤ ec_batchTriggerCh ec.

Definition callback_blocked (s : Running) : Prop :=
  rn_debouncer s = true ∧ deb_calling (ec_eventDebouncer (rn_ec s)) = true ∧
  batchTriggerCap ≤ ec_batchTriggerCh (rn_ec s).

(** A step of the system that nothing prevents. *)
Lemma at_rest `{RangeOrder} P a s :
  nf (loop_step P) s → P a = true → loop_exec a s = None.
Proof.
  intros Hnf HP. destruct (loop_exec a s) as [s'|] eqn:Ha; [|done].
  exfalso. apply Hnf. exists s', a. by rewrite HP.
Qed.

Lemma run_at_rest `{RangeOrder} a s g :
  nf (loop_step no_new_request) s → rn_panicked s = false → no_request a = true →
  owner a = Some g → rn_runs g s = true → exec a (rn_ec s) = None.
Proof.
  intros Hnf Hp Hr Ho Hg. pose proof (at_rest _ (Run a) s Hnf Hr) as Ha. unfold loop_exec in Ha.
  rewrite Hp in Ha. unfold run_step in Ha. rewrite Ho, Hg in Ha. simpl in Ha.
  destruct (is_send a && negb (rn_collector s)); simpl in Ha; by destruct (exec a (rn_ec s)).
Qed.

Lemma done_at_rest `{RangeOrder} g s :
  nf (loop_step no_new_request) s → rn_panicked s = false → rn_done s = true → rn_runs g s = true →
  at_select g (rn_ec s) = false.
Proof.
  intros Hnf Hp Hd Hg. pose proof (at_rest _ (Done g) s Hnf eq_refl) as Ha. unfold loop_exec, ctx_done in Ha.
  rewrite Hp, Hd, Hg in Ha. by destruct (at_select g (rn_ec s)).
Qed.

(** A flushing goroutine that is not at its select can go on unless the lock is taken. *)
Lemma flusher_at_rest `{RangeOrder} f s :
  nf (loop_step no_new_request) s → rn_panicked s = false → rn_runs (goroutine_of f) s = true →
  unlocked (rn_ec s) = true → pc_of f (rn_ec s) = FIdle.
Proof.
  intros Hnf Hp Hg Hu.
  pose proof (run_at_rest (ActCollect f) s _ Hnf Hp eq_refl eq_refl Hg) as Hc.
  pose proof (run_at_rest (ActSend f) s _ Hnf Hp eq_refl eq_refl Hg) as Hs.
  pose proof (run_at_rest (ActReinsert f) s _ Hnf Hp eq_refl eq_refl Hg) as Hr.
  simpl in Hc, Hs, Hr. unfold collectEventsIntoBatch in Hc. unfold sendBatch in Hs. unfold sendBatch_default in Hr.
  rewrite Hu in Hc, Hr. by destruct (pc_of f (rn_ec s)).
Qed.

Lemma add_at_rest `{RangeOrder} s :
  nf (loop_step no_new_request) s → rn_panicked s = false → unlocked (rn_ec s) = true ∨ add_blocked (rn_ec s).
Proof.
  intros Hnf Hp. unfold unlocked, add_blocked.
  pose proof (at_rest _ (Run ActDebounce) s Hnf eq_refl) as Hd.
  pose proof (at_rest _ (Run ActTrigger) s Hnf eq_refl) as Ht.
  unfold loop_exec, run_step in Hd, Ht. rewrite Hp in Hd, Ht. simpl in Hd, Ht.
  unfold AddEvent_Debounce, Debounce in Hd. unfold AddEvent_trigger in Ht.
  destruct (pc_add (rn_ec s)) as [[]|]; [| |by left]; right.
  - left. split; [done|]. case_bool_decide; [done|]. lia.
  - right. split; [done|]. repeat case_bool_decide; try done. lia.
Qed.

Lemma stopped_at_rest `{RangeOrder} s :
  nf (loop_step no_new_request) s → rn_panicked s = false → rn_done s = true → unlocked (rn_ec s) = true →
  all_stopped s ∨ callback_blocked s.
Proof.
  intros Hnf Hp Hd Hu.
  assert (∀ f, rn_runs (goroutine_of f) s = false) as Hf.
  { intros f. destruct (rn_runs (goroutine_of f) s) eqn:Hg; [|done].
    pose proof (done_at_rest _ _ Hnf Hp Hd Hg) as Hs.
    pose proof (flusher_at_rest f s Hnf Hp Hg Hu) as Hi. destruct f; simpl in *; by rewrite Hi in Hs. }
  destruct (rn_debouncer s) eqn:Hg.
  - right. split; [done|]. pose proof (done_at_rest GDebouncer s Hnf Hp Hd Hg) as Hs. simpl in Hs.
    apply negb_false_iff in Hs. split; [done|].
    pose proof (run_at_rest ActDebouncerCallback s _ Hnf Hp eq_refl eq_refl Hg) as Hc. simpl in Hc.
    unfold debouncer_callback, debouncer_return in Hc. rewrite Hs in Hc. case_bool_decide; [done|]. lia.
  - left. intros []; [apply (Hf Loop)|done|apply (Hf Orchestrator)].
Qed.

(** Triggers that wait or that the debouncer may still send. *)
Definition pressure (ec : EventCollector) : nat :=
  ec_batchTriggerCh ec + deb_timeChan (ec_eventDebouncer ec) +
  (if deb_started (ec_eventDebouncer ec) then 1 else 0) + (if deb_calling (ec_eventDebouncer ec) then 1 else 0).

(** No [AddEvent] is under way and the trigger channel cannot fill up. *)
Definition roomy (ec : EventCollector) : Prop := unlocked ec = true ∧ pressure ec ≤ batchTriggerCap.

Lemma exec_roomy `{RangeOrder} a ec ec' :
  exec a ec = Some ec' → no_request a = true → roomy ec → roomy ec'.
Proof.
  unfold roomy, pressure, unlocked. intros Ha Hr [Hu Hp]. destruct (pc_add ec) eqn:Hadd; [done|].
  destruct a as [event| | | | | | | | |f|f|f|]; try done; cbn [exec] in Ha.
  - unfold AddEvent_Debounce in Ha. by rewrite Hadd in Ha.
  - unfold AddEvent_trigger in Ha. by rewrite Hadd in Ha.
  - unfold collector_debouncer, debouncer_receive in Ha.
    destruct (deb_timeChan _), (deb_calling _); try done. injection Ha as <-. simpl. rewrite Hadd.
    destruct (deb_started (ec_eventDebouncer ec)); split; try done; lia.
  - unfold collector_debouncer, debouncer_tick in Ha. destruct (deb_started _), (deb_calling _); try done.
    injection Ha as <-. simpl. rewrite Hadd. split; [done|lia].
  - unfold debouncer_callback, debouncer_return in Ha. destruct (deb_calling _); [|done].
    case_bool_decide; [|done]. injection Ha as <-. simpl. rewrite Hadd. split; [done|lia].
  - unfold loop_receive in Ha. destruct (ec_batchTriggerCh ec), (pc_loop ec); try done. injection Ha as <-. simpl.
    rewrite Hadd. split; [done|lia].
  - unfold orchestrator_flush in Ha. destruct (so_triggerCh ec), (pc_orchestrator ec); try done. injection Ha as <-.
    simpl. by rewrite Hadd.
  - unfold collectEventsIntoBatch in Ha. destruct (pc_of f ec); try done. destruct (unlocked ec); [|done].
    case_decide; injection Ha as <-; simpl; by rewrite Hadd.
  - unfold sendBatch in Ha. destruct (pc_of f ec); try done.
    case_bool_decide; injection Ha as <-; simpl; by rewrite Hadd.
  - unfold sendBatch_default in Ha. destruct (pc_of f ec); try done. destruct (unlocked ec); [|done].
    injection Ha as <-; simpl; by rewrite Hadd.
  - unfold orchestrator_receive in Ha. destruct (pc_orchestrator ec), (ec_batchReadyCh ec); try done.
    injection Ha as <-. simpl. by rewrite Hadd.
Qed.

(** What the steps without a new request keep. *)
Lemma no_new_request_step `{RangeOrder} s s' :
  loop_step no_new_request s s' →
  loop_step no_follow_up s s' ∧ (rn_done s = true → rn_done s' = true) ∧
  (roomy (rn_ec s) → roomy (rn_ec s')).
Proof.
  intros (a & HP & Ha). split; [exists a; split; [by destruct a as [[]| | |]|done]|].
  apply loop_exec_spec in Ha as [_ Ha]. destruct a as [a| |g|].
  - apply run_step_spec in Ha as (_ & ec & Hec & ->).
    split; [by destruct (is_send a && negb (rn_collector s))|].
    simpl. by apply (exec_roomy a); [|destruct a].
  - destruct (rn_done s); [done|]. by injection Ha as <-.
  - by apply ctx_done_spec in Ha as (? & _ & _ & ->).
  - by apply channel_closed_spec in Ha as (_ & _ & _ & _ & ->).
Qed.

Lemma no_new_request_run `{RangeOrder} s s' :
  rtc (loop_step no_new_request) s s' →
  rtc (loop_step no_follow_up) s s' ∧ (rn_done s = true → rn_done s' = true) ∧
  (roomy (rn_ec s) → roomy (rn_ec s')).
Proof.
  induction 1 as [s|s1 s2 s3 (? & ? & ?)%no_new_request_step _ (? & ? & ?)]; [done|].
  split_and!; [by eapply rtc_l|auto..].
Qed.

Lemma roomy_not_blocked s : roomy (rn_ec s) → ¬ add_blocked (rn_ec s) ∧ ¬ callback_blocked s.
Proof.
  unfold roomy, unlocked, pressure, add_blocked, callback_blocked. intros [Hu Hp]. split.
  - by destruct (pc_add (rn_ec s)); [|intros [[]|[]]].
  - intros (_ & Hc & Ht). rewrite Hc in Hp. lia.
Qed.

(** ** Properties of the loops *)

Section properties.
Context `{RangeOrder}.

(** The program never sends on the channel that the collector closes when it stops: as long as
    no batch schedules a follow-up, in every interleaving of the goroutines with the cancellation the
    collector is at its select when it has returned, the orchestrator never flushes, and no send
    panics. *)
Theorem no_send_on_closed_channel (n : Z) (s : Running) :
  rtc (loop_step no_follow_up) (Start n) s →
  rn_panicked s = false ∧ pc_orchestrator (rn_ec s) = FIdle ∧
  (rn_collector s = false → pc_loop (rn_ec s) = FIdle).
Proof. intros (_ & ? & ? & ?)%calm_reachable. done. Qed.

(** The goroutines take only steps of the collector's system: stopping loses no event either. *)
Theorem loops_lose_no_event (n : Z) (P : LoopAction → bool) (s : Running) (i : nat) (e : EventInfo) :
  rtc (loop_step P) (Start n) s → added (rn_ec s) !! i = Some e → kept (rn_ec s) i e.
Proof. intros Hs%loops_collector. by apply inv_kept, (inv_reachable n). Qed.

(** C23. Shutdown ends.  Once the context is cancelled, and unless events are added, every run of the
    goroutines is finite, with at most [work s] steps, whichever ready branches the selects choose.
    When nothing can step any more the collector, the debouncer and the orchestrator have returned,
    or an [AddEvent] holds the lock before a full channel, or the debouncer's callback waits at a
    full channel; the last two do not happen when no [AddEvent] is under way at the cancellation and
    the trigger channel has room for the requests made. *)
Theorem shutdown_ends (n : Z) (s : Running) :
  rtc (loop_step no_follow_up) (Start n) s → rn_done s = true →
  (∀ k s', nsteps (loop_step no_new_request) k s s' → k ≤ work s) ∧
  (∀ s', rtc (loop_step no_new_request) s s' → nf (loop_step no_new_request) s' →
    all_stopped s' ∨ add_blocked (rn_ec s') ∨ callback_blocked s') ∧
  (roomy (rn_ec s) → ∀ s', rtc (loop_step no_new_request) s s' → nf (loop_step no_new_request) s' → all_stopped s').
Proof.
  intros Hs Hd.
  assert (∀ s', rtc (loop_step no_new_request) s s' → nf (loop_step no_new_request) s' →
    all_stopped s' ∨ add_blocked (rn_ec s') ∨ callback_blocked s') as Hrest.
  { intros s' (Hs' & Hd' & _)%no_new_request_run Hnf.
    destruct (calm_reachable n s') as (_ & _ & _ & Hp); [by etrans|].
    destruct (add_at_rest s' Hnf Hp) as [Hu|?]; [|auto].
    destruct (stopped_at_rest s' Hnf Hp (Hd' Hd) Hu); auto. }
  split_and!; [|done|].
  - intros k s' Hk. pose proof (nsteps_measure work _ k s s' loop_step_work Hk). lia.
  - intros Hr s' Hs' Hnf. destruct (no_new_request_run _ _ Hs') as (_ & _ & Hr').
    destruct (roomy_not_blocked s' (Hr' Hr)). by destruct (Hrest s' Hs' Hnf) as [|[|]].
Qed.
End properties.

(** ** The retry goroutine *)

(** What the documentation of the queue says of [ShutDown]: additions are ignored, [Get] still hands
    out what is left and then reports the shutdown.  [q_left] counts what is left, [q_shut] says that
    the queue was shut down. *)
Class ShutDownLaws `{RateLimitingQueue} := {
  q_shut : Queue → Prop;
  q_left : Queue → nat;
  shut_ShutDown q : q_shut (q_ShutDown q);
  shut_Add q id : q_shut q → q_shut (q_Add q id) ∧ q_left (q_Add q id) ≤ q_left q;
  shut_AddRateLimited q id :
    q_shut q → q_shut (q_AddRateLimited q id) ∧ q_left (q_AddRateLimited q id) ≤ q_left q;
  shut_Forget q id : q_shut q → q_shut (q_Forget q id) ∧ q_left (q_Forget q id) ≤ q_left q;
  shut_Done q id : q_shut q → q_shut (q_Done q id) ∧ q_left (q_Done q id) ≤ q_left q;
  shut_Get q : q_shut q → ∃ item q', q_Get q = Some (item, q') ∧ q_shut q' ∧
    (is_Some item → q_left q' < q_left q)
}.

Section retry_goroutine.
Context `{Client W} `{!GCTrackerInterface W} `{!EventRecorder W} `{SchemeInterface} `{ExpirableLRU}
  `{RangeOrder} `{ThirdParty} `{RateLimitingQueue}.

(** What the rest of the program does before a turn, and to the calls of [AddEvent] in it: [None] when
    the call never returns, else the world when it does. *)
Record Meanwhile := mkMeanwhile {
  mw_round : Round (W := W);
  mw_AddEvent : EventInfo → option (W → W)
}.

(** The calls, in order; [None] when one of them never returns. *)
Fixpoint run_adding (AddEvent : EventInfo → option (W → W)) (adding : Adding W) (w : W) : option W :=
  match adding with
  | Returned => Some w
  | CallAddEvent event continue =>
      match AddEvent event with
      | None => None
      | Some f => let '(w, adding) := continue (f w) in run_adding AddEvent adding w
      end
  end.

Inductive RetryEnd := StillRunning | HasReturned | HasPanicked | WaitsForQueue | WaitsInAddEvent.

(** The loop of the retry goroutine. *)
Fixpoint retry_goroutine (so : StageOrchestrator) (meanwhile : list Meanwhile) (e : InMemoryEngine) (q : batchQueue)
    (w : W) : RetryEnd :=
  match meanwhile with
  | [] => StillRunning
  | m :: meanwhile =>
      let r := mw_round m in
      let '(w, turn) := processRetryQueue so (rd_engine r e) (rd_queue r q) (rd_now r) (rd_world r w) in
      match turn with
      | Blocked => WaitsForQueue
      | Returns => HasReturned
      | Continues _ _ _ _ RPanic => HasPanicked
      | Continues e q adding handled _ =>
          match run_adding (mw_AddEvent m) adding w with
          | None => WaitsInAddEvent
          | Some w => retry_goroutine so meanwhile e (bq_Done q handled) w
          end
      end
  end.

(** The goroutine that waits for the end of the context. *)
Definition on_done (q : batchQueue) : batchQueue := bq_ShutDown q.
End retry_goroutine.

Section retry_goroutine_correct.
Context `{Client W} `{!GCTrackerInterface W} `{!EventRecorder W} `{SchemeInterface} `{ExpirableLRU}
  `{RangeOrder} `{ThirdParty} `{ShutDownLaws}.
Implicit Types (q : batchQueue).

(** [q'] is what is left of the closed queue [q]. *)
Definition drained_to q q' : Prop :=
  q_shut (bq_queue q) → q_shut (bq_queue q') ∧ q_left (bq_queue q') ≤ q_left (bq_queue q).

Lemma drained_refl q : drained_to q q.
Proof. by intros ?. Qed.

Lemma drained_trans q1 q2 q3 : drained_to q1 q2 → drained_to q2 q3 → drained_to q1 q3.
Proof. intros H12 H23 [Hs ?]%H12. destruct (H23 Hs). split; [done|lia]. Qed.

(** The operations of the batch queue after the shutdown: nothing is added any more. *)
Lemma bq_drained q b :
  drained_to q (bq_Add q b) ∧ drained_to q (bq_AddRateLimited q b) ∧ drained_to q (bq_Forget q b) ∧
  drained_to q (bq_Done q b).
Proof.
  destruct b as [b|]; simpl; [|by split_and!; apply drained_refl]. unfold drained_to. simpl.
  split_and!; eauto using shut_Add, shut_AddRateLimited, shut_Forget, shut_Done.
Qed.

Lemma processBatchWithRetry_drained so e q now b w :
  drained_to q (processBatchWithRetry so e q now b w).2.1.1.2.
Proof.
  unfold processBatchWithRetry. unfold bind at 1. destruct (processBatch so e now b w) as [w1 [[[e1 b1] res] f]].
  destruct res as [[]|err|]; [apply bq_drained| |apply drained_refl].
  cbv zeta. destruct (_ <=? _)%Z; unfold bind.
  - destruct (emitEvent _ _ _ _ _ w1) as [w2 []]. apply bq_drained.
  - destruct (handlePermanentFailure _ _ _ _ _ _ w1) as [w2 [e2 adding]]. apply bq_drained.
Qed.

(** A turn on a closed queue returns, or uses up an item. *)
Lemma processRetryQueue_drains so e q now w :
  q_shut (bq_queue q) →
  match (processRetryQueue so e q now w).2 with
  | Blocked => False
  | Returns => True
  | Continues _ q' _ handled _ =>
      q_shut (bq_queue (bq_Done q' handled)) ∧ q_left (bq_queue (bq_Done q' handled)) < q_left (bq_queue q)
  end.
Proof.
  intros (item & qu & Hget & Hs & Hlt)%shut_Get. unfold processRetryQueue, bq_Get. rewrite Hget.
  destruct item as [id|]; [|done]. specialize (Hlt ltac:(eauto)).
  destruct (bq_batches q !! id) as [b|]; simpl.
  - unfold bind.
    pose proof (processBatchWithRetry_drained so e (mkBatchQueue qu (bq_batches q)) now b w) as Hq.
    destruct (processBatchWithRetry _ _ _ _ _ w) as [w1 [[[e1 q1] adding] res]]. simpl in *.
    destruct (Hq Hs) as [Hs1 ?]. destruct (bq_drained q1 (Some b)) as (_ & _ & _ & Hd).
    destruct (Hd Hs1) as [? ?]. simpl in *. split; [done|lia].
  - destruct (shut_Done qu id Hs) as [Hs1 ?]. destruct (shut_Forget _ id Hs1). split; [done|lia].
Qed.

(** C24. The retry goroutine stops.  Once the queue is shut down the goroutine does not wait for the queue any
    more: within as many turns as there were batches left, and one, it has returned, or a stage has
    panicked, or it waits for ever in a call of [AddEvent] it makes for a batch that was given up; so it
    returns or panics if the calls of [AddEvent] return.  This holds whatever the rest of the program
    adds to the queue or takes from it and however the cluster answers meanwhile; a batch that fails
    again is not queued any more.  That a call of [AddEvent] may not return is [late_add_blocks]. *)
Theorem retry_goroutine_stops so meanwhile e q w :
  Forall (λ m, ∀ q, drained_to q (rd_queue (mw_round m) q)) meanwhile →
  q_left (bq_queue (on_done q)) < length meanwhile →
  let res := retry_goroutine so meanwhile e (on_done q) w in
  (res = HasReturned ∨ res = HasPanicked ∨ res = WaitsInAddEvent) ∧
  (Forall (λ m, ∀ event, is_Some (mw_AddEvent m event)) meanwhile → res = HasReturned ∨ res = HasPanicked).
Proof.
  assert (q_shut (bq_queue (on_done q))) as Hs by apply shut_ShutDown. revert Hs. generalize (on_done q). clear q.
  intros q Hs Hrounds. cbv zeta. revert e q w Hs.
  induction Hrounds as [|m meanwhile Hr _ IH]; intros e q w Hs Hlen; simpl in *; [lia|].
  destruct (Hr q Hs) as [Hs1 ?].
  pose proof (processRetryQueue_drains so (rd_engine (mw_round m) e) _ (rd_now (mw_round m)) (rd_world (mw_round m) w) Hs1) as Ht.
  destruct (processRetryQueue _ _ _ _ _) as [w' [| |e' q' adding handled res]]; simpl in Ht; [done|by auto|].
  destruct Ht as [Hs' ?].
  assert (∀ m w, (∀ event, is_Some (mw_AddEvent m event)) → is_Some (run_adding (mw_AddEvent m) adding w)) as Hadd.
  { clear. intros m w Hm. revert adding w. fix IHa 1. intros [|event continue] w; simpl; [done|].
    destruct (Hm event) as [f ->]. pose proof (λ w0, IHa (continue w0).2 (continue w0).1) as IHc.
    specialize (IHc (f w)). by destruct (continue (f w)). }
  destruct res; [| |by auto].
  all: destruct (run_adding (mw_AddEvent m) adding w') as [w2|] eqn:Hrun;
    [destruct (IH e' (bq_Done q' handled) w2) as [IH1 IH2]; [done|lia|]; split; [done|]; intros [_ Hall]%Forall_cons; auto
    |split; [auto|]; intros [Hm _]%Forall_cons; destruct (Hadd m w' Hm); congruence].
Qed.
End retry_goroutine_correct.

(** The queue without delays obeys the laws. *)
Definition simple_left (q : SimpleQueue) : nat := length (sq_waiting q) + size (sq_again q).

Lemma simple_Done_left q id : simple_left (@q_Done reference_queue q id) ≤ simple_left q.
Proof.
  unfold simple_left. simpl. rewrite length_app. case_decide as Hid; simpl.
  - rewrite size_difference by set_solver. rewrite size_singleton.
    assert (size (sq_again q) ≠ 0) by (intros Hz%size_empty_inv; set_solver). lia.
  - assert (sq_again q ∖ {[id]} = sq_again q) as -> by set_solver. lia.
Qed.

Definition reference_shutdown : @ShutDownLaws reference_queue.
Proof.
  refine {| q_shut := (λ q : @Queue reference_queue, sq_down q = true);
            q_left := (simple_left : @Queue reference_queue → nat) |}; simpl.
  - done.
  - intros q id Hq. unfold simple_add. by rewrite Hq.
  - intros q id Hq. unfold simple_add. simpl. by rewrite Hq.
  - done.
  - intros q id Hq. split; [done|]. apply simple_Done_left.
  - intros q Hq. unfold simple_left. destruct (sq_waiting q) as [|id l] eqn:Hw.
    + rewrite Hq. eexists None, _. split; [done|]. split; [done|]. by intros [? ?].
    + eexists (Some id), _. split; [done|]. simpl. split; [done|]. lia.
Defined.

(** ** Adding events during the shutdown *)

Section add_blocks.
Context `{RangeOrder}.

(** The debouncer has returned and an [AddEvent] waits for room in its channel. *)
Definition stuck_add (s : Running) : Prop :=
  rn_debouncer s = false ∧ pc_add (rn_ec s) = Some ADebounce ∧
  timeChanCap ≤ deb_timeChan (ec_eventDebouncer (rn_ec s)).

Lemma exec_stuck_add a ec ec' :
  exec a ec = Some ec' → owner a ≠ Some GDebouncer →
  pc_add ec = Some ADebounce → timeChanCap ≤ deb_timeChan (ec_eventDebouncer ec) →
  pc_add ec' = Some ADebounce ∧ ec_eventDebouncer ec' = ec_eventDebouncer ec.
Proof.
  intros Ha Ho Hadd Hfull. assert (unlocked ec = false) as Hu by (unfold unlocked; by rewrite Hadd).
  destruct a as [event| | | | | | | | |f|f|f|]; try done; try destruct f; cbn [exec] in Ha;
    unfold AddEvent_store, AddEvent_Debounce, Debounce, AddEvent_trigger, loop_receive, triggerReconcile,
      orchestrator_flush, collectEventsIntoBatch, sendBatch, sendBatch_default, orchestrator_receive in Ha;
    rewrite ?Hu, ?Hadd in Ha; try done; try (rewrite bool_decide_eq_false_2 in Ha by lia; done);
    repeat case_match; by simplify_eq.
Qed.

Lemma stuck_add_step P s s' : loop_step P s s' → stuck_add s → stuck_add s'.
Proof.
  intros (a & _ & [_ Ha]%loop_exec_spec) (Hd & Hadd & Hfull). unfold stuck_add. destruct a as [a| |g|].
  - apply run_step_spec in Ha as (Hown & ec & Hec & ->).
    destruct (exec_stuck_add _ _ _ Hec) as [Hadd' Hdeb]; [|done|done|].
    { intros Ho. specialize (Hown _ Ho). simpl in Hown. congruence. }
    by destruct (is_send a && negb (rn_collector s)); simpl; rewrite Hdeb.
  - destruct (rn_done s); [done|]. by injection Ha as <-.
  - apply ctx_done_spec in Ha as (_ & _ & _ & ->). by destruct g.
  - by apply channel_closed_spec in Ha as (_ & _ & _ & _ & ->).
Qed.

Lemma stuck_add_forever P s s' : rtc (loop_step P) s s' → stuck_add s → stuck_add s'.
Proof. induction 1; [done|]. eauto using stuck_add_step. Qed.
End add_blocks.

(** ** Examples *)

Module LifecycleExamples.
Import InMemory ResourceExamples PipelineExamples CollectorExamples RetryExamples.
#[local] Existing Instance range_forward.
#[local] Existing Instance reference_third_party.
#[local] Existing Instance reference_lru.
#[local] Existing Instance reference_queue.
#[local] Existing Instance reference_shutdown.

Definition running (l : list LoopAction) : Running := default (Start 100) (loop_exec_all l (Start 100)).

Lemma loop_exec_all_rtc (P : LoopAction → bool) l s s' :
  forallb P l = true → loop_exec_all l s = Some s' → rtc (loop_step P) s s'.
Proof.
  revert s. induction l as [|a l IH]; intros s; simpl; [by intros _ [= ->]|].
  intros [Ha Hl]%andb_true_iff Hs. destruct (loop_exec a s) as [s1|] eqn:Hs1; [|done].
  eapply rtc_l; [exists a; by rewrite Ha|by apply IH].
Defined.

Lemma running_rtc (P : LoopAction → bool) l :
  forallb P l = true → loop_exec_all l (Start 100) ≠ None → rtc (loop_step P) (Start 100) (running l).
Proof.
  intros HP Hl. unfold running. destruct (loop_exec_all l (Start 100)) as [s|] eqn:Hs; [|done].
  by apply (loop_exec_all_rtc P l).
Defined.

Definition one_add (e : EventInfo) : list LoopAction := [Run (ActAdd e); Run ActDebounce; Run ActTrigger].

(** The collector returns at once, with an event pending. *)
Definition closed : Running := running (one_add app_event ++ [Cancel; Done GCollector]).

Lemma no_send_on_closed_channel_witness : rn_panicked closed = false ∧ rn_collector closed = false.
Proof.
  assert (rtc (loop_step no_follow_up) (Start 100) closed) as Hs by (apply running_rtc; by vm_compute).
  split; [apply (no_send_on_closed_channel 100 closed Hs)|by vm_compute].
Defined.

(** Were a follow-up scheduled, a flush after the collector has returned would end the program. *)
Example follow_up_panics :
  rn_panicked (running (one_add app_event ++
    [Run ActTriggerReconcile; Cancel; Done GCollector; Run ActOrchestratorFlush; Run (ActCollect Orchestrator);
     Run (ActSend Orchestrator)])) = true.
Proof. by vm_compute. Qed.

Definition cancelled : Running := running (one_add app_event ++ [Cancel]).

Lemma shutdown_ends_witness :
  (∀ k s', nsteps (loop_step no_new_request) k cancelled s' → k ≤ 11) ∧
  (∀ s', rtc (loop_step no_new_request) cancelled s' → nf (loop_step no_new_request) s' → all_stopped s').
Proof.
  assert (rtc (loop_step no_follow_up) (Start 100) cancelled) as Hs by (apply running_rtc; by vm_compute).
  assert (work cancelled = 11) as Hw by by vm_compute.
  assert (roomy (rn_ec cancelled)) as Hr by (split; [by vm_compute|by apply Nat.leb_le]).
  rewrite <- Hw. split; [apply (shutdown_ends 100 cancelled Hs eq_refl)|].
  by apply (shutdown_ends 100 cancelled Hs eq_refl).
Defined.

(** All three return after the pending event was delivered. *)
Example stops_after_delivery :
  let s := running (one_add app_event ++
    [Cancel; Run ActDebouncerReceive; Run ActDebouncerTick; Run ActDebouncerCallback; Run ActLoopReceive;
     Run (ActCollect Loop); Run (ActSend Loop); Done GCollector; Done GDebouncer; Run ActOrchestratorReceive;
     ChannelClosed]) in
  (∀ g, rn_runs g s = false) ∧ delivered (rn_ec s) = [mkSent 1 [app_event]].
Proof. split; [intros []; by vm_compute|by vm_compute]. Qed.

(** A hundred events come in after the debouncer has returned, and one more. *)
Definition late_adds : Running :=
  running ([Cancel; Done GDebouncer] ++ mjoin (replicate 100 (one_add app_event)) ++ [Run (ActAdd app_event)]).

(** [AddEvent] does not look at the context: the debouncer's channel has room for a hundred
    events after its goroutine has returned; the next [AddEvent] waits for ever and holds the
    collector's lock, with every later caller behind it, whatever else happens. *)
Theorem late_add_blocks :
  rtc (loop_step no_follow_up) (Start 100) late_adds ∧
  ∀ s', rtc (loop_step (λ _, true)) late_adds s' → pc_add (rn_ec s') = Some ADebounce.
Proof.
  split; [apply running_rtc; by vm_compute|]. intros s' Hs. refine (proj1 (proj2 (stuck_add_forever _ _ _ Hs _))).
  split_and!; [by vm_compute|by vm_compute|by apply Nat.leb_le; vm_compute].
Qed.

(** A failed batch waits in the queue when it is shut down. *)
Definition failed_queue : batchQueue := first_attempt.2.1.1.2.

(** Nothing else happens, and calls return at once. *)
Definition idle : Meanwhile := mkMeanwhile quiet (λ _, Some id).

Lemma retry_goroutine_stops_witness :
  let res := retry_goroutine orchestrator (replicate 2 idle) engine0 (on_done failed_queue) no_agents in
  res = HasReturned ∨ res = HasPanicked.
Proof.
  apply (retry_goroutine_stops orchestrator (replicate 2 idle) engine0 failed_queue no_agents).
  - apply Forall_replicate. intros q. apply drained_refl.
  - by apply Nat.ltb_lt; vm_compute.
  - apply Forall_replicate. intros event. by eexists.
Defined.

(** It is handled once more, and then the goroutine returns. *)
Example drained_once :
  retry_goroutine orchestrator (replicate 1 idle) engine0 (on_done failed_queue) no_agents = StillRunning ∧
  retry_goroutine orchestrator (replicate 2 idle) engine0 (on_done failed_queue) no_agents = HasReturned.
Proof. split; by vm_compute. Qed.

(** With no retry left, its resource is put back; if that call never returns, neither does the goroutine. *)
Definition exhausted_queue : batchQueue :=
  mkBatchQueue (q_Add (q_AddRateLimited (q_AddRateLimited (q_AddRateLimited q_new "b") "b") "b") "b") {["b" := batch0]}.
Definition stuck : Meanwhile := mkMeanwhile quiet (λ _, None).

Example last_attempt_may_wait :
  retry_goroutine orchestrator (replicate 2 stuck) engine0 (on_done exhausted_queue) no_agents = WaitsInAddEvent ∧
  retry_goroutine orchestrator (replicate 2 idle) engine0 (on_done exhausted_queue) no_agents = HasReturned.
Proof. split; by vm_compute. Qed.
End LifecycleExamples.
