(* ===== verification/System.v ===== *)
(** * From an event to its batch's end

    The collector, the orchestrator's loop, the queue of retries and its goroutine as one system
    (src/internal/reconciliation): where every event that was added is, until the batch that carries it
    has succeeded or was given up.  The collector's steps are those of [Collector]; handling a batch is
    [processBatchWithRetry] of [Retry], on any engine and any cluster, since other goroutines use them
    at the same time, followed by the calls of [AddEvent] it leaves, which are steps of the collector and may
    wait. *)

From Stdlib Require Import ZArith.
From S2P Require Import Prelude GoLib Api Scopes ServiceAccounts Access Cluster Resources Engine Pipeline Collector Retry Lifecycle.

(** ** The queue of retries over time

    What the documentation of client-go's queue says while it is open: an item that was added, at once
    or after a delay, is handed out later, and processed again when it was added while it was processed. *)
Class QueueHoldsLaws `{RateLimitingQueue} := {
  q_open : Queue → Prop;
  q_holds : Queue → string → Prop;
  q_evolves : Queue → Queue → Prop;     (** a delay has passed *)
  open_new : q_open q_new;
  open_AddRateLimited q id : q_open q → q_open (q_AddRateLimited q id);
  open_Forget q id : q_open q → q_open (q_Forget q id);
  open_Done q id : q_open q → q_open (q_Done q id);
  open_Get q item q' : q_Get q = Some (item, q') → q_open q → q_open q' ∧ is_Some item;
  open_evolves q q' : q_evolves q q' → q_open q → q_open q';
  holds_AddRateLimited q id id' : q_open q → id' = id ∨ q_holds q id' → q_holds (q_AddRateLimited q id) id';
  holds_Forget q id id' : q_holds q id' → q_holds (q_Forget q id) id';
  holds_Done q id id' : q_holds q id' → q_holds (q_Done q id) id';
  holds_Get q id q' id' : q_Get q = Some (Some id, q') → q_holds q id' → id' = id ∨ q_holds q' id';
  holds_evolves q q' id : q_evolves q q' → q_holds q id → q_holds q' id
}.

(** ** The system *)

(** The two goroutines that handle batches. *)
Inductive Handler := HLoop | HRetry.

#[export] Instance Handler_eq_dec : EqDecision Handler.
Proof. solve_decision. Defined.

(** What such a goroutine is doing: nothing; [processBatchWithRetry], up to the first call of [AddEvent];
    what is left of [requeueFailedResources], about to make a call or to return; waiting for a call to
    return, the one that adds the event numbered [n]. *)
Inductive Activity (W : Type) :=
| Idle
| Handling (b : Batch)
| Requeueing (b : Batch) (adding : Adding W)
| InAddEvent (b : Batch) (n : nat) (continue : W → W * Adding W).
Arguments Idle {W}.
Arguments Handling {W} _.
Arguments Requeueing {W} _ _.
Arguments InAddEvent {W} _ _ _.

(** The call that added the event numbered [n] has returned: nobody holds the lock, or a later call has
    taken it. *)
Definition call_returned (n : nat) (ec : EventCollector) : bool :=
  unlocked ec || bool_decide (S n < length (added ec)).

Inductive Ending := Succeeded | GivenUp.

Section system.
Context `{Client W} `{!GCTrackerInterface W} `{!EventRecorder W} `{SchemeInterface} `{ExpirableLRU}
  `{RangeOrder} `{ThirdParty} `{QueueHoldsLaws}.

Record System := mkSystem {
  sy_ec : EventCollector;
  sy_queue : batchQueue;
  sy_loop : Activity W;
  sy_retry : Activity W;
  sy_origins : gmap string Sent;        (** bookkeeping: the batch of the collector an identifier stands for *)
  sy_endings : gmap string Ending       (** bookkeeping *)
}.

Definition NewSystem (maxBatchSize : Z) : System :=
  mkSystem (NewEventCollector maxBatchSize) NewBatchQueue Idle Idle ∅ ∅.

Definition activity (h : Handler) (s : System) : Activity W :=
  match h with HLoop => sy_loop s | HRetry => sy_retry s end.

Definition set_collector ec s : System :=
  mkSystem ec (sy_queue s) (sy_loop s) (sy_retry s) (sy_origins s) (sy_endings s).
Definition set_queue q s : System :=
  mkSystem (sy_ec s) q (sy_loop s) (sy_retry s) (sy_origins s) (sy_endings s).
Definition set_activity h a s : System :=
  mkSystem (sy_ec s) (sy_queue s) (match h with HLoop => a | HRetry => sy_loop s end)
    (match h with HLoop => sy_retry s | HRetry => a end) (sy_origins s) (sy_endings s).
Definition set_origin id sent s : System :=
  mkSystem (sy_ec s) (sy_queue s) (sy_loop s) (sy_retry s) (<[id := sent]> (sy_origins s)) (sy_endings s).
Definition set_ending id ending s : System :=
  mkSystem (sy_ec s) (sy_queue s) (sy_loop s) (sy_retry s) (sy_origins s)
    (match ending with Some e => <[id := e]> (sy_endings s) | None => sy_endings s end).

(** How [processBatchWithRetry] left a batch; [None] when it will be retried. *)
Definition ending_of (res : Outcome) (queue : batchQueue) (id : string) : option Ending :=
  match res, bq_batches queue !! id with
  | ROk _, _ => Some Succeeded
  | _, None => Some GivenUp
  | _, Some _ => None
  end.

(** The retry goroutine calls [Done] when it is through. *)
Definition done_by (h : Handler) (b : Batch) (queue : batchQueue) : batchQueue :=
  match h with HLoop => queue | HRetry => bq_Done queue (Some b) end.

Inductive sys_step (so : StageOrchestrator) : System → System → Prop :=
(** A step of the collector's system, other than the orchestrator's receive; the orchestrator only
    flushes between batches. *)
| step_collector a s ec :
    a ≠ ActOrchestratorReceive → (owner a = Some GOrchestrator → sy_loop s = Idle) →
    exec a (sy_ec s) = Some ec → sys_step so s (set_collector ec s)
(** The orchestrator receives a batch and gives it a new identifier. *)
| step_receive s sent rest id now ec :
    sy_loop s = Idle → sy_origins s !! id = None →
    ec_batchReadyCh (sy_ec s) = sent :: rest → orchestrator_receive (sy_ec s) = Some ec →
    sys_step so s (set_origin id sent (set_activity HLoop (Handling (NewBatch id now (sent_events sent)))
      (set_collector ec s)))
(** A goroutine has handled its batch; a panic ends the program. *)
| step_handled h s b e now w w' e' queue adding :
    activity h s = Handling b →
    processBatchWithRetry so e (sy_queue s) now b w = (w', (e', queue, adding, ROk ())) →
    sys_step so s (set_ending (b_ID b) (ending_of (processBatch so e now b w).2.1.2 queue (b_ID b))
      (set_activity h (Requeueing b adding) (set_queue queue s)))
(** It calls [AddEvent] for a resource of a failed batch, and gets the lock; it waits for the call to
    return, reads the next resource in some world, and so on; then it is through. *)
| step_add h s b event continue ec :
    activity h s = Requeueing b (CallAddEvent event continue) → exec (ActAdd event) (sy_ec s) = Some ec →
    sys_step so s (set_activity h (InAddEvent b (length (added (sy_ec s))) continue) (set_collector ec s))
| step_add_returns h s b n continue w w' adding :
    activity h s = InAddEvent b n continue → call_returned n (sy_ec s) → continue w = (w', adding) →
    sys_step so s (set_activity h (Requeueing b adding) s)
| step_requeued h s b :
    activity h s = Requeueing b Returned →
    sys_step so s (set_activity h Idle (set_queue (done_by h b (sy_queue s)) s))
(** The retry goroutine takes a batch, or an identifier that is not known any more. *)
| step_get s batch queue :
    sy_retry s = Idle → bq_Get (sy_queue s) = Some (batch, false, queue) →
    sys_step so s (set_activity HRetry (match batch with Some b => Handling b | None => Idle end) (set_queue queue s))
(** Time passes in the queue. *)
| step_evolve s queue :
    q_evolves (bq_queue (sy_queue s)) queue →
    sys_step so s (set_queue (mkBatchQueue queue (bq_batches (sy_queue s))) s).
End system.

(** ** Where every batch is *)

Section accounting.
Context `{EventRecorderLaws W} `{SchemeInterface} `{ExpirableLRU} `{RangeOrder} `{ThirdPartyLaws}
  `{RateLimitingQueueLaws} `{!QueueHoldsLaws}.
Context (so : StageOrchestrator) (Hstages : so_stages so = staging_stages).
Implicit Types (s : System (W := W)) (id : string).

(** A batch that goes under an identifier has the resources of the batch the collector sent. *)
Definition from s id (b : Batch) : Prop :=
  b_ID b = id ∧ ∃ sent, sy_origins s !! id = Some sent ∧ batch_keys b = key_of <$> sent_events sent.

(** How an attempt ended that leaves the batch through: it succeeded, or failed with no retry left in
    the queue. *)
Definition outcome (q : batchQueue) (e : InMemoryEngine) now b (w : W) (ending : Ending) : Prop :=
  match ending with
  | Succeeded => (processBatch so e now b w).2.1.2 = ROk ()
  | GivenUp => ∃ err, (processBatch so e now b w).2.1.2 = RErr err ∧
      (so_maxRetries so ≤ q_NumRequeues (bq_queue q) (b_ID b))%Z
  end.

(** The last attempt of a batch ended so. *)
Definition ended s id (ending : Ending) : Prop :=
  ∃ q e now b (w : W), from s id b ∧ outcome q e now b w ending.

(** A batch is being handled, waits for its retry in a queue that will hand it out, or is through. *)
Definition located s id : Prop :=
  (∃ h b, activity h s = Handling b ∧ b_ID b = id) ∨
  (is_Some (bq_batches (sy_queue s) !! id) ∧ q_holds (bq_queue (sy_queue s)) id) ∨
  (∃ ending, sy_endings s !! id = Some ending ∧ ended s id ending).

Record sys_inv s : Prop := mkSysInv {
  si_open : q_open (bq_queue (sy_queue s));
  si_delivered b : b ∈ delivered (sy_ec s) → ∃ id, sy_origins s !! id = Some b;
  si_batches id b : bq_batches (sy_queue s) !! id = Some b → from s id b;
  si_activity h b : activity h s = Handling b → from s (b_ID b) b;
  si_located id : is_Some (sy_origins s !! id) → located s id
}.

Lemma keeps_ID : stages_keep_ID (so_stages so).
Proof. rewrite Hstages. apply staging_stages_keep_ID. Qed.

Lemma processBatch_keys e now b (w : W) : batch_keys (processBatch so e now b w).2.1.1.2 = batch_keys b.
Proof. apply processBatch_keep; [apply same_batch_keys|]. rewrite Hstages. apply staging_stages_keep_keys. Qed.

(** More origins are known, and no batch is forgotten. *)
Lemma from_mono s s' id b :
  (∀ sent, sy_origins s !! id = Some sent → sy_origins s' !! id = Some sent) → from s id b → from s' id b.
Proof. intros Ho (? & sent & ? & ?). split; [done|]. exists sent. auto. Qed.

Lemma ended_mono s s' id ending :
  (∀ sent, sy_origins s !! id = Some sent → sy_origins s' !! id = Some sent) → ended s id ending → ended s' id ending.
Proof. intros Ho (q & e & now & b & w & Hb & ?). exists q, e, now, b, w. split; [by eapply from_mono|done]. Qed.

(** A step that leaves the queue, the origins and the endings alone and drops no batch in hand. *)
Lemma sys_inv_same s s' :
  sy_queue s' = sy_queue s → sy_origins s' = sy_origins s → sy_endings s' = sy_endings s →
  (∀ h b, activity h s' = Handling b ↔ activity h s = Handling b) →
  delivered (sy_ec s') = delivered (sy_ec s) → sys_inv s → sys_inv s'.
Proof.
  intros Hq Ho He Ha Hd [H1' H2' H3' H4' H5']. split; unfold from; rewrite ?Hq, ?Ho, ?Hd; auto.
  - intros h b Hb%Ha. by apply (H4' h).
  - intros id Hid. destruct (H5' id Hid) as [(h & b & Hb & ?)|[?|(ending & ? & Hend)]].
    + left. exists h, b. by rewrite Ha.
    + right. left. by rewrite Hq.
    + right. right. exists ending. rewrite He. split; [done|].
      revert Hend. apply ended_mono. by rewrite Ho.
Qed.

Lemma exec_delivered a ec ec' :
  exec a ec = Some ec' → a ≠ ActOrchestratorReceive → delivered ec' = delivered ec.
Proof.
  intros Ha Hne. destruct a as [event| | | | | | | | |f|f|f|]; try done; try destruct f; cbn [exec] in Ha;
    unfold AddEvent_store, AddEvent_Debounce, AddEvent_trigger, collector_debouncer, debouncer_callback,
      loop_receive, triggerReconcile, orchestrator_flush, collectEventsIntoBatch, sendBatch, sendBatch_default in Ha;
    repeat case_match; by simplify_eq.
Qed.

Lemma inv_receive s sent rest id now ec :
  sy_loop s = Idle → sy_origins s !! id = None →
  ec_batchReadyCh (sy_ec s) = sent :: rest → orchestrator_receive (sy_ec s) = Some ec → sys_inv s →
  sys_inv (set_origin id sent (set_activity HLoop (Handling (NewBatch id now (sent_events sent))) (set_collector ec s))).
Proof.
  intros Hl Hid Hr Hec [H1' H2' H3' H4' H5'].
  assert (∀ s0 id0 sent0, sy_origins s0 !! id = None → sy_origins s0 !! id0 = Some sent0 →
    <[id := sent]> (sy_origins s0) !! id0 = Some sent0) as Hmono.
  { intros s0 id0 sent0 Hn Hs. rewrite lookup_insert_ne; [done|]. intros ->. by rewrite Hn in Hs. }
  unfold orchestrator_receive in Hec. rewrite Hr in Hec. destruct (pc_orchestrator (sy_ec s)); [|done..].
  injection Hec as <-. split; simpl.
  - done.
  - intros b [->|Hb]%elem_of_cons; [exists id; by rewrite lookup_insert_eq|].
    destruct (H2' b Hb) as [id' Hid']. exists id'. by apply Hmono.
  - intros id' b Hb%H3'. revert Hb. apply from_mono. intros sent'. simpl. by apply Hmono.
  - intros [] b; simpl.
    + intros [= <-]. split; [done|]. exists sent. simpl. rewrite lookup_insert_eq. split; [done|].
      unfold batch_keys, key_of. by rewrite NewBatch_resources, <-list_fmap_compose.
    + intros Hb%(H4' HRetry). revert Hb. apply from_mono. intros sent'. simpl. by apply Hmono.
  - intros id' Hid'. destruct (decide (id' = id)) as [->|Hne].
    { left. exists HLoop. eexists. by split. }
    rewrite lookup_insert_ne in Hid' by done.
    destruct (H5' id' Hid') as [(h & b & Hb & ?)|[?|(ending & ? & Hend)]].
    + left. destruct h; simpl in Hb; [by rewrite Hl in Hb|]. by exists HRetry, b.
    + right. by left.
    + right. right. exists ending. split; [done|]. revert Hend. apply ended_mono. intros sent'. simpl. by apply Hmono.
Qed.

(** What the handling of a batch does to the queue. *)
Lemma handled_queue e q now b w w' e' q' adding out :
  q_open (bq_queue q) →
  processBatchWithRetry so e q now b w = (w', (e', q', adding, out)) →
  q_open (bq_queue q') ∧ (∀ id, q_holds (bq_queue q) id → q_holds (bq_queue q') id) ∧
  (q' = q ∨ bq_batches q' !! b_ID b = None ∨ q_holds (bq_queue q') (b_ID b)).
Proof.
  intros Ho [->|(b' & Hid & [-> | ->])]%(processBatchWithRetry_queue _ _ _ _ _ _ _ _ _ _ _ keeps_ID);
    [by auto| |]; simpl.
  - split_and!; [by apply open_AddRateLimited| |].
    + intros id ?. apply holds_AddRateLimited; auto.
    + right. right. apply holds_AddRateLimited; auto.
  - split_and!; [by apply open_Forget|intros id; apply holds_Forget|]. right. left.
    rewrite <-Hid. by rewrite lookup_delete_eq.
Qed.

Lemma done_by_queue h b q :
  bq_batches (done_by h b q) = bq_batches q ∧
  (q_open (bq_queue q) → q_open (bq_queue (done_by h b q))) ∧
  (∀ id, q_holds (bq_queue q) id → q_holds (bq_queue (done_by h b q)) id).
Proof. destruct h; simpl; split_and!; auto using open_Done, holds_Done. Qed.

(** The outcome of an attempt: the batch is through, or it is in the queue with its key. *)
Lemma handled_outcome s e now b w w' e' q' adding :
  from s (b_ID b) b → q_open (bq_queue (sy_queue s)) →
  processBatchWithRetry so e (sy_queue s) now b w = (w', (e', q', adding, ROk ())) →
  (∀ b', bq_batches q' !! b_ID b = Some b' → from s (b_ID b) b') ∧
  match ending_of (processBatch so e now b w).2.1.2 q' (b_ID b) with
  | Some ending => outcome (sy_queue s) e now b w ending
  | None => is_Some (bq_batches q' !! b_ID b) ∧ q_holds (bq_queue q') (b_ID b)
  end ∧
  ∀ id, id ≠ b_ID b → bq_batches q' !! id = bq_batches (sy_queue s) !! id.
Proof.
  intros Hfrom Hopen Hrun. pose proof (handled_queue _ _ _ _ _ _ _ _ _ _ Hopen Hrun) as (_ & _ & Hq).
  pose proof (processBatchWithRetry_spec so e (sy_queue s) now b w keeps_ID) as Hs. cbv zeta in Hs. rewrite Hrun in Hs.
  pose proof (processBatch_ID so e now b w keeps_ID) as Hid. pose proof (processBatch_keys e now b w) as Hk.
  unfold outcome. destruct (processBatch so e now b w) as [w1 [[[e1 b1] res] f]]. simpl in Hid, Hk |- *.
  destruct Hs as [Hs Hother]. unfold ending_of. destruct res as [[]|err|]; [| |by destruct Hs].
  - destruct Hs as (_ & _ & _ & Hnone & _). rewrite Hnone.
    split; [done|]. split; [done|apply Hother].
  - destruct Hs as [_ [(_ & _ & _ & Hb & Hn)|(Hge & [Hnone _] & _)]].
    + rewrite Hb. split; [|split; [|apply Hother]].
      * intros b' [= <-]. destruct Hfrom as (_ & sent & ? & ?). split; [done|]. exists sent. split; [done|].
        change (batch_keys (set_LastError err b1)) with (batch_keys b1). congruence.
      * split; [done|]. destruct Hq as [-> |[?|?]]; [lia|congruence|done].
    + rewrite Hnone. split; [done|]. split; [by exists err|apply Hother].
Qed.

Lemma inv_handled h s b e now w w' e' queue adding :
  activity h s = Handling b →
  processBatchWithRetry so e (sy_queue s) now b w = (w', (e', queue, adding, ROk ())) → sys_inv s →
  sys_inv (set_ending (b_ID b) (ending_of (processBatch so e now b w).2.1.2 queue (b_ID b))
    (set_activity h (Requeueing b adding) (set_queue queue s))).
Proof.
  intros Hh Hrun [H1' H2' H3' H4' H5'].
  destruct (handled_outcome s e now b w w' e' queue adding (H4' _ _ Hh) H1' Hrun) as (Hfrom & Hend & Hother).
  destruct (handled_queue _ _ _ _ _ _ _ _ _ _ H1' Hrun) as (Hopen & Hholds & _). revert Hend.
  generalize (ending_of (processBatch so e now b w).2.1.2 queue (b_ID b)). intros ending Hend. split.
  - done.
  - done.
  - intros id b' Hb'. change (from s id b'). change (bq_batches queue !! id = Some b') in Hb'.
    destruct (decide (id = b_ID b)) as [->|Hne]; [by apply Hfrom|]. rewrite Hother in Hb' by done. by apply H3'.
  - intros h' b' Hb'. change (from s (b_ID b') b'). apply (H4' h'). by destruct h, h'.
  - intros id Hid. change (is_Some (sy_origins s !! id)) in Hid. destruct (decide (id = b_ID b)) as [->|Hne].
    { right. destruct ending as [ending|]; [right|by left].
      exists ending. split; [by apply lookup_insert_eq|]. exists (sy_queue s), e, now, b, w.
      split; [by apply (H4' h)|done]. }
    destruct (H5' id Hid) as [(h' & b' & Hb' & Heq)|[[? ?]|(ending' & He & Hend')]].
    + left. exists h', b'. split; [|done]. destruct h, h'; simpl in *; congruence.
    + right. left. simpl. rewrite Hother by done. auto.
    + right. right. exists ending'. split; [|done]. simpl.
      destruct ending; [by rewrite lookup_insert_ne by done|done].
Qed.

Lemma inv_requeued h s b :
  activity h s = Requeueing b Returned → sys_inv s →
  sys_inv (set_activity h Idle (set_queue (done_by h b (sy_queue s)) s)).
Proof.
  intros Hh [H1' H2' H3' H4' H5']. destruct (done_by_queue h b (sy_queue s)) as (Hbs & Hdo & Hdh).
  assert (∀ h' b', activity h' (set_activity h Idle (set_queue (done_by h b (sy_queue s)) s)) = Handling b' ↔
    activity h' s = Handling b') as Ha.
  { intros h' b'. destruct h, h'; simpl in *; try done; by rewrite Hh. }
  split.
  - by apply Hdo.
  - done.
  - intros id b' Hb'. change (from s id b'). simpl in Hb'. rewrite Hbs in Hb'. by apply H3'.
  - intros h' b' Hb'. change (from s (b_ID b') b'). apply (H4' h'). by apply Ha.
  - intros id Hid. destruct (H5' id Hid) as [(h' & b' & Hb' & ?)|[[Hin ?]|?]]; [left|right; left|by right; right].
    + exists h', b'. by rewrite Ha.
    + simpl. rewrite Hbs. auto.
Qed.

Lemma inv_get s batch queue :
  sy_retry s = Idle → bq_Get (sy_queue s) = Some (batch, false, queue) → sys_inv s →
  sys_inv (set_activity HRetry (match batch with Some b => Handling b | None => Idle end) (set_queue queue s)).
Proof.
  unfold bq_Get. intros Hr Hget [H1' H2' H3' H4' H5'].
  destruct (q_Get (bq_queue (sy_queue s))) as [[item q]|] eqn:Hq; [|done].
  destruct (open_Get _ _ _ Hq H1') as [Ho [id ->]].
  assert (∀ id', q_holds (bq_queue (sy_queue s)) id' → id' = id ∨ q_holds q id') as Hh by (intros id'; by apply holds_Get).
  destruct (bq_batches (sy_queue s) !! id) as [b|] eqn:Hb; injection Hget as <- <-; split; simpl; try done.
  - intros [] b'; simpl; [apply (H4' HLoop)|]. intros [= <-]. pose proof (H3' _ _ Hb) as Hfrom.
    by rewrite (proj1 Hfrom).
  - intros id' Hid'. destruct (H5' id' Hid') as [(h & b' & Hb' & ?)|[[Hs ?]|Hend]]; [| |by right; right].
    + left. destruct h; simpl in Hb'; [by exists HLoop, b'|by rewrite Hr in Hb'].
    + destruct (Hh id') as [->|?]; [done| |right; left; by split].
      left. exists HRetry, b. split; [done|]. apply (H3' _ _ Hb).
  - by apply open_Forget, open_Done.
  - intros [] b'; simpl; [apply (H4' HLoop)|done].
  - intros id' Hid'. destruct (H5' id' Hid') as [(h & b' & Hb' & ?)|[[Hs ?]|Hend]]; [| |by right; right].
    + left. destruct h; simpl in Hb'; [by exists HLoop, b'|by rewrite Hr in Hb'].
    + right. left. split; [done|]. simpl. destruct (Hh id') as [->|?]; [done| |by apply holds_Forget, holds_Done].
      rewrite Hb in Hs. by destruct Hs.
Qed.

Lemma sys_step_inv s s' : sys_step so s s' → sys_inv s → sys_inv s'.
Proof.
  intros [a s0 ec Hne Hown Hec|s0 sent rest id now ec Hl Hid Hr Hec|h s0 b e now w w' e' queue adding Hh Hrun
    |h s0 b event continue ec Hh Hec|h s0 b n continue w w' adding Hh _ _|h s0 b Hh
    |s0 batch queue Hr Hget|s0 queue Hev] Hinv.
  - revert Hinv. apply sys_inv_same; try done. by apply (exec_delivered a).
  - by eapply inv_receive.
  - by eapply inv_handled.
  - revert Hinv. apply sys_inv_same; try done; [|by apply (exec_delivered (ActAdd event))].
    intros h' b'. destruct h, h'; simpl in *; try done; by rewrite Hh.
  - revert Hinv. apply sys_inv_same; try done. intros h' b'. destruct h, h'; simpl in *; try done; by rewrite Hh.
  - by apply inv_requeued.
  - by eapply inv_get.
  - destruct Hinv as [H1' H2' H3' H4' H5']. split; simpl; try done; [by eapply open_evolves|].
    intros id Hid. destruct (H5' id Hid) as [?|[[? ?]|?]]; [by left| |by right; right].
    right. left. split; [done|]. by eapply holds_evolves.
Qed.

Lemma sys_reachable n s : rtc (sys_step so) (NewSystem n) s → sys_inv s ∧ rtc step (NewEventCollector n) (sy_ec s).
Proof.
  assert (∀ s1 s2, rtc (sys_step so) s1 s2 → sys_inv s1 ∧ rtc step (NewEventCollector n) (sy_ec s1) →
    sys_inv s2 ∧ rtc step (NewEventCollector n) (sy_ec s2)) as Hrtc.
  { induction 1 as [|s1 s2 s3 Hstep _ IH]; [done|]. intros [Hinv Hec]. apply IH. split; [by eapply sys_step_inv|].
    destruct Hstep; simpl; try done; (eapply rtc_r; [exact Hec|]); eauto using ex_intro.
    - by exists a.
    - by exists ActOrchestratorReceive.
    - by exists (ActAdd event). }
  intros Hs. apply (Hrtc _ _ Hs). split; [|done]. split; simpl.
  - apply open_new.
  - by intros b ?%elem_of_nil.
  - intros id b. by rewrite lookup_empty.
  - by intros [] b.
  - intros id. rewrite lookup_empty. by intros [? ?].
Qed.

(** Batches of the collector that the orchestrator has not received. *)
Definition undelivered (ec : EventCollector) : list Sent :=
  pc_batches (pc_loop ec) ++ pc_batches (pc_orchestrator ec) ++ ec_batchReadyCh ec.

(** The batch [b] was collected after the [i]-th event [e] was added, and holds it or a later one of
    its resource. *)
Definition carried (ec : EventCollector) (i : nat) (e : EventInfo) (b : Sent) : Prop :=
  i < sent_stamp b ∧ ∃ e', e' ∈ sent_events b ∧ stands_for ec e e'.

Lemma accounted n s i e :
  rtc (sys_step so) (NewSystem n) s → added (sy_ec s) !! i = Some e →
  (∃ e', ec_eventMap (sy_ec s) !! key_of e = Some e' ∧ stands_for (sy_ec s) e e') ∨
  (∃ b, b ∈ undelivered (sy_ec s) ∧ carried (sy_ec s) i e b) ∨
  (∃ id b, sy_origins s !! id = Some b ∧ carried (sy_ec s) i e b ∧ located s id).
Proof.
  intros [Hinv Hec]%sys_reachable Hi.
  destruct (inv_kept _ (inv_reachable n _ Hec) i e Hi) as [?|(b & e' & Hb & ? & ? & ?)]; [by left|right].
  assert (carried (sy_ec s) i e b) as Hcar by (split; [done|by exists e']).
  unfold in_flight in Hb. rewrite !app_assoc, elem_of_app, <-app_assoc in Hb. destruct Hb as [Hb|Hb].
  - left. by exists b.
  - right. destruct (si_delivered _ Hinv b Hb) as [id Hid]. exists id, b. split_and!; [done..|].
    by apply (si_located _ Hinv).
Qed.

(** Nothing is pending, on its way, in hand or in the queue. *)
Definition at_rest s : Prop :=
  ec_eventMap (sy_ec s) = ∅ ∧ undelivered (sy_ec s) = [] ∧ (∀ h b, activity h s ≠ Handling b) ∧
  bq_batches (sy_queue s) = ∅.

Lemma rest_ends n s i e :
  rtc (sys_step so) (NewSystem n) s → at_rest s → added (sy_ec s) !! i = Some e →
  ∃ id b ending, sy_origins s !! id = Some b ∧ carried (sy_ec s) i e b ∧
    sy_endings s !! id = Some ending ∧ ended s id ending.
Proof.
  intros Hs (Hm & Hu & Ha & Hq) Hi.
  destruct (accounted n s i e Hs Hi) as [(e' & He & _)|[(b & Hb & _)|(id & b & Hid & Hc & Hloc)]].
  - by rewrite Hm, lookup_empty in He.
  - rewrite Hu in Hb. by apply elem_of_nil in Hb.
  - destruct Hloc as [(h & b' & Hb' & _)|[[Hb' _]|(ending & ? & ?)]].
    + by destruct (Ha h b').
    + rewrite Hq, lookup_empty in Hb'. by destruct Hb'.
    + by exists id, b, ending.
Qed.

(** C11. Every event is accounted for.  However the goroutines, the delays of the queue and the answers
    of the cluster interleave, an event that was added is pending in the collector's map, or in a batch
    on its way to the orchestrator, or in a batch that was received and is being handled, or waits for
    its retry in a queue that will hand it out, or has succeeded, or was given up with no retry left.
    A newer event of the same resource may stand for it.  So when the system has come to rest, every
    event ever added was in a batch, collected after the event came in, that succeeded or that failed
    more often than the retries allow. *)
Theorem every_event_accounted (n : Z) (s : System) (i : nat) (e : EventInfo) :
  rtc (sys_step so) (NewSystem n) s → added (sy_ec s) !! i = Some e →
  ((∃ e', ec_eventMap (sy_ec s) !! key_of e = Some e' ∧ stands_for (sy_ec s) e e') ∨
   (∃ b, b ∈ undelivered (sy_ec s) ∧ carried (sy_ec s) i e b) ∨
   (∃ id b, sy_origins s !! id = Some b ∧ carried (sy_ec s) i e b ∧ located s id)) ∧
  (at_rest s → ∃ id b ending, sy_origins s !! id = Some b ∧ carried (sy_ec s) i e b ∧
    sy_endings s !! id = Some ending ∧ ended s id ending).
Proof. intros Hs Hi. split; [by apply (accounted n)|]. intros Hr. by apply (rest_ends n). Qed.
End accounting.

(** ** The queue without delays *)

Lemma simple_add_holds q id id' :
  sq_down q = false → id' = id ∨ id' ∈ sq_waiting q ∨ id' ∈ sq_again q →
  id' ∈ sq_waiting (simple_add q id) ∨ id' ∈ sq_again (simple_add q id).
Proof.
  intros Ho. unfold simple_add. rewrite Ho. case_decide as Hw; [naive_solver|].
  case_decide; simpl; rewrite ?elem_of_app; set_solver.
Qed.

Lemma simple_add_open q id : sq_down q = false → sq_down (simple_add q id) = false.
Proof. intros Ho. unfold simple_add. rewrite Ho. by repeat case_decide. Qed.

Definition reference_queue_holds : @QueueHoldsLaws reference_queue.
Proof.
  refine {| q_open := (λ q : @Queue reference_queue, sq_down q = false);
            q_holds := (λ (q : @Queue reference_queue) id, id ∈ sq_waiting q ∨ id ∈ sq_again q);
            q_evolves := (λ q q' : @Queue reference_queue, q' = q) |}; simpl.
  - done.
  - intros q id Ho. by apply simple_add_open.
  - done.
  - done.
  - intros q item q' Hget Ho. destruct (sq_waiting q); [by rewrite Ho in Hget|]. injection Hget as <- <-. eauto.
  - by intros q q' ->.
  - intros q id id' Ho Hor. by apply simple_add_holds.
  - done.
  - intros q id id' [Hin|Hin]; [left; set_solver|].
    destruct (decide (id' = id)) as [->|Hne]; [|right; set_solver].
    left. rewrite decide_True by done. set_solver.
  - intros q id q' id' Hget. destruct (sq_waiting q) as [|id0 l]; [by destruct (sq_down q)|].
    injection Hget as -> <-. simpl. rewrite elem_of_cons. tauto.
  - by intros q q' id ->.
Defined.

(** ** A run *)

Section runs.
Context `{Client W} `{!GCTrackerInterface W} `{!EventRecorder W} `{SchemeInterface} `{ExpirableLRU}
  `{RangeOrder} `{ThirdParty} `{QueueHoldsLaws}.
Implicit Types (s : System (W := W)).

(** The states after a batch was handled, after the retry goroutine took one, and after a goroutine
    that has nothing to put back is through. *)
Definition after_handled so h s (e : InMemoryEngine) now (w : W) : System :=
  match activity h s with
  | Handling b =>
      let r := processBatchWithRetry so e (sy_queue s) now b w in
      set_ending (b_ID b) (ending_of (processBatch so e now b w).2.1.2 r.2.1.1.2 (b_ID b))
        (set_activity h (Requeueing b r.2.1.2) (set_queue r.2.1.1.2 s))
  | _ => s
  end.

Definition after_requeued h (s : System (W := W)) : System :=
  match activity h s with
  | Requeueing b Returned => set_activity h Idle (set_queue (done_by h b (sy_queue s)) s)
  | _ => s
  end.

Definition after_get (s : System (W := W)) : System :=
  match bq_Get (sy_queue s) with
  | Some (batch, false, queue) =>
      set_activity HRetry (match batch with Some b => Handling b | None => Idle end) (set_queue queue s)
  | _ => s
  end.

Definition handled_ok so h s (e : InMemoryEngine) now (w : W) : bool :=
  match activity h s with
  | Handling b =>
      match (processBatchWithRetry so e (sy_queue s) now b w).2.2 with ROk _ => true | _ => false end
  | _ => false
  end.

Lemma handled_step so h s e now w :
  handled_ok so h s e now w = true → sys_step so s (after_handled so h s e now w).
Proof.
  unfold handled_ok, after_handled. destruct (activity h s) as [|b| |] eqn:Hh; try done.
  destruct (processBatchWithRetry so e (sy_queue s) now b w) as [w' [[[e' q'] adding] out]] eqn:Hrun.
  simpl. destruct out as [[]| |]; try done. intros _. by eapply step_handled.
Defined.

Lemma requeued_step so h (s : System (W := W)) :
  match activity h s with Requeueing _ Returned => true | _ => false end = true → sys_step so s (after_requeued h s).
Proof.
  unfold after_requeued. destruct (activity h s) as [| |b [|]|] eqn:Hh; try done. intros _. by apply step_requeued.
Defined.

Definition get_ok (s : System (W := W)) : bool :=
  match sy_retry s, bq_Get (sy_queue s) with Idle, Some (_, false, _) => true | _, _ => false end.

Lemma get_step so s : get_ok s = true → sys_step so s (after_get s).
Proof.
  unfold get_ok, after_get. destruct (sy_retry s) eqn:Hr; try done.
  destruct (bq_Get (sy_queue s)) as [[[batch []] queue]|] eqn:Hget; try done. intros _. by apply step_get.
Defined.

(** The collector works while the orchestrator waits. *)
Lemma collector_run so l s ec :
  sy_loop s = Idle → Forall (λ a, a ≠ ActOrchestratorReceive) l → exec_all l (sy_ec s) = Some ec →
  rtc (sys_step so) s (set_collector ec s).
Proof.
  intros Hl Hall. revert s Hl. induction Hall as [|a l Ha _ IH]; intros s Hl; simpl.
  - intros [= <-]. by destruct s.
  - destruct (exec a (sy_ec s)) as [ec1|] eqn:Hec; [|done]. intros Hrun.
    eapply rtc_l; [by eapply step_collector|]. by apply (IH (set_collector ec1 s)).
Defined.
End runs.

Module SystemExamples.
Import InMemory ResourceExamples PipelineExamples CollectorExamples RetryExamples.
#[local] Existing Instance range_forward.
#[local] Existing Instance reference_third_party.
#[local] Existing Instance reference_third_party_laws.
#[local] Existing Instance reference_lru.
#[local] Existing Instance reference_lru_laws.
#[local] Existing Instance reference_queue.
#[local] Existing Instance reference_queue_laws.
#[local] Existing Instance reference_queue_holds.

(** An event reaches the orchestrator; the first attempt fails, the retry succeeds. *)
Definition s_collected : System (W := World) :=
  set_collector (after (one_batch app_event)) (NewSystem 100).
Definition s_received : System (W := World) :=
  set_origin "b" (mkSent 1 [app_event]) (set_activity HLoop (Handling (NewBatch "b" 0 [app_event]))
    (set_collector (after (one_batch app_event ++ [ActOrchestratorReceive])) s_collected)).
Definition s_failing : System (W := World) := after_handled orchestrator HLoop s_received engine0 0 no_agents.
Definition s_failed : System (W := World) := after_requeued HLoop s_failing.
Definition s_retrying : System (W := World) := after_get s_failed.
Definition s_succeeding : System (W := World) := after_handled orchestrator HRetry s_retrying engine0 1 (cluster [app_wsa] []).
Definition s_done : System (W := World) := after_requeued HRetry s_succeeding.

Lemma step_failing : sys_step orchestrator s_received s_failing.
Proof. apply (handled_step orchestrator HLoop s_received engine0 0 no_agents). by vm_compute. Defined.

Lemma step_failed : sys_step orchestrator s_failing s_failed.
Proof. apply (requeued_step orchestrator HLoop s_failing). by vm_compute. Defined.

Lemma step_retrying : sys_step orchestrator s_failed s_retrying.
Proof. apply (get_step orchestrator s_failed). by vm_compute. Defined.

Lemma step_succeeding : sys_step orchestrator s_retrying s_succeeding.
Proof.
  unfold s_succeeding. apply (handled_step orchestrator HRetry s_retrying engine0 1 (cluster [app_wsa] [])). by vm_compute.
Defined.

Lemma step_done : sys_step orchestrator s_succeeding s_done.
Proof. unfold s_done. apply (requeued_step orchestrator HRetry s_succeeding). by vm_compute. Defined.

Lemma s_received_reachable : rtc (sys_step orchestrator) (NewSystem 100) s_received.
Proof.
  eapply rtc_r.
  - eapply (collector_run orchestrator (one_batch app_event)); [done|by repeat constructor|by vm_compute].
  - refine (step_receive orchestrator s_collected (mkSent 1 [app_event]) [] "b" 0 _ eq_refl _ _ _);
      [done|by vm_compute|by vm_compute].
Defined.

Lemma s_done_reachable : rtc (sys_step orchestrator) (NewSystem 100) s_done.
Proof.
  etrans; [apply s_received_reachable|].
  exact (rtc_l _ _ _ _ step_failing (rtc_l _ _ _ _ step_failed (rtc_l _ _ _ _ step_retrying
    (rtc_l _ _ _ _ step_succeeding (rtc_once _ _ step_done))))).
Defined.

Lemma every_event_accounted_witness :
  ((∃ e', ec_eventMap (sy_ec s_received) !! key_of app_event = Some e' ∧ stands_for (sy_ec s_received) app_event e') ∨
   (∃ b, b ∈ undelivered (sy_ec s_received) ∧ carried (sy_ec s_received) 0 app_event b) ∨
   (∃ id b, sy_origins s_received !! id = Some b ∧ carried (sy_ec s_received) 0 app_event b ∧
      located (W := World) orchestrator s_received id)) ∧
  ∃ id b ending, sy_origins s_done !! id = Some b ∧ carried (sy_ec s_done) 0 app_event b ∧
    sy_endings s_done !! id = Some ending ∧ ended (W := World) orchestrator s_done id ending.
Proof.
  split.
  - apply (every_event_accounted (W := World) orchestrator eq_refl 100 s_received 0 app_event s_received_reachable).
    by vm_compute.
  - apply (every_event_accounted (W := World) orchestrator eq_refl 100 s_done 0 app_event s_done_reachable); [by vm_compute|].
    split_and!; [by vm_compute|by vm_compute| |by vm_compute].
    intros [] b; vm_compute; by intros [=].
Defined.

(** The retry succeeded. *)
Example s_done_succeeded : sy_endings s_done = {["b" := Succeeded]} ∧ sy_endings s_failed = ∅.
Proof. split; by vm_compute. Qed.
End SystemExamples.
