(* ===== verification/StateSync.v ===== *)
(** * Keeping the replicas' mappings current

    The state syncer of src/internal/reconciliation/state_syncer.go and the reconciler that triggers it
    (src/internal/controller/state_sync_controller.go), as a transition system: the changes of the
    cluster, the watch events, the non-blocking triggers, the debouncer, the loop with its rebuilds,
    and the election. *)

From Stdlib Require Import ZArith.
From S2P Require Import Prelude GoLib Api Scopes ServiceAccounts Access Cluster Resources Engine Pipeline Debouncer.

Section syncer.
Context `{Client W} `{!GCTrackerInterface W} `{SchemeInterface} `{ExpirableLRU} `{RangeOrder} `{ThirdParty}.

(** Where the goroutine of [Start] is. *)
Inductive SyncPC :=
| Reading (initial : bool)                           (** in [rebuild], about to read the cluster *)
| Swapping (initial : bool) (res : Or clusterState)  (** in [rebuild], with what was read *)
| Looping                                            (** in the [select] *)
| Debouncing                                         (** about to call [Debounce] *)
| Stopped                                            (** returned nil *)
| StartFailed.                                       (** returned the error of the initial rebuild *)

Record StateSyncer := mkSyncer {
  s_engine : InMemoryEngine;
  s_debouncer : BasicDebouncer;
  s_elected : bool;                 (** the channel is closed *)
  s_triggerCh : bool;               (** buffered, 1 *)
  s_rebuildCh : bool;               (** buffered, 1 *)
  s_synced : bool;
  s_pc : SyncPC;
  s_world : W;                      (** the cluster *)
  s_queued : bool;                  (** a change waits for the state sync reconciler *)
  s_failed : bool                   (** bookkeeping: the last rebuild that ended failed *)
}.

Definition NewStateSyncer (engine : InMemoryEngine) (w : W) : StateSyncer :=
  mkSyncer engine NewDebouncer false false false false (Reading true) w false false.

Definition set_pc pc s := mkSyncer (s_engine s) (s_debouncer s) (s_elected s) (s_triggerCh s) (s_rebuildCh s)
  (s_synced s) pc (s_world s) (s_queued s) (s_failed s).
Definition set_debouncer d s := mkSyncer (s_engine s) d (s_elected s) (s_triggerCh s) (s_rebuildCh s)
  (s_synced s) (s_pc s) (s_world s) (s_queued s) (s_failed s).
Definition set_triggerCh b s := mkSyncer (s_engine s) (s_debouncer s) (s_elected s) b (s_rebuildCh s)
  (s_synced s) (s_pc s) (s_world s) (s_queued s) (s_failed s).
Definition set_rebuildCh b s := mkSyncer (s_engine s) (s_debouncer s) (s_elected s) (s_triggerCh s) b
  (s_synced s) (s_pc s) (s_world s) (s_queued s) (s_failed s).
Definition set_queued b s := mkSyncer (s_engine s) (s_debouncer s) (s_elected s) (s_triggerCh s) (s_rebuildCh s)
  (s_synced s) (s_pc s) (s_world s) b (s_failed s).
Definition set_engine e s := mkSyncer e (s_debouncer s) (s_elected s) (s_triggerCh s) (s_rebuildCh s)
  (s_synced s) (s_pc s) (s_world s) (s_queued s) (s_failed s).
Definition set_elected s := mkSyncer (s_engine s) (s_debouncer s) true (s_triggerCh s) (s_rebuildCh s)
  (s_synced s) (s_pc s) (s_world s) (s_queued s) (s_failed s).
Definition set_failed s := mkSyncer (s_engine s) (s_debouncer s) (s_elected s) (s_triggerCh s) (s_rebuildCh s)
  (s_synced s) (s_pc s) (s_world s) (s_queued s) true.
(** A change of the cluster, which the watch will report. *)
Definition set_world w s := mkSyncer (s_engine s) (s_debouncer s) (s_elected s) (s_triggerCh s) (s_rebuildCh s)
  (s_synced s) (s_pc s) w true (s_failed s).
(** A rebuild succeeded. *)
Definition set_synced e s := mkSyncer e (s_debouncer s) (s_elected s) (s_triggerCh s) (s_rebuildCh s)
  true (s_pc s) (s_world s) (s_queued s) false.

(** ** Operations *)

Definition NeedLeaderElection (s : StateSyncer) : bool := false.

(** The send does not block. *)
Definition Trigger (s : StateSyncer) : StateSyncer := if s_triggerCh s then s else set_triggerCh true s.

(** [StateSyncReconciler.Reconcile] *)
Definition StateSyncReconciler_Reconcile (s : StateSyncer) : StateSyncer * (CtrlResult * option error) :=
  (Trigger s, (no_requeue, None)).

(** The callback given to the debouncer. *)
Definition request_rebuild (s : StateSyncer) : StateSyncer := if s_rebuildCh s then s else set_rebuildCh true s.

(** [RefreshScopeMappings] in two steps: the cluster is read outside the engine's lock, which is
    taken to swap the mappings in. *)
Definition rebuild_read (initial : bool) (s : StateSyncer) : StateSyncer :=
  set_pc (Swapping initial (computeStateFromCluster (s_engine s) (s_world s)).2) s.

Definition rebuild_swap (initial : bool) (res : Or clusterState) (s : StateSyncer) : StateSyncer :=
  match res with
  | inl _ => set_pc (if initial then StartFailed else Looping) (set_failed s)
  | inr state =>
      set_pc Looping (set_synced (critical (s_engine s) (refresh_section state)) s)
  end.

Definition HasSynced (s : StateSyncer) : bool := s_synced s.

Definition ReadyzCheck (s : StateSyncer) : option error :=
  if HasSynced s then None else Some (ErrNew "in-memory state has not been built yet").

(** ** Steps *)

Inductive Action :=
| ActChange (w : W)          (** a resource is created, changed or deleted *)
| ActReconcile               (** the state sync reconciler handles the watch event *)
| ActRead
| ActSwap
| ActTriggered               (** [case <-s.triggerCh] *)
| ActDebounce
| ActRebuild                 (** [case <-s.rebuildCh] *)
| ActStop                    (** [case <-s.elected] *)
| ActDebouncerReceive
| ActDebouncerTick
| ActDebouncerCallback
| ActElect                   (** this replica becomes the leader *)
| ActPublish (plan : Plan).  (** the leader's execution stage publishes *)

(** The debouncer's goroutine exists once the initial rebuild has succeeded. *)
Definition debouncer_running (s : StateSyncer) : bool :=
  match s_pc s with Reading true | Swapping true _ | StartFailed => false | _ => true end.

Definition on_debouncer (f : BasicDebouncer → option BasicDebouncer) (s : StateSyncer) : option StateSyncer :=
  if debouncer_running s then
    match f (s_debouncer s) with Some d => Some (set_debouncer d s) | None => None end
  else None.

Definition exec (a : Action) (s : StateSyncer) : option StateSyncer :=
  match a with
  | ActChange w => Some (set_world w s)
  | ActReconcile => when (s_queued s) (StateSyncReconciler_Reconcile (set_queued false s)).1
  | ActRead => match s_pc s with Reading initial => Some (rebuild_read initial s) | _ => None end
  | ActSwap => match s_pc s with Swapping initial res => Some (rebuild_swap initial res s) | _ => None end
  | ActTriggered =>
      match s_pc s with
      | Looping => when (s_triggerCh s) (set_pc Debouncing (set_triggerCh false s))
      | _ => None
      end
  | ActDebounce =>
      match s_pc s with Debouncing => on_debouncer Debounce (set_pc Looping s) | _ => None end
  | ActRebuild =>
      match s_pc s with
      | Looping => when (s_rebuildCh s) (set_pc (Reading false) (set_rebuildCh false s))
      | _ => None
      end
  | ActStop => match s_pc s with Looping => when (s_elected s) (set_pc Stopped s) | _ => None end
  | ActDebouncerReceive => on_debouncer debouncer_receive s
  | ActDebouncerTick => on_debouncer debouncer_tick s
  | ActDebouncerCallback => request_rebuild <$> on_debouncer debouncer_return s
  | ActElect => when (negb (s_elected s)) (set_elected s)
  | ActPublish plan => when (s_elected s) (set_engine (ApplyBatchPlan (s_engine s) plan) s)
  end.

Definition step (s s' : StateSyncer) : Prop := ∃ a, exec a s = Some s'.

Fixpoint exec_all (l : list Action) (s : StateSyncer) : option StateSyncer :=
  match l with
  | [] => Some s
  | a :: l => match exec a s with Some s' => exec_all l s' | None => None end
  end.

Lemma sync_exec_all_rtc l s s' : exec_all l s = Some s' → rtc step s s'.
Proof.
  revert s. induction l as [|a l IH]; intros s; simpl; [by intros [= ->]|].
  destruct (exec a s) as [s1|] eqn:Ha; [|done]. intros ?. eapply rtc_l; [by exists a|by apply IH].
Qed.
End syncer.
Arguments Action W : clear implicits.

(** ** What the replica serves *)

Section syncer_correct.
Context `{ClientLaws W} `{SchemeInterface} `{ExpirableLRU} `{RangeOrder} `{ThirdParty}.
Implicit Types (s : StateSyncer).

(** What a rebuild would read now. *)
Definition answers s : Or clusterState := (computeStateFromCluster (s_engine s) (s_world s)).2.

Definition serves (e : InMemoryEngine) (state : clusterState) : Prop :=
  eng_ScopeComputation e = NewScopeComputationService (Some (cs_vocabulary state)) (Some (cs_scopeToSA state)).

(** The mappings are those of the cluster as it is. *)
Definition current s : Prop := ∃ state, answers s = inr state ∧ serves (s_engine s) state.

(** A rebuild is requested. *)
Definition requested s : Prop :=
  s_queued s = true ∨ s_triggerCh s = true ∨ s_pc s = Debouncing ∨ awake (s_debouncer s) ∨ s_rebuildCh s = true.

(** A rebuild that will see the cluster as it is, or a later one, is requested or under way. *)
Definition coming s : Prop :=
  requested s ∨ (∃ initial, s_pc s = Reading initial) ∨ (∃ initial, s_pc s = Swapping initial (answers s)).

Definition sync_inv s : Prop :=
  s_elected s = false →
  match s_pc s with
  | Stopped => False
  | StartFailed | Reading _ => True
  | Swapping _ res => res = answers s ∨ requested s
  | Looping | Debouncing => current s ∨ requested s ∨ s_failed s = true
  end.

Lemma on_debouncer_Some f s s' :
  on_debouncer f s = Some s' → ∃ d, f (s_debouncer s) = Some d ∧ s' = set_debouncer d s.
Proof.
  unfold on_debouncer. destruct (debouncer_running s); [|done].
  destruct (f (s_debouncer s)) as [d|]; [|done]. intros [= <-]. eauto.
Qed.

(** A step after which a rebuild is requested keeps the invariant if the loop goes on. *)
Lemma sync_requested s s' :
  requested s' → (s_elected s' = false → s_elected s = false) → s_pc s' = s_pc s → sync_inv s → sync_inv s'.
Proof.
  unfold sync_inv. intros Hr He Hpc Hs He'. specialize (Hs (He He')). rewrite Hpc. destruct (s_pc s); auto.
Qed.

Lemma sync_debouncer f s s' :
  (∀ d d', f d = Some d' → awake d') → on_debouncer f s = Some s' → sync_inv s → sync_inv s'.
Proof.
  intros Hf (d & Hd & ->)%on_debouncer_Some. apply sync_requested; [|done|done].
  right. right. right. left. by eapply Hf.
Qed.

Lemma sync_step a s s' : exec a s = Some s' → sync_inv s → sync_inv s'.
Proof.
  intros Ha. destruct a as [w| | | | | | | | | | | |plan]; simpl in Ha.
  - injection Ha as <-. apply sync_requested; [by left|done|done].
  - destruct (s_queued s) eqn:Hq; [|done]. injection Ha as <-. unfold Trigger. cbn [s_triggerCh set_queued].
    destruct (s_triggerCh s) eqn:Ht; (apply sync_requested; [right; by left|done|done]).
  - destruct (s_pc s); try done. injection Ha as <-. unfold sync_inv. simpl. by left.
  - destruct (s_pc s) as [|initial res| | | |] eqn:Hpc; try done. injection Ha as <-.
    unfold sync_inv. rewrite Hpc. destruct res as [err|state]; simpl; intros Hs He; specialize (Hs He).
    + destruct initial; [done|]. right. by right.
    + destruct Hs as [Hs|Hs]; [left; exists state; split; [by symmetry|done]|].
      right. left. destruct Hs as [?|[?|[?|?]]]; [by left|right; by left|congruence|by do 3 right].
  - destruct (s_pc s) eqn:Hpc; try done. destruct (s_triggerCh s); [|done]. injection Ha as <-.
    unfold sync_inv. simpl. intros _ _. right. left. right. right. by left.
  - destruct (s_pc s) eqn:Hpc; try done. apply on_debouncer_Some in Ha as (d & Hd & ->). unfold sync_inv. simpl.
    intros _ _. right. left. do 3 right. left. by eapply Debounce_awake.
  - destruct (s_pc s) eqn:Hpc; try done. destruct (s_rebuildCh s); [|done]. by injection Ha as <-.
  - destruct (s_pc s) eqn:Hpc; try done. destruct (s_elected s) eqn:He; [|done]. injection Ha as <-.
    unfold sync_inv. simpl. by rewrite He.
  - revert Ha. apply sync_debouncer, receive_awake.
  - revert Ha. apply sync_debouncer, tick_awake.
  - destruct (on_debouncer debouncer_return s) as [s1|] eqn:Hd; [|done]. injection Ha as <-.
    apply on_debouncer_Some in Hd as (d & _ & ->). unfold request_rebuild. simpl.
    destruct (s_rebuildCh s) eqn:Hr; (apply sync_requested; [by do 4 right|done|done]).
  - destruct (s_elected s); [done|]. by injection Ha as <-.
  - destruct (s_elected s) eqn:He; [|done]. injection Ha as <-. unfold sync_inv. simpl. by rewrite He.
Qed.

Lemma sync_reachable e w s : rtc step (NewStateSyncer e w) s → sync_inv s.
Proof.
  assert (∀ s1 s2, rtc step s1 s2 → sync_inv s1 → sync_inv s2) as Hrtc.
  { induction 1 as [|s1 s2 s3 [a Ha] _ IH]; [done|]. intros ?. eapply IH, sync_step; eauto. }
  intros Hs. by apply (Hrtc _ _ Hs).
Qed.

(** What is read is read from the two lists. *)
Lemma current_published s : current s →
  ∃ wsas cwsas, (client_ListWSAs (s_world s)).2 = inr wsas ∧
    (client_ListCWSAs (client_ListWSAs (s_world s)).1).2 = inr cwsas ∧
    eng_ScopeComputation (s_engine s) = published (live wsas cwsas).
Proof.
  intros (state & Hst & Hserves). unfold answers in Hst.
  destruct (computeStateFromCluster_cases (s_engine s) (s_world s)) as [(wsas & cwsas & Hc & ? & ?)|[err Hc]];
    rewrite Hc in Hst; [|done]. injection Hst as <-. by exists wsas, cwsas.
Qed.

(** ** A requested rebuild can run *)

Definition internal (a : Action W) : bool :=
  match a with ActChange _ | ActElect | ActPublish _ => false | _ => true end.

Definition steps_internal s s' : Prop := ∃ a, internal a ∧ exec a s = Some s'.

(** The program can go on, by itself, to serve the cluster as it is. *)
Definition catches_up s : Prop :=
  ∃ s', rtc steps_internal s s' ∧ s_world s' = s_world s ∧ current s'.

Lemma catches_up_step a s s' :
  internal a → exec a s = Some s' → s_world s' = s_world s → catches_up s' → catches_up s.
Proof.
  intros Ha Hs Hw (s2 & Hrtc & Hw2 & Hc). exists s2. split; [eapply rtc_l; [by exists a|done]|].
  split; [congruence|done].
Qed.

Definition can_read s : Prop := ∃ state, answers s = inr state.

Lemma reading_catches_up s initial : s_pc s = Reading initial → can_read s → catches_up s.
Proof.
  intros Hpc [state Hst]. eapply (catches_up_step ActRead); [done|simpl; by rewrite Hpc|done|].
  eapply (catches_up_step ActSwap); [done|done|..]; unfold answers in Hst; rewrite Hst; [done|].
  eexists. split; [apply rtc_refl|]. split; [done|]. by exists state.
Qed.

Lemma rebuild_catches_up s : s_pc s = Looping → s_rebuildCh s = true → can_read s → catches_up s.
Proof.
  intros Hpc Hr Hc. eapply (catches_up_step ActRebuild); [done|simpl; by rewrite Hpc, Hr|done|].
  by eapply reading_catches_up.
Qed.

Lemma on_debouncer_running f s d :
  s_pc s = Looping ∨ s_pc s = Debouncing → f (s_debouncer s) = Some d → on_debouncer f s = Some (set_debouncer d s).
Proof. unfold on_debouncer, debouncer_running. intros [Hpc|Hpc] Hf; by rewrite Hpc, Hf. Qed.

Lemma calling_returns d : deb_calling d = true → ∃ d', debouncer_return d = Some d' ∧
  deb_timeChan d' = deb_timeChan d ∧ deb_calling d' = false.
Proof. unfold debouncer_return. intros ->. by eexists. Qed.

Lemma callback_exec s d :
  s_pc s = Looping ∨ s_pc s = Debouncing → debouncer_return (s_debouncer s) = Some d →
  exec ActDebouncerCallback s = Some (set_rebuildCh true (set_debouncer d s)).
Proof.
  intros Hpc Hd. simpl. rewrite (on_debouncer_running _ s d) by done. simpl. unfold request_rebuild. simpl.
  destruct (s_rebuildCh s) eqn:Hr; [|done]. unfold set_rebuildCh, set_debouncer. simpl. by rewrite Hr.
Qed.

Lemma awake_catches_up s : s_pc s = Looping → awake (s_debouncer s) → can_read s → catches_up s.
Proof.
  intros Hpc Ha Hc.
  assert (∀ s, s_pc s = Looping → deb_calling (s_debouncer s) = true → can_read s → catches_up s) as Hcalling.
  { clear. intros s Hpc Hcall Hc. destruct (calling_returns _ Hcall) as (d & Hd & _).
    eapply (catches_up_step ActDebouncerCallback); [done|apply callback_exec; [by left|exact Hd]|done|].
    by apply rebuild_catches_up. }
  destruct (deb_calling (s_debouncer s)) eqn:Hcall; [by apply Hcalling|].
  destruct (awake_cases _ Ha Hcall) as [(d & Hd & ?)|(d1 & d2 & Hd1 & Hd2 & ?)].
  - eapply (catches_up_step ActDebouncerTick); [done|by apply on_debouncer_running; [left|]|done|].
    by apply Hcalling.
  - eapply (catches_up_step ActDebouncerReceive); [done|by apply on_debouncer_running; [left|]|done|].
    eapply (catches_up_step ActDebouncerTick); [done|by apply on_debouncer_running; [left|]|done|].
    by apply Hcalling.
Qed.

(** A full channel drains until there is room for another request. *)
Lemma debouncing_catches_up s : s_pc s = Debouncing → can_read s → catches_up s.
Proof.
  remember (deb_timeChan (s_debouncer s)) as n eqn:Hn. revert s Hn.
  induction n as [n IH] using lt_wf_ind. intros s -> Hpc Hc.
  assert (∀ s', deb_timeChan (s_debouncer s') = deb_timeChan (s_debouncer s) → s_pc s' = Debouncing →
    deb_calling (s_debouncer s') = false → can_read s' → s_world s' = s_world s → catches_up s') as Hidle.
  { intros s' Ht Hpc' Hcall Hc' Hw. destruct (Debounce (s_debouncer s')) as [d|] eqn:Hd.
    - apply (catches_up_step ActDebounce s' (set_debouncer d (set_pc Looping s'))); [done| |done|].
      + simpl. rewrite Hpc'. apply on_debouncer_running; [by left|done].
      + apply awake_catches_up; [done|by eapply Debounce_awake|done].
    - unfold Debounce in Hd. case_bool_decide as Hcap; [done|]. unfold timeChanCap in Hcap.
      destruct (deb_timeChan (s_debouncer s')) as [|n] eqn:Hn; [lia|].
      assert (debouncer_receive (s_debouncer s') = Some (mkDebouncer n true false)) as Hr
        by (unfold debouncer_receive; by rewrite Hn, Hcall).
      eapply (catches_up_step ActDebouncerReceive); [done|by apply on_debouncer_running; [right|]|done|].
      apply (IH n); [lia|done|done|done]. }
  destruct (deb_calling (s_debouncer s)) eqn:Hcall; [|by apply Hidle].
  destruct (calling_returns _ Hcall) as (d & Hd & ? & ?).
  eapply (catches_up_step ActDebouncerCallback); [done|apply callback_exec; [by right|exact Hd]|done|].
  by apply Hidle.
Qed.

Lemma looping_catches_up s : s_pc s = Looping → requested s → can_read s → catches_up s.
Proof.
  intros Hpc Hr Hc.
  assert (∀ s, s_pc s = Looping → s_triggerCh s = true → can_read s → catches_up s) as Htrigger.
  { clear. intros s Hpc Ht Hc. eapply (catches_up_step ActTriggered); [done|simpl; by rewrite Hpc, Ht|done|].
    by apply debouncing_catches_up. }
  destruct Hr as [Hq|[Ht|[?|[Ha|Hb]]]]; [|by apply Htrigger|congruence|by apply awake_catches_up|by apply rebuild_catches_up].
  eapply (catches_up_step ActReconcile); [done|simpl; by rewrite Hq|..]; unfold Trigger; cbn [s_triggerCh set_queued];
    destruct (s_triggerCh s) eqn:Ht; try done; by apply Htrigger.
Qed.

Lemma coming_catches_up s :
  s_pc s ≠ Stopped → s_pc s ≠ StartFailed → (∀ err, s_pc s ≠ Swapping true (inl err)) →
  can_read s → coming s → catches_up s.
Proof.
  intros Hstop Hfail Hinit Hc Hcoming. destruct (s_pc s) as [initial|initial res| | | |] eqn:Hpc; try done.
  - by eapply reading_catches_up.
  - eapply (catches_up_step ActSwap); [done|simpl; by rewrite Hpc|by destruct res, initial|].
    unfold coming in Hcoming. rewrite Hpc in Hcoming. destruct Hcoming as [Hr|[[i Hi]|[i Hi]]]; [|done|].
    + apply looping_catches_up.
      * destruct res; [destruct initial|]; try done. by destruct (Hinit e).
      * unfold requested in *. rewrite Hpc in Hr. destruct res; simpl; naive_solver.
      * by destruct res.
    + injection Hi as _ ->. destruct Hc as [state Hst]. rewrite Hst. eexists. split; [apply rtc_refl|].
      split; [done|]. by exists state.
  - apply looping_catches_up; [done| |done]. unfold coming in Hcoming. rewrite Hpc in Hcoming. naive_solver.
  - by apply debouncing_catches_up.
Qed.

(** C21. A replica that has not been elected is never silently out of date: in every reachable state of
    a syncer whose start did not fail, it serves the mappings of the resources that are in the cluster
    and not being deleted, or a rebuild that will see this cluster is requested or under way, or the
    last rebuild failed. *)
Theorem replica_current_or_coming e w s :
  rtc step (NewStateSyncer e w) s → s_elected s = false → s_pc s ≠ StartFailed →
  (∃ wsas cwsas, (client_ListWSAs (s_world s)).2 = inr wsas ∧
    (client_ListCWSAs (client_ListWSAs (s_world s)).1).2 = inr cwsas ∧
    eng_ScopeComputation (s_engine s) = published (live wsas cwsas)) ∨
  coming s ∨ s_failed s = true.
Proof.
  intros Hs%sync_reachable He Hpc. specialize (Hs He). unfold coming.
  destruct (s_pc s) as [initial|initial res| | | |] eqn:Hp; try done.
  - right. left. right. left. by exists initial.
  - destruct Hs as [->|?]; [|auto]. right. left. do 2 right. by exists initial.
  - destruct Hs as [?|[?|?]]; [left; by apply current_published|auto..].
  - destruct Hs as [?|[?|?]]; [left; by apply current_published|auto..].
Qed.

(** From a state in which a rebuild is on its way, the replica gets to serve the cluster as it is. *)
Lemma coming_serves e w s wsas cwsas :
  rtc step (NewStateSyncer e w) s → s_elected s = false → s_pc s ≠ StartFailed →
  (∀ err, s_pc s ≠ Swapping true (inl err)) →
  (client_ListWSAs (s_world s)).2 = inr wsas → (client_ListCWSAs (client_ListWSAs (s_world s)).1).2 = inr cwsas →
  coming s →
  ∃ s', rtc steps_internal s s' ∧ s_world s' = s_world s ∧
    eng_ScopeComputation (s_engine s') = published (live wsas cwsas).
Proof.
  intros Hs%sync_reachable He Hpc Hinit Hw Hc Hcoming.
  destruct (coming_catches_up s) as (s' & Hrtc & Hw' & Hcur); [|done|done| |done|].
  - intros Hstop. specialize (Hs He). by rewrite Hstop in Hs.
  - unfold can_read, answers.
    destruct (computeStateFromCluster_cases (s_engine s) (s_world s)) as [(wsas' & cwsas' & -> & _)|[err Herr]]; [eauto|].
    destruct (client_ListWSAs (s_world s)) as [w1 r1] eqn:H1'; simpl in *; subst r1.
    destruct (client_ListCWSAs w1) as [w2 r2] eqn:H2'; simpl in *; subst r2.
    rewrite (computeStateFromCluster_ok _ _ _ _ _ _ H1' H2'). eauto.
  - exists s'. split; [done|]. split; [done|]. apply current_published in Hcur as (wsas' & cwsas' & Hw1 & Hc1 & Hpub).
    rewrite Hw' in *. rewrite Hw in Hw1. rewrite Hc in Hc1. by simplify_eq.
Qed.
(** A change reaches the replica: when a rebuild is requested or under way and the lists can be
    read, the syncer, its debouncer and the reconciler can go on, without any further change, to a
    state that serves the mappings of the cluster as it is; no request is lost in a full channel. *)
Theorem replica_catches_up e w s wsas cwsas :
  rtc step (NewStateSyncer e w) s → s_elected s = false → s_pc s ≠ StartFailed →
  (∀ err, s_pc s ≠ Swapping true (inl err)) →
  (client_ListWSAs (s_world s)).2 = inr wsas → (client_ListCWSAs (client_ListWSAs (s_world s)).1).2 = inr cwsas →
  coming s →
  ∃ s', rtc steps_internal s s' ∧ s_world s' = s_world s ∧
    eng_ScopeComputation (s_engine s') = published (live wsas cwsas).
Proof. apply coming_serves. Qed.
End syncer_correct.

(** ** Examples *)

Module StateSyncExamples.
Import InMemory ResourceExamples PipelineExamples.
#[local] Existing Instance range_forward.
#[local] Existing Instance reference_third_party.
#[local] Existing Instance reference_third_party_laws.
#[local] Existing Instance reference_lru.
#[local] Existing Instance reference_lru_laws.

(** Before and after the namespaced resource is created. *)
Definition before : World := cluster [] [].
Definition created : World := cluster [app_wsa] [].
Definition unreachable : World := cluster [app_wsa] [true].
Definition app_deployment : Scope := mkDims "p1" "" "staging" "" "" "".

Definition start : StateSyncer := NewStateSyncer engine0 before.
Definition after (l : list (Action World)) : StateSyncer := default start (exec_all l start).

Definition runs (l : list (Action World)) : bool := match exec_all l start with Some _ => true | None => false end.

Lemma sync_after_rtc l : runs l = true → rtc step start (after l).
Proof.
  unfold runs, after. intros Hl. destruct (exec_all l start) as [s|] eqn:Hs; [|done]. by eapply sync_exec_all_rtc.
Defined.

Definition lookup (s : StateSyncer) : Result string := eng_GetServiceAccountForScope (s_engine s) app_deployment.

(** The initial rebuild. *)
Definition warm_up : list (Action World) := [ActRead; ActSwap].
(** What happens after a change, up to the rebuild. *)
Definition notice : list (Action World) :=
  [ActReconcile; ActTriggered; ActDebounce; ActDebouncerReceive; ActDebouncerTick; ActDebouncerCallback; ActRebuild].

Definition started : StateSyncer := after warm_up.
Definition changed : StateSyncer := after (warm_up ++ [ActChange created]).

Lemma replica_current_or_coming_witness :
  (∃ wsas cwsas, (client_ListWSAs (s_world started)).2 = inr wsas ∧
    (client_ListCWSAs (client_ListWSAs (s_world started)).1).2 = inr cwsas ∧
    eng_ScopeComputation (s_engine started) = published (live wsas cwsas)) ∨
  coming started ∨ s_failed started = true.
Proof.
  assert (rtc step start started) as Hs by (apply sync_after_rtc; by vm_compute).
  assert (s_elected started = false) as He by by vm_compute.
  assert (s_pc started = Looping) as Hpc by by vm_compute.
  apply (replica_current_or_coming engine0 before started Hs He). by rewrite Hpc.
Defined.

Lemma replica_catches_up_witness :
  ∃ s', rtc steps_internal changed s' ∧ s_world s' = s_world changed ∧
    eng_ScopeComputation (s_engine s') = published (live [app_wsa] [admin_cwsa]).
Proof.
  assert (s_world changed = created) as Hw by by vm_compute.
  assert (s_pc changed = Looping) as Hpc by by vm_compute.
  assert (s_queued changed = true) as Hq by by vm_compute.
  apply (replica_catches_up engine0 before changed [app_wsa] [admin_cwsa]).
  - apply sync_after_rtc; by vm_compute.
  - by vm_compute.
  - by rewrite Hpc.
  - intros err. by rewrite Hpc.
  - by rewrite Hw.
  - by rewrite Hw.
  - left. by left.
Defined.

(** A whole round: the deployment gets an account once the change has been noticed. *)
Example noticed :
  lookup changed = ROk "" ∧ lookup (after (warm_up ++ [ActChange created] ++ notice ++ [ActRead; ActSwap])) ≠ ROk "".
Proof. split; by vm_compute. Qed.

Definition failed : StateSyncer :=
  after (warm_up ++ [ActChange unreachable] ++ notice ++ [ActRead; ActSwap]).

(** A rebuild that fails is logged and not retried: the replica goes on to answer from the state
    before the change, and no step of the syncer, its debouncer or the reconciler is enabled until the
    next change of a resource, even when the API server can be read again. *)
Theorem failed_rebuild_not_retried :
  rtc step start failed ∧ s_elected failed = false ∧ ReadyzCheck failed = None ∧ lookup failed = ROk "" ∧
  wsas (s_world failed) = [app_wsa] ∧ ∀ a, internal a → exec a failed = None.
Proof.
  assert (s_pc failed = Looping ∧ s_queued failed = false ∧ s_triggerCh failed = false ∧
    s_rebuildCh failed = false ∧ s_elected failed = false ∧ s_debouncer failed = NewDebouncer)
    as (Hpc & Hq & Ht & Hr & He & Hd) by (split_and!; by vm_compute).
  split; [apply sync_after_rtc; by vm_compute|]. split_and!; [done|by vm_compute..|].
  intros a Ha. destruct (asleep_blocked _ NewDebouncer_asleep) as (H1 & H2 & H3).
  destruct a; try done; simpl; unfold on_debouncer; rewrite ?Hpc, ?Hq, ?Ht, ?Hr, ?He, ?Hd, ?H1, ?H2, ?H3; try done;
    by destruct (debouncer_running failed).
Qed.

(** The replica is elected while a rebuild holds what it read; the resource is created and its batch
    is published. *)
Definition published_by_leader : StateSyncer :=
  after (warm_up ++ [ActChange before] ++ notice ++
    [ActRead; ActElect; ActChange created; ActPublish (plan_for R1 ["apps"])]).
Definition handed_over : StateSyncer :=
  after (warm_up ++ [ActChange before] ++ notice ++
    [ActRead; ActElect; ActChange created; ActPublish (plan_for R1 ["apps"]); ActSwap; ActStop]).

(** Standing down does not wait for a rebuild that is under way: the leader can publish a batch
    and then lose it to the older mappings the syncer had read before, after which the syncer stops
    and leaves them in place. *)
Theorem stale_refresh_after_election :
  ∃ n, rtc step start published_by_leader ∧ lookup published_by_leader = ROk n ∧ n ≠ "" ∧
    rtc step start handed_over ∧ s_pc handed_over = Stopped ∧ lookup handed_over = ROk "" ∧
    ∀ s', rtc steps_internal handed_over s' → s_engine s' = s_engine handed_over.
Proof.
  eexists. split_and!; [apply sync_after_rtc; by vm_compute|by vm_compute|done|apply sync_after_rtc; by vm_compute|
    by vm_compute|by vm_compute|].
  assert (s_pc handed_over = Stopped) as Hpc by by vm_compute. revert Hpc. generalize handed_over. clear.
  intros s Hpc s' Hs'. induction Hs' as [|s1 s2 s3 (a & Hi & Ha) _ IH]; [done|].
  assert (s_pc s2 = Stopped ∧ s_engine s2 = s_engine s1) as [Hpc2 He2]; [|by rewrite IH].
  destruct a; try done; simpl in Ha; rewrite ?Hpc in Ha; try done.
  - destruct (s_queued s1); [|done]. injection Ha as <-. unfold Trigger. by case_match.
  - by apply on_debouncer_Some in Ha as (d & _ & ->).
  - by apply on_debouncer_Some in Ha as (d & _ & ->).
  - destruct (on_debouncer debouncer_return s1) as [s|] eqn:Hd; [|done]. injection Ha as <-.
    apply on_debouncer_Some in Hd as (d & _ & ->). unfold request_rebuild. by case_match.
Qed.
End StateSyncExamples.
