(* ===== verification/Replicas.v ===== *)
(** * The leader and the other replicas

    Every replica serves the pod webhook, but only the leader runs the stages
    (src/internal/reconciliation/orchestrator.go); the others keep their mappings current with the state
    syncer (state_syncer.go).  A pod should not notice which replica the API server asks: here the two
    ways of publishing mappings, [processBatch] and the rebuild of a [StateSyncer], are put side by side. *)

From Stdlib Require Import ZArith.
From S2P Require Import Prelude GoLib Api Scopes ServiceAccounts Access Cluster Resources SameSpec Engine Webhooks Pipeline EndToEnd Convergence Debouncer StateSync.

Section replicas.
Context `{EventRecorderLaws W} `{SchemeInterface} `{ExpirableLRU} `{RangeOrder} `{ThirdPartyLaws}.

(** Two replicas admit every pod alike. *)
Definition admit_alike (e1 e2 : InMemoryEngine) : Prop :=
  ∀ version pod, Default (mkPodCustomDefaulter e1 version) pod = Default (mkPodCustomDefaulter e2 version) pod.

#[export] Instance admit_alike_equivalence : Equivalence admit_alike.
Proof.
  split; [done| |].
  - intros e1 e2 He version pod. by rewrite He.
  - intros e1 e2 e3 H1' H2' version pod. by rewrite H1'.
Qed.

(** The webhook asks the engine nothing but the account of a deployment. *)
Lemma lookups_admit_alike e1 e2 :
  (∀ scope, eng_GetServiceAccountForScope e1 scope = eng_GetServiceAccountForScope e2 scope) → admit_alike e1 e2.
Proof.
  intros He version pod. unfold Default. simpl. rewrite He. done.
Qed.

Lemma published_admit_alike e1 e2 R1 R2 :
  eng_ScopeComputation e1 = published R1 → eng_ScopeComputation e2 = published R2 →
  same_specs R1 R2 → keys_distinct R1 → admit_alike e1 e2.
Proof.
  intros Hp1 Hp2 Hs Hd. apply lookups_admit_alike. intros scope. unfold eng_GetServiceAccountForScope.
  rewrite Hp1, Hp2. by apply published_same.
Qed.

(** C7. It does not matter which replica admits a pod.  Let the leader have completed a batch that was
    planned for the resources [R] (whatever the status patches have made of the objects of the plan), and let a replica that is not elected have noticed the last change of the cluster, in
    any reachable state of its goroutines.  If the cluster lists resources with the specifications of
    [R], in whatever versions and order, then the replica can go on by itself to a state in which its
    webhook does to every pod what the leader's does, whatever both served before. *)
Theorem follower_admits_as_leader so e0 now b w0 w1 e1 b1 requeue R X targetNamespaces e w s wsas cwsas :
  so_stages so = staging_stages → b_Resources b ≠ [] →
  processBatch so e0 now b w0 = (w1, (e1, b1, ROk (), requeue)) → b_Plan b1 = Some (plan_of R X targetNamespaces) →
  rtc step (NewStateSyncer e w) s → s_elected s = false → s_pc s ≠ StartFailed →
  (∀ err, s_pc s ≠ Swapping true (inl err)) → coming s →
  (client_ListWSAs (s_world s)).2 = inr wsas → (client_ListCWSAs (client_ListWSAs (s_world s)).1).2 = inr cwsas →
  same_specs R (live wsas cwsas) → keys_distinct R →
  ∃ s', rtc steps_internal s s' ∧ s_world s' = s_world s ∧ admit_alike (s_engine s') e1.
Proof.
  intros Hst Hne Hrun Hplan Hs He Hpc Hinit Hcoming Hw Hc Hsame Hd.
  destruct (coming_serves e w s wsas cwsas) as (s' & Hs' & Hw' & Hpub); [done..|].
  exists s'. split_and!; [done|done|].
  pose proof (processBatch_spec so e0 now b w0 Hst Hne) as Hspec. rewrite Hrun in Hspec.
  destruct (proj1 Hspec eq_refl) as (R' & tns & X' & _ & _ & Hplan' & _ & Hex). rewrite Hplan in Hplan'.
  symmetry. apply (published_admit_alike _ _ R (live wsas cwsas)); [|done..].
  rewrite (ex_published _ _ _ _ _ _ Hex). symmetry. by eapply plan_of_published.
Qed.
End replicas.

(** ** Examples *)

Module ReplicaExamples.
Import InMemory ResourceExamples PipelineExamples ConvergenceExamples StateSyncExamples.
#[local] Existing Instance range_forward.
#[local] Existing Instance reference_third_party.
#[local] Existing Instance reference_third_party_laws.
#[local] Existing Instance reference_lru.
#[local] Existing Instance reference_lru_laws.

(** The leader planned for a later version of the resource than the other replica reads. *)
Lemma follower_admits_as_leader_witness :
  ∃ s', rtc steps_internal changed s' ∧ s_world s' = s_world changed ∧
    admit_alike (s_engine s') new_run.2.1.1.1.
Proof.
  assert (new_run.2.1.2 = ROk ()) as Hok by by vm_compute.
  pose proof (processBatch_spec orchestrator old_run.2.1.1.1 5 new_batch new_world eq_refl ltac:(done)) as Hspec.
  change (processBatch orchestrator old_run.2.1.1.1 5 new_batch new_world) with new_run in Hspec.
  destruct new_run as [w' [[[e' b'] res] requeue]] eqn:Hrun. simpl in Hok, Hspec |- *. subst res.
  destruct (proj1 Hspec eq_refl) as (R & tns & X & HR & _ & Hplan & _). rewrite (listed_inj _ R R2 HR listed_R2) in Hplan.
  assert (s_world changed = created) as Hw by by vm_compute.
  assert (s_pc changed = Looping) as Hpc by by vm_compute.
  assert (s_queued changed = true) as Hq by by vm_compute.
  unfold new_run in Hrun.
  eapply (follower_admits_as_leader orchestrator old_run.2.1.1.1 5 new_batch new_world) with (R := R2) (wsas := [app_wsa]);
    [done|done|exact Hrun|exact Hplan|..].
  - apply sync_after_rtc; by vm_compute.
  - by vm_compute.
  - by rewrite Hpc.
  - intros err. by rewrite Hpc.
  - left. by left.
  - by rewrite Hw.
  - rewrite Hw. exact (eq_refl (inr [admin_cwsa])).
  - symmetry. exact R1_R2.
  - by apply ok_keys, R2_ok.
Defined.
End ReplicaExamples.
