(* ===== verification/Controllers.v ===== *)
(** * The controllers

    The reconcilers of the two custom resources with the deletion flow and its finalizer, the tracker
    of the objects being collected, the predicates that filter watch events and the map from service
    accounts to resources (src/internal/controller). *)

From Stdlib Require Import ZArith.
From S2P Require Import Prelude GoLib Api Scopes ServiceAccounts Access Cluster Resources Engine Pipeline Debouncer Collector Retry.

(** ** Finalizers

    [ContainsFinalizer], [AddFinalizer] and [RemoveFinalizer] of controllerutil, on the list of
    finalizers of an object; the last two also say whether the list changed. *)
Class ControllerUtil := {
  ContainsFinalizer : list string → string → bool;
  AddFinalizer : list string → string → list string * bool;
  RemoveFinalizer : list string → string → list string * bool
}.

Class ControllerUtilLaws `{ControllerUtil} : Prop := {
  ContainsFinalizer_doc l f : ContainsFinalizer l f ↔ f ∈ l;
  AddFinalizer_doc l f g : g ∈ (AddFinalizer l f).1 ↔ g = f ∨ g ∈ l;
  RemoveFinalizer_doc l f g : g ∈ (RemoveFinalizer l f).1 ↔ g ≠ f ∧ g ∈ l
}.

Definition reference_util : ControllerUtil := {|
  ContainsFinalizer l f := bool_decide (f ∈ l);
  AddFinalizer l f := if decide (f ∈ l) then (l, false) else (l ++ [f], true);
  RemoveFinalizer l f := (filter (.≠ f) l, bool_decide (f ∈ l))
|}.

Lemma reference_util_laws : @ControllerUtilLaws reference_util.
Proof.
  split; simpl.
  - intros l f. by rewrite bool_decide_spec.
  - intros l f g. case_decide; simpl; [set_solver|]. rewrite elem_of_app, list_elem_of_singleton. tauto.
  - intros l f g. by rewrite list_elem_of_filter.
Qed.

(** A new list of finalizers in the metadata of a resource. *)
Definition meta_set_Finalizers (l : list string) (m : ObjectMeta) : ObjectMeta :=
  mkMeta (meta_Name m) (meta_Namespace m) (meta_UID m) (meta_Generation m) (meta_ResourceVersion m)
    (meta_DeletionTimestamp m) (meta_Labels m) l (meta_ManagedFields m).

Definition set_Finalizers (l : list string) (r : WSAResource) : WSAResource :=
  match r with
  | wsaAdapter x =>
      wsaAdapter (mkWSA (meta_set_Finalizers l (wsa_ObjectMeta x)) (wsa_Scope x) (wsa_ClusterRoles x) (wsa_Roles x)
        (wsa_Permissions x) (wsa_Conditions x))
  | clusterWSAAdapter x =>
      clusterWSAAdapter (mkCWSA (meta_set_Finalizers l (cwsa_ObjectMeta x)) (cwsa_Scope x) (cwsa_ClusterRoles x)
        (cwsa_Permissions x) (cwsa_Conditions x))
  end.

Definition ServiceAccountCleanupFinalizer : string := "octopus.com/serviceaccount-cleanup".

Section reconcilers.
Context `{Client W} `{!GCTrackerInterface W} `{!EventRecorder W} `{SchemeInterface} `{ExpirableLRU}
  `{RangeOrder} `{ThirdParty} `{ControllerUtil}.

Definition finalizers (r : WSAResource) : list string := meta_Finalizers (GetOwnerMeta r).

Definition containsCleanupFinalizer (obj : WSAResource) : bool :=
  ContainsFinalizer (finalizers obj) ServiceAccountCleanupFinalizer.

Definition addCleanupFinalizer (obj : WSAResource) : WSAResource * bool :=
  let '(l, changed) := AddFinalizer (finalizers obj) ServiceAccountCleanupFinalizer in
  (set_Finalizers l obj, changed).

Definition removeCleanupFinalizer (obj : WSAResource) : WSAResource * bool :=
  let '(l, changed) := RemoveFinalizer (finalizers obj) ServiceAccountCleanupFinalizer in
  (set_Finalizers l obj, changed).

(** ** The deletion flow *)

Definition isBeingDeleted (obj : WSAResource) : bool := negb (time_IsZero (meta_DeletionTimestamp (GetOwnerMeta obj))).

(** [None]: not found. *)
Definition fetchResource (cluster : bool) (key : NamespacedName) : M W (Or (option WSAResource)) :=
  let* r :=
    if cluster
    then let* r := client_GetCWSA key in ret (match r with inl err => inl err | inr o => inr (NewClusterWSAResource o) end)
    else let* r := client_GetWSA key in ret (match r with inl err => inl err | inr o => inr (NewWSAResource o) end) in
  ret (match r with
       | inl err => if IsNotFound err then inr None else inl err
       | inr resource => inr (Some resource)
       end).

(** The resource is changed in place: its final state is the first result; the second says whether
    to come back later. *)
Definition handleDeletion (engine : InMemoryEngine) (resource : WSAResource) : M W (WSAResource * (bool * option error)) :=
  if negb (containsCleanupFinalizer resource) then ret (resource, (false, None))
  else if IsWSAInMaps engine (GetNamespacedName resource) then ret (resource, (true, None))
  else
    let original := resource in
    let resource := (removeCleanupFinalizer resource).1 in
    let* (resource, err) := client_Patch resource original in
    ret (resource, (false, err)).

Definition ensureFinalizer (resource : WSAResource) : M W (WSAResource * option error) :=
  if containsCleanupFinalizer resource then ret (resource, None)
  else
    let original := resource in
    let resource := (addCleanupFinalizer resource).1 in
    client_Patch resource original.

(** ** Reconcile *)

Definition deleteCheckRequeueDelay : Z := 2000000000.

(** [WorkloadServiceAccountReconciler.Reconcile] and [ClusterWorkloadServiceAccountReconciler.Reconcile]
    ([cluster]).  The events given to the collector's [AddEvent] are appended to [added]; an event
    refers to the resource, so it shows the resource as it is left.  The recorder may be nil. *)
Definition Reconcile (cluster has_recorder : bool) (engine : InMemoryEngine) (now : Z) (key : NamespacedName)
    (added : list EventInfo) : M W (list EventInfo * CtrlResult * option error) :=
  let* r := fetchResource cluster key in
  match r with
  | inl err => ret (added, no_requeue, Some err)
  | inr None => ret (added, no_requeue, None)
  | inr (Some wsa) =>
      if isBeingDeleted wsa then
        let deleteEvent := NewEventInfo wsa EventTypeDelete now in
        let* (wsa, (requeue, err)) := handleDeletion engine wsa in
        let deleteEvent := mkEventInfo wsa (ev_EventType deleteEvent) (ev_Generation deleteEvent)
          (ev_ResourceVersion deleteEvent) (ev_Timestamp deleteEvent) in
        let added := added ++ [deleteEvent] in
        match err with
        | Some err => ret (added, no_requeue, Some err)
        | None =>
            if requeue then ret (added, mkCtrlResult deleteCheckRequeueDelay, None)
            else ret (added, no_requeue, None)
        end
      else
        let* (wsa, err) := ensureFinalizer wsa in
        match err with
        | Some err => ret (added, no_requeue, Some err)
        | None =>
            let added := added ++ [NewCreateOrUpdateEventInfo wsa now] in
            let* _ :=
              if has_recorder
              then recorder_Event wsa "Normal" "Queued" "Reconciliation queued for batch processing"
              else ret () in
            ret (added, no_requeue, None)
        end
  end.
End reconcilers.

(** ** The tracker of collected objects

    [expirable.LRU[types.UID, struct{}]] without a bound on its size: whether a key is present at a
    time. *)
Class ExpirableSet := {
  ESet : Type;
  es_New : Z → ESet;
  es_Add : ESet → Z → string → ESet;
  es_Get : ESet → Z → string → bool
}.

Class ExpirableSetLaws `{ExpirableSet} := {
  es_ttl : ESet → Z;
  es_ttl_New ttl : es_ttl (es_New ttl) = ttl;
  es_ttl_Add c now k : es_ttl (es_Add c now k) = es_ttl c;
  es_Get_New ttl now k : es_Get (es_New ttl) now k = false;
  es_Get_Add_eq c now now' k :
    (0 < es_ttl c)%Z → (now ≤ now')%Z → es_Get (es_Add c now k) now' k = (now' <? now + es_ttl c)%Z;
  es_Get_Add_ne c now now' k k' : k ≠ k' → es_Get (es_Add c now k) now' k' = es_Get c now' k'
}.

Definition reference_set : ExpirableSet := {|
  ESet := Z * gmap string Z;
  es_New ttl := (ttl, ∅);
  es_Add '(ttl, m) now k := (ttl, <[k := (now + ttl)%Z]> m);
  es_Get '(_, m) now k := match m !! k with Some expiry => (now <? expiry)%Z | None => false end
|}.

Definition reference_set_laws : @ExpirableSetLaws reference_set.
Proof.
  refine (@Build_ExpirableSetLaws reference_set fst _ _ _ _ _); simpl.
  - done.
  - by intros [].
  - intros ttl now k. by rewrite lookup_empty.
  - intros [ttl m] now now' k _ _. simpl. by rewrite lookup_insert_eq.
  - intros [ttl m] now now' k k' Hk. by rewrite lookup_insert_ne.
Defined.

Section tracker.
Context `{ExpirableSet}.

Record GCTracker := mkGCTracker { gct_cache : ESet }.

Definition NewGCTracker (ttl : Z) : GCTracker := mkGCTracker (es_New ttl).
Definition GCTracker_MarkForDeletion (t : GCTracker) (now : Z) (uid : string) : GCTracker :=
  mkGCTracker (es_Add (gct_cache t) now uid).
Definition IsBeingDeleted (t : GCTracker) (now : Z) (uid : string) : bool := es_Get (gct_cache t) now uid.
End tracker.

(** ** Predicates *)

(** What the predicates read of a watched object. *)
Record WatchedObject := mkWatched {
  wo_is_service_account : bool;
  wo_UID : string;
  wo_Generation : Z;
  wo_Labels : option (gmap string string);
  wo_ManagedFields : list ManagedFieldsEntry
}.

(** [predicate.Predicate] of controller-runtime. *)
Record Predicate := mkPredicate {
  p_Create : WatchedObject → bool;
  p_Update : WatchedObject → WatchedObject → bool;
  p_Delete : WatchedObject → bool;
  p_Generic : WatchedObject → bool
}.

(** Predicates that decide alike. *)
Definition decides (p q : Predicate) : Prop :=
  (∀ o, p_Create p o = p_Create q o) ∧ (∀ o o', p_Update p o o' = p_Update q o o') ∧
  (∀ o, p_Delete p o = p_Delete q o) ∧ (∀ o, p_Generic p o = p_Generic q o).

(** The library: [predicate.Funcs], [predicate.Or], [predicate.GenerationChangedPredicate] and
    [builder.WithPredicates]. *)
Class PredicateLib := {
  Funcs : option (WatchedObject → bool) → option (WatchedObject → WatchedObject → bool) →
    option (WatchedObject → bool) → option (WatchedObject → bool) → Predicate;
  predicate_Or : Predicate → Predicate → Predicate;
  GenerationChangedPredicate : Predicate;
  WithPredicates : list Predicate → Predicate
}.

(** A nil function of [Funcs] lets the event through; the generation is compared on updates only; a
    builder applies its predicates in conjunction. *)
Class PredicateLibLaws `{PredicateLib} : Prop := {
  Funcs_doc create update delete generic : decides (Funcs create update delete generic)
    (mkPredicate (default (λ _, true) create) (default (λ _ _, true) update) (default (λ _, true) delete)
      (default (λ _, true) generic));
  Or_doc p q : decides (predicate_Or p q)
    (mkPredicate (λ o, p_Create p o || p_Create q o) (λ o o', p_Update p o o' || p_Update q o o')
      (λ o, p_Delete p o || p_Delete q o) (λ o, p_Generic p o || p_Generic q o));
  GenerationChanged_doc : decides GenerationChangedPredicate
    (mkPredicate (λ _, true) (λ o o', negb (wo_Generation o =? wo_Generation o')%Z) (λ _, true) (λ _, true));
  WithPredicates_doc l : decides (WithPredicates l)
    (mkPredicate (λ o, forallb (λ p, p_Create p o) l) (λ o o', forallb (λ p, p_Update p o o') l)
      (λ o, forallb (λ p, p_Delete p o) l) (λ o, forallb (λ p, p_Generic p o) l))
}.

Definition reference_predicates : PredicateLib := {|
  Funcs create update delete generic :=
    mkPredicate (default (λ _, true) create) (default (λ _ _, true) update) (default (λ _, true) delete)
      (default (λ _, true) generic);
  predicate_Or p q :=
    mkPredicate (λ o, p_Create p o || p_Create q o) (λ o o', p_Update p o o' || p_Update q o o')
      (λ o, p_Delete p o || p_Delete q o) (λ o, p_Generic p o || p_Generic q o);
  GenerationChangedPredicate :=
    mkPredicate (λ _, true) (λ o o', negb (wo_Generation o =? wo_Generation o')%Z) (λ _, true) (λ _, true);
  WithPredicates l :=
    mkPredicate (λ o, forallb (λ p, p_Create p o) l) (λ o o', forallb (λ p, p_Update p o o') l)
      (λ o, forallb (λ p, p_Delete p o) l) (λ o, forallb (λ p, p_Generic p o) l)
|}.

Lemma reference_predicates_laws : @PredicateLibLaws reference_predicates.
Proof. done. Qed.

Definition controllerFieldOwner : string := "octopus-permissions-controller".

Definition IsManagedServiceAccount (obj : WatchedObject) : bool :=
  if wo_is_service_account obj
  then bool_decide (default "" (default ∅ (wo_Labels obj) !! ManagedByLabel) = ManagedByValue)
  else false.

Definition isOnlyManagedByController (obj : WatchedObject) : bool :=
  let managedFields := wo_ManagedFields obj in
  if decide (managedFields = []) then false
  else forallb (λ mf, bool_decide (mf_Manager mf = controllerFieldOwner)) managedFields.

(** The loop over the entries with a time; the first of the most recent ones stays. *)
Definition most_recent_step (mostRecent : option (ManagedFieldsEntry * Z)) (mf : ManagedFieldsEntry) :
    option (ManagedFieldsEntry * Z) :=
  match mf_Time mf with
  | None => mostRecent
  | Some t =>
      match mostRecent with
      | None => Some (mf, t)
      | Some (_, t') => if (t' <? t)%Z then Some (mf, t) else mostRecent
      end
  end.

Definition wasMostRecentChangeByController (obj : WatchedObject) : bool :=
  let managedFields := wo_ManagedFields obj in
  if decide (managedFields = []) then false
  else
    match foldl most_recent_step None managedFields with
    | None => false
    | Some (mostRecent, _) => bool_decide (mf_Manager mostRecent = controllerFieldOwner)
    end.

Section predicates.
Context `{PredicateLib} `{ExpirableSet}.

Definition ExternalChangePredicate : Predicate :=
  Funcs (Some (λ o, negb (isOnlyManagedByController o))) (Some (λ _ o', negb (wasMostRecentChangeByController o')))
    (Some (λ _, true)) (Some (λ _, true)).

Definition ManagedServiceAccountPredicate : Predicate :=
  Funcs (Some IsManagedServiceAccount) (Some (λ _ o', IsManagedServiceAccount o')) (Some IsManagedServiceAccount) None.

Definition GenerationOrDeletePredicate : Predicate :=
  predicate_Or (predicate_Or GenerationChangedPredicate ExternalChangePredicate)
    (Funcs (Some (λ _, false)) (Some (λ _ _, false)) (Some (λ _, true)) (Some (λ _, false))).

(** The tracker may be nil; [now] is the time of the event. *)
Definition ExternalDeletePredicate (tracker : option GCTracker) (now : Z) : Predicate :=
  Funcs (Some (λ _, true)) (Some (λ _ _, true))
    (Some (λ o, match tracker with None => true | Some t => negb (IsBeingDeleted t now (wo_UID o)) end))
    (Some (λ _, true)).

(** [SetupWithManager]: the predicates of the resource itself, of the objects it owns and of the
    service accounts. *)
Definition for_predicate : Predicate := WithPredicates [GenerationOrDeletePredicate].
Definition owns_predicate (tracker : option GCTracker) (now : Z) : Predicate :=
  WithPredicates [ExternalChangePredicate; ExternalDeletePredicate tracker now].
Definition accounts_predicate (tracker : option GCTracker) (now : Z) : Predicate :=
  WithPredicates [ManagedServiceAccountPredicate; ExternalChangePredicate; ExternalDeletePredicate tracker now].
End predicates.

(** ** From a service account to the resources *)

(** The requests for the resources of one kind; an error of the list is logged. *)
Definition MapServiceAccountToResources {W} (obj : WatchedObject) (list_items : M W (Or (list ObjectMeta))) :
    M W (list NamespacedName) :=
  if negb (IsManagedServiceAccount obj) then ret []
  else
    let* r := list_items in
    ret (match r with
         | inl _ => []
         | inr items =>
             foldl (λ requests item,
               if negb (time_IsZero (meta_DeletionTimestamp item)) then requests
               else
                 let key :=
                   if decide (meta_Namespace item ≠ "") then mkNN (meta_Namespace item) (meta_Name item)
                   else mkNN "" (meta_Name item) in
                 requests ++ [key]) [] items
         end).

Section mapping.
Context `{Client W}.

Definition mapServiceAccountToWSAs (obj : WatchedObject) : M W (list NamespacedName) :=
  MapServiceAccountToResources obj
    (let* r := client_ListWSAs in
     ret (match r with inl err => inl err | inr l => inr (wsa_ObjectMeta <$> l) end)).

Definition mapServiceAccountToCWSAs (obj : WatchedObject) : M W (list NamespacedName) :=
  MapServiceAccountToResources obj
    (let* r := client_ListCWSAs in
     ret (match r with inl err => inl err | inr l => inr (cwsa_ObjectMeta <$> l) end)).
End mapping.

(** ** Properties of the predicates *)

(** The entry the loop keeps: its time is the latest, and no entry before it has that time. *)
Lemma most_recent_spec l acc :
  match foldl most_recent_step acc l with
  | None => acc = None ∧ Forall (λ mf, mf_Time mf = None) l
  | Some (mf, t) =>
      (acc = Some (mf, t) ∨ mf ∈ l ∧ mf_Time mf = Some t) ∧
      (∀ mf' t', acc = Some (mf', t') → (t' ≤ t)%Z) ∧ ∀ mf' t', mf' ∈ l → mf_Time mf' = Some t' → (t' ≤ t)%Z
  end.
Proof.
  revert acc. induction l as [|x l IH]; intros acc; simpl.
  { destruct acc as [[mf t]|]; [|done]. split_and!; [by left|by intros ?? [= _ ->]|by intros ?? ?%elem_of_nil]. }
  specialize (IH (most_recent_step acc x)). unfold most_recent_step in *.
  destruct (mf_Time x) as [tx|] eqn:Hx.
  - destruct acc as [[a ta]|]; simpl in *.
    + destruct (Z.ltb_spec ta tx) as [Hlt|Hge]; destruct (foldl _ _ l) as [[mf t]|]; try by destruct IH.
      * destruct IH as (Hacc & Hle & Hl). specialize (Hle _ _ eq_refl). split_and!.
        -- right. destruct Hacc as [[= -> ->]|[? ?]]; [split; [by left|done]|split; [by right|done]].
        -- intros ?? [= _ <-]. lia.
        -- intros mf' t' [->|?]%elem_of_cons Ht'; [simplify_eq; lia|eauto].
      * destruct IH as (Hacc & Hle & Hl). specialize (Hle _ _ eq_refl). split_and!.
        -- destruct Hacc as [?|[? ?]]; [by left|right; split; [by right|done]].
        -- by intros ?? [= _ <-].
        -- intros mf' t' [->|?]%elem_of_cons Ht'; [simplify_eq; lia|eauto].
    + destruct (foldl _ _ l) as [[mf t]|]; [|by destruct IH]. destruct IH as (Hacc & Hle & Hl).
      specialize (Hle _ _ eq_refl). split_and!.
      * right. destruct Hacc as [[= -> ->]|[? ?]]; [split; [by left|done]|split; [by right|done]].
      * done.
      * intros mf' t' [->|?]%elem_of_cons Ht'; [simplify_eq; lia|eauto].
  - destruct (foldl _ _ l) as [[mf t]|].
    + destruct IH as (Hacc & Hle & Hl). split_and!.
      * destruct Hacc as [?|[? ?]]; [by left|right; split; [by right|done]].
      * done.
      * intros mf' t' [->|?]%elem_of_cons Ht'; [congruence|eauto].
    + destruct IH as [? ?]. split; [done|]. by constructor.
Qed.

(** The last change was made by somebody else: after every entry of the controller. *)
Definition changed_by_other (obj : WatchedObject) : Prop :=
  ∃ mf t, mf ∈ wo_ManagedFields obj ∧ mf_Time mf = Some t ∧
    ∀ mf' t', mf' ∈ wo_ManagedFields obj → mf_Manager mf' = controllerFieldOwner → mf_Time mf' = Some t' → (t' < t)%Z.

(** The last change was made by the controller: after every entry of others. *)
Definition changed_by_controller (obj : WatchedObject) : Prop :=
  ∃ mf t, mf ∈ wo_ManagedFields obj ∧ mf_Manager mf = controllerFieldOwner ∧ mf_Time mf = Some t ∧
    ∀ mf' t', mf' ∈ wo_ManagedFields obj → mf_Manager mf' ≠ controllerFieldOwner → mf_Time mf' = Some t' → (t' < t)%Z.

Lemma changed_by_other_seen obj : changed_by_other obj → wasMostRecentChangeByController obj = false.
Proof.
  intros (mf & t & Hin & Ht & Hlast). unfold wasMostRecentChangeByController. cbv zeta. case_decide; [done|].
  pose proof (most_recent_spec (wo_ManagedFields obj) None) as Hs.
  destruct (foldl _ None _) as [[mr tr]|]; [|done]. destruct Hs as ([?|[Hmr Htr]] & _ & Hmax); [done|].
  apply bool_decide_eq_false. intros Howner. specialize (Hlast _ _ Hmr Howner Htr). specialize (Hmax _ _ Hin Ht). lia.
Qed.

Lemma changed_by_controller_seen obj : changed_by_controller obj → wasMostRecentChangeByController obj = true.
Proof.
  intros (mf & t & Hin & Howner & Ht & Hlast). unfold wasMostRecentChangeByController. cbv zeta.
  case_decide as Hnil; [rewrite Hnil in Hin; by apply elem_of_nil in Hin|].
  pose proof (most_recent_spec (wo_ManagedFields obj) None) as Hs.
  destruct (foldl _ None _) as [[mr tr]|].
  - destruct Hs as ([?|[Hmr Htr]] & _ & Hmax); [done|]. apply bool_decide_eq_true.
    destruct (decide (mf_Manager mr = controllerFieldOwner)) as [|Hother]; [done|].
    specialize (Hlast _ _ Hmr Hother Htr). specialize (Hmax _ _ Hin Ht). lia.
  - destruct Hs as [_ Hs]. rewrite Forall_forall in Hs. specialize (Hs _ Hin). congruence.
Qed.

Section predicates_correct.
Context `{PredicateLibLaws} `{ExpirableSetLaws}.

Lemma ExternalChange_decides : decides ExternalChangePredicate
  (mkPredicate (λ o, negb (isOnlyManagedByController o)) (λ _ o', negb (wasMostRecentChangeByController o'))
    (λ _, true) (λ _, true)).
Proof. apply Funcs_doc. Qed.

Lemma for_predicate_decides : decides for_predicate
  (mkPredicate (λ _, true)
    (λ o o', negb (wo_Generation o =? wo_Generation o')%Z || negb (wasMostRecentChangeByController o'))
    (λ _, true) (λ _, true)).
Proof.
  unfold for_predicate, GenerationOrDeletePredicate.
  destruct (WithPredicates_doc [predicate_Or (predicate_Or GenerationChangedPredicate ExternalChangePredicate)
    (Funcs (Some (λ _, false)) (Some (λ _ _, false)) (Some (λ _, true)) (Some (λ _, false)))]) as (W1 & W2 & W3 & W4).
  destruct (Or_doc (predicate_Or GenerationChangedPredicate ExternalChangePredicate)
    (Funcs (Some (λ _, false)) (Some (λ _ _, false)) (Some (λ _, true)) (Some (λ _, false)))) as (O1 & O2 & O3 & O4).
  destruct (Or_doc GenerationChangedPredicate ExternalChangePredicate) as (P1 & P2 & P3 & P4).
  destruct GenerationChanged_doc as (G1 & G2 & G3 & G4).
  destruct ExternalChange_decides as (E1 & E2 & E3 & E4).
  destruct (Funcs_doc (Some (λ _, false)) (Some (λ _ _, false)) (Some (λ _, true)) (Some (λ _, false)))
    as (F1 & F2 & F3 & F4).
  split_and!; intros o; [|intros o'|..]; rewrite ?W1, ?W2, ?W3, ?W4; simpl;
    rewrite ?O1, ?O2, ?O3, ?O4; simpl; rewrite ?P1, ?P2, ?P3, ?P4; simpl;
    rewrite ?G1, ?G2, ?G3, ?G4, ?E2, ?F2; simpl; by rewrite ?orb_false_r, ?andb_true_r.
Qed.

Lemma owns_predicate_decides tracker now : decides (owns_predicate tracker now)
  (mkPredicate (λ o, negb (isOnlyManagedByController o)) (λ _ o', negb (wasMostRecentChangeByController o'))
    (λ o, match tracker with None => true | Some t => negb (IsBeingDeleted t now (wo_UID o)) end) (λ _, true)).
Proof.
  unfold owns_predicate. destruct (WithPredicates_doc [ExternalChangePredicate; ExternalDeletePredicate tracker now])
    as (W1 & W2 & W3 & W4).
  destruct ExternalChange_decides as (E1 & E2 & E3 & E4). unfold ExternalDeletePredicate in *.
  destruct (Funcs_doc (Some (λ _ : WatchedObject, true)) (Some (λ _ _, true))
    (Some (λ o, match tracker with None => true | Some t => negb (IsBeingDeleted t now (wo_UID o)) end))
    (Some (λ _, true))) as (F1 & F2 & F3 & F4).
  split_and!; intros o; [|intros o'|..]; rewrite ?W1, ?W2, ?W3, ?W4; simpl;
    rewrite ?E1, ?E2, ?E3, ?E4, ?F1, ?F2, ?F3, ?F4; simpl; by rewrite ?andb_true_r.
Qed.

Lemma accounts_predicate_decides tracker now o o' :
  p_Update (accounts_predicate tracker now) o o' = IsManagedServiceAccount o' && p_Update (owns_predicate tracker now) o o' ∧
  p_Delete (accounts_predicate tracker now) o = IsManagedServiceAccount o && p_Delete (owns_predicate tracker now) o.
Proof.
  unfold accounts_predicate, owns_predicate.
  destruct (WithPredicates_doc [ManagedServiceAccountPredicate; ExternalChangePredicate; ExternalDeletePredicate tracker now])
    as (_ & W2 & W3 & _).
  destruct (WithPredicates_doc [ExternalChangePredicate; ExternalDeletePredicate tracker now]) as (_ & W2' & W3' & _).
  destruct (Funcs_doc (Some IsManagedServiceAccount) (Some (λ _ o', IsManagedServiceAccount o'))
    (Some IsManagedServiceAccount) None) as (_ & F2 & F3 & _).
  by rewrite W2, W3, W2', W3'; simpl; unfold ManagedServiceAccountPredicate; rewrite F2, F3.
Qed.

(** C38. What the watches let through.  Who made a change is read from the managed fields, whose times are in
    seconds and whose managers are the field owners of the requests; what follows is about changes that
    are strictly later than those of the other side (see [same_second_change_missed] for the rest).  Of an
    update of a resource, a change of its specification passes, and so does a change under any other
    field owner than the controller's that is later than all under the controller's; without a change
    of the specification, a change under the controller's field owner that is later than all others
    does not.  Status patches have that field owner; the program's finalizer patches have none, so that
    they count as changes of others and pass.  Of an update of an owned object or a managed account, a
    later change under another field owner passes, a later one under the controller's does not.  Of
    a deletion, all pass but those of objects marked in the tracker within its time to live. *)
Theorem watch_predicates_correct (tracker : GCTracker) (now : Z) (o o' : WatchedObject) :
  (wo_Generation o ≠ wo_Generation o' ∨ changed_by_other o' → p_Update for_predicate o o' = true) ∧
  (wo_Generation o = wo_Generation o' → changed_by_controller o' → p_Update for_predicate o o' = false) ∧
  (changed_by_other o' → p_Update (owns_predicate (Some tracker) now) o o' = true ∧
    p_Update (accounts_predicate (Some tracker) now) o o' = IsManagedServiceAccount o') ∧
  (changed_by_controller o' → p_Update (owns_predicate (Some tracker) now) o o' = false ∧
    p_Update (accounts_predicate (Some tracker) now) o o' = false) ∧
  (∀ marked, (0 < es_ttl (gct_cache tracker))%Z → (marked ≤ now)%Z →
    let tracker' := GCTracker_MarkForDeletion tracker marked (wo_UID o) in
    p_Delete (owns_predicate (Some tracker') now) o = (marked + es_ttl (gct_cache tracker) <=? now)%Z) ∧
  (∀ marked uid, uid ≠ wo_UID o →
    p_Delete (owns_predicate (Some (GCTracker_MarkForDeletion tracker marked uid)) now) o =
    p_Delete (owns_predicate (Some tracker) now) o) ∧
  (∀ ttl, p_Delete (owns_predicate (Some (NewGCTracker ttl)) now) o = true).
Proof.
  destruct for_predicate_decides as (_ & F2 & _). rewrite F2. cbn [p_Update].
  destruct (accounts_predicate_decides (Some tracker) now o o') as [A2 _]. rewrite A2.
  destruct (owns_predicate_decides (Some tracker) now) as (_ & O2 & O3 & _). rewrite O2, O3. cbn [p_Update p_Delete].
  split_and!.
  - intros [Hne%Z.eqb_neq|Hc%changed_by_other_seen]; [by rewrite Hne|]. by rewrite Hc, orb_true_r.
  - intros Heq%Z.eqb_eq Hc%changed_by_controller_seen. by rewrite Heq, Hc.
  - intros Hc%changed_by_other_seen. by rewrite Hc, andb_true_r.
  - intros Hc%changed_by_controller_seen. by rewrite Hc, andb_false_r.
  - intros marked Httl Hle. cbv zeta.
    destruct (owns_predicate_decides (Some (GCTracker_MarkForDeletion tracker marked (wo_UID o))) now) as (_ & _ & -> & _).
    simpl. unfold IsBeingDeleted. simpl. rewrite es_Get_Add_eq by done. by rewrite <-Z.leb_antisym.
  - intros marked uid Hne.
    destruct (owns_predicate_decides (Some (GCTracker_MarkForDeletion tracker marked uid)) now) as (_ & _ & -> & _).
    simpl. unfold IsBeingDeleted. simpl. by rewrite es_Get_Add_ne.
  - intros ttl. destruct (owns_predicate_decides (Some (NewGCTracker ttl)) now) as (_ & _ & -> & _).
    simpl. unfold IsBeingDeleted. simpl. by rewrite es_Get_New.
Qed.
End predicates_correct.

(** ** Properties of the map and of the reconcilers *)

(** What the answer to a merge patch of the finalizers is: the object, with the finalizers asked for. *)
Class PatchLaws (W : Type) `{Client W} : Prop := {
  Patch_answer obj original w w' obj' :
    client_Patch obj original w = (w', (obj', None)) →
    GetNamespacedName obj' = GetNamespacedName obj ∧ finalizers obj' = finalizers obj;
  Patch_key obj original w : GetNamespacedName (client_Patch obj original w).2.1 = GetNamespacedName obj
}.

Lemma finalizers_set l r : finalizers (set_Finalizers l r) = l.
Proof. by destruct r. Qed.

Section reconcile_correct.
Context `{ClientLaws W} `{!EventRecorder W} `{!PatchLaws W} `{SchemeInterface} `{ExpirableLRU} `{RangeOrder}
  `{ThirdPartyLaws} `{ControllerUtilLaws}.
Implicit Types (e : InMemoryEngine).

(** A managed service account that changes brings back every resource of the kind that is not
    being deleted, each under its own key, and nothing when it is not managed or the list fails. *)
Theorem mapServiceAccount_correct (obj : WatchedObject) (w : W) :
  (IsManagedServiceAccount obj = false →
    mapServiceAccountToWSAs obj w = (w, []) ∧ mapServiceAccountToCWSAs obj w = (w, [])) ∧
  (IsManagedServiceAccount obj = true →
    (mapServiceAccountToWSAs obj w).2 =
      (match (client_ListWSAs w).2 with inl _ => [] | inr wsas => GetNamespacedName <$> live wsas [] end) ∧
    ((∀ cwsas cwsa, (client_ListCWSAs w).2 = inr cwsas → cwsa ∈ cwsas → meta_Namespace (cwsa_ObjectMeta cwsa) = "") →
      (mapServiceAccountToCWSAs obj w).2 =
      (match (client_ListCWSAs w).2 with inl _ => [] | inr cwsas => GetNamespacedName <$> live [] cwsas end))).
Proof.
  unfold mapServiceAccountToWSAs, mapServiceAccountToCWSAs, MapServiceAccountToResources.
  split; intros ->; cbn [negb]; [done|].
  set (f := λ requests (item : ObjectMeta), _).
  assert (∀ l acc, foldl f acc l = acc ++ ((λ m, mkNN (meta_Namespace m) (meta_Name m)) <$>
    filter (λ m, time_IsZero (meta_DeletionTimestamp m)) l)) as Hf.
  { induction l as [|m l IH]; intros acc; cbn [foldl]; [by rewrite app_nil_r|]. rewrite IH, filter_cons. unfold f.
    destruct (time_IsZero (meta_DeletionTimestamp m)); simpl; [|done]. rewrite <-app_assoc. simpl.
    do 2 f_equal. case_decide as Hns; [done|]. by destruct (decide (meta_Namespace m = "")) as [->|]. }
  split.
  - unfold bind. destruct (client_ListWSAs w) as [w1 [err|l]]; [done|]. simpl. rewrite Hf. unfold live. simpl.
    rewrite app_nil_r. induction l as [|x l IH]; [done|]. cbn [fmap list_fmap]. rewrite !filter_cons.
    destruct (time_IsZero (meta_DeletionTimestamp (wsa_ObjectMeta x))); simpl; [by f_equal|done].
  - unfold bind. destruct (client_ListCWSAs w) as [w1 [err|l]]; [done|]. simpl. intros Hns. specialize (Hns l).
    assert (∀ x, x ∈ l → meta_Namespace (cwsa_ObjectMeta x) = "") as Hns' by auto. clear Hns.
    rewrite Hf. unfold live. simpl. induction l as [|x l IH]; [done|].
    specialize (IH (λ y Hy, Hns' y (list_elem_of_further _ _ _ Hy))).
    cbn [fmap list_fmap] in *. rewrite !filter_cons.
    destruct (time_IsZero (meta_DeletionTimestamp (cwsa_ObjectMeta x))); simpl; [|done].
    f_equal; [|done]. unfold GetNamespacedName. simpl. by rewrite (Hns' x (list_elem_of_here _ _)).
Qed.

Lemma fetchResource_kind cluster key w w1 r :
  fetchResource cluster key w = (w1, inr (Some r)) → IsClusterScoped r = cluster.
Proof.
  unfold fetchResource, bind. destruct cluster.
  - destruct (client_GetCWSA key w) as [w2 [err|o]]; simpl; [destruct (IsNotFound err)|]; by intros [= _ <-].
  - destruct (client_GetWSA key w) as [w2 [err|o]]; simpl; [destruct (IsNotFound err)|]; by intros [= _ <-].
Qed.

Lemma handleDeletion_key e r w : GetNamespacedName (handleDeletion e r w).2.1 = GetNamespacedName r.
Proof.
  unfold handleDeletion, bind, ret. do 2 (case_match; [done|]).
  pose proof (Patch_key (removeCleanupFinalizer r).1 r w) as Hk. destruct (client_Patch _ _ w) as [w' [r' err]]. simpl in *.
  rewrite Hk. unfold removeCleanupFinalizer. destruct (RemoveFinalizer _ _). by destruct r.
Qed.

(** Reconciling queues at most one event, for the resource that was read.  It is a deletion when
    the resource is being deleted; otherwise it is queued only once the resource carries the cleanup
    finalizer, so that its deletion cannot be missed, and it is a creation exactly at generation one.
    Without an event the resource was not found, or an error is returned. *)
Theorem Reconcile_event cluster rec e now key added w :
  let '(w', (added', result, err)) := Reconcile cluster rec e now key added w in
  (added' = added ∧ result = no_requeue ∧
    (is_Some err ∨ (fetchResource cluster key w).2 = inr None)) ∨
  ∃ r ev, (fetchResource cluster key w).2 = inr (Some r) ∧ added' = added ++ [ev] ∧
    GetNamespacedName (ev_Resource ev) = GetNamespacedName r ∧
    (isBeingDeleted r → ev_EventType ev = EventTypeDelete ∧ ev_Generation ev = GetGeneration r) ∧
    (isBeingDeleted r = false → err = None ∧ result = no_requeue ∧
      ServiceAccountCleanupFinalizer ∈ finalizers (ev_Resource ev) ∧
      (ev_EventType ev = EventTypeCreate ↔ GetGeneration (ev_Resource ev) = 1%Z) ∧
      ev_EventType ev ≠ EventTypeDelete).
Proof.
  unfold Reconcile. unfold bind at 1. destruct (fetchResource cluster key w) as [w1 [err|[r|]]]; simpl; [| |by left; auto].
  { left. eauto. }
  destruct (isBeingDeleted r) eqn:Hdel.
  - unfold bind. pose proof (handleDeletion_key e r w1) as Hk. destruct (handleDeletion e r w1) as [w2 [r2 [requeue derr]]].
    destruct derr as [derr|]; [|destruct requeue]; right; (do 2 eexists; split_and!; [done|done|done|by intros _; split|by rewrite Hdel]).
  - unfold bind at 1. destruct (ensureFinalizer r w1) as [w2 [r2 [ferr|]]] eqn:Hens; [left; eauto|].
    assert (GetNamespacedName r2 = GetNamespacedName r ∧ ServiceAccountCleanupFinalizer ∈ finalizers r2) as [Hk Hf].
    { unfold ensureFinalizer in Hens. destruct (containsCleanupFinalizer r) eqn:Hc.
      - injection Hens as <- <-. split; [done|]. apply ContainsFinalizer_doc. unfold containsCleanupFinalizer in Hc. by rewrite Hc.
      - unfold addCleanupFinalizer in Hens.
        pose proof (AddFinalizer_doc (finalizers r) ServiceAccountCleanupFinalizer ServiceAccountCleanupFinalizer) as Hadd.
        destruct (AddFinalizer _ _) as [l changed]. simpl in *.
        apply Patch_answer in Hens as [-> ->]. rewrite finalizers_set. split; [by destruct r|]. apply Hadd. by left. }
    unfold bind. match goal with |- context [match ?m w2 with _ => _ end] => destruct (m w2) as [w3 []] end.
    right. exists r, (NewCreateOrUpdateEventInfo r2 now). split_and!; [done|done|done|by rewrite Hdel|]. intros _.
    unfold NewCreateOrUpdateEventInfo, NewEventInfo. simpl. split; [done|]. split; [done|]. split; [done|].
    destruct (Z.eqb_spec (GetGeneration r2) 1); naive_solver.
Qed.

(** C15. The deletion of a resource waits for staging.  While the engine serves the plan of resources that
    include it, and provided that different groups of these resources have different account names
    ([names_separate]), its finalizer stays and the reconciler comes back after two seconds; once a
    plan without it was applied, the cleanup finalizer, and no other, is removed.  Each time the
    deletion is queued, so that a batch will take it into account.  Without [names_separate] the entry
    of one group can replace that of another, and the finalizer may go early. *)
Theorem deletion_waits_for_staging cluster rec i R targetNamespaces now key added w w1 r :
  fetchResource cluster key w = (w1, inr (Some r)) → isBeingDeleted r →
  ServiceAccountCleanupFinalizer ∈ finalizers r → resources_ok R →
  let e := ApplyBatchPlan i (plan_for R targetNamespaces) in
  let '(w', (added', result, err)) := Reconcile cluster rec e now key added w in
  (∃ ev, added' = added ++ [ev] ∧ ev_EventType ev = EventTypeDelete) ∧
  (names_separate R → GetNamespacedName r ∈ GetNamespacedName <$> R →
    w' = w1 ∧ result = mkCtrlResult deleteCheckRequeueDelay ∧ err = None) ∧
  (GetNamespacedName r ∉ GetNamespacedName <$> R →
    result = no_requeue ∧ ∃ l answer, client_Patch (set_Finalizers l r) r w1 = (w', (answer, err)) ∧
      ∀ f, f ∈ l ↔ f ≠ ServiceAccountCleanupFinalizer ∧ f ∈ finalizers r).
Proof.
  intros Hfetch Hdel Hfin HR e. unfold Reconcile. unfold bind at 1. rewrite Hfetch.
  destruct (isBeingDeleted r); [|done]. unfold bind, handleDeletion.
  assert (containsCleanupFinalizer r = true) as -> by by apply Is_true_true, ContainsFinalizer_doc. cbn [negb].
  destruct (IsWSAInMaps_swap i R (GetNamespacedName r) HR) as [Honly Hall].
  change (swap _ _ _ _) with e in Honly, Hall.
  destruct (IsWSAInMaps e (GetNamespacedName r)) eqn:Hmaps.
  - simpl. split; [by eexists|]. split; [done|]. intros Hnot. destruct Hnot.
    destruct (Honly I) as (x & Hx & <-). by apply list_elem_of_fmap_2.
  - unfold removeCleanupFinalizer.
    pose proof (RemoveFinalizer_doc (finalizers r) ServiceAccountCleanupFinalizer) as Hrem.
    destruct (RemoveFinalizer _ _) as [l changed]. simpl in *.
    destruct (client_Patch (set_Finalizers l r) r w1) as [w2 [answer perr]] eqn:Hp.
    assert (names_separate R → GetNamespacedName r ∈ GetNamespacedName <$> R → False) as Habs.
    { intros Hsep (x & Hk & Hx)%list_elem_of_fmap. destruct (Hall Hsep). by exists x. }
    unfold bind. rewrite Hp. destruct perr as [perr|]; unfold ret; cbn beta iota; (split; [by eexists|]); (split; [by intros ? ?%Habs|]); intros _; (split; [done|]);
      exists l, answer; split; done.
Qed.
End reconcile_correct.

Module ControllerExamples.
Import InMemory ResourceExamples PipelineExamples RetryExamples.
#[local] Existing Instance range_forward.
#[local] Existing Instance reference_third_party.
#[local] Existing Instance reference_third_party_laws.
#[local] Existing Instance reference_lru.
#[local] Existing Instance reference_lru_laws.
#[local] Existing Instance reference_queue.
#[local] Existing Instance reference_queue_laws.
#[local] Existing Instance reference_util.
#[local] Existing Instance reference_util_laws.

Definition deleted_meta : ObjectMeta :=
  mkMeta "app" "team-a" "app" 2 "2" (Some 5%Z) None [ServiceAccountCleanupFinalizer] [].
Definition app_deleted : WorkloadServiceAccount := mkWSA deleted_meta app_scope [] [role "reader"] [rule] [].
Definition app_key : NamespacedName := mkNN "team-a" "app".

(** The cluster after the first batch, once the namespaced resource is being deleted. *)
Definition deleting_in (objects : gmap Ref Object) (faults : list bool) : World :=
  mkWorld objects [app_deleted] [admin_cwsa] ["apps"] {["apps"]} faults [] [] [].
Definition deleting : list bool → World := deleting_in (store run0.1).
Definition deletion_batch : Batch := NewBatch "d" 0 [NewEventInfo (wsaAdapter app_deleted) EventTypeDelete 0].
Definition exhausted : batchQueue :=
  let again q := bq_AddRateLimited q (Some deletion_batch) in again (again (again NewBatchQueue)).
(** The fourth attempt: the list of service accounts fails in the garbage collection. *)
Definition last_attempt :=
  processBatchWithRetry orchestrator run0.2.1.1.1 exhausted 10 deletion_batch (deleting (replicate 12 false ++ [true])).
Definition account : string :=
  match eng_GetServiceAccountForScope run0.2.1.1.1 deployment with ROk n => n | _ => "" end.
Definition account_ref : Ref := (KServiceAccount, mkNN "apps" account).

(** Reconciling the resource with an engine and a cluster. *)
Definition reconcile_app (e : InMemoryEngine) (w : World) := Reconcile false true e 20 app_key [] w.
Definition finalizers_of (w : World) : list (list string) := (λ x, meta_Finalizers (wsa_ObjectMeta x)) <$> wsas w.

(** The cleanup finalizer is removed before anything is cleaned up when a batch has failed for
    good: the state rebuilt from the cluster leaves the deleted resource out, which the deletion flow
    takes for a batch that has gone through, while the service account of the resource still exists. *)
Theorem permanent_failure_orphans :
  let waiting := reconcile_app run0.2.1.1.1 (deleting []) in
  let done := reconcile_app last_attempt.2.1.1.1 last_attempt.1 in
  waiting.2.1.2 = mkCtrlResult deleteCheckRequeueDelay ∧
  finalizers_of waiting.1 = [[ServiceAccountCleanupFinalizer]] ∧
  is_Some (store last_attempt.1 !! account_ref) ∧ forgotten last_attempt.2.1.1.2 "d" ∧
  done.2.1.2 = no_requeue ∧ done.2.2 = None ∧ finalizers_of done.1 = [[]] ∧ is_Some (store done.1 !! account_ref).
Proof.
  cbv zeta. split_and!; [by vm_compute|by vm_compute|eexists; by vm_compute|split; by vm_compute|
    by vm_compute|by vm_compute|by vm_compute|eexists; by vm_compute].
Qed.

(** The engine of a process that has just started, or that has only refreshed its mappings as a
    replica does, knows no resource: its deletion flow removes the finalizer at once, without waiting
    for a batch, while the service account of the resource still exists. *)
Theorem fresh_leader_skips_cleanup :
  let refreshed := RefreshScopeMappings engine0 (cluster [app_wsa] []) in
  let done := reconcile_app refreshed.2.1 (deleting []) in
  eng_GetServiceAccountForScope refreshed.2.1 deployment = ROk account ∧
  done.2.1.2 = no_requeue ∧ done.2.2 = None ∧ finalizers_of done.1 = [[]] ∧ is_Some (store done.1 !! account_ref).
Proof.
  cbv zeta. split_and!; [by vm_compute|by vm_compute|by vm_compute|by vm_compute|eexists; by vm_compute].
Qed.

#[local] Instance patch_laws : PatchLaws World.
Proof.
  split; [intros obj original w w' obj'|intros obj original w]; simpl; unfold call; destruct (script w) as [|[] ?];
    try done; by intros [= _ <-].
Defined.

Definition queued := reconcile_app engine0 (cluster [app_wsa] []).

Lemma Reconcile_event_witness :
  ∃ ev, queued.2.1.1 = [ev] ∧ ServiceAccountCleanupFinalizer ∈ finalizers (ev_Resource ev).
Proof.
  pose proof (Reconcile_event false true engine0 20 app_key [] (cluster [app_wsa] [])) as Hc.
  assert (queued.2.2 = None) as Herr by by vm_compute.
  assert ((fetchResource false app_key (cluster [app_wsa] [])).2 = inr (Some (wsaAdapter app_wsa))) as Hf by by vm_compute.
  unfold queued, reconcile_app in *. destruct (Reconcile _ _ _ _ _ _ _) as [w' [[added' result] err]]. simpl in Herr. subst err.
  destruct Hc as [(_ & _ & [[? ?]|Hn])|(r & ev & Hr & Hadded & _ & _ & Hev)]; [done|by rewrite Hf in Hn|].
  rewrite Hf in Hr. injection Hr as <-. exists ev. split; [exact Hadded|]. by apply Hev.
Defined.

(** The plan without the resource. *)
Definition R_admin : list WSAResource := [clusterWSAAdapter admin_cwsa].

Lemma R_admin_ok : resources_ok R_admin.
Proof. apply resources_okb_sound. by vm_compute. Defined.

Lemma fetch_deleted objects :
  fetchResource false app_key (deleting_in objects []) = (deleting_in objects [], inr (Some (wsaAdapter app_deleted))).
Proof. reflexivity. Defined.

Lemma deletion_waits_for_staging_witness :
  ∃ l answer, client_Patch (set_Finalizers l (wsaAdapter app_deleted)) (wsaAdapter app_deleted) (deleting []) =
    ((reconcile_app (ApplyBatchPlan run0.2.1.1.1 (plan_for R_admin ["apps"])) (deleting [])).1, (answer, None)) ∧
    ∀ f, f ∈ l ↔ f ≠ ServiceAccountCleanupFinalizer ∧ f ∈ finalizers (wsaAdapter app_deleted).
Proof.
  pose proof (fetch_deleted (store run0.1)) as Hf. fold deleting in Hf.
  pose proof (deletion_waits_for_staging false true run0.2.1.1.1 R_admin ["apps"] 20 app_key [] (deleting []) (deleting [])
    (wsaAdapter app_deleted) Hf I (list_elem_of_here _ _) R_admin_ok) as Hc.
  assert ((reconcile_app (ApplyBatchPlan run0.2.1.1.1 (plan_for R_admin ["apps"])) (deleting [])).2.2 = None) as Herr by by vm_compute.
  cbv zeta in Hc. unfold reconcile_app in *. destruct (Reconcile _ _ _ _ _ _ _) as [w' [[added' result] err]].
  simpl in Herr. subst err. destruct Hc as (_ & _ & Hc).
  destruct Hc as [_ Hc]; [apply (bool_decide_unpack _); by vm_compute|]. exact Hc.
Defined.

#[local] Existing Instance reference_set.
#[local] Existing Instance reference_set_laws.
#[local] Existing Instance reference_predicates.
#[local] Existing Instance reference_predicates_laws.

(** A role whose entries are given by the manager and the second of its last change. *)
Definition watched (l : list (string * Z)) : WatchedObject :=
  mkWatched false "uid" 1 (Some managed_labels) ((λ '(manager, t), mkManagedFields manager (Some t)) <$> l).

Lemma watch_predicates_correct_witness :
  p_Update (owns_predicate (Some (NewGCTracker 30)) 5) (watched []) (watched [(controllerFieldOwner, 1%Z); ("kubectl", 2%Z)]) = true.
Proof.
  apply (watch_predicates_correct (NewGCTracker 30) 5 (watched []) (watched [(controllerFieldOwner, 1%Z); ("kubectl", 2%Z)])).
  exists (mkManagedFields "kubectl" (Some 2%Z)), 2%Z. split_and!; [apply list_elem_of_further, list_elem_of_here|done|].
  intros mf' t' [->|[->|[]%elem_of_nil]%elem_of_cons]%elem_of_cons; simpl; [by intros _ [= <-]|done].
Defined.

(** Times of managed fields have a resolution of one second: a change that somebody makes to an
    owned role in the second in which the controller applied it is taken for the controller's own
    and filtered, so the role stays changed. *)
Theorem same_second_change_missed :
  let role := watched [(controllerFieldOwner, 7%Z); ("kubectl", 7%Z)] in
  p_Update (owns_predicate (Some (NewGCTracker 30)) 7) (watched [(controllerFieldOwner, 7%Z)]) role = false ∧
  p_Update (owns_predicate (Some (NewGCTracker 30)) 7) (watched [(controllerFieldOwner, 7%Z)])
    (watched [(controllerFieldOwner, 7%Z); ("kubectl", 8%Z)]) = true.
Proof. split; by vm_compute. Qed.
End ControllerExamples.
