(* ===== verification/Metrics.v ===== *)
(** * The metrics of the cluster

    The collector that answers a scrape (src/internal/metrics/collector.go): counts of the resources,
    of the managed objects, of the scopes and of the target namespaces. *)

From Stdlib Require Import ZArith.
From S2P Require Import Prelude GoLib Api Scopes ServiceAccounts Access Cluster Resources Engine Pipeline.

(** A gauge: the name of its descriptor, its value and the values of its labels.  The counts are far
    below 2^53, so that [float64] is exact. *)
Record Metric := mkMetric {
  met_desc : string;
  met_value : Z;
  met_labels : list string
}.

#[export] Instance Metric_eq_dec : EqDecision Metric.
Proof. solve_decision. Defined.

(** [NewOctopusMetricsCollector]: the descriptors. *)
Definition wsaTotalDesc : string := "octopus_wsa_total".
Definition cwsaTotalDesc : string := "octopus_cwsa_total".
Definition serviceAccountsTotalDesc : string := "octopus_service_accounts_total".
Definition rolesTotalDesc : string := "octopus_roles_total".
Definition clusterRolesTotalDesc : string := "octopus_cluster_roles_total".
Definition roleBindingsTotalDesc : string := "octopus_role_bindings_total".
Definition clusterRoleBindingsTotalDesc : string := "octopus_cluster_role_bindings_total".
Definition distinctScopesTotalDesc : string := "octopus_distinct_scopes_total".
Definition targetNamespacesTotalDesc : string := "octopus_target_namespaces_total".

(** The descriptors of the six dimensions. *)
Definition scopesWithDesc (d : DimensionIndex) : string :=
  match d with
  | ProjectIndex => "octopus_scopes_with_projects_total"
  | ProjectGroupIndex => "octopus_scopes_with_project_groups_total"
  | EnvironmentIndex => "octopus_scopes_with_environments_total"
  | TenantIndex => "octopus_scopes_with_tenants_total"
  | StepIndex => "octopus_scopes_with_steps_total"
  | SpaceIndex => "octopus_scopes_with_spaces_total"
  end.

(** The order of the struct literals of the collector. *)
Definition scope_order : list DimensionIndex :=
  [ProjectIndex; ProjectGroupIndex; EnvironmentIndex; TenantIndex; StepIndex; SpaceIndex].

(** [prometheus.NewDesc]: the name, the help text and the names of the labels. *)
Record Desc := mkDesc { desc_fqName : string; desc_help : string; desc_variableLabels : list string }.

Definition NewOctopusMetricsCollector : list Desc := [
  mkDesc wsaTotalDesc "Total number of WorkloadServiceAccounts" ["namespace"];
  mkDesc cwsaTotalDesc "Total number of ClusterWorkloadServiceAccounts" [];
  mkDesc serviceAccountsTotalDesc "Total number of Service Accounts managed by Octopus" ["namespace"];
  mkDesc rolesTotalDesc "Total number of Roles managed by Octopus" ["namespace"];
  mkDesc clusterRolesTotalDesc "Total number of ClusterRoles managed by Octopus" [];
  mkDesc roleBindingsTotalDesc "Total number of RoleBindings managed by Octopus" ["namespace"];
  mkDesc clusterRoleBindingsTotalDesc "Total number of ClusterRoleBindings managed by Octopus" [];
  mkDesc distinctScopesTotalDesc "Total number of distinct scopes" [];
  mkDesc (scopesWithDesc ProjectIndex) "Number of scopes with Project defined" [];
  mkDesc (scopesWithDesc ProjectGroupIndex) "Number of scopes with Project Group defined" [];
  mkDesc (scopesWithDesc EnvironmentIndex) "Number of scopes with Environment defined" [];
  mkDesc (scopesWithDesc TenantIndex) "Number of scopes with Tenant defined" [];
  mkDesc (scopesWithDesc StepIndex) "Number of scopes with Step defined" [];
  mkDesc (scopesWithDesc SpaceIndex) "Number of scopes with Space defined" [];
  mkDesc targetNamespacesTotalDesc "Number of target namespaces" []
].

(** The number of labels a metric of the descriptor must have; with another number
    [MustNewConstMetric] panics. *)
Definition arity (desc : string) : option nat :=
  length ∘ desc_variableLabels <$> List.find (λ d, bool_decide (desc_fqName d = desc)) NewOctopusMetricsCollector.

Definition Describe : list string :=
  [wsaTotalDesc; cwsaTotalDesc; serviceAccountsTotalDesc; rolesTotalDesc; clusterRolesTotalDesc;
   roleBindingsTotalDesc; clusterRoleBindingsTotalDesc; distinctScopesTotalDesc] ++
  (scopesWithDesc <$> scope_order) ++ [targetNamespacesTotalDesc].

(** [for x in l { counts[f(x)]++ }] *)
Definition count_by {A} (f : A → string) (l : list A) : gmap string Z :=
  foldl (λ counts x, <[f x := (default 0 (counts !! f x) + 1)%Z]> counts) ∅ l.

Section collector.
Context `{Client W} `{!GCTrackerInterface W} `{SchemeInterface} `{ExpirableLRU} `{RangeOrder} `{ThirdParty}.

(** The metrics sent to the channel are appended to [ch]. *)
Definition send_counts (site desc : string) (counts : gmap string Z) (ch : list Metric) : list Metric :=
  foldl (λ ch '(namespace, count), ch ++ [mkMetric desc count [namespace]]) ch (range_map site counts).

Definition collectWSAMetrics (ch : list Metric) : M W (list Metric * option error) :=
  let* r := GetWorkloadServiceAccounts in
  ret (match r with
       | inl err => (ch, Some (ErrWrap "failed to get workload service accounts" err))
       | inr l => (send_counts "collectWSAMetrics" wsaTotalDesc (count_by (λ x, meta_Namespace (wsa_ObjectMeta x)) l) ch, None)
       end).

Definition collectCWSAMetrics (ch : list Metric) : M W (list Metric * option error) :=
  let* r := GetClusterWorkloadServiceAccounts in
  ret (match r with
       | inl err => (ch, Some (ErrWrap "failed to get cluster workload service accounts" err))
       | inr l => (ch ++ [mkMetric cwsaTotalDesc (Z.of_nat (length l)) []], None)
       end).

Definition collectServiceAccountMetrics (ch : list Metric) : M W (list Metric * option error) :=
  let* r := GetServiceAccounts in
  ret (match r with
       | inl err => (ch, Some (ErrWrap "failed to get service accounts" err))
       | inr l => (send_counts "collectServiceAccountMetrics" serviceAccountsTotalDesc (count_by obj_Namespace l) ch, None)
       end).

Definition collectRoleMetrics (ch : list Metric) : M W (list Metric * option error) :=
  let* r := GetRoles in
  match r with
  | inl err => ret (ch, Some (ErrWrap "failed to get roles" err))
  | inr l =>
      let ch := send_counts "collectRoleMetrics" rolesTotalDesc (count_by obj_Namespace l) ch in
      let* r := GetClusterRoles in
      ret (match r with
           | inl err => (ch, Some (ErrWrap "failed to get cluster roles" err))
           | inr l => (ch ++ [mkMetric clusterRolesTotalDesc (Z.of_nat (length l)) []], None)
           end)
  end.

Definition collectRoleBindingMetrics (ch : list Metric) : M W (list Metric * option error) :=
  let* r := GetRoleBindings in
  match r with
  | inl err => ret (ch, Some (ErrWrap "failed to get role bindings" err))
  | inr l =>
      let ch := send_counts "collectRoleBindingMetrics" roleBindingsTotalDesc (count_by obj_Namespace l) ch in
      let* r := GetClusterRoleBindings in
      ret (match r with
           | inl err => (ch, Some (ErrWrap "failed to get cluster role bindings" err))
           | inr l => (ch ++ [mkMetric clusterRoleBindingsTotalDesc (Z.of_nat (length l)) []], None)
           end)
  end.

(** One counter per dimension, incremented for a scope that has values in it. *)
Definition count_dimensions (counters : Dims Z) (scope : WorkloadServiceAccountScope) : Dims Z :=
  foldl (λ counters d,
    if bool_decide (0 < length (dim_get d scope)) then dim_set d (dim_get d counters + 1)%Z counters else counters)
    counters scope_order.

Definition collectScopeMetricsFromResources (engine : InMemoryEngine) (ch : list Metric) :
    M W (list Metric * option error) :=
  let* r := client_ListWSAs in
  match r with
  | inl err => ret (ch, Some (ErrWrap "failed to list workload service accounts" err))
  | inr wsaList =>
      let* r := client_ListCWSAs in
      match r with
      | inl err => ret (ch, Some (ErrWrap "failed to list cluster workload service accounts" err))
      | inr cwsaList =>
          let distinctScopesCount := size (GetScopeToSA (eng_ScopeComputation engine)) in
          let ch := ch ++ [mkMetric distinctScopesTotalDesc (Z.of_nat distinctScopesCount) []] in
          let counters := foldl (λ counters wsa, count_dimensions counters (wsa_Scope wsa))
            (mkDims 0 0 0 0 0 0)%Z wsaList in
          let counters := foldl (λ counters cwsa, count_dimensions counters (cwsa_Scope cwsa)) counters cwsaList in
          ret (foldl (λ ch d, ch ++ [mkMetric (scopesWithDesc d) (dim_get d counters) []]) ch scope_order, None)
      end
  end.

Definition collectTargetNamespaceMetrics (engine : InMemoryEngine) (ch : list Metric) : list Metric :=
  ch ++ [mkMetric targetNamespacesTotalDesc (Z.of_nat (length (eng_GetTargetNamespaces engine))) []].

(** An error is logged and the next group is collected. *)
Definition Collect (engine : InMemoryEngine) (ch : list Metric) : M W (list Metric) :=
  let* (ch, _) := collectWSAMetrics ch in
  let* (ch, _) := collectCWSAMetrics ch in
  let* (ch, _) := collectServiceAccountMetrics ch in
  let* (ch, _) := collectRoleMetrics ch in
  let* (ch, _) := collectRoleBindingMetrics ch in
  let* (ch, _) := collectScopeMetricsFromResources engine ch in
  ret (collectTargetNamespaceMetrics engine ch).
End collector.

(** ** Counting *)

Definition count {A} (f : A → string) (k : string) (l : list A) : nat := length (filter (λ x, f x = k) l).

Lemma count_by_lookup {A} (f : A → string) l k :
  count_by f l !! k = if decide (count f k l = 0) then None else Some (Z.of_nat (count f k l)).
Proof.
  assert (∀ l (m : gmap string Z), foldl (λ counts x, <[f x := (default 0 (counts !! f x) + 1)%Z]> counts) m l !! k =
    if decide (count f k l = 0) then m !! k else Some (default 0 (m !! k) + Z.of_nat (count f k l))%Z) as Hgen.
  { clear l. induction l as [|x l IH]; intros m; cbn [foldl]; [done|]. rewrite IH. clear IH. unfold count. rewrite filter_cons.
    destruct (decide (f x = k)) as [<-|Hne]; cbn [length].
    - rewrite lookup_insert_eq. rewrite (decide_False (P := S _ = 0)) by done.
      case_decide as Hz; simpl; apply (f_equal Some); lia.
    - by rewrite lookup_insert_ne. }
  unfold count_by. rewrite Hgen, lookup_empty. simpl. by case_decide.
Qed.

(** The parts of [answered] a metric is not in have other descriptors. *)
Ltac parts Hm :=
  repeat match type of Hm with _ ∨ _ => destruct Hm as [Hm|Hm] end;
  repeat match type of Hm with
    | ∃ d : DimensionIndex, _ => destruct Hm as [[] Hm]
    | ∃ _, _ => destruct Hm as [? Hm]
    | _ ∧ _ => destruct Hm as [Hm ?]
    end;
  try discriminate Hm.

(** Lists of different names. *)
Ltac distinct := apply (bool_decide_unpack _); by vm_compute.

Section collector_correct.
Context `{Client W} `{!GCTrackerInterface W} `{SchemeInterface} `{ExpirableLRU} `{RangeOrder} `{ThirdParty}.
Implicit Types (e : InMemoryEngine) (ch : list Metric).

Definition counts_metrics (site desc : string) (counts : gmap string Z) : list Metric :=
  (λ '(namespace, n), mkMetric desc n [namespace]) <$> range_map site counts.

Lemma send_counts_app site desc counts ch :
  send_counts site desc counts ch = ch ++ counts_metrics site desc counts.
Proof.
  unfold send_counts, counts_metrics. generalize (range_map site counts) as l. intros l. revert ch.
  induction l as [|[ns n] l IH]; intros ch; simpl; [by rewrite app_nil_r|]. by rewrite IH, <-app_assoc.
Qed.

Lemma elem_of_counts_metrics {A} site desc (f : A → string) l m :
  m ∈ counts_metrics site desc (count_by f l) ↔
  ∃ ns, m = mkMetric desc (Z.of_nat (count f ns l)) [ns] ∧ count f ns l ≠ 0.
Proof.
  unfold counts_metrics. rewrite list_elem_of_fmap. split.
  - intros ([ns n] & -> & Hin%elem_of_range_map). rewrite count_by_lookup in Hin. case_decide; simplify_eq. eauto.
  - intros (ns & -> & Hn). exists (ns, Z.of_nat (count f ns l)). split; [done|].
    apply elem_of_range_map. rewrite count_by_lookup. by rewrite decide_False.
Qed.

(** *** A well-formed answer *)

Definition met_key (m : Metric) : string * list string := (met_desc m, met_labels m).

(** The metrics added have descriptors of [descs] with the labels they need, and are distinct. *)
Definition adds (descs : list string) ch ch' : Prop :=
  ∃ new, ch' = ch ++ new ∧ NoDup (met_key <$> new) ∧ ∀ m, m ∈ new → met_desc m ∈ descs ∧ arity (met_desc m) = Some (length (met_labels m)).

Lemma adds_nil descs ch : adds descs ch ch.
Proof. exists []. rewrite app_nil_r. split_and!; [done|apply NoDup_nil_2|]. by intros m ?%elem_of_nil. Qed.

Lemma adds_one desc n ch : arity desc = Some 0 → adds [desc] ch (ch ++ [mkMetric desc n []]).
Proof.
  intros Ha. exists [mkMetric desc n []]. split_and!; [done|apply NoDup_singleton|].
  intros m ->%list_elem_of_singleton. split; [by left|done].
Qed.

Lemma adds_counts site desc counts ch : arity desc = Some 1 → adds [desc] ch (send_counts site desc counts ch).
Proof.
  intros Ha. exists (counts_metrics site desc counts). split_and!; [apply send_counts_app| |].
  - unfold counts_metrics. rewrite <-list_fmap_compose.
    replace (met_key ∘ _ <$> range_map site counts) with ((λ ns, (desc, [ns])) <$> (range_map site counts).*1).
    + apply NoDup_fmap_2; [by intros ?? [= ->]|apply NoDup_fst_range_map].
    + rewrite <-list_fmap_compose. apply list_fmap_ext. by intros i [ns n] _.
  - intros m ([ns n] & -> & _)%list_elem_of_fmap. split; [by left|done].
Qed.

Lemma adds_trans D1 D2 ch1 ch2 ch3 :
  NoDup (D1 ++ D2) → adds D1 ch1 ch2 → adds D2 ch2 ch3 → adds (D1 ++ D2) ch1 ch3.
Proof.
  intros (_ & Hdis & _)%NoDup_app (n1 & -> & Hn1 & Hd1) (n2 & -> & Hn2 & Hd2). exists (n1 ++ n2). split_and!.
  - by rewrite app_assoc.
  - rewrite fmap_app. apply NoDup_app. split_and!; [done| |done].
    intros k (m1 & -> & Hm1)%list_elem_of_fmap (m2 & Hk & Hm2)%list_elem_of_fmap.
    unfold met_key in Hk. injection Hk as Hk _. apply (Hdis (met_desc m1)); [by apply Hd1|]. rewrite Hk. by apply Hd2.
  - intros m [[? ?]%Hd1|[? ?]%Hd2]%elem_of_app; (split; [apply elem_of_app|]); auto.
Qed.

(** Joins two [adds] facts of different descriptors into the first. *)
Ltac chain A B :=
  let C := fresh in
  pose proof (λ Hd, adds_trans _ _ _ _ _ Hd A B) as C; specialize (C ltac:(distinct)); clear A B; rename C into A.

Lemma adds_mono D1 D2 ch ch' : (∀ d, d ∈ D1 → d ∈ D2) → adds D1 ch ch' → adds D2 ch ch'.
Proof. intros Hsub (new & ? & ? & Hd). exists new. split_and!; [done..|]. intros m [? ?]%Hd. auto. Qed.

Lemma collectRoleMetrics_adds ch w : adds [rolesTotalDesc; clusterRolesTotalDesc] ch (collectRoleMetrics ch w).2.1.
Proof.
  unfold collectRoleMetrics. unfold bind at 1. destruct (GetRoles w) as [w1 [err|l]]; [apply adds_nil|].
  unfold bind. destruct (GetClusterRoles w1) as [w2 [err|l']]; simpl.
  - eapply adds_mono; [|by apply adds_counts]. intros d ->%list_elem_of_singleton. by left.
  - eapply (adds_trans [_] [_]); [distinct|by apply adds_counts|by apply adds_one].
Qed.

Lemma collectRoleBindingMetrics_adds ch w :
  adds [roleBindingsTotalDesc; clusterRoleBindingsTotalDesc] ch (collectRoleBindingMetrics ch w).2.1.
Proof.
  unfold collectRoleBindingMetrics. unfold bind at 1. destruct (GetRoleBindings w) as [w1 [err|l]]; [apply adds_nil|].
  unfold bind. destruct (GetClusterRoleBindings w1) as [w2 [err|l']]; simpl.
  - eapply adds_mono; [|by apply adds_counts]. intros d ->%list_elem_of_singleton. by left.
  - eapply (adds_trans [_] [_]); [distinct|by apply adds_counts|by apply adds_one].
Qed.

Lemma send_dimensions counters ch :
  foldl (λ ch d, ch ++ [mkMetric (scopesWithDesc d) (dim_get d counters) []]) ch scope_order =
  ch ++ ((λ d, mkMetric (scopesWithDesc d) (dim_get d counters) []) <$> scope_order).
Proof. simpl. by rewrite <-!app_assoc. Qed.

Lemma collectScopeMetrics_adds e ch w :
  adds (distinctScopesTotalDesc :: (scopesWithDesc <$> scope_order)) ch (collectScopeMetricsFromResources e ch w).2.1.
Proof.
  unfold collectScopeMetricsFromResources. unfold bind at 1. destruct (client_ListWSAs w) as [w1 [err|l]]; [apply adds_nil|].
  unfold bind. destruct (client_ListCWSAs w1) as [w2 [err|l']]; [apply adds_nil|]. cbn [fst snd ret].
  rewrite send_dimensions. eapply (adds_trans [_]); [|by apply adds_one|].
  - distinct.
  - eexists. split; [done|]. split.
    + rewrite <-list_fmap_compose. distinct.
    + intros m (d & -> & Hd)%list_elem_of_fmap. split; [exact (list_elem_of_fmap_2 scopesWithDesc _ _ Hd)|by destruct d].
Qed.

Lemma Collect_adds e ch w : adds Describe ch (Collect e ch w).2.
Proof.
  unfold Collect. unfold bind at 1. destruct (collectWSAMetrics ch w) as [w1 [ch1 e1]] eqn:E1.
  unfold bind at 1. destruct (collectCWSAMetrics ch1 w1) as [w2 [ch2 e2]] eqn:E2.
  unfold bind at 1. destruct (collectServiceAccountMetrics ch2 w2) as [w3 [ch3 e3]] eqn:E3.
  unfold bind at 1. pose proof (collectRoleMetrics_adds ch3 w3) as H4'. destruct (collectRoleMetrics ch3 w3) as [w4 [ch4 e4]].
  unfold bind at 1. pose proof (collectRoleBindingMetrics_adds ch4 w4) as H5'.
  destruct (collectRoleBindingMetrics ch4 w4) as [w5 [ch5 e5]].
  unfold bind. pose proof (collectScopeMetrics_adds e ch5 w5) as H6'.
  destruct (collectScopeMetricsFromResources e ch5 w5) as [w6 [ch6 e6]]. cbn [fst snd ret] in *.
  assert (adds [wsaTotalDesc] ch ch1) as A1.
  { unfold collectWSAMetrics, bind in E1. destruct (GetWorkloadServiceAccounts w) as [? [?|?]]; injection E1 as _ <- _;
      [apply adds_nil|by apply adds_counts]. }
  assert (adds [cwsaTotalDesc] ch1 ch2) as A2.
  { unfold collectCWSAMetrics, bind in E2. destruct (GetClusterWorkloadServiceAccounts w1) as [? [?|?]];
      injection E2 as _ <- _; [apply adds_nil|by apply adds_one]. }
  assert (adds [serviceAccountsTotalDesc] ch2 ch3) as A3.
  { unfold collectServiceAccountMetrics, bind in E3. destruct (GetServiceAccounts w2) as [? [?|?]];
      injection E3 as _ <- _; [apply adds_nil|by apply adds_counts]. }
  pose proof (adds_one targetNamespacesTotalDesc (Z.of_nat (length (eng_GetTargetNamespaces e))) ch6 eq_refl) as A7.
  chain A1 A2. chain A1 A3. chain A1 H4'. chain A1 H5'. chain A1 H6'. chain A1 A7.
  eapply adds_mono; [|exact A1]. apply Forall_forall. apply (bool_decide_unpack _). by vm_compute.
Qed.

(** A scrape is always well formed: whatever the API server answers, every metric sent has one of
    the described descriptors and as many labels as that descriptor declares, without which
    [MustNewConstMetric] panics; and no two have the same descriptor and labels, which Prometheus would
    reject. *)
Theorem Collect_well_formed e w :
  let sent := (Collect e [] w).2 in
  NoDup (met_key <$> sent) ∧
  ∀ m, m ∈ sent → met_desc m ∈ Describe ∧ arity (met_desc m) = Some (length (met_labels m)).
Proof. destruct (Collect_adds e [] w) as (new & -> & ? & ?). done. Qed.

(** *** The values *)

Definition managed (l : list Object) : list Object := filter (λ o, IsOctopusManaged (obj_Labels o)) l.

(** What a scrape finds when every read succeeds. *)
Definition answered e (wsas : list WorkloadServiceAccount) (cwsas : list ClusterWorkloadServiceAccount)
    (objects : Kind → list Object) (counters : Dims Z) : list Metric :=
  counts_metrics "collectWSAMetrics" wsaTotalDesc (count_by (λ x, meta_Namespace (wsa_ObjectMeta x)) wsas) ++
  [mkMetric cwsaTotalDesc (Z.of_nat (length cwsas)) []] ++
  counts_metrics "collectServiceAccountMetrics" serviceAccountsTotalDesc
    (count_by obj_Namespace (managed (objects KServiceAccount))) ++
  counts_metrics "collectRoleMetrics" rolesTotalDesc (count_by obj_Namespace (managed (objects KRole))) ++
  [mkMetric clusterRolesTotalDesc (Z.of_nat (length (managed (objects KClusterRole)))) []] ++
  counts_metrics "collectRoleBindingMetrics" roleBindingsTotalDesc
    (count_by obj_Namespace (managed (objects KRoleBinding))) ++
  [mkMetric clusterRoleBindingsTotalDesc (Z.of_nat (length (managed (objects KClusterRoleBinding)))) []] ++
  [mkMetric distinctScopesTotalDesc (Z.of_nat (size (GetScopeToSA (eng_ScopeComputation e)))) []] ++
  ((λ d, mkMetric (scopesWithDesc d) (dim_get d counters) []) <$> scope_order) ++
  [mkMetric targetNamespacesTotalDesc (Z.of_nat (length (eng_GetTargetNamespaces e))) []].

(** The number of scopes with values in a dimension. *)
Definition with_values (d : DimensionIndex) (scopes : list WorkloadServiceAccountScope) : Z :=
  Z.of_nat (length (filter (λ s, dim_get d s ≠ []) scopes)).

Lemma count_dimensions_get d counters s :
  dim_get d (count_dimensions counters s) =
  (dim_get d counters + if decide (dim_get d s ≠ []) then 1 else 0)%Z.
Proof.
  assert (∀ l counters, NoDup l → dim_get d (foldl (λ counters d',
      if bool_decide (0 < length (dim_get d' s)) then dim_set d' (dim_get d' counters + 1)%Z counters else counters)
      counters l) = (dim_get d counters + if decide (d ∈ l ∧ dim_get d s ≠ []) then 1 else 0)%Z) as Hgen.
  { induction l as [|d' l IH]; intros c Hnd; cbn [foldl].
    { rewrite decide_False by (intros [?%elem_of_nil _]; done). lia. }
    apply NoDup_cons in Hnd as [Hd' Hnd]. rewrite IH by done. destruct (decide (d' = d)) as [->|Hne].
    - rewrite (decide_False (P := d ∈ l ∧ _)) by tauto. case_bool_decide as Hlen.
      + rewrite dim_get_set_eq, decide_True; [lia|]. split; [by left|]. intros Hn. rewrite Hn in Hlen. simpl in Hlen. lia.
      + rewrite decide_False; [lia|]. intros [_ Hn]. destruct (dim_get d s); [done|]. simpl in Hlen. lia.
    - assert (dim_get d (if bool_decide (0 < length (dim_get d' s)) then dim_set d' (dim_get d' c + 1)%Z c else c) =
        dim_get d c) as -> by (case_bool_decide; [apply dim_get_set_ne; congruence|done]).
      f_equal. apply decide_ext. rewrite elem_of_cons. naive_solver. }
  unfold count_dimensions. rewrite Hgen by distinct. f_equal. apply decide_ext. split; [tauto|].
  intros ?. split; [|done]. apply elem_of_dimension_indices.
Qed.

Lemma count_all {A} (f : A → WorkloadServiceAccountScope) d l counters :
  dim_get d (foldl (λ counters x, count_dimensions counters (f x)) counters l) =
  (dim_get d counters + with_values d (f <$> l))%Z.
Proof.
  revert counters. induction l as [|x l IH]; intros counters; cbn [foldl]; [unfold with_values; simpl; lia|].
  rewrite IH, count_dimensions_get. unfold with_values. cbn [fmap list_fmap]. rewrite filter_cons.
  destruct (decide (dim_get d (f x) ≠ [])); cbn [length]; lia.
Qed.

Lemma Collect_answered e w wsas cwsas objects :
  client_ListWSAs w = (w, inr wsas) → client_ListCWSAs w = (w, inr cwsas) →
  (∀ k, client_List k None w = (w, inr (objects k))) →
  Collect e [] w = (w, answered e wsas cwsas objects
    (foldl (λ counters cwsa, count_dimensions counters (cwsa_Scope cwsa))
      (foldl (λ counters wsa, count_dimensions counters (wsa_Scope wsa)) (mkDims 0 0 0 0 0 0)%Z wsas) cwsas)).
Proof.
  intros Hw Hc Hl. unfold Collect, collectWSAMetrics, collectCWSAMetrics, collectServiceAccountMetrics, collectRoleMetrics,
    collectRoleBindingMetrics, collectScopeMetricsFromResources, GetWorkloadServiceAccounts,
    GetClusterWorkloadServiceAccounts, GetServiceAccounts, GetRoles, GetClusterRoles, GetRoleBindings,
    GetClusterRoleBindings, get_managed, bind, ret.
  repeat (rewrite ?Hw, ?Hc, ?Hl; cbn beta iota).
  rewrite send_dimensions, !send_counts_app. unfold collectTargetNamespaceMetrics, answered, managed.
  by rewrite <-!app_assoc.
Qed.

(** A metric of [answered] is in the part of its descriptor. *)
Lemma elem_of_answered e wsas cwsas objects counters m :
  m ∈ answered e wsas cwsas objects counters ↔
  (∃ ns, m = mkMetric wsaTotalDesc (Z.of_nat (count (λ x, meta_Namespace (wsa_ObjectMeta x)) ns wsas)) [ns] ∧
    count (λ x, meta_Namespace (wsa_ObjectMeta x)) ns wsas ≠ 0) ∨
  m = mkMetric cwsaTotalDesc (Z.of_nat (length cwsas)) [] ∨
  (∃ ns, m = mkMetric serviceAccountsTotalDesc (Z.of_nat (count obj_Namespace ns (managed (objects KServiceAccount)))) [ns] ∧
    count obj_Namespace ns (managed (objects KServiceAccount)) ≠ 0) ∨
  (∃ ns, m = mkMetric rolesTotalDesc (Z.of_nat (count obj_Namespace ns (managed (objects KRole)))) [ns] ∧
    count obj_Namespace ns (managed (objects KRole)) ≠ 0) ∨
  m = mkMetric clusterRolesTotalDesc (Z.of_nat (length (managed (objects KClusterRole)))) [] ∨
  (∃ ns, m = mkMetric roleBindingsTotalDesc (Z.of_nat (count obj_Namespace ns (managed (objects KRoleBinding)))) [ns] ∧
    count obj_Namespace ns (managed (objects KRoleBinding)) ≠ 0) ∨
  m = mkMetric clusterRoleBindingsTotalDesc (Z.of_nat (length (managed (objects KClusterRoleBinding)))) [] ∨
  m = mkMetric distinctScopesTotalDesc (Z.of_nat (size (GetScopeToSA (eng_ScopeComputation e)))) [] ∨
  (∃ d, m = mkMetric (scopesWithDesc d) (dim_get d counters) []) ∨
  m = mkMetric targetNamespacesTotalDesc (Z.of_nat (length (eng_GetTargetNamespaces e))) [].
Proof.
  unfold answered. rewrite !elem_of_app, !list_elem_of_singleton, !elem_of_counts_metrics.
  assert (m ∈ (λ d, mkMetric (scopesWithDesc d) (dim_get d counters) []) <$> scope_order ↔
    ∃ d, m = mkMetric (scopesWithDesc d) (dim_get d counters) []) as ->; [|tauto].
  rewrite list_elem_of_fmap. split; [by intros (d & -> & _); exists d|].
  intros (d & ->). exists d. split; [done|]. apply elem_of_dimension_indices.
Qed.

Ltac by_desc :=
  rewrite elem_of_answered; split;
  [intros Hm; parts Hm; injection Hm; intros; subst|intros Hn].
Ltac lia_eq := first [split; [f_equal; lia|lia]|f_equal; lia].

(** When the reads succeed, the values are right: for each namespace the number of its resources
    and of its managed service accounts, roles and role bindings (a namespace without any is not
    reported); the number of cluster resources, managed cluster roles and cluster role bindings; the
    number of scopes that have an account; and for each dimension the number of resources, of both
    kinds, that restrict it. *)
Theorem Collect_values e w wsas cwsas objects :
  client_ListWSAs w = (w, inr wsas) → client_ListCWSAs w = (w, inr cwsas) →
  (∀ k, client_List k None w = (w, inr (objects k))) →
  let sent := (Collect e [] w).2 in
  (∀ ns n, mkMetric wsaTotalDesc n [ns] ∈ sent ↔
    n = Z.of_nat (count (λ x, meta_Namespace (wsa_ObjectMeta x)) ns wsas) ∧ n ≠ 0%Z) ∧
  (∀ ns n, mkMetric serviceAccountsTotalDesc n [ns] ∈ sent ↔
    n = Z.of_nat (count obj_Namespace ns (managed (objects KServiceAccount))) ∧ n ≠ 0%Z) ∧
  (∀ ns n, mkMetric rolesTotalDesc n [ns] ∈ sent ↔
    n = Z.of_nat (count obj_Namespace ns (managed (objects KRole))) ∧ n ≠ 0%Z) ∧
  (∀ ns n, mkMetric roleBindingsTotalDesc n [ns] ∈ sent ↔
    n = Z.of_nat (count obj_Namespace ns (managed (objects KRoleBinding))) ∧ n ≠ 0%Z) ∧
  (∀ n, mkMetric cwsaTotalDesc n [] ∈ sent ↔ n = Z.of_nat (length cwsas)) ∧
  (∀ n, mkMetric clusterRolesTotalDesc n [] ∈ sent ↔ n = Z.of_nat (length (managed (objects KClusterRole)))) ∧
  (∀ n, mkMetric clusterRoleBindingsTotalDesc n [] ∈ sent ↔
    n = Z.of_nat (length (managed (objects KClusterRoleBinding)))) ∧
  (∀ n, mkMetric distinctScopesTotalDesc n [] ∈ sent ↔
    n = Z.of_nat (size (GetScopeToSA (eng_ScopeComputation e)))) ∧
  (∀ d n, mkMetric (scopesWithDesc d) n [] ∈ sent ↔
    n = with_values d ((wsa_Scope <$> wsas) ++ (cwsa_Scope <$> cwsas))).
Proof.
  intros Hw Hc Hl sent. unfold sent. rewrite (Collect_answered e w wsas cwsas objects Hw Hc Hl). cbn [snd].
  set (counters := foldl _ _ cwsas).
  assert (∀ d, dim_get d counters = with_values d ((wsa_Scope <$> wsas) ++ (cwsa_Scope <$> cwsas))) as Hcounters.
  { intros d. unfold counters. rewrite !count_all. unfold with_values. rewrite filter_app, length_app. destruct d; simpl; lia. }
  clearbody counters.
  split_and!.
  - intros ns n. by_desc; [lia|]. left. exists ns. lia_eq.
  - intros ns n. by_desc; [lia|]. do 2 right. left. exists ns. lia_eq.
  - intros ns n. by_desc; [lia|]. do 3 right. left. exists ns. lia_eq.
  - intros ns n. by_desc; [lia|]. do 5 right. left. exists ns. lia_eq.
  - intros n. by_desc; [lia|]. right. left. lia_eq.
  - intros n. by_desc; [lia|]. do 4 right. left. lia_eq.
  - intros n. by_desc; [lia|]. do 6 right. left. lia_eq.
  - intros n. by_desc; [lia|]. do 7 right. left. lia_eq.
  - intros d n. rewrite <-Hcounters. rewrite elem_of_answered. split; [|intros ->; do 8 right; left; by exists d].
    intros Hm. destruct d; parts Hm; by injection Hm.
Qed.
End collector_correct.

(** ** Examples *)

Module MetricsExamples.
Import InMemory ResourceExamples PipelineExamples.
#[local] Existing Instance range_forward.
#[local] Existing Instance reference_third_party.
#[local] Existing Instance reference_lru.

(** The cluster and the engine after the first batch. *)
Definition cluster_with (objects : gmap Ref Object) : World :=
  mkWorld objects [app_wsa] [admin_cwsa] ["apps"] {["apps"]} [] [] [] [].
Definition deployed_cluster : World := cluster_with (store run0.1).
Definition deployed_engine : InMemoryEngine := run0.2.1.1.1.

Definition scrape : list Metric := (Collect deployed_engine [] deployed_cluster).2.

Lemma reads objects :
  client_ListWSAs (cluster_with objects) = (cluster_with objects, inr [app_wsa]) ∧
  client_ListCWSAs (cluster_with objects) = (cluster_with objects, inr [admin_cwsa]) ∧
  ∀ k, client_List k None (cluster_with objects) = (cluster_with objects, inr (stored k None (cluster_with objects))).
Proof. done. Defined.

(** Three accounts in the namespace of the agent, one role in that of the resource, one resource that
    restricts the project. *)
Lemma Collect_values_witness :
  mkMetric serviceAccountsTotalDesc 3 ["apps"] ∈ scrape ∧ mkMetric rolesTotalDesc 1 ["team-a"] ∈ scrape ∧
  mkMetric (scopesWithDesc ProjectIndex) 1 [] ∈ scrape.
Proof.
  destruct (reads (store run0.1)) as (Hw & Hc & Hl).
  destruct (Collect_values deployed_engine deployed_cluster [app_wsa] [admin_cwsa] _ Hw Hc Hl)
    as (_ & Hsa & Hroles & _ & _ & _ & _ & _ & Hdims).
  unfold scrape. split; [|split].
  - apply (proj2 (Hsa "apps" 3%Z)). split; [vm_compute; reflexivity|done].
  - apply (proj2 (Hroles "team-a" 1%Z)). split; [vm_compute; reflexivity|done].
  - apply (proj2 (Hdims ProjectIndex 1%Z)). vm_compute. reflexivity.
Defined.

(** The number of target namespaces is reported as zero when they are discovered, which is the
    default, although the accounts of the first batch were created in the discovered namespace. *)
Theorem discovered_namespaces_not_counted :
  (plan_TargetNamespaces <$> b_Plan run0.2.1.1.2) = Some ["apps"] ∧
  mkMetric serviceAccountsTotalDesc 3 ["apps"] ∈ scrape ∧
  ∀ n, mkMetric targetNamespacesTotalDesc n [] ∈ scrape → n = 0%Z.
Proof.
  assert (Forall (λ m, met_desc m = targetNamespacesTotalDesc → met_value m = 0%Z) scrape) as Hz
    by (apply (bool_decide_unpack _); by vm_compute).
  split; [by vm_compute|]. split; [apply (bool_decide_unpack _); by vm_compute|].
  rewrite Forall_forall in Hz. intros n Hn. by apply (Hz _ Hn).
Qed.
End MetricsExamples.
