(* ===== verification/Watches.v ===== *)
(** * Watches: from the cluster back to the reconcilers

    What the three controllers watch ([SetupWithManager] in src/internal/controller), which requests a
    watch event queues, the reconciler of the cluster-scoped resource, and the loop this closes: an
    object the program applied that somebody else changes or deletes brings its resource back. *)

From Stdlib Require Import Ascii ZArith.
From S2P Require Import Prelude GoLib Api Scopes ServiceAccounts Access Cluster Resources Engine Pipeline Debouncer Collector Retry Controllers.

(** ** The reconciler of the cluster-scoped resource *)

Section cluster_reconciler.
Context `{Client W} `{!GCTrackerInterface W} `{!EventRecorder W} `{SchemeInterface} `{ExpirableLRU}
  `{RangeOrder} `{ThirdParty} `{ControllerUtil}.

Definition CWSA_Reconcile (has_recorder : bool) (engine : InMemoryEngine) (now : Z) (req : NamespacedName)
    (added : list EventInfo) : M W (list EventInfo * CtrlResult * option error) :=
  let* r := fetchResource true req in
  match r with
  | inl err => ret (added, no_requeue, Some err)
  | inr None => ret (added, no_requeue, None)
  | inr (Some cwsaResource) =>
      if isBeingDeleted cwsaResource then
        let deleteEvent := NewEventInfo cwsaResource EventTypeDelete now in
        let* (cwsaResource, (requeue, err)) := handleDeletion engine cwsaResource in
        let deleteEvent := mkEventInfo cwsaResource (ev_EventType deleteEvent) (ev_Generation deleteEvent)
          (ev_ResourceVersion deleteEvent) (ev_Timestamp deleteEvent) in
        let added := added ++ [deleteEvent] in
        match err with
        | Some err => ret (added, no_requeue, Some err)
        | None =>
            if requeue then ret (added, mkCtrlResult deleteCheckRequeueDelay, None)
            else ret (added, no_requeue, None)
        end
      else
        let* (cwsaResource, err) := ensureFinalizer cwsaResource in
        match err with
        | Some err => ret (added, no_requeue, Some err)
        | None =>
            let event := NewCreateOrUpdateEventInfo cwsaResource now in
            let added := added ++ [event] in
            let* _ :=
              if has_recorder
              then recorder_Event cwsaResource "Normal" "Queued" "Reconciliation queued for batch processing"
              else ret () in
            ret (added, no_requeue, None)
        end
  end.

(** The two reconcilers are written twice and do the same. *)
Lemma CWSA_Reconcile_same has_recorder engine now req added :
  CWSA_Reconcile has_recorder engine now req added = Reconcile true has_recorder engine now req added.
Proof. done. Qed.
End cluster_reconciler.

(** ** Watch events *)

Inductive WatchKind :=
| WatchWSA
| WatchCWSA
| WatchObject (k : Kind).

#[export] Instance WatchKind_eq_dec : EqDecision WatchKind.
Proof. solve_decision. Defined.

(** An object as an informer shows it. *)
Record Shown := mkShown {
  sh_Kind : WatchKind;
  sh_Key : NamespacedName;
  sh_Owners : list OwnerReference;
  sh_Meta : WatchedObject
}.

Inductive WatchEvent :=
| CreateEvent (o : Shown)
| UpdateEvent (old new : Shown)
| DeleteEvent (o : Shown)
| GenericEvent (o : Shown).

Definition event_kind (ev : WatchEvent) : WatchKind :=
  match ev with CreateEvent o | UpdateEvent _ o | DeleteEvent o | GenericEvent o => sh_Kind o end.

Definition event_objects (ev : WatchEvent) : list Shown :=
  match ev with CreateEvent o | DeleteEvent o | GenericEvent o => [o] | UpdateEvent old new => [old; new] end.

Definition passes (p : Predicate) (ev : WatchEvent) : bool :=
  match ev with
  | CreateEvent o => p_Create p (sh_Meta o)
  | UpdateEvent old new => p_Update p (sh_Meta old) (sh_Meta new)
  | DeleteEvent o => p_Delete p (sh_Meta o)
  | GenericEvent o => p_Generic p (sh_Meta o)
  end.

(** The group of an API version: what stands before the ['/']. *)
Fixpoint group_of (apiVersion : string) : string :=
  match apiVersion with
  | EmptyString => ""
  | String a s => if decide (a = "/"%char) then "" else String a (group_of s)
  end.

(** The type whose controller a watch of owned objects looks for. *)
Record OwnerType := mkOwnerType { ot_Group : string; ot_Kind : string; ot_Namespaced : bool }.

Definition owner_request (t : OwnerType) (o : Shown) (ref : OwnerReference) : NamespacedName :=
  mkNN (if ot_Namespaced t then nn_Namespace (sh_Key o) else "") (or_Name ref).

Definition is_controller (t : OwnerType) (ref : OwnerReference) : bool :=
  or_Controller ref && bool_decide (or_Kind ref = ot_Kind t) && bool_decide (group_of (or_APIVersion ref) = ot_Group t).

(** The handlers of controller-runtime: for the object itself, for the owner that controls it, and by a
    function of the program. *)
Class HandlerLib (W : Type) := {
  EnqueueRequestForObject : WatchEvent → list NamespacedName;
  EnqueueRequestForOwner : OwnerType → WatchEvent → list NamespacedName;
  EnqueueRequestsFromMapFunc : (Shown → M W (list NamespacedName)) → WatchEvent → M W (list NamespacedName)
}.

(** The map function is called for each object of the event in turn, and no request is queued twice. *)
Class HandlerLaws (W : Type) `{HandlerLib W} : Prop := {
  ForObject_doc ev k : k ∈ EnqueueRequestForObject ev ↔ ∃ o, last (event_objects ev) = Some o ∧ k = sh_Key o;
  ForOwner_doc t ev k : k ∈ EnqueueRequestForOwner t ev ↔
    ∃ o ref, o ∈ event_objects ev ∧ ref ∈ sh_Owners o ∧ is_controller t ref ∧ k = owner_request t o ref;
  FromMapFunc_doc f ev w :
    let '(w', keys) := EnqueueRequestsFromMapFunc f ev w in
    (w', list_to_set keys : gset NamespacedName) =
    for_each (event_objects ev) ∅ (λ o acc, let* l := f o in ret (acc ∪ list_to_set l)) w
}.

Definition reference_handlers (W : Type) : HandlerLib W := {|
  EnqueueRequestForObject ev := match last (event_objects ev) with Some o => [sh_Key o] | None => [] end;
  EnqueueRequestForOwner t ev :=
    o ← event_objects ev; ref ← sh_Owners o; if is_controller t ref then [owner_request t o ref] else [];
  EnqueueRequestsFromMapFunc f ev :=
    let* s := for_each (event_objects ev) (∅ : gset NamespacedName) (λ o acc, let* l := f o in ret (acc ∪ list_to_set l)) in
    ret (elements s)
|}.

Lemma reference_handlers_laws W : @HandlerLaws W (reference_handlers W).
Proof.
  split; simpl.
  - intros ev k. destruct (last (event_objects ev)) as [o|].
    + rewrite list_elem_of_singleton. split; [intros ->; eauto|intros (? & [= ->] & ->); done].
    + split; [by intros ?%elem_of_nil|by intros (? & ? & _)].
  - intros t ev k. rewrite list_elem_of_bind. split.
    + intros (o & Hk & Ho). apply list_elem_of_bind in Hk as (ref & Hk & Href).
      destruct (is_controller t ref) eqn:Hc; [|by apply elem_of_nil in Hk]. apply list_elem_of_singleton in Hk as ->.
      exists o, ref. by rewrite Hc.
    + intros (o & ref & Ho & Href & Hc & ->). exists o. split; [|done]. apply list_elem_of_bind. exists ref.
      split; [|done]. apply Is_true_true in Hc. rewrite Hc. by apply list_elem_of_singleton.
  - intros f ev w. unfold bind at 1. destruct (for_each _ _ _ w) as [w' s] eqn:E. simpl. f_equal.
    apply leibniz_equiv, list_to_set_elements.
Qed.

(** ** The controllers *)

Record Watch (W : Type) := mkWatch {
  wt_kind : WatchKind;
  wt_handler : WatchEvent → M W (list NamespacedName);
  wt_predicate : Predicate
}.
Arguments mkWatch {W} _ _ _.
Arguments wt_kind {W} _.
Arguments wt_handler {W} _.
Arguments wt_predicate {W} _.

(** src/api/v1beta1/groupversion_info.go: the group and version the two kinds are registered with. *)
Definition GroupVersion_Group : string := "agent.octopus.com".
Definition GroupVersion_String : string := GroupVersion_Group +:+ "/" +:+ "v1beta1".

Section controllers.
Context `{Client W} `{!HandlerLib W} `{PredicateLib} `{ExpirableSet}.
Variables (gcTracker : option GCTracker) (now : Z).

Definition wsa_type : OwnerType := mkOwnerType GroupVersion_Group "WorkloadServiceAccount" true.
Definition cwsa_type : OwnerType := mkOwnerType GroupVersion_Group "ClusterWorkloadServiceAccount" false.

Definition Owns (t : OwnerType) (k : Kind) : Watch W :=
  mkWatch (WatchObject k) (λ ev, ret (EnqueueRequestForOwner t ev)) (owns_predicate gcTracker now).

Definition WSA_SetupWithManager : list (Watch W) := [
  mkWatch WatchWSA (λ ev, ret (EnqueueRequestForObject ev)) for_predicate;
  Owns wsa_type KRole;
  Owns wsa_type KRoleBinding;
  mkWatch (WatchObject KServiceAccount) (EnqueueRequestsFromMapFunc (λ o, mapServiceAccountToWSAs (sh_Meta o)))
    (accounts_predicate gcTracker now)
].

Definition CWSA_SetupWithManager : list (Watch W) := [
  mkWatch WatchCWSA (λ ev, ret (EnqueueRequestForObject ev)) for_predicate;
  Owns cwsa_type KClusterRole;
  Owns cwsa_type KClusterRoleBinding;
  mkWatch (WatchObject KServiceAccount) (EnqueueRequestsFromMapFunc (λ o, mapServiceAccountToCWSAs (sh_Meta o)))
    (accounts_predicate gcTracker now)
].

Definition enqueueSelf (o : Shown) : M W (list NamespacedName) :=
  ret [mkNN (nn_Namespace (sh_Key o)) (nn_Name (sh_Key o))].

Definition StateSync_SetupWithManager : list (Watch W) := [
  mkWatch WatchWSA (λ ev, ret (EnqueueRequestForObject ev)) (WithPredicates [GenerationChangedPredicate]);
  mkWatch WatchCWSA (EnqueueRequestsFromMapFunc enqueueSelf) (WithPredicates [GenerationChangedPredicate])
].

(** The requests an event queues: every watch of its kind whose predicates let it pass. *)
Definition requests_of (watches : list (Watch W)) (ev : WatchEvent) : M W (list NamespacedName) :=
  for_each watches [] (λ watch requests,
    if bool_decide (wt_kind watch = event_kind ev) && passes (wt_predicate watch) ev
    then let* l := wt_handler watch ev in ret (requests ++ l)
    else ret requests).

(** The controller of the kind of a resource. *)
Definition controller_of (resource : WSAResource) : list (Watch W) :=
  if IsClusterScoped resource then CWSA_SetupWithManager else WSA_SetupWithManager.
End controllers.

(** ** What is queued *)

Section requests.
Context {W : Type}.
Implicit Types (watches : list (Watch W)).

Lemma requests_of_keep watches ev k w : ∀ acc,
  k ∈ acc →
  k ∈ (for_each watches acc (λ watch requests,
    if bool_decide (wt_kind watch = event_kind ev) && passes (wt_predicate watch) ev
    then let* l := wt_handler watch ev in ret (requests ++ l)
    else ret requests) w).2.
Proof.
  revert w. induction watches as [|x watches IH]; intros w acc Hk; [done|]. cbn [for_each]. unfold bind at 1.
  destruct (bool_decide _ && _); [|by apply IH]. unfold bind. destruct (wt_handler x ev w) as [w1 l]. simpl.
  apply IH, elem_of_app. by left.
Qed.

(** What a handler that is reached queues is queued. *)
Lemma requests_of_in watches watch ev k w :
  watch ∈ watches → wt_kind watch = event_kind ev → passes (wt_predicate watch) ev →
  (∀ w, k ∈ (wt_handler watch ev w).2) → k ∈ (requests_of watches ev w).2.
Proof.
  unfold requests_of. intros Hin Hkind Hp Hh. revert w. generalize (@nil NamespacedName).
  induction watches as [|x watches IH]; intros acc w; [by apply elem_of_nil in Hin|]. cbn [for_each]. unfold bind at 1.
  apply elem_of_cons in Hin as [<-|Hin].
  - rewrite bool_decide_true by done. apply Is_true_true in Hp. rewrite Hp. simpl.
    specialize (Hh w). unfold bind. destruct (wt_handler watch ev w) as [w1 l]. simpl in *.
    apply requests_of_keep, elem_of_app. by right.
  - match goal with |- context [match ?m w with _ => _ end] => destruct (m w) as [w1 acc'] end. by apply IH.
Qed.

Lemma requests_of_none watches ev w :
  Forall (λ watch, wt_kind watch = event_kind ev → passes (wt_predicate watch) ev = false) watches →
  requests_of watches ev w = (w, []).
Proof.
  unfold requests_of. induction 1 as [|watch watches Hw _ IH]; [done|]. cbn [for_each]. unfold bind at 1.
  case_bool_decide as Hk; [rewrite (Hw Hk)|]; exact IH.
Qed.
End requests.

Section drift.
Context `{ClientLaws W} `{!HandlerLib W} `{!HandlerLaws W} `{PredicateLibLaws} `{ExpirableSetLaws} `{SchemeInterface}
  `{ThirdPartyLaws}.
Variables (gcTracker : option GCTracker) (now : Z).

(** What the program has to see: a change under another field owner, later than all under the
    controller's, and a deletion that is not marked in the tracker, whoever made it. *)
Definition drifted (ev : WatchEvent) : Prop :=
  match ev with
  | UpdateEvent _ new => changed_by_other (sh_Meta new)
  | DeleteEvent o => match gcTracker with None => True | Some t => IsBeingDeleted t now (wo_UID (sh_Meta o)) = false end
  | _ => False
  end.

(** A change under the controller's field owner, later than all others, as applying an object makes it. *)
Definition own_change (ev : WatchEvent) : Prop :=
  match ev with UpdateEvent _ new => changed_by_controller (sh_Meta new) | _ => False end.

(** A deletion that is marked in the tracker. *)
Definition marked_deletion (ev : WatchEvent) : Prop :=
  match ev with DeleteEvent o => ∃ t, gcTracker = Some t ∧ IsBeingDeleted t now (wo_UID (sh_Meta o)) | _ => False end.

(** The event is about an object as it was in the cluster. *)
Definition about (o : Object) (ev : WatchEvent) : Prop :=
  event_kind ev = WatchObject (obj_Kind o) ∧
  ∃ s, s ∈ event_objects ev ∧ sh_Key s = obj_Key o ∧ sh_Owners s = obj_Owners o.

(** The type of a resource as the scheme knows it. *)
Definition type_of (resource : WSAResource) : OwnerType := if IsClusterScoped resource then cwsa_type else wsa_type.

Definition registered (r : ResourceManagementService) (resource : WSAResource) : Prop :=
  ∃ s, rms_scheme r = Some s ∧ GVKForObject resource s = Some (GroupVersion_String, ot_Kind (type_of resource)).

(** An object of the cluster that names the resource as its controller. *)
Definition controlled_by (resource : WSAResource) (o : Object) : Prop :=
  nn_Namespace (obj_Key o) = GetNamespace resource ∧
  obj_Kind o ∈ (if IsClusterScoped resource then [KClusterRole; KClusterRoleBinding] else [KRole; KRoleBinding]) ∧
  ∃ owner, owner ∈ obj_Owners o ∧ is_controller (type_of resource) owner ∧ or_Name owner = GetName resource.

Lemma drifted_passes ev : drifted ev → passes (owns_predicate gcTracker now) ev.
Proof.
  destruct (owns_predicate_decides gcTracker now) as (_ & O2 & O3 & _).
  destruct ev as [o|old new|o|o]; simpl; [done| | |done].
  - rewrite O2. simpl. intros Hc%changed_by_other_seen. by rewrite Hc.
  - rewrite O3. simpl. destruct gcTracker; [by intros ->|done].
Qed.

Lemma own_stopped ev :
  own_change ev ∨ marked_deletion ev → passes (owns_predicate gcTracker now) ev = false ∧ passes (accounts_predicate gcTracker now) ev = false.
Proof.
  destruct (owns_predicate_decides gcTracker now) as (_ & O2 & O3 & _).
  destruct ev as [o|old new|o|o]; simpl; [by intros []| | |by intros []].
  - destruct (accounts_predicate_decides gcTracker now (sh_Meta old) (sh_Meta new)) as [-> _]. rewrite O2. simpl.
    intros [Hc%changed_by_controller_seen|[]]. by rewrite Hc, andb_false_r.
  - destruct (accounts_predicate_decides gcTracker now (sh_Meta o) (sh_Meta o)) as [_ ->]. rewrite O3. simpl.
    intros [[]|(t & -> & Hb%Is_true_true)]. by rewrite Hb, andb_false_r.
Qed.

Lemma controlled_requeued resource o ev w :
  controlled_by resource o → about o ev → drifted ev →
  GetNamespacedName resource ∈ (requests_of (controller_of gcTracker now resource) ev w).2.
Proof.
  intros (Hns & Hkind & owner & Howner & Hctl & Hname) (Hev & s & Hs & Hkey & Howners) Hext.
  apply (requests_of_in _ (Owns gcTracker now (type_of resource) (obj_Kind o))).
  - unfold controller_of, type_of. destruct (IsClusterScoped resource);
      (apply elem_of_cons in Hkind as [-> | ->%list_elem_of_singleton];
       unfold CWSA_SetupWithManager, WSA_SetupWithManager;
       [apply list_elem_of_further, list_elem_of_here|do 2 apply list_elem_of_further; apply list_elem_of_here]).
  - done.
  - by apply drifted_passes.
  - intros w'. simpl. apply ForOwner_doc. exists s, owner. rewrite Howners. split_and!; [done..|].
    unfold owner_request, type_of. rewrite GetNamespacedName_fields, Hkey, Hname.
    destruct resource; simpl in *; [by rewrite Hns|done].
Qed.

Lemma own_not_requeued resource ev w k :
  event_kind ev = WatchObject k → own_change ev ∨ marked_deletion ev → requests_of (controller_of gcTracker now resource) ev w = (w, []).
Proof.
  intros Hk Hown. destruct (own_stopped ev Hown) as [Ho Ha].
  apply requests_of_none. unfold controller_of, CWSA_SetupWithManager, WSA_SetupWithManager.
  destruct (IsClusterScoped resource); repeat constructor; simpl; rewrite ?Hk; done.
Qed.

(** What the program applies with an owner is controlled by the resource. *)
Lemma applied_controlled r resource a w w' :
  registered r resource → ac_Owner a = ownerReferenceAC r resource →
  nn_Namespace (ac_Key a) = GetNamespace resource →
  ac_Kind a ∈ (if IsClusterScoped resource then [KClusterRole; KClusterRoleBinding] else [KRole; KRoleBinding]) →
  client_Apply a w = (w', None) →
  ∃ o, view w' !! ac_ref a = Some o ∧ controlled_by resource o.
Proof.
  intros (s & Hs & Hgvk) Howner Hns Hkind Happ. destruct (apply_carries a w w' Happ) as (o & Ho & Hc).
  exists o. split; [done|]. destruct Hc as (Href & _ & _ & Hown & _). injection Href as Hk Hkey.
  unfold ownerReferenceAC in Howner. rewrite Hs, Hgvk in Howner. specialize (Hown _ Howner).
  unfold controlled_by. rewrite Hk, Hkey. split_and!; [done|done|]. eexists. split; [exact Hown|]. split.
  - unfold is_controller. simpl. by rewrite !bool_decide_true by (by destruct resource).
  - by destruct resource.
Qed.

(** The binding of one reference. *)
Definition create_binding (r : ResourceManagementService) (resource : WSAResource) (roleRef : RoleRef)
    (subjects : list Subject) : M W (option error) :=
  if IsClusterScoped resource then createClusterRoleBinding r resource roleRef subjects
  else createRoleBinding r resource roleRef subjects.

Lemma role_controlled r resource w w' role :
  registered r resource → GetPermissionRules resource ≠ [] →
  createRoleIfNeeded r resource w = (w', inr role) →
  ∃ o, view w' !! role_ref resource = Some o ∧ controlled_by resource o.
Proof.
  intros Hreg Hp. unfold createRoleIfNeeded, createClusterRoleIfNeeded, role_ref, rules_role_name.
  rewrite decide_False by done. destruct (IsClusterScoped resource) eqn:Hc.
  - rewrite decide_False by done. unfold bind.
    match goal with |- context [client_Apply ?a w] => destruct (client_Apply a w) as [w1 [err|]] eqn:Ha end; [done|].
    intros [= -> _]. apply (applied_controlled r resource _ w w' Hreg) in Ha; [done|done| |rewrite Hc; set_solver].
    by destruct resource.
  - unfold bind.
    match goal with |- context [client_Apply ?a w] => destruct (client_Apply a w) as [w1 [err|]] eqn:Ha end; [done|].
    intros [= -> _]. apply (applied_controlled r resource _ w w' Hreg) in Ha; [done|done|done|rewrite Hc; set_solver].
Qed.

Lemma binding_controlled r resource roleRef subjects w w' :
  registered r resource → create_binding r resource roleRef subjects w = (w', None) →
  ∃ o, view w' !! binding_ref resource roleRef = Some o ∧ controlled_by resource o.
Proof.
  intros Hreg. unfold create_binding, createRoleBinding, createClusterRoleBinding, binding_ref.
  destruct (IsClusterScoped resource) eqn:Hc; unfold bind;
    match goal with |- context [client_Apply ?a w] => destruct (client_Apply a w) as [w1 [err|]] eqn:Ha end; try done;
    intros [= ->]; apply (applied_controlled r resource _ w w' Hreg) in Ha; try done; try (rewrite Hc; set_solver);
    by destruct resource.
Qed.

(** C16. Drift is repaired: once the role of a resource's permissions or one of its bindings has been
    applied, a change of that object under another field owner that is later, to the second, than all
    under the controller's, and a deletion of it that is not marked in the tracker, queue the resource
    for its reconciler, whatever else is in the cluster; a later change under the controller's field
    owner, such as applying the object again, queues nothing, and neither does a deletion that is
    marked in the tracker.  The engine as it is built marks none ([tracker_never_wired]), so that the deletions of
    the controller's own garbage collection queue the resource too. *)
Theorem drift_requeued r resource w w' :
  registered r resource →
  (∀ role, GetPermissionRules resource ≠ [] → createRoleIfNeeded r resource w = (w', inr role) →
    ∃ o, view w' !! role_ref resource = Some o ∧
      ∀ ev v, about o ev → drifted ev →
        GetNamespacedName resource ∈ (requests_of (controller_of gcTracker now resource) ev v).2) ∧
  (∀ roleRef subjects, create_binding r resource roleRef subjects w = (w', None) →
    ∃ o, view w' !! binding_ref resource roleRef = Some o ∧
      ∀ ev v, about o ev → drifted ev →
        GetNamespacedName resource ∈ (requests_of (controller_of gcTracker now resource) ev v).2) ∧
  (∀ k ev v, event_kind ev = WatchObject k → own_change ev ∨ marked_deletion ev →
    requests_of (controller_of gcTracker now resource) ev v = (v, [])).
Proof.
  intros Hreg. split_and!.
  - intros role Hp Hrun. destruct (role_controlled r resource w w' role Hreg Hp Hrun) as (o & Ho & Hc).
    exists o. split; [done|]. intros ev v. by apply controlled_requeued.
  - intros roleRef subjects Hrun. destruct (binding_controlled r resource roleRef subjects w w' Hreg Hrun) as (o & Ho & Hc).
    exists o. split; [done|]. intros ev v. by apply controlled_requeued.
  - intros k ev v. by apply own_not_requeued.
Qed.
End drift.

Module WatchExamples.
Import InMemory PipelineExamples.
#[local] Existing Instance range_forward.
#[local] Existing Instance reference_third_party.
#[local] Existing Instance reference_third_party_laws.
#[local] Existing Instance reference_lru.
#[local] Existing Instance reference_set.
#[local] Existing Instance reference_set_laws.
#[local] Existing Instance reference_predicates.
#[local] Existing Instance reference_predicates_laws.
#[local] Existing Instance reference_handlers.
#[local] Existing Instance reference_handlers_laws.

Definition rms0 : ResourceManagementService := rms_of (eng_ResourceManagement engine0).
Definition start : World := cluster [app_wsa] [].

Definition deleted (o : Object) : WatchEvent :=
  DeleteEvent (mkShown (WatchObject (obj_Kind o)) (obj_Key o) (obj_Owners o) (mkWatched false (obj_UID o) 1 None [])).

Lemma app_registered : registered rms0 (wsaAdapter app_wsa).
Proof. exists (). by split. Defined.

(** The role of the resource is applied; when it is deleted the resource is queued. *)
Lemma drift_requeued_witness :
  ∃ o, store (createRoleIfNeeded rms0 (wsaAdapter app_wsa) start).1 !! role_ref (wsaAdapter app_wsa) = Some o ∧
    GetNamespacedName (wsaAdapter app_wsa) ∈
      (requests_of (controller_of None 0 (wsaAdapter app_wsa)) (deleted o) start).2.
Proof.
  assert (match (createRoleIfNeeded rms0 (wsaAdapter app_wsa) start).2 with inr _ => true | inl _ => false end = true)
    as Hok by (vm_compute; reflexivity).
  pose proof (drift_requeued None 0 rms0 (wsaAdapter app_wsa) start
    (createRoleIfNeeded rms0 (wsaAdapter app_wsa) start).1 app_registered) as (Hrole & _).
  destruct (createRoleIfNeeded rms0 (wsaAdapter app_wsa) start) as [w' [err|role]]; [discriminate|].
  destruct (Hrole role ltac:(done) eq_refl) as (o & Ho & Hev). exists o. split; [exact Ho|].
  apply Hev; [|exact I]. split; [done|]. eexists. split; [apply list_elem_of_here|done].
Defined.
End WatchExamples.
