(* ===== verification/Flow.v ===== *)
(** * From a change of a resource to what it asks for

    The parts put together.  A change of a custom resource reaches the reconciler of its kind, which gives
    the event collector an event for it; and when the collector, the two goroutines that handle batches
    and the queue of retries have come to rest, the event was in a batch whose last attempt, one the
    system made after the event came in, was given up or left the cluster and the engine as the
    resources ask that were listed when it planned. *)

From Stdlib Require Import ZArith.
From S2P Require Import Prelude GoLib Api Scopes ServiceAccounts Access Cluster Resources SameSpec Engine Webhooks Pipeline EndToEnd Convergence Debouncer Collector Retry System Controllers Watches.

(** ** A change is collected *)

(** What a read of a custom resource answers: the resource that was asked for. *)
Class ReadLaws (W : Type) `{Client W} : Prop := {
  GetWSA_key key w o : (client_GetWSA key w).2 = inr o → GetNamespacedName (wsaAdapter o) = key;
  GetCWSA_key key w o : (client_GetCWSA key w).2 = inr o → GetNamespacedName (clusterWSAAdapter o) = key
}.

(** A watch event the reconciler sees: a resource that appears or goes, a change of its specification, and a
    change under another field owner, later than all under the controller's.  The program's own
    finalizer patches are such changes: they name no field owner. *)
Definition reported (ev : WatchEvent) : Prop :=
  match ev with
  | UpdateEvent old new => wo_Generation (sh_Meta old) ≠ wo_Generation (sh_Meta new) ∨ changed_by_other (sh_Meta new)
  | _ => True
  end.

(** A status patch of the program, whose field owner is the controller's (src/internal/condition/apply.go): the
    specification stays, and its entry is later than all others. *)
Definition own_status_patch (ev : WatchEvent) : Prop :=
  match ev with
  | UpdateEvent old new => wo_Generation (sh_Meta old) = wo_Generation (sh_Meta new) ∧ changed_by_controller (sh_Meta new)
  | _ => False
  end.

Definition watch_kind (resource : WSAResource) : WatchKind := if IsClusterScoped resource then WatchCWSA else WatchWSA.

Section collected.
Context `{ClientLaws W} `{!EventRecorder W} `{!PatchLaws W} `{!ReadLaws W} `{!HandlerLib W} `{!HandlerLaws W}
  `{PredicateLibLaws} `{ExpirableSetLaws} `{SchemeInterface} `{ExpirableLRU} `{RangeOrder} `{ThirdPartyLaws}
  `{ControllerUtilLaws}.
Variables (gcTracker : option GCTracker) (t : Z).

(** The reconciler of the kind of a resource. *)
Definition reconciler_of (resource : WSAResource) := if IsClusterScoped resource then CWSA_Reconcile else Reconcile false.

Lemma reported_passes ev : reported ev → passes for_predicate ev.
Proof.
  destruct for_predicate_decides as (F1 & F2 & F3 & F4). destruct ev as [o|old new|o|o]; simpl; rewrite ?F1, ?F2, ?F3, ?F4;
    simpl; [done| |done..].
  intros [Hg|Hc]; apply orb_True.
  - left. by rewrite (proj2 (Z.eqb_neq _ _) Hg).
  - right. by rewrite changed_by_other_seen.
Qed.

Lemma own_status_patch_stopped ev : own_status_patch ev → passes for_predicate ev = false.
Proof.
  destruct for_predicate_decides as (_ & F2 & _). destruct ev as [o|old new|o|o]; simpl; [done| |done..].
  rewrite F2. simpl. intros [-> Hc%changed_by_controller_seen]. by rewrite Z.eqb_refl, Hc.
Qed.

(** The watch of the resources themselves comes first. *)
Lemma controller_for resource :
  ∃ watches, controller_of gcTracker t resource =
    mkWatch (watch_kind resource) (λ ev, ret (EnqueueRequestForObject ev)) for_predicate :: watches ∧
    Forall (λ watch, ∃ k, wt_kind watch = WatchObject k) watches.
Proof.
  unfold controller_of, watch_kind. destruct (IsClusterScoped resource); (eexists; split; [reflexivity|]);
    repeat (constructor; [by eexists|]); constructor.
Qed.

Lemma fetchResource_key cluster key w r : (fetchResource cluster key w).2 = inr (Some r) → GetNamespacedName r = key.
Proof.
  unfold fetchResource, bind, ret. destruct cluster.
  - pose proof (GetCWSA_key key w) as Hk. destruct (client_GetCWSA key w) as [w1 [err|o]]; simpl in *; [by case_match|].
    intros [= <-]. by apply Hk.
  - pose proof (GetWSA_key key w) as Hk. destruct (client_GetWSA key w) as [w1 [err|o]]; simpl in *; [by case_match|].
    intros [= <-]. by apply Hk.
Qed.

End collected.

(** ** An event is realised *)

Section realised.
Context `{EventRecorderLaws W} `{SchemeInterface} `{ExpirableLRU} `{RangeOrder} `{ThirdPartyLaws}
  `{RateLimitingQueueLaws} `{!QueueHoldsLaws}.
Context (so : StageOrchestrator) (Hstages : so_stages so = staging_stages).
Implicit Types (s : System (W := W)) (id : string).

(** The step in which a goroutine handles the batch [b], the engine and the cluster being [e] and [w]. *)
Definition attempts (h : Handler) (b : Batch) (e : InMemoryEngine) now (w : W) s s' : Prop :=
  activity h s = Handling b ∧
  ∃ w' e' queue adding, processBatchWithRetry so e (sy_queue s) now b w = (w', (e', queue, adding, ROk ())) ∧
    s' = set_ending (b_ID b) (ending_of (processBatch so e now b w).2.1.2 queue (b_ID b))
      (set_activity h (Requeueing b adding) (set_queue queue s)).

(** A step ends a batch only by an attempt of it. *)
Lemma step_endings s s' id ending :
  sys_step so s s' → sy_endings s' !! id = Some ending →
  sy_endings s !! id = Some ending ∨
  ∃ h b e now w, b_ID b = id ∧ attempts h b e now w s s' ∧ (sys_inv so s → outcome so (sy_queue s) e now b w ending).
Proof.
  intros Hstep. destruct Hstep as [| |h s b e now w w' e' queue adding Hh Hrun| | | | |]; [by left|by left| |by left..].
  pose proof (λ Hinv : sys_inv so s, handled_outcome so Hstages s e now b w w' e' queue adding
    (si_activity _ _ Hinv h b Hh) (si_open _ _ Hinv) Hrun) as Ho.
  assert (attempts h b e now w s (set_ending (b_ID b) (ending_of (processBatch so e now b w).2.1.2 queue (b_ID b))
    (set_activity h (Requeueing b adding) (set_queue queue s)))) as Hatt.
  { split; [done|]. by exists w', e', queue, adding. }
  revert Ho Hatt. generalize (ending_of (processBatch so e now b w).2.1.2 queue (b_ID b)).
  intros [ending'|] Ho Hatt Hend; [|by left]. simpl in Hend.
  apply lookup_insert_Some in Hend as [[<- <-]|[_ ?]]; [right|by left].
  exists h, b, e, now, w. split_and!; [done|done|]. intros Hinv. by destruct (Ho Hinv) as (_ & ? & _).
Qed.

Lemma step_origins s s' id sent :
  sys_step so s s' → sy_origins s !! id = Some sent → sy_origins s' !! id = Some sent.
Proof.
  intros Hstep Hid. destruct Hstep as [|s b rest id' now ec _ Hnew _ _| | | | | |]; try done.
  simpl. rewrite lookup_insert_ne; [done|]. intros ->. by rewrite Hnew in Hid.
Qed.

(** What ended a batch was an attempt of it that the system made. *)
Lemma ending_attempted n s id ending :
  rtc (sys_step so) (NewSystem n) s → sy_endings s !! id = Some ending →
  ∃ s1 s2 h b e now w, rtc (sys_step so) (NewSystem n) s1 ∧ attempts h b e now w s1 s2 ∧ rtc (sys_step so) s2 s ∧
    from s id b ∧ outcome so (sy_queue s1) e now b w ending.
Proof.
  revert s. refine (rtc_ind_r _ _ _ _); [simpl; by rewrite lookup_empty|]. intros s1 s2 Hs Hstep IH Hend.
  destruct (step_endings _ _ _ _ Hstep Hend) as [Hold|(h & b & e & now & w & <- & Hatt & Ho)].
  - destruct (IH Hold) as (v1 & v2 & h & b & e & now & w & Hv1 & Hatt & Hv2 & Hfrom & Ho).
    exists v1, v2, h, b, e, now, w. split_and!; [done|done|by eapply rtc_r| |done].
    revert Hfrom. apply from_mono. intros sent. by apply step_origins.
  - apply sys_reachable in Hs as Hinv; [|done]. destruct Hinv as [Hinv _].
    exists s1, s2, h, b, e, now, w. split_and!; [done|done|done| |by apply Ho].
    eapply from_mono; [|by apply (si_activity _ _ Hinv h), Hatt]. intros sent. by apply step_origins.
Qed.

End realised.

(** ** Concrete runs *)

Module FlowExamples.
Import InMemory ResourceExamples PipelineExamples CollectorExamples RetryExamples SystemExamples ControllerExamples.
#[local] Existing Instance range_forward.
#[local] Existing Instance reference_third_party.
#[local] Existing Instance reference_third_party_laws.
#[local] Existing Instance reference_lru.
#[local] Existing Instance reference_lru_laws.
#[local] Existing Instance reference_queue.
#[local] Existing Instance reference_queue_laws.
#[local] Existing Instance reference_queue_holds.
#[local] Existing Instance reference_set.
#[local] Existing Instance reference_set_laws.
#[local] Existing Instance reference_predicates.
#[local] Existing Instance reference_predicates_laws.
#[local] Existing Instance reference_handlers.
#[local] Existing Instance reference_handlers_laws.
#[local] Existing Instance reference_util.
#[local] Existing Instance reference_util_laws.
#[local] Existing Instance patch_laws.

#[local] Instance read_laws : ReadLaws World.
Proof.
  split; intros key w o; simpl; unfold call; destruct (script w) as [|[] ?]; simpl; try done;
    (destruct (List.find _ _) eqn:Hf; [|done]); intros [= <-];
    apply List.find_some in Hf as [_ Hf]; by apply bool_decide_eq_true in Hf.
Defined.

(** The specification of the resource is changed. *)
Definition shown (generation : Z) : Shown :=
  mkShown WatchWSA app_key [] (mkWatched false "uid" generation None []).
Definition spec_changed : WatchEvent := UpdateEvent (shown 1) (shown 2).

(** The program's own finalizer patch comes back: its entry is under the name of the client, "manager". *)
Definition patched_shown (managers : list (string * Z)) : Shown :=
  mkShown WatchWSA app_key [] (mkWatched false "uid" 1 None ((λ '(m, t), mkManagedFields m (Some t)) <$> managers)).

Example finalizer_patch_comes_back :
  (requests_of (controller_of None 0 (wsaAdapter app_wsa))
    (UpdateEvent (patched_shown []) (patched_shown [(controllerFieldOwner, 1%Z); ("manager", 2%Z)]))
    (cluster [app_wsa] [])).2 = [app_key] ∧
  (requests_of (controller_of None 0 (wsaAdapter app_wsa))
    (UpdateEvent (patched_shown []) (patched_shown [("manager", 1%Z); (controllerFieldOwner, 2%Z)]))
    (cluster [app_wsa] [])).2 = [].
Proof. split; by vm_compute. Qed.


End FlowExamples.
