(* ===== verification/DeepCopy.v ===== *)
(** * Deep copies of the custom resources

    The functions of src/api/v1beta1/zz_generated.deepcopy.go over a store of Go objects, in which
    slices and pointers refer to shared arrays, and the two places of
    src/internal/controller/helpers.go that copy a resource before they change it.  The rest of the
    development treats resources as values; this file is why it may. *)

From Stdlib Require Import ZArith.
From S2P Require Import Prelude GoLib Api Scopes ServiceAccounts Access Cluster Resources Engine Pipeline Debouncer Collector Retry Controllers.

(** ** The store

    A slice refers to a part of an array; nil is [None].  A pointer to a struct is an array and an
    index, as [&list.Items[i]] is; [new(T)] makes an array of length one.  The type of the elements
    is a phantom. *)

Abbreviation Loc := positive.

Record Slice (T : Type) := mkSlice { sl_array : Loc; sl_off : nat; sl_len : nat }.
Arguments mkSlice {T} _ _ _.
Arguments sl_array {T} _.
Arguments sl_off {T} _.
Arguments sl_len {T} _.

Record Pointer (T : Type) := mkPointer { p_array : Loc; p_index : nat }.
Arguments mkPointer {T} _ _.
Arguments p_array {T} _.
Arguments p_index {T} _.

(** The structs as they lie in memory. *)
Record TypeMeta := mkTypeMeta { tm_Kind : string; tm_APIVersion : string }.

Record GoObjectMeta := mkGoMeta {
  gm_Name : string;
  gm_Namespace : string;
  gm_UID : string;
  gm_Generation : Z;
  gm_ResourceVersion : string;
  gm_DeletionTimestamp : option (Pointer Z);
  gm_Labels : option (Pointer (gmap string string));
  gm_Finalizers : option (Slice string);
  gm_ManagedFields : option (Slice ManagedFieldsEntry)
}.

Record GoListMeta := mkGoListMeta {
  glm_ResourceVersion : string;
  glm_Continue : string;
  glm_RemainingItemCount : option (Pointer Z)
}.

Record GoPolicyRule := mkGoRule {
  gr_Verbs : option (Slice string);
  gr_APIGroups : option (Slice string);
  gr_Resources : option (Slice string);
  gr_ResourceNames : option (Slice string);
  gr_NonResourceURLs : option (Slice string)
}.

Abbreviation GoScope := (Dims (option (Slice string))).

Record GoWSAPermissions := mkGoWSAPermissions {
  gp_ClusterRoles : option (Slice RoleRef);
  gp_Roles : option (Slice RoleRef);
  gp_Permissions : option (Slice GoPolicyRule)
}.

Record GoCWSAPermissions := mkGoCWSAPermissions {
  gcp_ClusterRoles : option (Slice RoleRef);
  gcp_Permissions : option (Slice GoPolicyRule)
}.

Record GoSpec (P : Type) := mkGoSpec { gs_Scope : GoScope; gs_Permissions : P }.
Arguments mkGoSpec {P} _ _.
Arguments gs_Scope {P} _.
Arguments gs_Permissions {P} _.

Record GoStatus := mkGoStatus { gst_Conditions : option (Slice Condition) }.

Record GoObject (P : Type) := mkGoObject {
  go_TypeMeta : TypeMeta;
  go_ObjectMeta : GoObjectMeta;
  go_Spec : GoSpec P;
  go_Status : GoStatus
}.
Arguments mkGoObject {P} _ _ _ _.
Arguments go_TypeMeta {P} _.
Arguments go_ObjectMeta {P} _.
Arguments go_Spec {P} _.
Arguments go_Status {P} _.

Abbreviation GoWSA := (GoObject GoWSAPermissions).
Abbreviation GoCWSA := (GoObject GoCWSAPermissions).

Record GoList (P : Type) := mkGoList {
  gl_TypeMeta : TypeMeta;
  gl_ListMeta : GoListMeta;
  gl_Items : option (Slice (GoObject P))
}.
Arguments mkGoList {P} _ _ _.
Arguments gl_TypeMeta {P} _.
Arguments gl_ListMeta {P} _.
Arguments gl_Items {P} _.

(** What the store holds: arrays of one of these types. *)
Inductive GoArray :=
| AString (l : list string)
| AInt64 (l : list Z)
| AMap (l : list (gmap string string))
| AManagedFields (l : list ManagedFieldsEntry)
| ARoleRef (l : list RoleRef)
| APolicyRule (l : list GoPolicyRule)
| ACondition (l : list Condition)
| AWSA (l : list GoWSA)
| ACWSA (l : list GoCWSA)
| AWSAList (l : list (GoList GoWSAPermissions))
| ACWSAList (l : list (GoList GoCWSAPermissions))
| AScope (l : list GoScope)
| AWSAPermissions (l : list GoWSAPermissions)
| ACWSAPermissions (l : list GoCWSAPermissions)
| AWSASpec (l : list (GoSpec GoWSAPermissions))
| ACWSASpec (l : list (GoSpec GoCWSAPermissions))
| AStatus (l : list GoStatus).

Abbreviation Heap := (gmap Loc GoArray).

(** The arrays of one element type, with the zero value of the type. *)
Class Element (T : Type) := {
  to_array : list T → GoArray;
  of_array : GoArray → option (list T);
  zero : T;
  of_to_array l : of_array (to_array l) = Some l
}.


Definition zero_meta : GoObjectMeta := mkGoMeta "" "" "" 0 "" None None None None.
Definition zero_scope : GoScope := mkDims None None None None None None.
Definition zero_object {P} (p : P) : GoObject P :=
  mkGoObject (mkTypeMeta "" "") zero_meta (mkGoSpec zero_scope p) (mkGoStatus None).
Definition zero_list {P} : GoList P := mkGoList (mkTypeMeta "" "") (mkGoListMeta "" "" None) None.

#[export] Instance Element_string : Element string.
Proof. refine {| to_array := AString; of_array a := match a with AString l => Some l | _ => None end; zero := "" |}; done. Defined.
#[export] Instance Element_Z : Element Z.
Proof. refine {| to_array := AInt64; of_array a := match a with AInt64 l => Some l | _ => None end; zero := 0%Z |}; done. Defined.
#[export] Instance Element_map : Element (gmap string string).
Proof. refine {| to_array := AMap; of_array a := match a with AMap l => Some l | _ => None end; zero := ∅ |}; done. Defined.
#[export] Instance Element_ManagedFields : Element ManagedFieldsEntry.
Proof. refine {| to_array := AManagedFields; of_array a := match a with AManagedFields l => Some l | _ => None end; zero := mkManagedFields "" None |}; done. Defined.
#[export] Instance Element_RoleRef : Element RoleRef.
Proof. refine {| to_array := ARoleRef; of_array a := match a with ARoleRef l => Some l | _ => None end; zero := mkRoleRef "" "" "" |}; done. Defined.
#[export] Instance Element_PolicyRule : Element GoPolicyRule.
Proof. refine {| to_array := APolicyRule; of_array a := match a with APolicyRule l => Some l | _ => None end; zero := mkGoRule None None None None None |}; done. Defined.
#[export] Instance Element_Condition : Element Condition.
Proof. refine {| to_array := ACondition; of_array a := match a with ACondition l => Some l | _ => None end; zero := mkCondition "" ConditionUnknown "" "" 0 |}; done. Defined.
#[export] Instance Element_WSA : Element GoWSA.
Proof. refine {| to_array := AWSA; of_array a := match a with AWSA l => Some l | _ => None end; zero := zero_object (mkGoWSAPermissions None None None) |}; done. Defined.
#[export] Instance Element_CWSA : Element GoCWSA.
Proof. refine {| to_array := ACWSA; of_array a := match a with ACWSA l => Some l | _ => None end; zero := zero_object (mkGoCWSAPermissions None None) |}; done. Defined.
#[export] Instance Element_WSAList : Element (GoList GoWSAPermissions).
Proof. refine {| to_array := AWSAList; of_array a := match a with AWSAList l => Some l | _ => None end; zero := zero_list |}; done. Defined.
#[export] Instance Element_CWSAList : Element (GoList GoCWSAPermissions).
Proof. refine {| to_array := ACWSAList; of_array a := match a with ACWSAList l => Some l | _ => None end; zero := zero_list |}; done. Defined.
#[export] Instance Element_Scope : Element GoScope.
Proof. refine {| to_array := AScope; of_array a := match a with AScope l => Some l | _ => None end; zero := zero_scope |}; done. Defined.
#[export] Instance Element_WSAPermissions : Element GoWSAPermissions.
Proof. refine {| to_array := AWSAPermissions; of_array a := match a with AWSAPermissions l => Some l | _ => None end; zero := mkGoWSAPermissions None None None |}; done. Defined.
#[export] Instance Element_CWSAPermissions : Element GoCWSAPermissions.
Proof. refine {| to_array := ACWSAPermissions; of_array a := match a with ACWSAPermissions l => Some l | _ => None end; zero := mkGoCWSAPermissions None None |}; done. Defined.
#[export] Instance Element_WSASpec : Element (GoSpec GoWSAPermissions).
Proof. refine {| to_array := AWSASpec; of_array a := match a with AWSASpec l => Some l | _ => None end; zero := mkGoSpec zero_scope (mkGoWSAPermissions None None None) |}; done. Defined.
#[export] Instance Element_CWSASpec : Element (GoSpec GoCWSAPermissions).
Proof. refine {| to_array := ACWSASpec; of_array a := match a with ACWSASpec l => Some l | _ => None end; zero := mkGoSpec zero_scope (mkGoCWSAPermissions None None) |}; done. Defined.
#[export] Instance Element_Status : Element GoStatus.
Proof. refine {| to_array := AStatus; of_array a := match a with AStatus l => Some l | _ => None end; zero := mkGoStatus None |}; done. Defined.

(** ** Statements on the store *)

(** The part of an array a slice shows; [None] when the slice dangles. *)
Definition elements_of `{Element T} (h : Heap) (s : Slice T) : option (list T) :=
  a ← h !! sl_array s;
  l ← of_array a;
  if decide (sl_off s + sl_len s ≤ length l) then Some (take (sl_len s) (drop (sl_off s) l)) else None.

(** [make([]T, n)] and [new(T)] *)
Definition make (T : Type) `{Element T} (n : nat) : M Heap (Slice T) := λ h,
  let array := fresh (dom h) in
  (<[array := to_array (replicate n zero)]> h, mkSlice array 0 n).

(** [s[i]]; out of range Go panics, which the theorems exclude by reading valid slices only. *)
Definition read `{Element T} (s : Slice T) (i : nat) : M Heap T := λ h,
  (h, default zero (elements_of h s ≫= (.!! i))).

(** [s[i] = x] *)
Definition write `{Element T} (s : Slice T) (i : nat) (x : T) : M Heap () := λ h,
  match h !! sl_array s ≫= of_array with
  | Some l => (<[sl_array s := to_array (<[sl_off s + i := x]> l)]> h, ())
  | None => (h, ())
  end.

(** [copy(dst, src)], which copies the shorter of the two lengths. *)
Definition copy `{Element T} (dst src : Slice T) : M Heap () :=
  for_each (seq 0 (sl_len dst `min` sl_len src)) () (λ i _, let* x := read src i in write dst i x).

(** [if in.X != nil { in, out := &in.X, &out.X; *out = make([]T, len( *in)); copy( *out, *in) }] *)
Definition copy_field `{Element T} (x : option (Slice T)) : M Heap (option (Slice T)) :=
  match x with
  | None => ret None
  | Some s => let* out := make T (sl_len s) in let* _ := copy out s in ret (Some out)
  end.

(** The same field with [for i := range *in { ( *in)[i].DeepCopyInto(&( *out)[i]) }]. *)
Definition deep_copy_field `{Element T} (DeepCopyInto : T → M Heap T) (x : option (Slice T)) :
    M Heap (option (Slice T)) :=
  match x with
  | None => ret None
  | Some s =>
      let* out := make T (sl_len s) in
      let* _ := for_each (seq 0 (sl_len s)) () (λ i _,
        let* x := read s i in let* y := DeepCopyInto x in write out i y) in
      ret (Some out)
  end.

(** [if in == nil { return nil }; out := new(T); in.DeepCopyInto(out); return out] *)
Definition deref {T} (p : Pointer T) : Slice T := mkSlice (p_array p) (p_index p) 1.

Definition new_DeepCopyInto `{Element T} (DeepCopyInto : T → M Heap T) (x : option (Pointer T)) :
    M Heap (option (Pointer T)) :=
  match x with
  | None => ret None
  | Some p =>
      let* out := make T 1 in
      let* x := read (deref p) 0 in
      let* y := DeepCopyInto x in
      let* _ := write out 0 y in
      ret (Some (mkPointer (sl_array out) 0))
  end.

(** ** Representations

    What a Go object denotes in a store, and the arrays that can be reached from it.  Both depend
    only on the arrays reached. *)
Class Rep (T V : Type) := {
  denote : Heap → T → option V;
  reach : Heap → T → gset Loc;
  rep_dom h x v : denote h x = Some v → reach h x ⊆ dom h;
  rep_frame h h' x v :
    denote h x = Some v → (∀ l, l ∈ reach h x → h' !! l = h !! l) →
    denote h' x = Some v ∧ reach h' x = reach h x
}.

Definition Rep_plain (T : Type) : Rep T T.
Proof. by refine {| denote _ x := Some x; reach _ _ := ∅ |}. Defined.

#[export] Instance Rep_pair `{Rep A VA} `{Rep B VB} : Rep (A * B) (VA * VB).
Proof.
  refine {|
    denote h x := a ← denote h x.1; b ← denote h x.2; Some (a, b);
    reach h x := reach h x.1 ∪ reach h x.2
  |}.
  - intros h [a b] v (va & Ha & (vb & Hb & [= <-])%bind_Some)%bind_Some. simpl in *.
    apply rep_dom in Ha, Hb. set_solver.
  - intros h h' [a b] v (va & Ha & (vb & Hb & [= <-])%bind_Some)%bind_Some Hl. simpl in *.
    apply (rep_frame _ h') in Ha as [Ha ->]; [|set_solver].
    apply (rep_frame _ h') in Hb as [Hb ->]; [|set_solver].
    by rewrite Ha, Hb.
Defined.

(** A struct is represented as the tuple of its fields. *)
Definition Rep_via `{Rep A VA} {T V} (fields : T → A) (build : VA → V) : Rep T V.
Proof.
  refine {| denote h x := build <$> denote h (fields x); reach h x := reach h (fields x) |}.
  - intros h x v (va & Hva & _)%fmap_Some. by eapply rep_dom.
  - intros h h' x v (va & Hva & ->)%fmap_Some Hl.
    apply (rep_frame _ h') in Hva as [-> ->]; done.
Defined.

Section list.
Context `{Rep T V}.

Fixpoint denote_list (h : Heap) (l : list T) : option (list V) :=
  match l with
  | [] => Some []
  | x :: l => v ← denote h x; vs ← denote_list h l; Some (v :: vs)
  end.

Fixpoint reach_list (h : Heap) (l : list T) : gset Loc :=
  match l with [] => ∅ | x :: l => reach h x ∪ reach_list h l end.

#[export] Instance Rep_list : Rep (list T) (list V).
Proof.
  refine {| denote := denote_list; reach := reach_list |}.
  - intros h l. induction l as [|x l IH]; intros vs; simpl; [set_solver|].
    intros (v & Hv & (vs' & Hvs & _)%bind_Some)%bind_Some. apply rep_dom in Hv. apply IH in Hvs. set_solver.
  - intros h h' l. induction l as [|x l IH]; intros vs; simpl; [done|].
    intros (v & Hv & (vs' & Hvs & [= <-])%bind_Some)%bind_Some Hl.
    apply (rep_frame _ h') in Hv as [-> ->]; [|set_solver].
    destruct (IH vs' Hvs) as [-> ->]; [set_solver|]. done.
Defined.

Lemma denote_list_app h l1 l2 vs1 vs2 :
  denote h l1 = Some vs1 → denote h l2 = Some vs2 → denote h (l1 ++ l2) = Some (vs1 ++ vs2).
Proof.
  revert vs1. induction l1 as [|x l1 IH]; intros vs1; simpl; [by intros [= <-]|].
  intros (v & -> & (vs' & Hvs & [= <-])%bind_Some)%bind_Some H2. simpl in *. by rewrite (IH _ Hvs H2).
Qed.

Lemma reach_list_app h l1 l2 : reach h (l1 ++ l2) = reach h l1 ∪ reach h l2.
Proof. induction l1 as [|x l1 IH]; simpl in *; [set_solver|]. rewrite IH. set_solver. Qed.

Lemma denote_list_lookup h l vs i x :
  denote h l = Some vs → l !! i = Some x → ∃ v, vs !! i = Some v ∧ denote h x = Some v.
Proof.
  revert vs i. induction l as [|y l IH]; intros vs i; simpl; [done|].
  intros (v & Hv & (vs' & Hvs & [= <-])%bind_Some)%bind_Some.
  destruct i as [|i]; simpl; [intros [= ->]; eauto|]. by apply IH.
Qed.

Lemma denote_list_length h l vs : denote h l = Some vs → length vs = length l.
Proof.
  revert vs. induction l as [|x l IH]; intros vs; simpl; [by intros [= <-]|].
  intros (v & _ & (vs' & Hvs & [= <-])%bind_Some)%bind_Some. simpl. f_equal. by apply IH.
Qed.

Context `{Element T}.

#[export] Instance Rep_slice : Rep (option (Slice T)) (list V).
Proof.
  refine {|
    denote h x := match x with None => Some [] | Some s => l ← elements_of h s; denote h l end;
    reach h x := match x with None => ∅ | Some s => {[sl_array s]} ∪ default ∅ (reach h <$> elements_of h s) end
  |}.
  - intros h [s|] vs; [|set_solver]. intros (l & Hl & Hvs)%bind_Some. rewrite Hl. simpl.
    apply rep_dom in Hvs. simpl in Hvs. apply bind_Some in Hl as (a & Ha & _). apply elem_of_dom_2 in Ha. set_solver.
  - intros h h' [s|] vs; [|done]. intros (l & Hl & Hvs)%bind_Some Hreach. rewrite Hl in Hreach |- *.
    assert (elements_of h' s = Some l) as Hl'.
    { unfold elements_of in *. rewrite (Hreach (sl_array s)); [done|set_solver]. }
    rewrite Hl'. simpl in *. destruct (@rep_frame _ _ Rep_list h h' l vs Hvs) as [Hd Hr]; [set_solver|].
    simpl in *. by rewrite Hr.
Defined.

#[export] Instance Rep_pointer : Rep (option (Pointer T)) (option V) :=
  Rep_via (option_map deref) head.
End list.

(** ** Deep copies

    A deep copy denotes what the original denotes, the store only grows, and the copy shares no array
    with anything that was there before. *)
Definition deep_copies `{Rep T V} (f : T → M Heap T) : Prop := ∀ h x v,
  denote h x = Some v →
  let '(h', y) := f x h in denote h' y = Some v ∧ h ⊆ h' ∧ reach h' y ## dom h.

Lemma rep_extend `{Rep T V} h h' x v :
  denote h x = Some v → h ⊆ h' → denote h' x = Some v ∧ reach h' x = reach h x.
Proof.
  intros Hv Hsub. apply rep_frame; [done|]. intros l Hl. apply (rep_dom _ _ _ Hv) in Hl.
  apply elem_of_dom in Hl as [a Ha]. rewrite Ha. by eapply lookup_weaken.
Qed.

Lemma deep_copies_plain T : @deep_copies T T (Rep_plain T) ret.
Proof. intros h x v [= <-]. simpl. repeat split; [done|set_solver]. Qed.

(** One field after the other. *)
Definition copy_pair {A B} (f : A → M Heap A) (g : B → M Heap B) (x : A * B) : M Heap (A * B) :=
  let* a := f x.1 in let* b := g x.2 in ret (a, b).

Lemma deep_copies_pair `{Rep A VA} `{Rep B VB} (f : A → M Heap A) (g : B → M Heap B) :
  deep_copies f → deep_copies g → deep_copies (copy_pair f g).
Proof.
  intros Hf Hg h [a b] v (va & Ha & (vb & Hb & [= <-])%bind_Some)%bind_Some. unfold copy_pair, bind, ret. simpl in *.
  specialize (Hf h a va Ha). destruct (f a h) as [h1 a'] eqn:Ef. destruct Hf as (Ha' & Hsub & Hr).
  destruct (rep_extend h h1 b vb Hb Hsub) as [Hb1 _].
  specialize (Hg h1 b vb Hb1). destruct (g b h1) as [h2 b'] eqn:Eg. destruct Hg as (Hb' & Hsub' & Hr').
  destruct (rep_extend h1 h2 a' va Ha' Hsub') as [Ha2 Hra].
  simpl. rewrite Ha2, Hb', Hra. apply subseteq_dom in Hsub as Hdom.
  repeat split; [by etrans|]. set_solver.
Qed.

(** A struct whose fields are copied is copied. *)
Lemma deep_copies_via `{Rep A VA} {T V} (fields : T → A) (build : VA → V) (f : A → M Heap A) (g : T → M Heap T) :
  deep_copies f →
  (∀ h x, let '(h', y) := g x h in f (fields x) h = (h', fields y)) →
  @deep_copies T V (Rep_via fields build) g.
Proof.
  intros Hf Hg h x v (va & Hva & ->)%fmap_Some. specialize (Hg h x). destruct (g x h) as [h' y].
  specialize (Hf h _ va Hva). rewrite Hg in Hf. destruct Hf as (Hd & Hsub & Hr). simpl. by rewrite Hd.
Qed.

Section copies.
Context `{Rep T V} `{!Element T} (DeepCopyInto : T → M Heap T) (HDC : deep_copies DeepCopyInto).
Variables (h : Heap) (s : Slice T) (xs : list T) (vs : list V) (l : Loc).
Hypotheses (Hxs : elements_of h s = Some xs) (Hvs : denote h xs = Some vs) (Hl : l ∉ dom h).

Let out : Slice T := mkSlice l 0 (length xs).

(** What holds after [i] turns of the loop, with the copies [ys]. *)
Record copied (i : nat) (ys : list T) (hi : Heap) : Prop := {
  copied_store : h ⊆ hi;
  copied_array : hi !! l = Some (to_array (ys ++ replicate (length xs - i) zero));
  copied_length : length ys = i;
  copied_denote : denote hi ys = Some (take i vs);
  copied_fresh : reach hi ys ## dom h;
  copied_apart : l ∉ reach hi ys
}.

Lemma elements_of_dom : is_Some (h !! sl_array s).
Proof. unfold elements_of in Hxs. destruct (h !! sl_array s); [by eexists|done]. Qed.

Lemma read_extend i hi x : h ⊆ hi → xs !! i = Some x → read s i hi = (hi, x).
Proof.
  intros Hsub Hx. unfold read. assert (elements_of hi s = Some xs) as ->; [|simpl; by rewrite Hx].
  destruct elements_of_dom as [a Ha]. unfold elements_of in *. by rewrite (lookup_weaken _ _ _ _ Ha Hsub), <-Ha.
Qed.

Lemma insert_snoc_zero i ys (y : T) :
  length ys = i → i < length xs →
  <[i := y]> (ys ++ replicate (length xs - i) zero) = (ys ++ [y]) ++ replicate (length xs - S i) zero.
Proof.
  intros Hi Hlt. rewrite insert_app_r_alt by lia. replace (i - length ys) with 0 by lia.
  replace (length xs - i) with (S (length xs - S i)) by lia. simpl. by rewrite <-app_assoc.
Qed.

Lemma copied_step i ys hi :
  i < length xs → copied i ys hi →
  ∃ y hi', (let* x := read s i in let* y := DeepCopyInto x in write out i y) hi = (hi', ()) ∧
    copied (S i) (ys ++ [y]) hi'.
Proof.
  intros Hlt [Hsub Harr Hlen Hys Hfr Hap].
  destruct (lookup_lt_is_Some_2 _ _ Hlt) as [x Hx].
  destruct (denote_list_lookup _ _ _ _ _ Hvs Hx) as (v & Hv & Hxv).
  destruct (rep_extend _ _ _ _ Hxv Hsub) as [Hxv' _].
  specialize (HDC hi x v Hxv'). unfold bind. rewrite (read_extend _ _ _ Hsub Hx).
  destruct (DeepCopyInto x hi) as [h1 y]. destruct HDC as (Hy & Hsub1 & Hfr1).
  pose proof (lookup_weaken _ _ _ _ Harr Hsub1) as Harr1.
  assert (l ∈ dom hi) as Hli by by apply elem_of_dom_2 in Harr.
  unfold write. simpl. rewrite Harr1. simpl. rewrite of_to_array.
  rewrite insert_snoc_zero by done. eexists y, _. split; [done|].
  destruct (rep_extend _ _ _ _ Hys Hsub1) as [Hys1 Hr1].
  assert (∀ A VA (R : Rep A VA) (a : A) va, denote h1 a = Some va → l ∉ reach h1 a →
    let h2 := <[l := to_array ((ys ++ [y]) ++ replicate (length xs - S i) zero)]> h1 in
    denote h2 a = Some va ∧ reach h2 a = reach h1 a) as Hframe.
  { intros A VA R a va Ha Hla h2. apply rep_frame; [done|]. intros l' Hl'. unfold h2.
    rewrite lookup_insert_ne; [done|]. set_solver. }
  destruct (Hframe _ _ _ _ _ Hys1) as [Hys2 Hr2]; [by rewrite Hr1|].
  destruct (Hframe _ _ _ _ _ Hy) as [Hy2 Hry2]; [set_solver|].
  apply subseteq_dom in Hsub as Hdom.
  split.
  - apply insert_subseteq_r; [by apply not_elem_of_dom|]. by etrans.
  - by rewrite lookup_insert_eq.
  - rewrite length_app. simpl. lia.
  - rewrite (take_S_r _ _ _ Hv). apply denote_list_app; [done|]. simpl. by rewrite Hy2.
  - rewrite reach_list_app, Hr2, Hr1. simpl. rewrite Hry2. set_solver.
  - rewrite reach_list_app, Hr2, Hr1. simpl. rewrite Hry2. set_solver.
Qed.

Lemma copied_loop k : ∀ i ys hi,
  i + k = length xs → copied i ys hi →
  ∃ ys' hi', for_each (seq i k) () (λ i _,
    let* x := read s i in let* y := DeepCopyInto x in write out i y) hi = (hi', ()) ∧
    copied (length xs) ys' hi'.
Proof.
  induction k as [|k IH]; intros i ys hi Hik Hc.
  { replace (length xs) with i by lia. by exists ys, hi. }
  destruct (copied_step i ys hi) as (y & hi' & Hrun & Hc'); [lia|done|].
  destruct (IH (S i) (ys ++ [y]) hi') as (ys' & h' & Hrun' & Hc''); [lia|done|].
  exists ys', h'. split; [|done]. cbn [seq for_each]. unfold bind at 1. by rewrite Hrun.
Qed.

Lemma copied_init : copied 0 [] (<[l := to_array (replicate (length xs) zero)]> h).
Proof.
  split; simpl; [by apply insert_subseteq, not_elem_of_dom|by rewrite lookup_insert_eq, Nat.sub_0_r|done..|set_solver|set_solver].
Qed.

Lemma copied_done ys hi :
  copied (length xs) ys hi →
  denote hi (Some out) = Some vs ∧ h ⊆ hi ∧ reach hi (Some out) ## dom h.
Proof.
  intros [Hsub Harr Hlen Hys Hfr Hap]. rewrite Nat.sub_diag, app_nil_r in Harr.
  assert (elements_of hi out = Some ys) as Hout.
  { unfold elements_of. simpl. rewrite Harr. simpl. rewrite of_to_array. simpl.
    rewrite decide_True by lia. by rewrite <-Hlen, firstn_all. }
  simpl. rewrite Hout. simpl. split; [|split; [done|set_solver]].
  simpl in Hys. rewrite Hys, take_ge; [done|]. by rewrite (denote_list_length _ _ _ Hvs).
Qed.
End copies.

Section fields.
Context `{Rep T V} `{!Element T}.

Lemma elements_of_length (h : Heap) (s : Slice T) xs : elements_of h s = Some xs → length xs = sl_len s.
Proof.
  unfold elements_of. intros (a & _ & (l & _ & Hx)%bind_Some)%bind_Some. case_decide; simplify_eq.
  rewrite length_take, length_drop. lia.
Qed.

Lemma deep_copies_field (DeepCopyInto : T → M Heap T) :
  deep_copies DeepCopyInto → deep_copies (deep_copy_field DeepCopyInto).
Proof.
  intros HDC h [s|] vs; [|intros [= <-]; simpl; repeat split; [done|set_solver]].
  intros (xs & Hxs & Hvs)%bind_Some. pose proof (elements_of_length _ _ _ Hxs) as Hlen.
  set (l := fresh (dom h)). assert (l ∉ dom h) as Hl by apply is_fresh.
  destruct (copied_loop DeepCopyInto HDC h s xs vs l Hxs Hvs Hl (length xs) 0 [] _ eq_refl
    (copied_init DeepCopyInto HDC h s xs vs l Hxs Hvs Hl)) as (ys & h' & Hrun & Hc).
  cbn [deep_copy_field]. unfold make, bind at 1. fold l. rewrite <-Hlen.
  unfold bind at 1. rewrite Hrun. by apply (copied_done DeepCopyInto HDC h s xs vs l Hxs Hvs Hl ys h').
Qed.

Lemma copy_field_deep (x : option (Slice T)) : copy_field x ≈ deep_copy_field ret x.
Proof.
  destruct x as [s|]; [|done]. intros h. unfold copy_field, deep_copy_field, make, bind at 1 3, copy. simpl.
  by rewrite Nat.min_id.
Qed.

Lemma new_DeepCopyInto_field (DeepCopyInto : T → M Heap T) (p : Pointer T) :
  new_DeepCopyInto DeepCopyInto (Some p) ≈
  (let* out := deep_copy_field DeepCopyInto (Some (deref p)) in
   ret ((λ s, mkPointer (sl_array s) 0) <$> out)).
Proof.
  intros h. unfold new_DeepCopyInto, deep_copy_field, make, bind, ret. simpl. unfold bind.
  repeat (case_match; simplify_eq; try done).
Qed.

Lemma deep_copies_pointer (DeepCopyInto : T → M Heap T) :
  deep_copies DeepCopyInto → deep_copies (new_DeepCopyInto DeepCopyInto).
Proof.
  intros HDC h [p|] v; [|intros [= <-]; simpl; repeat split; [done|set_solver]].
  intros (vs & Hvs & ->)%fmap_Some.
  pose proof (deep_copies_field DeepCopyInto HDC h (Some (deref p)) vs Hvs) as Hc.
  rewrite (new_DeepCopyInto_field DeepCopyInto p h). unfold bind. cbn [deep_copy_field] in Hc |- *.
  unfold make, bind, ret in Hc |- *. cbn [deref sl_len] in *.
  destruct (for_each _ _ _ _) as [h' []]. destruct Hc as (Hd & Hsub & Hr).
  split; [|split; [done|exact Hr]].
  change (head <$> denote h' (Some (mkSlice (T:=T) (fresh (dom h)) 0 1)) = Some (head vs)). by rewrite Hd.
Qed.
End fields.

Lemma deep_copies_copy T `{!Element T} :
  @deep_copies _ _ (@Rep_slice T T (Rep_plain T) _) (@copy_field T _).
Proof.
  intros h x v Hv. rewrite copy_field_deep. revert h x v Hv.
  apply (@deep_copies_field T T (Rep_plain T) _ ret), deep_copies_plain.
Qed.

(** ** What the structs denote *)

#[export] Instance Rep_string : Rep string string := Rep_plain string.
#[export] Instance Rep_Z : Rep Z Z := Rep_plain Z.
#[export] Instance Rep_map : Rep (gmap string string) (gmap string string) := Rep_plain _.
#[export] Instance Rep_ManagedFields : Rep ManagedFieldsEntry ManagedFieldsEntry := Rep_plain _.
#[export] Instance Rep_RoleRef : Rep RoleRef RoleRef := Rep_plain _.
#[export] Instance Rep_Condition : Rep Condition Condition := Rep_plain _.
#[export] Instance Rep_TypeMeta : Rep TypeMeta TypeMeta := Rep_plain _.

#[export] Instance Rep_ObjectMeta : Rep GoObjectMeta ObjectMeta := Rep_via
  (λ m, (gm_Name m, (gm_Namespace m, (gm_UID m, (gm_Generation m, (gm_ResourceVersion m,
    (gm_DeletionTimestamp m, (gm_Labels m, (gm_Finalizers m, gm_ManagedFields m)))))))))
  (λ '(name, (namespace, (uid, (generation, (version, (deletion, (labels, (finalizers, managed)))))))),
    mkMeta name namespace uid generation version deletion labels finalizers managed).

(** [ListMeta] as a value: the resource version, the token and the count of the remaining items. *)
Abbreviation ListMeta := (string * (string * option Z))%type.

#[export] Instance Rep_ListMeta : Rep GoListMeta ListMeta := Rep_via
  (λ m, (glm_ResourceVersion m, (glm_Continue m, glm_RemainingItemCount m))) id.

#[export] Instance Rep_PolicyRule : Rep GoPolicyRule PolicyRule := Rep_via
  (λ r, (gr_Verbs r, (gr_APIGroups r, (gr_Resources r, (gr_ResourceNames r, gr_NonResourceURLs r)))))
  (λ '(verbs, (groups, (resources, (names, urls)))), mkPolicyRule verbs groups resources names urls).

#[export] Instance Rep_Scope : Rep GoScope WorkloadServiceAccountScope := Rep_via
  (λ s, (Project s, (ProjectGroup s, (Environment s, (Tenant s, (Step s, Space s))))))
  (λ '(projects, (groups, (environments, (tenants, (steps, spaces))))),
    mkDims projects groups environments tenants steps spaces).

Abbreviation WSAPermissions := (list RoleRef * (list RoleRef * list PolicyRule))%type.
Abbreviation CWSAPermissions := (list RoleRef * list PolicyRule)%type.

#[export] Instance Rep_WSAPermissions : Rep GoWSAPermissions WSAPermissions := Rep_via
  (λ p, (gp_ClusterRoles p, (gp_Roles p, gp_Permissions p))) id.
#[export] Instance Rep_CWSAPermissions : Rep GoCWSAPermissions CWSAPermissions := Rep_via
  (λ p, (gcp_ClusterRoles p, gcp_Permissions p)) id.
#[export] Instance Rep_Spec `{Rep P VP} : Rep (GoSpec P) (WorkloadServiceAccountScope * VP) := Rep_via
  (λ s, (gs_Scope s, gs_Permissions s)) id.
#[export] Instance Rep_Status : Rep GoStatus (list Condition) := Rep_via gst_Conditions id.

Definition Rep_object `{Rep P VP} {V}
    (build : TypeMeta * (ObjectMeta * ((WorkloadServiceAccountScope * VP) * list Condition)) → V) : Rep (GoObject P) V :=
  Rep_via (λ o, (go_TypeMeta o, (go_ObjectMeta o, (go_Spec o, go_Status o)))) build.

#[export] Instance Rep_WSA : Rep GoWSA (TypeMeta * WorkloadServiceAccount) := Rep_object
  (λ '(type, (meta, ((scope, (cluster_roles, (roles, permissions))), conditions))),
    (type, mkWSA meta scope cluster_roles roles permissions conditions)).

#[export] Instance Rep_CWSA : Rep GoCWSA (TypeMeta * ClusterWorkloadServiceAccount) := Rep_object
  (λ '(type, (meta, ((scope, (cluster_roles, permissions)), conditions))),
    (type, mkCWSA meta scope cluster_roles permissions conditions)).

#[export] Instance Rep_WSAList : Rep (GoList GoWSAPermissions) (TypeMeta * (ListMeta * list (TypeMeta * WorkloadServiceAccount))) :=
  Rep_via (λ l, (gl_TypeMeta l, (gl_ListMeta l, gl_Items l))) id.
#[export] Instance Rep_CWSAList : Rep (GoList GoCWSAPermissions) (TypeMeta * (ListMeta * list (TypeMeta * ClusterWorkloadServiceAccount))) :=
  Rep_via (λ l, (gl_TypeMeta l, (gl_ListMeta l, gl_Items l))) id.

(** ** Third-party code

    The deep copies of the types of apimachinery and of the RBAC API, which are generated by the same
    tool, and copy. *)
Class K8sDeepCopy := {
  ObjectMeta_DeepCopyInto : GoObjectMeta → M Heap GoObjectMeta;
  ListMeta_DeepCopyInto : GoListMeta → M Heap GoListMeta;
  PolicyRule_DeepCopyInto : GoPolicyRule → M Heap GoPolicyRule;
  Condition_DeepCopyInto : Condition → M Heap Condition
}.

Class K8sDeepCopyLaws `{K8sDeepCopy} : Prop := {
  ObjectMeta_DeepCopyInto_doc : deep_copies ObjectMeta_DeepCopyInto;
  ListMeta_DeepCopyInto_doc : deep_copies ListMeta_DeepCopyInto;
  PolicyRule_DeepCopyInto_doc : deep_copies PolicyRule_DeepCopyInto;
  Condition_DeepCopyInto_doc : deep_copies Condition_DeepCopyInto
}.

(** ** The generated functions

    [DeepCopyInto] gives what it leaves in [*out]. *)
Section generated.
Context `{K8sDeepCopy}.

Definition WorkloadServiceAccountScope_DeepCopyInto (x : GoScope) : M Heap GoScope :=
  let out := x in
  let* projects := copy_field (Project x) in
  let out := dim_set ProjectIndex projects out in
  let* projectGroups := copy_field (ProjectGroup x) in
  let out := dim_set ProjectGroupIndex projectGroups out in
  let* environments := copy_field (Environment x) in
  let out := dim_set EnvironmentIndex environments out in
  let* tenants := copy_field (Tenant x) in
  let out := dim_set TenantIndex tenants out in
  let* steps := copy_field (Step x) in
  let out := dim_set StepIndex steps out in
  let* spaces := copy_field (Space x) in
  ret (dim_set SpaceIndex spaces out).

Definition WorkloadServiceAccountPermissions_DeepCopyInto (x : GoWSAPermissions) : M Heap GoWSAPermissions :=
  let out := x in
  let* clusterRoles := copy_field (gp_ClusterRoles x) in
  let out := mkGoWSAPermissions clusterRoles (gp_Roles out) (gp_Permissions out) in
  let* roles := copy_field (gp_Roles x) in
  let out := mkGoWSAPermissions (gp_ClusterRoles out) roles (gp_Permissions out) in
  let* permissions := deep_copy_field PolicyRule_DeepCopyInto (gp_Permissions x) in
  ret (mkGoWSAPermissions (gp_ClusterRoles out) (gp_Roles out) permissions).

Definition WorkloadServiceAccountSpec_DeepCopyInto (x : GoSpec GoWSAPermissions) : M Heap (GoSpec GoWSAPermissions) :=
  let out := x in
  let* scope := WorkloadServiceAccountScope_DeepCopyInto (gs_Scope x) in
  let out := mkGoSpec scope (gs_Permissions out) in
  let* permissions := WorkloadServiceAccountPermissions_DeepCopyInto (gs_Permissions x) in
  ret (mkGoSpec (gs_Scope out) permissions).

Definition WorkloadServiceAccountStatus_DeepCopyInto (x : GoStatus) : M Heap GoStatus :=
  let* conditions := deep_copy_field Condition_DeepCopyInto (gst_Conditions x) in
  ret (mkGoStatus conditions).

Definition WorkloadServiceAccount_DeepCopyInto (x : GoWSA) : M Heap GoWSA :=
  let out := x in
  let out := mkGoObject (go_TypeMeta x) (go_ObjectMeta out) (go_Spec out) (go_Status out) in
  let* meta := ObjectMeta_DeepCopyInto (go_ObjectMeta x) in
  let out := mkGoObject (go_TypeMeta out) meta (go_Spec out) (go_Status out) in
  let* spec := WorkloadServiceAccountSpec_DeepCopyInto (go_Spec x) in
  let out := mkGoObject (go_TypeMeta out) (go_ObjectMeta out) spec (go_Status out) in
  let* status := WorkloadServiceAccountStatus_DeepCopyInto (go_Status x) in
  ret (mkGoObject (go_TypeMeta out) (go_ObjectMeta out) (go_Spec out) status).

Definition WorkloadServiceAccountList_DeepCopyInto (x : GoList GoWSAPermissions) : M Heap (GoList GoWSAPermissions) :=
  let out := x in
  let out := mkGoList (gl_TypeMeta x) (gl_ListMeta out) (gl_Items out) in
  let* meta := ListMeta_DeepCopyInto (gl_ListMeta x) in
  let out := mkGoList (gl_TypeMeta out) meta (gl_Items out) in
  let* items := deep_copy_field WorkloadServiceAccount_DeepCopyInto (gl_Items x) in
  ret (mkGoList (gl_TypeMeta out) (gl_ListMeta out) items).

Definition ClusterWorkloadServiceAccountPermissions_DeepCopyInto (x : GoCWSAPermissions) : M Heap GoCWSAPermissions :=
  let out := x in
  let* clusterRoles := copy_field (gcp_ClusterRoles x) in
  let out := mkGoCWSAPermissions clusterRoles (gcp_Permissions out) in
  let* permissions := deep_copy_field PolicyRule_DeepCopyInto (gcp_Permissions x) in
  ret (mkGoCWSAPermissions (gcp_ClusterRoles out) permissions).

Definition ClusterWorkloadServiceAccountSpec_DeepCopyInto (x : GoSpec GoCWSAPermissions) :
    M Heap (GoSpec GoCWSAPermissions) :=
  let out := x in
  let* scope := WorkloadServiceAccountScope_DeepCopyInto (gs_Scope x) in
  let out := mkGoSpec scope (gs_Permissions out) in
  let* permissions := ClusterWorkloadServiceAccountPermissions_DeepCopyInto (gs_Permissions x) in
  ret (mkGoSpec (gs_Scope out) permissions).

Definition ClusterWorkloadServiceAccountStatus_DeepCopyInto (x : GoStatus) : M Heap GoStatus :=
  let* conditions := deep_copy_field Condition_DeepCopyInto (gst_Conditions x) in
  ret (mkGoStatus conditions).

Definition ClusterWorkloadServiceAccount_DeepCopyInto (x : GoCWSA) : M Heap GoCWSA :=
  let out := x in
  let out := mkGoObject (go_TypeMeta x) (go_ObjectMeta out) (go_Spec out) (go_Status out) in
  let* meta := ObjectMeta_DeepCopyInto (go_ObjectMeta x) in
  let out := mkGoObject (go_TypeMeta out) meta (go_Spec out) (go_Status out) in
  let* spec := ClusterWorkloadServiceAccountSpec_DeepCopyInto (go_Spec x) in
  let out := mkGoObject (go_TypeMeta out) (go_ObjectMeta out) spec (go_Status out) in
  let* status := ClusterWorkloadServiceAccountStatus_DeepCopyInto (go_Status x) in
  ret (mkGoObject (go_TypeMeta out) (go_ObjectMeta out) (go_Spec out) status).

Definition ClusterWorkloadServiceAccountList_DeepCopyInto (x : GoList GoCWSAPermissions) :
    M Heap (GoList GoCWSAPermissions) :=
  let out := x in
  let out := mkGoList (gl_TypeMeta x) (gl_ListMeta out) (gl_Items out) in
  let* meta := ListMeta_DeepCopyInto (gl_ListMeta x) in
  let out := mkGoList (gl_TypeMeta out) meta (gl_Items out) in
  let* items := deep_copy_field ClusterWorkloadServiceAccount_DeepCopyInto (gl_Items x) in
  ret (mkGoList (gl_TypeMeta out) (gl_ListMeta out) items).

Definition WorkloadServiceAccountScope_DeepCopy := new_DeepCopyInto WorkloadServiceAccountScope_DeepCopyInto.
Definition WorkloadServiceAccountPermissions_DeepCopy := new_DeepCopyInto WorkloadServiceAccountPermissions_DeepCopyInto.
Definition WorkloadServiceAccountSpec_DeepCopy := new_DeepCopyInto WorkloadServiceAccountSpec_DeepCopyInto.
Definition WorkloadServiceAccountStatus_DeepCopy := new_DeepCopyInto WorkloadServiceAccountStatus_DeepCopyInto.
Definition WorkloadServiceAccount_DeepCopy := new_DeepCopyInto WorkloadServiceAccount_DeepCopyInto.
Definition WorkloadServiceAccountList_DeepCopy := new_DeepCopyInto WorkloadServiceAccountList_DeepCopyInto.
Definition ClusterWorkloadServiceAccountPermissions_DeepCopy :=
  new_DeepCopyInto ClusterWorkloadServiceAccountPermissions_DeepCopyInto.
Definition ClusterWorkloadServiceAccountSpec_DeepCopy := new_DeepCopyInto ClusterWorkloadServiceAccountSpec_DeepCopyInto.
Definition ClusterWorkloadServiceAccountStatus_DeepCopy :=
  new_DeepCopyInto ClusterWorkloadServiceAccountStatus_DeepCopyInto.
Definition ClusterWorkloadServiceAccount_DeepCopy := new_DeepCopyInto ClusterWorkloadServiceAccount_DeepCopyInto.
Definition ClusterWorkloadServiceAccountList_DeepCopy := new_DeepCopyInto ClusterWorkloadServiceAccountList_DeepCopyInto.

(** [DeepCopyObject] turns a nil pointer into a nil interface, which is [None] as well. *)
Definition DeepCopyObject {T} (DeepCopy : option (Pointer T) → M Heap (option (Pointer T))) (x : option (Pointer T)) :
    M Heap (option (Pointer T)) :=
  let* c := DeepCopy x in
  match c with Some c => ret (Some c) | None => ret None end.

Definition WorkloadServiceAccount_DeepCopyObject := DeepCopyObject WorkloadServiceAccount_DeepCopy.
Definition WorkloadServiceAccountList_DeepCopyObject := DeepCopyObject WorkloadServiceAccountList_DeepCopy.
Definition ClusterWorkloadServiceAccount_DeepCopyObject := DeepCopyObject ClusterWorkloadServiceAccount_DeepCopy.
Definition ClusterWorkloadServiceAccountList_DeepCopyObject := DeepCopyObject ClusterWorkloadServiceAccountList_DeepCopy.
End generated.

(** ** They copy *)

(** The fields of a struct one after the other. *)
Tactic Notation "copy_fields" reference(F) :=
  eapply deep_copies_via;
    [ repeat (eapply deep_copies_pair); eauto with deep_copies
    | intros ? []; unfold F; cbv [copy_pair bind ret]; simpl;
      repeat match goal with |- context [let '(_, _) := ?f ?x ?h in _] => destruct (f x h) as [? ?]; simpl end;
      reflexivity ].

Create HintDb deep_copies.
#[export] Hint Resolve deep_copies_copy deep_copies_field deep_copies_plain deep_copies_pointer
  ObjectMeta_DeepCopyInto_doc ListMeta_DeepCopyInto_doc PolicyRule_DeepCopyInto_doc Condition_DeepCopyInto_doc : deep_copies.

Section correct.
Context `{K8sDeepCopyLaws}.

Lemma Scope_copies : deep_copies WorkloadServiceAccountScope_DeepCopyInto.
Proof. copy_fields WorkloadServiceAccountScope_DeepCopyInto. Qed.

Lemma WSAPermissions_copies : deep_copies WorkloadServiceAccountPermissions_DeepCopyInto.
Proof. copy_fields WorkloadServiceAccountPermissions_DeepCopyInto. Qed.

Lemma CWSAPermissions_copies : deep_copies ClusterWorkloadServiceAccountPermissions_DeepCopyInto.
Proof. copy_fields ClusterWorkloadServiceAccountPermissions_DeepCopyInto. Qed.

Hint Resolve Scope_copies WSAPermissions_copies CWSAPermissions_copies : deep_copies.

Lemma WSASpec_copies : deep_copies WorkloadServiceAccountSpec_DeepCopyInto.
Proof. copy_fields WorkloadServiceAccountSpec_DeepCopyInto. Qed.

Lemma CWSASpec_copies : deep_copies ClusterWorkloadServiceAccountSpec_DeepCopyInto.
Proof. copy_fields ClusterWorkloadServiceAccountSpec_DeepCopyInto. Qed.

Lemma WSAStatus_copies : deep_copies WorkloadServiceAccountStatus_DeepCopyInto.
Proof.
  apply (deep_copies_via gst_Conditions id (deep_copy_field Condition_DeepCopyInto)); [eauto with deep_copies|].
  intros h [c]. cbv [WorkloadServiceAccountStatus_DeepCopyInto bind ret]. simpl. by destruct (deep_copy_field _ _ _).
Qed.

Lemma CWSAStatus_copies : deep_copies ClusterWorkloadServiceAccountStatus_DeepCopyInto.
Proof.
  apply (deep_copies_via gst_Conditions id (deep_copy_field Condition_DeepCopyInto)); [eauto with deep_copies|].
  intros h [c]. cbv [ClusterWorkloadServiceAccountStatus_DeepCopyInto bind ret]. simpl. by destruct (deep_copy_field _ _ _).
Qed.

Hint Resolve WSASpec_copies CWSASpec_copies WSAStatus_copies : deep_copies.

Lemma WSA_copies : deep_copies WorkloadServiceAccount_DeepCopyInto.
Proof. copy_fields WorkloadServiceAccount_DeepCopyInto. Qed.

Hint Resolve CWSAStatus_copies : deep_copies.

Lemma CWSA_copies : deep_copies ClusterWorkloadServiceAccount_DeepCopyInto.
Proof. copy_fields ClusterWorkloadServiceAccount_DeepCopyInto. Qed.

Hint Resolve WSA_copies CWSA_copies : deep_copies.

Lemma WSAList_copies : deep_copies WorkloadServiceAccountList_DeepCopyInto.
Proof. copy_fields WorkloadServiceAccountList_DeepCopyInto. Qed.

Lemma CWSAList_copies : deep_copies ClusterWorkloadServiceAccountList_DeepCopyInto.
Proof. copy_fields ClusterWorkloadServiceAccountList_DeepCopyInto. Qed.
End correct.

(** ** Copies are isolated

    [isolated_copy f]: the copy [f] makes of a pointer has the value of the original; whatever is
    written later to what the original reaches leaves the copy as it is, and the other way round. *)
Definition isolated_copy `{Rep T V} `{!Element T} (f : option (Pointer T) → M Heap (option (Pointer T))) : Prop :=
  ∀ h p v, denote h p = Some v →
  let '(h', q) := f p h in
  denote h' p = Some v ∧ denote h' q = Some v ∧
  (∀ h2, (∀ l, l ∉ reach h' p → h2 !! l = h' !! l) → denote h2 q = Some v) ∧
  (∀ h2, (∀ l, l ∉ reach h' q → h2 !! l = h' !! l) → denote h2 p = Some v).

Lemma deep_copies_isolated `{Rep T V} `{!Element T} (f : option (Pointer T) → M Heap (option (Pointer T))) :
  deep_copies f → isolated_copy f.
Proof.
  intros Hf h p v Hp. specialize (Hf h p v Hp). destruct (f p h) as [h' q]. destruct Hf as (Hq & Hsub & Hr).
  destruct (rep_extend _ _ _ _ Hp Hsub) as [Hp' Hrp]. pose proof (rep_dom _ _ _ Hp) as Hdom.
  repeat split; [done|done| |]; intros h2 Hh2.
  - apply (rep_frame h' h2 q v Hq). intros l Hl. apply Hh2. set_solver.
  - apply (rep_frame h' h2 p v Hp'). intros l Hl. apply Hh2. set_solver.
Qed.

Lemma DeepCopyObject_DeepCopy {T} (f : option (Pointer T) → M Heap (option (Pointer T))) p : DeepCopyObject f p ≈ f p.
Proof. intros h. unfold DeepCopyObject, bind, ret. by destruct (f p h) as [? []]. Qed.

Lemma DeepCopyObject_copies `{Rep T V} `{!Element T} (f : T → M Heap T) :
  deep_copies f → deep_copies (DeepCopyObject (new_DeepCopyInto f)).
Proof.
  intros Hf h x v Hv. rewrite (DeepCopyObject_DeepCopy (new_DeepCopyInto f) x h).
  exact (deep_copies_pointer f Hf h x v Hv).
Qed.

#[export] Hint Resolve deep_copies_isolated DeepCopyObject_copies deep_copies_pointer Scope_copies
  WSAPermissions_copies CWSAPermissions_copies WSASpec_copies CWSASpec_copies WSAStatus_copies CWSAStatus_copies
  WSA_copies CWSA_copies WSAList_copies CWSAList_copies : deep_copies.

(** ** The resource that is patched (src/internal/controller/helpers.go) *)

Section patch.
Context `{K8sDeepCopyLaws}.

(** A pointer to one of the two kinds of resources, and the resource it shows. *)
Inductive ResourcePointer :=
| PWSA (p : Pointer GoWSA)
| PCWSA (p : Pointer GoCWSA).

Definition resource_at (h : Heap) (r : ResourcePointer) : option WSAResource :=
  match r with
  | PWSA p => v ← denote h (Some p); x ← v; Some (NewWSAResource x.2)
  | PCWSA p => v ← denote h (Some p); x ← v; Some (NewClusterWSAResource x.2)
  end.

Definition reach_at (h : Heap) (r : ResourcePointer) : gset Loc :=
  match r with PWSA p => reach h (Some p) | PCWSA p => reach h (Some p) end.

(** [resource.DeepCopyObject().(client.Object)]: the assertion panics on a nil interface. *)
Definition copy_resource (r : ResourcePointer) : M Heap (option ResourcePointer) :=
  match r with
  | PWSA p => let* c := WorkloadServiceAccount_DeepCopyObject (Some p) in ret (PWSA <$> c)
  | PCWSA p => let* c := ClusterWorkloadServiceAccount_DeepCopyObject (Some p) in ret (PCWSA <$> c)
  end.

(** [original := resource.DeepCopyObject().(client.Object); update(resource)], and what the
    client computes the patch from: the original and the resource. *)
Definition patch_operands (update : ResourcePointer → M Heap ()) (resource : ResourcePointer) :
    M Heap (option (option WSAResource * option WSAResource)) :=
  let* original := copy_resource resource in
  match original with
  | None => ret None
  | Some original =>
      let* _ := update resource in
      λ h, (h, Some (resource_at h original, resource_at h resource))
  end.

(** A function given an object writes to nothing that cannot be reached from it. *)
Definition writes_within (update : ResourcePointer → M Heap ()) : Prop := ∀ h r,
  ∀ l, l ∈ dom h → l ∉ reach_at h r → (update r h).1 !! l = h !! l.

Lemma copy_resource_copies h r v :
  resource_at h r = Some v →
  ∃ h' c, copy_resource r h = (h', Some c) ∧ h ⊆ h' ∧ resource_at h' r = Some v ∧ resource_at h' c = Some v ∧
    reach_at h' c ## reach_at h' r ∧ reach_at h' c ⊆ dom h'.
Proof.
  assert (∀ T V (R : Rep T V) (E : Element T) (f : T → M Heap T) (p : Pointer T) x,
    deep_copies f → denote h (Some p) = Some x →
    ∃ h' c, DeepCopyObject (new_DeepCopyInto f) (Some p) h = (h', Some c) ∧ h ⊆ h' ∧
      denote h' (Some p) = Some x ∧ denote h' (Some c) = Some x ∧
      reach h' (Some c) ## reach h' (Some p) ∧ reach h' (Some c) ⊆ dom h') as Hcopy.
  { intros T V R E f p x Hf Hp. pose proof (deep_copies_pointer f Hf h (Some p) x Hp) as Hc.
    rewrite (DeepCopyObject_DeepCopy _ _ h).
    assert (∃ h' c, new_DeepCopyInto f (Some p) h = (h', Some c)) as (h' & c & Hrun).
    { cbv [new_DeepCopyInto bind ret make]. repeat case_match; simplify_eq; eauto. }
    rewrite Hrun in Hc |- *. destruct Hc as (Hd & Hsub & Hr).
    destruct (rep_extend _ _ _ _ Hp Hsub) as [Hp' Hrp]. apply rep_dom in Hp as Hdom, Hd as Hdom'.
    exists h', c. repeat split; [done..| |done]. set_solver. }
  destruct r as [p|p]; intros (x & Hx & (w & -> & [= <-])%bind_Some)%bind_Some.
  - destruct (Hcopy _ _ _ _ _ _ _ WSA_copies Hx) as (h' & c & Hrun & Hsub & Hp & Hc & Hr & Hd).
    exists h', (PWSA c). unfold copy_resource, WorkloadServiceAccount_DeepCopyObject, WorkloadServiceAccount_DeepCopy.
    unfold bind. rewrite Hrun. unfold resource_at. rewrite Hp, Hc. done.
  - destruct (Hcopy _ _ _ _ _ _ _ CWSA_copies Hx) as (h' & c & Hrun & Hsub & Hp & Hc & Hr & Hd).
    exists h', (PCWSA c).
    unfold copy_resource, ClusterWorkloadServiceAccount_DeepCopyObject, ClusterWorkloadServiceAccount_DeepCopy.
    unfold bind. rewrite Hrun. unfold resource_at. rewrite Hp, Hc. done.
Qed.

Lemma resource_at_frame h h' r v :
  resource_at h r = Some v → (∀ l, l ∈ reach_at h r → h' !! l = h !! l) → resource_at h' r = Some v.
Proof.
  destruct r as [p|p]; intros (x & Hx & Hv)%bind_Some Hl; unfold resource_at;
    destruct (rep_frame h h' (Some p) x Hx Hl) as [-> _]; exact Hv.
Qed.

(** The operands of the patch: the original is the resource as it was read, the other the resource as
    [update] leaves it. *)
Lemma patch_operands_correct update h r v :
  writes_within update → resource_at h r = Some v →
  ∃ h0 h', resource_at h0 r = Some v ∧ h ⊆ h0 ∧
    patch_operands update r h = (h', Some (Some v, resource_at (update r h0).1 r)).
Proof.
  intros Hu Hv. destruct (copy_resource_copies h r v Hv) as (h0 & c & Hrun & Hsub & Hr & Hc & Hdisj & Hdom).
  exists h0. unfold patch_operands, bind. rewrite Hrun. specialize (Hu h0 r).
  destruct (update r h0) as [h1 []]. exists h1. repeat split; [done..|].
  rewrite (resource_at_frame h0 h1 c v Hc); [done|]. intros l Hl. apply Hu; set_solver.
Qed.
End patch.

(** ** Properties *)

Section properties.
Context `{K8sDeepCopyLaws}.

(** C29. The generated deep copies of both resources and of their lists give objects of the same value
    that share nothing with their originals: no later change of one shows in the other. *)
Theorem DeepCopy_isolated :
  isolated_copy WorkloadServiceAccount_DeepCopyObject ∧
  isolated_copy WorkloadServiceAccountList_DeepCopyObject ∧
  isolated_copy ClusterWorkloadServiceAccount_DeepCopyObject ∧
  isolated_copy ClusterWorkloadServiceAccountList_DeepCopyObject ∧
  isolated_copy WorkloadServiceAccountSpec_DeepCopy ∧
  isolated_copy ClusterWorkloadServiceAccountSpec_DeepCopy ∧
  isolated_copy WorkloadServiceAccountStatus_DeepCopy ∧
  isolated_copy ClusterWorkloadServiceAccountStatus_DeepCopy.
Proof.
  split_and!; apply deep_copies_isolated;
    (apply DeepCopyObject_copies || apply deep_copies_pointer); eauto with deep_copies.
Qed.
End properties.

Section operands.
Context `{K8sDeepCopyLaws} `{ControllerUtil}.

(** Adding and removing the finalizer change the resource in place; the patch is nevertheless
    computed from the resource as it was read and the resource with the new list of finalizers, the
    two values the model of the deletion flow gives to [client_Patch], whatever the store looks
    like and as long as the library changes nothing but the object it is given. *)
Theorem finalizer_patch_operands (update : ResourcePointer → M Heap ()) (adding : bool) h r v :
  let change := if adding then addCleanupFinalizer else removeCleanupFinalizer in
  writes_within update →
  resource_at h r = Some v →
  (∀ h0, h ⊆ h0 → resource_at h0 r = Some v → resource_at (update r h0).1 r = Some (change v).1) →
  (patch_operands update r h).2 = Some (Some v, Some (change v).1).
Proof.
  intros change Hw Hv Hu. destruct (patch_operands_correct update h r v Hw Hv) as (h0 & h' & Hr & Hsub & ->). simpl.
  by rewrite (Hu h0 Hsub Hr).
Qed.
End operands.

Module DeepCopyExamples.
(** The functions of apimachinery, written as the tool generates them. *)
Definition reference_K8sDeepCopy : K8sDeepCopy := {|
  ObjectMeta_DeepCopyInto m :=
    let* deletion := new_DeepCopyInto ret (gm_DeletionTimestamp m) in
    let* labels := new_DeepCopyInto ret (gm_Labels m) in
    let* finalizers := copy_field (gm_Finalizers m) in
    let* managed := deep_copy_field ret (gm_ManagedFields m) in
    ret (mkGoMeta (gm_Name m) (gm_Namespace m) (gm_UID m) (gm_Generation m) (gm_ResourceVersion m)
      deletion labels finalizers managed);
  ListMeta_DeepCopyInto m :=
    let* count := new_DeepCopyInto ret (glm_RemainingItemCount m) in
    ret (mkGoListMeta (glm_ResourceVersion m) (glm_Continue m) count);
  PolicyRule_DeepCopyInto r :=
    let* verbs := copy_field (gr_Verbs r) in
    let* groups := copy_field (gr_APIGroups r) in
    let* resources := copy_field (gr_Resources r) in
    let* names := copy_field (gr_ResourceNames r) in
    let* urls := copy_field (gr_NonResourceURLs r) in
    ret (mkGoRule verbs groups resources names urls);
  Condition_DeepCopyInto := ret
|}.

Tactic Notation "by_fields" reference(F) :=
  intros h []; cbv [F reference_K8sDeepCopy copy_pair bind ret]; simpl;
  repeat match goal with |- context [let '(_, _) := ?f ?x ?h in _] => destruct (f x h) as [? ?]; simpl end; done.

Lemma reference_K8sDeepCopy_laws : @K8sDeepCopyLaws reference_K8sDeepCopy.
Proof.
  assert (∀ T, @deep_copies T T (Rep_plain T) ret) as Hplain by apply deep_copies_plain.
  split.
  - apply (deep_copies_via _ _ (copy_pair ret (copy_pair ret (copy_pair ret (copy_pair ret (copy_pair ret
      (copy_pair (new_DeepCopyInto ret) (copy_pair (new_DeepCopyInto ret)
        (copy_pair copy_field (deep_copy_field ret)))))))))).
    + repeat apply deep_copies_pair; try apply Hplain; eauto with deep_copies.
    + by_fields ObjectMeta_DeepCopyInto.
  - apply (deep_copies_via _ _ (copy_pair ret (copy_pair ret (new_DeepCopyInto ret)))).
    + repeat apply deep_copies_pair; try apply Hplain. apply deep_copies_pointer, Hplain.
    + by_fields ListMeta_DeepCopyInto.
  - apply (deep_copies_via _ _ (copy_pair copy_field (copy_pair copy_field (copy_pair copy_field
      (copy_pair copy_field copy_field))))).
    + repeat apply deep_copies_pair; apply deep_copies_copy.
    + by_fields PolicyRule_DeepCopyInto.
  - apply Hplain.
Qed.

(** [controllerutil.RemoveFinalizer]: the kept finalizers are moved to the front of the same array. *)
Definition remove_in_place (finalizer : string) (r : ResourcePointer) : M Heap () :=
  match r with
  | PWSA p =>
      let* x := read (deref p) 0 in
      let m := go_ObjectMeta x in
      match gm_Finalizers m with
      | None => ret ()
      | Some s => λ h,
          match elements_of h s with
          | None => (h, ())
          | Some l =>
              let keep := filter (.≠ finalizer) l in
              (let* _ := for_each (imap pair keep) () (λ '(i, f) _, write s i f) in
               write (deref p) 0 (mkGoObject (go_TypeMeta x)
                 (mkGoMeta (gm_Name m) (gm_Namespace m) (gm_UID m) (gm_Generation m) (gm_ResourceVersion m)
                   (gm_DeletionTimestamp m) (gm_Labels m) (Some (mkSlice (sl_array s) (sl_off s) (length keep)))
                   (gm_ManagedFields m)) (go_Spec x) (go_Status x))) h
          end
      end
  | PCWSA _ => ret ()
  end.

Lemma write_elsewhere `{Element T} (s : Slice T) i x h l : l ≠ sl_array s → (write s i x h).1 !! l = h !! l.
Proof. intros Hl. unfold write. case_match; simpl; [|done]. by rewrite lookup_insert_ne. Qed.

Lemma remove_in_place_within finalizer : writes_within (remove_in_place finalizer).
Proof.
  intros h [p|p] l _; [|done]. simpl. unfold bind, read. simpl.
  destruct (elements_of h (deref p)) as [xs|] eqn:Hxs; simpl; [|done].
  destruct xs as [|x xs]; simpl; [done|]. destruct x as [type m spec status]. simpl.
  destruct (gm_Finalizers m) as [s|]; [|done]. simpl.
  destruct (elements_of h s) as [fs|] eqn:Hfs; simpl; [|done]. intros Hl.
  assert (l ≠ sl_array s ∧ l ≠ p_array p) as [Hls Hlp].
  { rewrite !not_elem_of_union, !not_elem_of_singleton in Hl. tauto. }
  clear Hl. generalize (imap pair (filter (.≠ finalizer) fs)). intros ks.
  match goal with |- (let '(w, a) := _ in write _ _ ?y w).1 !! _ = _ => generalize y end. intros y.
  assert (∀ h0, h0 !! l = h !! l → (for_each ks () (λ '(i, f) _, write s i f) h0).1 !! l = h !! l) as Hloop.
  { induction ks as [|[i f] ks IH]; intros h0 Hh0; [done|]. simpl. unfold bind.
    pose proof (write_elsewhere s i f h0 l Hls) as Hw. destruct (write s i f h0) as [h1 []]. simpl in Hw.
    apply IH. congruence. }
  specialize (Hloop h eq_refl). destruct (for_each ks () _ h) as [h1 []]. simpl in Hloop.
  by rewrite write_elsewhere.
Qed.

Definition meta0 (finalizers : option (Slice string)) : GoObjectMeta :=
  mkGoMeta "app" "team" "u1" 1 "7" None None finalizers None.

Definition struct0 (len : nat) : GoWSA :=
  mkGoObject (mkTypeMeta "WorkloadServiceAccount" "v1beta1") (meta0 (Some (mkSlice 2 0 len)))
    (mkGoSpec zero_scope (mkGoWSAPermissions None None None)) (mkGoStatus None).

(** A resource with two finalizers, the one of the controller first. *)
Definition store0 : Heap := {[
  1%positive := AWSA [struct0 2];
  2%positive := AString [ServiceAccountCleanupFinalizer; "other"]
]}.

Definition resource0 : ResourcePointer := PWSA (mkPointer 1 0).

Definition value0 (finalizers : list string) : WSAResource :=
  wsaAdapter (mkWSA (mkMeta "app" "team" "u1" 1 "7" None None finalizers [])
    (mkDims [] [] [] [] [] []) [] [] [] []).

Lemma elements_struct0 (h : Heap) len :
  h !! 1%positive = Some (AWSA [struct0 len]) → elements_of h (deref (mkPointer 1 0)) = Some [struct0 len].
Proof. intros H1. unfold elements_of. simpl. by rewrite H1. Qed.

Lemma resource_at_struct0 (h : Heap) len fs :
  h !! 1%positive = Some (AWSA [struct0 len]) → h !! 2%positive = Some (AString fs) → len ≤ length fs →
  resource_at h resource0 = Some (value0 (take len fs)).
Proof.
  intros H1 H2 Hlen. unfold resource_at, resource0. cbn -[elements_of].
  rewrite (elements_struct0 h len H1). cbn -[elements_of].
  assert (elements_of h (mkSlice (T:=string) 2 0 len) = Some (take len fs)) as ->.
  { unfold elements_of. simpl. rewrite H2. simpl. by rewrite decide_True by lia. }
  cbn -[elements_of take]. assert (∀ l : list string, denote_list h l = Some l) as ->; [|done].
  induction l as [|x l IH]; [done|]. simpl. by rewrite IH.
Qed.

Lemma remove0 h0 :
  store0 ⊆ h0 → resource_at h0 resource0 = Some (value0 [ServiceAccountCleanupFinalizer; "other"]) →
  resource_at (remove_in_place ServiceAccountCleanupFinalizer resource0 h0).1 resource0 = Some (value0 ["other"]).
Proof.
  intros Hsub _.
  assert (h0 !! 1%positive = Some (AWSA [struct0 2])) as H1 by (eapply lookup_weaken; [|exact Hsub]; reflexivity).
  assert (h0 !! 2%positive = Some (AString [ServiceAccountCleanupFinalizer; "other"])) as H2
    by (eapply lookup_weaken; [|exact Hsub]; reflexivity).
  unfold remove_in_place, resource0, bind at 1, read at 1. rewrite (elements_struct0 h0 2 H1).
  cbn [mbind option_bind default from_option id lookup list_lookup struct0 go_ObjectMeta meta0 gm_Finalizers].
  assert (elements_of h0 (mkSlice (T:=string) 2 0 2) = Some [ServiceAccountCleanupFinalizer; "other"]) as ->
    by (unfold elements_of; simpl; by rewrite H2).
  change (filter (.≠ ServiceAccountCleanupFinalizer) [ServiceAccountCleanupFinalizer; "other"]) with ["other"].
  cbn [imap for_each]. unfold bind, ret, write. cbn [sl_array]. rewrite H2. cbn [mbind option_bind of_array Element_string fst].
  rewrite lookup_insert_ne by done. cbn [deref p_array sl_array]. rewrite H1.
  cbn [mbind option_bind of_array Element_WSA fst to_array].
  apply (resource_at_struct0 _ 1 ["other"; "other"]).
  - by rewrite lookup_insert_eq.
  - by rewrite lookup_insert_ne, lookup_insert_eq.
  - simpl. lia.
Qed.

Lemma finalizer_patch_operands_witness :
  (@patch_operands reference_K8sDeepCopy (remove_in_place ServiceAccountCleanupFinalizer) resource0 store0).2 =
  Some (Some (value0 [ServiceAccountCleanupFinalizer; "other"]), Some (value0 ["other"])).
Proof.
  apply (@finalizer_patch_operands reference_K8sDeepCopy reference_K8sDeepCopy_laws reference_util
    (remove_in_place ServiceAccountCleanupFinalizer) false).
  - apply remove_in_place_within.
  - reflexivity.
  - intros h0 Hsub Hv. exact (remove0 h0 Hsub Hv).
Defined.

(** Whatever is done later to the resource of [store0], its copy keeps both finalizers. *)
Lemma DeepCopy_isolated_witness :
  let p := Some (mkPointer (T:=GoWSA) 1 0) in
  ∃ v, denote store0 p = Some v ∧
    let '(h', q) := @WorkloadServiceAccount_DeepCopyObject reference_K8sDeepCopy p store0 in
    ∀ h2, (∀ l, l ∉ reach h' p → h2 !! l = h' !! l) → denote h2 q = Some v.
Proof.
  cbv zeta. pose proof (proj1 (@DeepCopy_isolated reference_K8sDeepCopy reference_K8sDeepCopy_laws)) as Hc.
  assert (is_Some (denote store0 (Some (mkPointer (T:=GoWSA) 1 0)))) as [v Hv] by (eexists; vm_compute; reflexivity).
  exists v. split; [exact Hv|]. specialize (Hc store0 (Some (mkPointer 1 0)) v Hv).
  destruct (@WorkloadServiceAccount_DeepCopyObject reference_K8sDeepCopy (Some (mkPointer 1 0)) store0) as [h' q].
  exact (proj1 (proj2 (proj2 Hc))).
Defined.

(** Without the copies of the fields ([*out = *in] alone) the original would lose the finalizer too,
    and the patch would remove nothing of it. *)
Definition shallow_operands (update : ResourcePointer → M Heap ()) (p : Pointer GoWSA) :
    M Heap (option WSAResource * option WSAResource) :=
  let* out := make GoWSA 1 in
  let* x := read (deref p) 0 in
  let* _ := write out 0 x in
  let* _ := update (PWSA p) in
  λ h, (h, (resource_at h (PWSA (mkPointer (sl_array out) 0)), resource_at h (PWSA p))).

Example shallow_copy_loses_original :
  (shallow_operands (remove_in_place ServiceAccountCleanupFinalizer) (mkPointer 1 0) store0).2 =
  (Some (value0 ["other"; "other"]), Some (value0 ["other"])).
Proof. vm_compute. reflexivity. Qed.
End DeepCopyExamples.
