(* ===== verification/Telemetry.v ===== *)
(** * Counters, histograms and the reporter

    The metrics the program records as it runs (src/internal/metrics/metrics.go,
    src/internal/metrics/reporter.go), the requests the pod webhook counts, and the duration that the
    reconcilers record in a deferred call, with Go's rule for [recover]. *)

From Stdlib Require Import ZArith.
From S2P Require Import Prelude GoLib Api Scopes ServiceAccounts Access Cluster Resources Engine Webhooks Pipeline Debouncer Collector Retry Controllers.

(** ** What is recorded

    A vector of counters, histograms or gauges is known by its name and its label names; what the
    program does with one is a sample.  Durations are in nanoseconds. *)
Record Vector := mkVector { vec_Name : string; vec_Labels : list string }.

Inductive Sample :=
| Inc (vector : Vector) (labels : list string)
| Observe (vector : Vector) (labels : list string) (value : Z)
| SetGauge (vector : Vector) (labels : list string) (value : Z).

#[export] Instance Vector_eq_dec : EqDecision Vector.
Proof. solve_decision. Defined.
#[export] Instance Sample_eq_dec : EqDecision Sample.
Proof. solve_decision. Defined.

Definition requestsTotal : Vector := mkVector "octopus_requests_total" ["controller_type"; "scope_matched"].
Definition reconciliationDurationSeconds : Vector :=
  mkVector "octopus_reconciliation_duration_seconds" ["controller_type"; "result"].
Definition finalizerStuckTotal : Vector := mkVector "octopus_finalizer_stuck_total" ["resource_type"].
Definition opc : Vector := mkVector "octopus_permissions_controller" ["namespace_uid"].
Definition podWebhookDuration : Vector := mkVector "octopus_webhook_pod_mutation_duration_seconds" ["result"].

(** [WithLabelValues] panics unless there is one value per label. *)
Definition well_labelled (s : Sample) : bool :=
  match s with
  | Inc v ls | Observe v ls _ | SetGauge v ls _ => bool_decide (length ls = length (vec_Labels v))
  end.

(** The state of a computation that records samples. *)
Abbreviation Recorded W := (W * list Sample)%type.

Definition record {W} (s : Sample) : M (Recorded W) () := λ '(w, log), ((w, log ++ [s]), ()).

(** A computation that records nothing. *)
Definition silent {W A} (m : M W A) : M (Recorded W) A := λ '(w, log), let '(w, a) := m w in ((w, log), a).

Definition IncRequestsTotal {W} (requestIdentifier : string) (scopeMatched : bool) : M (Recorded W) () :=
  let scopeMatchedStr := "false" in
  let scopeMatchedStr := if scopeMatched then "true" else scopeMatchedStr in
  record (Inc requestsTotal [requestIdentifier; scopeMatchedStr]).

Definition ObserveReconciliationDuration {W} (controllerType result : string) (duration : Z) : M (Recorded W) () :=
  record (Observe reconciliationDurationSeconds [controllerType; result] duration).

Definition SetOpcNamespaceUid {W} (namespaceUID : string) : M (Recorded W) () :=
  record (SetGauge opc [namespaceUID] 1).

(** ** Panics and deferred calls

    A call returns or panics.  A deferred function runs with the value of the panic under way, if any.
    [recover] gives that value to the deferred function itself ([direct]) and nil to the functions it
    calls, and ends the panic when it gives one. *)
Inductive Exit (A : Type) :=
| Returned (a : A)
| Panicked (value : string).
Arguments Returned {A} a.
Arguments Panicked {A} value.

Definition recover (direct : bool) (panicking : option string) : option string :=
  if direct then panicking else None.

(** How a deferred function ends: whether it recovered, or its own panic. *)
Inductive DeferExit :=
| DeferReturns (recovered : bool)
| DeferPanics (value : string).

(** A function with one deferred call; a function that recovers returns its zero result. *)
Definition with_defer {W A} (zero_result : A) (deferred : option string → M W DeferExit) (body : M W (Exit A)) :
    M W (Exit A) :=
  let* exit := body in
  let* d := deferred (match exit with Panicked v => Some v | Returned _ => None end) in
  ret (match d with
       | DeferPanics v => Panicked v
       | DeferReturns true => match exit with Panicked _ => Returned zero_result | _ => exit end
       | DeferReturns false => exit
       end).

(** [duration] is [time.Since(startTime)]. *)
Definition RecordReconciliationDurationFunc {W} (direct : bool) (panicking : option string) (controllerType : string)
    (duration : Z) : M (Recorded W) DeferExit :=
  match recover direct panicking with
  | Some err =>
      let* _ := ObserveReconciliationDuration controllerType "error" duration in
      ret (DeferPanics err)
  | None =>
      let* _ := ObserveReconciliationDuration controllerType "success" duration in
      ret (DeferReturns false)
  end.

(** [recordMetrics] is the function the reconcilers defer; it calls the other one. *)
Definition recordMetrics {W} (resourceType : string) (duration : Z) (panicking : option string) :
    M (Recorded W) DeferExit :=
  RecordReconciliationDurationFunc false panicking resourceType duration.

(** A reconciler: [defer recordMetrics(controllerType, startTime)] and its body. *)
Definition reconcile_recorded {W A} (controllerType : string) (duration : Z) (zero_result : A) (body : M W (Exit A)) :
    M (Recorded W) (Exit A) :=
  with_defer zero_result (recordMetrics controllerType duration) (silent body).

(** ** The pod webhook *)

Section webhook.
Context `{ScopeResolver E}.

(** What [Default] records: the duration with its label, which is still ["success"] when the
    lookup panics, and before it the request when it is counted. *)
Definition Default_recorded {W} (d : PodCustomDefaulter E) (duration : Z) (obj : Pod) :
    M (Recorded W) (option Webhooks.Outcome) :=
  let o := Default d obj in
  let* _ :=
    match o ≫= out_request with
    | Some scopeMatched => IncRequestsTotal "podWebhook" scopeMatched
    | None => ret ()
    end in
  let* _ := record (Observe podWebhookDuration [default "success" (out_result <$> o)] duration) in
  ret o.

(** Requests one after the other, each with the time it took. *)
Definition admit_request {W} (d : PodCustomDefaulter E) (request : Pod * Z) (outs : list (option Webhooks.Outcome)) :
    M (Recorded W) (list (option Webhooks.Outcome)) :=
  let* o := Default_recorded d request.2 request.1 in ret (outs ++ [o]).

Definition admit_all {W} (d : PodCustomDefaulter E) (requests : list (Pod * Z)) : M (Recorded W) (list (option Webhooks.Outcome)) :=
  for_each requests [] (admit_request d).

(** A request the webhook has to decide, and one it finds an account for. *)
Definition decided (pod : Pod) : bool := shouldRunOnPod pod && negb (IsEmpty (getPodScope pod)).

Definition matched (d : PodCustomDefaulter E) (pod : Pod) : bool :=
  decided pod &&
  match resolve (def_engine d) (getPodScope pod) with ROk n => negb (bool_decide (n = "")) | _ => false end.

Definition lookup_panics (d : PodCustomDefaulter E) (pod : Pod) : bool :=
  decided pod && match resolve (def_engine d) (getPodScope pod) with RPanic => true | _ => false end.
End webhook.

(** How often a counter was incremented. *)
Fixpoint increments (vector : Vector) (labels : list string) (log : list Sample) : nat :=
  match log with
  | [] => 0
  | s :: log => (if decide (s = Inc vector labels) then 1 else 0) + increments vector labels log
  end.

(** ** The reporter *)

Section reporter.
Context {W : Type}.

(** [os.ReadFile] of the file with the name of the installation namespace, and the UID of a namespace
    as the client reads it. *)
Variables (ReadFile : string → M W (Or string)) (GetNamespaceUID : string → M W (Or string)).

Definition getInstallationNamespace : M W (Or string) :=
  let* r := ReadFile "/var/run/secrets/kubernetes.io/serviceaccount/namespace" in
  match r with
  | inl err => ret (inl err)
  | inr installationNamespace => GetNamespaceUID installationNamespace
  end.

Definition MetricsReporter_Start : M (Recorded W) (option error) :=
  let* r := silent getInstallationNamespace in
  match r with
  | inl _ => ret None
  | inr uid => let* _ := SetOpcNamespaceUid uid in ret None
  end.
End reporter.

(** ** Lemmas *)

Ltac count_samples := cbn; repeat (case_decide; simplify_eq); simpl; lia.

Lemma increments_app v ls l1 l2 : increments v ls (l1 ++ l2) = increments v ls l1 + increments v ls l2.
Proof. induction l1 as [|s l1 IH]; simpl; [done|]. rewrite IH. lia. Qed.

Lemma getPodScope_inject {E} (d : PodCustomDefaulter E) pod :
  getPodScope (injectVersionEnvironmentVariable d pod) = getPodScope pod.
Proof. done. Qed.

(** The samples of one request. *)
Lemma Default_recorded_spec `{ScopeResolver E} {W} (d : PodCustomDefaulter E) duration pod (w : W) log :
  ∃ samples result,
    Default_recorded d duration pod (w, log) =
      ((w, log ++ samples ++ [Observe podWebhookDuration [result] duration]), Default d pod) ∧
    samples =
      if matched d pod then [Inc requestsTotal ["podWebhook"; "true"]]
      else if decided pod && negb (lookup_panics d pod) then [Inc requestsTotal ["podWebhook"; "false"]] else [].
Proof.
  unfold Default_recorded, lookup_panics, matched, decided, Default. rewrite getPodScope_inject.
  destruct (shouldRunOnPod pod); cbn [negb andb]; [|eexists [], _; split; [cbn; reflexivity|done]].
  destruct (IsEmpty (getPodScope pod)); cbn [negb andb]; [eexists [], _; split; [cbn; reflexivity|done]|].
  destruct (resolve (def_engine d) (getPodScope pod)) as [n|err|].
  - case_decide as Hn.
    + rewrite bool_decide_false by done. cbn [negb]. eexists [_], _. split; [cbn; by rewrite <-app_assoc|done].
    + assert (n = "") as -> by (destruct (decide (n = "")); tauto). rewrite bool_decide_true by done. cbn [negb]. eexists [_], _. split; [cbn; by rewrite <-app_assoc|done].
  - cbn [negb]. eexists [_], _. split; [cbn; by rewrite <-app_assoc|done].
  - cbn [negb]. eexists [], _; split; [cbn; reflexivity|done].
Qed.

Lemma admit_all_spec `{ScopeResolver E} {W} (d : PodCustomDefaulter E) requests (w : W) log outs :
  let '((w', log'), outs') := for_each requests outs (admit_request d) (w, log) in
  w' = w ∧ outs' = outs ++ ((λ r, Default d r.1) <$> requests) ∧
  increments requestsTotal ["podWebhook"; "true"] log' =
    increments requestsTotal ["podWebhook"; "true"] log + length (filter (λ r, matched d r.1) requests) ∧
  increments requestsTotal ["podWebhook"; "false"] log' =
    increments requestsTotal ["podWebhook"; "false"] log +
    length (filter (λ r, decided r.1 && negb (lookup_panics d r.1) && negb (matched d r.1)) requests) ∧
  (Forall well_labelled log → Forall well_labelled log').
Proof.
  revert log outs. induction requests as [|[pod duration] requests IH]; intros log outs.
  { simpl. rewrite app_nil_r, !Nat.add_0_r. done. }
  cbn [for_each]. unfold bind at 1, admit_request at 1, bind at 1. cbn [fst snd].
  destruct (Default_recorded_spec d duration pod w log) as (samples & result & -> & Hs). unfold ret at 1. cbn beta iota.
  specialize (IH (log ++ samples ++ [Observe podWebhookDuration [result] duration]) (outs ++ [Default d pod])).
  destruct (for_each requests _ _ _) as [[w' log'] outs'].
  destruct IH as (-> & -> & -> & -> & Hwf).
  rewrite !increments_app, fmap_cons, <-app_assoc. rewrite !filter_cons. cbn [fst].
  split; [done|]. split; [done|]. split_and!; cycle 2.
  - intros Hlog. apply Hwf. rewrite !Forall_app. split; [done|]. split; [|by repeat constructor].
    rewrite Hs. repeat case_match; repeat constructor.
  - rewrite Hs. destruct (matched d pod); rewrite ?(decide_True (P := Is_true true)), ?(decide_False (P := Is_true false)) by (done || tauto).
    + count_samples.
    + destruct (decided pod && negb (lookup_panics d pod)); count_samples.
  - rewrite Hs. destruct (matched d pod); cbn [negb andb]; rewrite ?andb_false_r, ?andb_true_r.
    + rewrite (decide_False (P := Is_true false)) by tauto. count_samples.
    + destruct (decided pod && negb (lookup_panics d pod));
        rewrite ?(decide_True (P := Is_true true)), ?(decide_False (P := Is_true false)) by (done || tauto); count_samples.
Qed.

(** A function deferred itself would tell the two outcomes apart. *)
Lemma direct_defer_records {W A} (controllerType : string) duration (zero_result : A) (body : M W (Exit A)) w log :
  let '((w', log'), exit) := with_defer zero_result
    (λ panicking, RecordReconciliationDurationFunc true panicking controllerType duration) (silent body) (w, log) in
  exit = (body w).2 ∧
  log' = log ++ [Observe reconciliationDurationSeconds
    [controllerType; match (body w).2 with Panicked _ => "error" | Returned _ => "success" end] duration].
Proof. unfold with_defer, silent, bind. by destruct (body w) as [w' [a|v]]. Qed.

(** ** Properties *)

(** However a reconciliation ends - with a result, with an error or with a panic, which goes on
    to the caller - exactly one duration is recorded, and its label is always ["success"]: the
    function that tells panics apart is not the deferred one, so that it recovers nothing. *)
Theorem reconcile_always_success {W A} (controllerType : string) (duration : Z) (zero_result : A) (body : M W (Exit A)) w log :
  reconcile_recorded controllerType duration zero_result body (w, log) =
  (((body w).1, log ++ [Observe reconciliationDurationSeconds [controllerType; "success"] duration]), (body w).2).
Proof. unfold reconcile_recorded, with_defer, silent, bind. by destruct (body w) as [w' [a|v]]. Qed.

(** Over any sequence of requests the counter of matched requests grows by the number of pods
    for which the engine names an account, the other one by the number of pods it had to decide
    without naming one, unless the lookup panicked; every sample has one value per label. *)
Theorem requests_counted `{ScopeResolver E} {W} (d : PodCustomDefaulter E) requests (w : W) :
  let log := (admit_all d requests (w, [])).1.2 in
  increments requestsTotal ["podWebhook"; "true"] log = length (filter (λ r, matched d r.1) requests) ∧
  increments requestsTotal ["podWebhook"; "false"] log =
    length (filter (λ r, decided r.1 && negb (lookup_panics d r.1) && negb (matched d r.1)) requests) ∧
  Forall well_labelled log.
Proof.
  pose proof (admit_all_spec d requests w [] []) as Hspec. cbv zeta. unfold admit_all.
  destruct (for_each requests [] (admit_request d) (w, [])) as [[w' log] outs]. destruct Hspec as (_ & _ & Ht & Hf & Hwf). auto.
Qed.

(** The reporter never fails, and sets the gauge to one for the installation namespace or not at all. *)
Lemma MetricsReporter_Start_spec {W} (ReadFile GetNamespaceUID : string → M W (Or string)) w log :
  let '((w', log'), err) := MetricsReporter_Start ReadFile GetNamespaceUID (w, log) in
  err = None ∧
  log' = log ++ match (getInstallationNamespace ReadFile GetNamespaceUID w).2 with
                | inl _ => []
                | inr uid => [SetGauge opc [uid] 1]
                end.
Proof.
  unfold MetricsReporter_Start, silent, bind at 1.
  destruct (getInstallationNamespace _ _ w) as [w' [err|uid]]; simpl; [by rewrite app_nil_r|done].
Qed.
