(* ===== verification/Counters.v ===== *)
(** * The counters of the reconciliation

    What src/internal/reconciliation records as it runs: the events and batches of the collector
    (collector.go), the outcomes of batches (orchestrator.go) and the rebuilds of the state syncer
    (state_syncer.go), beside the transition systems of [Collector], [Retry] and [StateSync].  The
    theorems say what a reader of a dashboard may conclude from them. *)

From Stdlib Require Import ZArith.
From S2P Require Import Prelude GoLib Api Scopes ServiceAccounts Access Cluster Resources Engine Pipeline Debouncer Collector Retry StateSync Telemetry.

(** ** Reading a log of samples *)

Definition is_inc (v : Vector) (s : Sample) : bool :=
  match s with Inc v' _ => bool_decide (v' = v) | _ => false end.
Definition is_observe (v : Vector) (s : Sample) : bool :=
  match s with Observe v' _ _ => bool_decide (v' = v) | _ => false end.

(** The value of a counter without labels, the number of observations of a histogram, and the value of
    a gauge. *)
Definition counter (v : Vector) (log : list Sample) : nat := length (filter (is_inc v) log).
Definition observations (v : Vector) (log : list Sample) : nat := length (filter (is_observe v) log).
Definition gauge (v : Vector) (log : list Sample) : Z :=
  foldl (λ z s, match s with SetGauge v' _ z' => if decide (v' = v) then z' else z | _ => z end) 0%Z log.

Lemma counter_snoc v l s : counter v (l ++ [s]) = counter v l + (if is_inc v s then 1 else 0).
Proof. unfold counter. rewrite filter_app, length_app. f_equal. rewrite filter_cons. by destruct (is_inc v s). Qed.
Lemma observations_snoc v l s : observations v (l ++ [s]) = observations v l + (if is_observe v s then 1 else 0).
Proof. unfold observations. rewrite filter_app, length_app. f_equal. rewrite filter_cons. by destruct (is_observe v s). Qed.
Lemma gauge_snoc v l s :
  gauge v (l ++ [s]) = match s with SetGauge v' _ z' => if decide (v' = v) then z' else gauge v l | _ => gauge v l end.
Proof. unfold gauge. by rewrite foldl_app. Qed.

Lemma app_cons_snoc {A} (l l' : list A) x y : l ++ x :: y :: l' = (l ++ [x]) ++ y :: l'.
Proof. by rewrite <-app_assoc. Qed.

(** Evaluates the effect of the last samples on the counters. *)
Ltac read_log :=
  rewrite ?app_nil_r, ?app_cons_snoc, ?app_nil_r, ?counter_snoc, ?observations_snoc, ?gauge_snoc;
  repeat match goal with
  | |- context [is_inc ?v ?s] => let b := eval vm_compute in (is_inc v s) in change (is_inc v s) with b
  | |- context [is_observe ?v ?s] => let b := eval vm_compute in (is_observe v s) in change (is_observe v s) with b
  end;
  cbn [fst snd].

(** ** The collector *)

Definition eventsCollected : Vector := mkVector "staging_events_collected_total" [].
Definition batchSizeHistogram : Vector := mkVector "staging_batch_size" [].
Definition eventQueueDepth : Vector := mkVector "staging_event_queue_depth" [].
Definition batchChannelBackpressure : Vector := mkVector "staging_batch_channel_backpressure_total" [].

(** What a step of the collector's system records, in its order. *)
Definition collector_samples (a : Collector.Action) (s : EventCollector) : list Sample :=
  match a with
  | ActAdd event =>
      [Inc eventsCollected []; SetGauge eventQueueDepth [] (Z.of_nat (size (<[key_of event := event]> (ec_eventMap s))))]
  | ActCollect f => if decide (size (ec_eventMap s) = 0) then [] else [SetGauge eventQueueDepth [] 0]
  | ActSend f =>
      match pc_of f s with
      | FSend b =>
          Observe batchSizeHistogram [] (Z.of_nat (length (sent_events b))) ::
          (if bool_decide (length (ec_batchReadyCh s) < batchReadyCap) then [] else [Inc batchChannelBackpressure []])
      | _ => []
      end
  | _ => []
  end.

Section collector_counters.
Context `{RangeOrder}.

Definition recorded_step (x y : EventCollector * list Sample) : Prop :=
  ∃ a, Collector.exec a x.1 = Some y.1 ∧ y.2 = x.2 ++ collector_samples a x.1.

Fixpoint recorded_run (l : list Collector.Action) (s : EventCollector) (log : list Sample) :
    option (EventCollector * list Sample) :=
  match l with
  | [] => Some (s, log)
  | a :: l => s' ← Collector.exec a s; recorded_run l s' (log ++ collector_samples a s)
  end.

Lemma recorded_run_rtc l s log x : recorded_run l s log = Some x → rtc recorded_step (s, log) x.
Proof.
  revert s log. induction l as [|a l IH]; intros s log; simpl; [by intros [= ->]|].
  destruct (Collector.exec a s) as [s'|] eqn:Ha; [|done]. intros Hx.
  eapply rtc_l; [|by apply IH]. by exists a.
Defined.

(** The numbers agree with the state. *)
Record counted (x : EventCollector * list Sample) : Prop := {
  ct_events : counter eventsCollected x.2 = length (added x.1);
  ct_batches : observations batchSizeHistogram x.2 =
    counter batchChannelBackpressure x.2 + length (ec_batchReadyCh x.1) + length (delivered x.1);
  ct_depth : (0 ≤ gauge eventQueueDepth x.2 ≤ Z.of_nat (size (ec_eventMap x.1)))%Z;
  ct_exact : counter batchChannelBackpressure x.2 = 0 →
    (∀ f b, pc_of f x.1 ≠ FReinsert b) ∧ gauge eventQueueDepth x.2 = Z.of_nat (size (ec_eventMap x.1))
}.

(** A step that records nothing and moves neither events nor batches. *)
Lemma counted_same s s' log :
  ec_eventMap s' = ec_eventMap s → added s' = added s →
  length (ec_batchReadyCh s') + length (delivered s') = length (ec_batchReadyCh s) + length (delivered s) →
  (∀ f b, pc_of f s' = FReinsert b → pc_of f s = FReinsert b) →
  counted (s, log) → counted (s', log ++ []).
Proof.
  intros Hm Ha Hl Hf [H1' H2' H3' H4']. simpl in *. rewrite app_nil_r. split; simpl; rewrite ?Hm, ?Ha.
  - done.
  - lia.
  - done.
  - intros Hz. destruct (H4' Hz) as [Hn ?]. split; [|done]. intros f b Hb%Hf. by apply (Hn f b).
Qed.

Lemma reinsert_size l (m : gmap NamespacedName EventInfo) : size m ≤ size (foldl reinsert_event m l).
Proof.
  revert m. induction l as [|x l IH]; intros m; simpl; [done|]. etrans; [|apply IH].
  assert (∀ m : gmap NamespacedName EventInfo, size m ≤ size (<[key_of x := x]> m)) as Hins.
  { intros m'. rewrite map_size_insert. destruct (m' !! key_of x); simpl; lia. }
  unfold reinsert_event. destruct (m !! key_of x); [case_bool_decide|]; auto.
Qed.

Lemma counted_send f b s log :
  pc_of f s = FSend b → counted (s, log) →
  counted (if bool_decide (length (ec_batchReadyCh s) < batchReadyCap)
           then Collector.set_pc f FIdle (set_ready (ec_batchReadyCh s ++ [b]) s)
           else Collector.set_pc f (FReinsert b) s,
    log ++ Observe batchSizeHistogram [] (Z.of_nat (length (sent_events b))) ::
      (if bool_decide (length (ec_batchReadyCh s) < batchReadyCap) then [] else [Inc batchChannelBackpressure []])).
Proof.
  intros Hpc [H1' H2' H3' H4']. simpl in H1', H2', H3', H4'.
  case_bool_decide as Hroom; split; cbn [fst snd]; read_log.
  - rewrite Nat.add_0_r. by destruct f.
  - rewrite H2'. destruct f; simpl; rewrite length_app; simpl; lia.
  - by destruct f.
  - intros Hz. rewrite Nat.add_0_r in Hz. destruct (H4' Hz) as [Hn Hg]. split; [|by destruct f].
    intros f' b' Hb'. apply (Hn f' b'). destruct f, f'; simpl in *; congruence.
  - rewrite !Nat.add_0_r. by destruct f.
  - rewrite H2'. destruct f; simpl; lia.
  - by destruct f.
  - lia.
Qed.

Lemma counted_step x y : recorded_step x y → counted x → counted y.
Proof.
  destruct x as [s log], y as [s' log']. intros (a & Ha & Hlog) Hx. simpl in Ha, Hlog. subst log'.
  destruct a as [event| | | | | | | | |f|f|f|]; cbn [Collector.exec collector_samples] in *.
  - unfold AddEvent_store in Ha. destruct (unlocked s); [|done]. injection Ha as <-.
    destruct Hx as [H1' H2' H3' H4']. split; simpl in *; read_log; rewrite ?length_app; simpl; [lia|lia|lia|].
    intros Hz. rewrite !Nat.add_0_r in Hz. destruct (H4' Hz) as [Hn _]. split; [|done].
    intros f b. by destruct f; [apply (Hn Loop)|apply (Hn Orchestrator)].
  - unfold AddEvent_Debounce in Ha. repeat case_match; simplify_eq. revert Hx. by apply counted_same; try intros [].
  - unfold AddEvent_trigger in Ha. repeat case_match; simplify_eq; revert Hx; by apply counted_same; try intros [].
  - unfold collector_debouncer in Ha. repeat case_match; simplify_eq. revert Hx. by apply counted_same; try intros [].
  - unfold collector_debouncer in Ha. repeat case_match; simplify_eq. revert Hx. by apply counted_same; try intros [].
  - unfold debouncer_callback in Ha. repeat case_match; simplify_eq. revert Hx. by apply counted_same; try intros [].
  - unfold loop_receive in Ha. repeat case_match; simplify_eq. revert Hx. by apply counted_same; try intros [].
  - unfold triggerReconcile in Ha. repeat case_match; simplify_eq; revert Hx; by apply counted_same; try intros [].
  - unfold orchestrator_flush in Ha. repeat case_match; simplify_eq. revert Hx. by apply counted_same; try intros [].
  - unfold collectEventsIntoBatch in Ha. destruct (pc_of f s) eqn:Hpc; try done. destruct (unlocked s); [|done].
    case_decide as Hsize; injection Ha as <-.
    + revert Hx. apply counted_same; try (by destruct f). intros f' b. by destruct f, f'.
    + destruct Hx as [H1' H2' H3' H4']. split; simpl in *; read_log.
      * rewrite Nat.add_0_r. by destruct f.
      * rewrite !Nat.add_0_r. by destruct f.
      * rewrite decide_True by done. by destruct f.
      * intros Hz. rewrite Nat.add_0_r in Hz. destruct (H4' Hz) as [Hn _].
        split; [|rewrite decide_True by done; by destruct f].
        intros f' b Hb. apply (Hn f' b). by destruct f, f'.
  - unfold sendBatch in Ha. destruct (pc_of f s) as [| |b|] eqn:Hpc; try done. injection Ha as <-. by apply counted_send.
  - unfold sendBatch_default in Ha. destruct (pc_of f s) as [| | |b] eqn:Hpc; try done. destruct (unlocked s); [|done].
    injection Ha as <-. destruct Hx as [H1' H2' H3' H4']. simpl in *. rewrite app_nil_r. split; simpl.
    + by destruct f.
    + by destruct f.
    + pose proof (reinsert_size (sent_events b) (ec_eventMap s)). destruct f; simpl; lia.
    + intros Hz. destruct (H4' Hz) as [Hn _]. by destruct (Hn f b).
  - unfold orchestrator_receive in Ha. destruct (pc_orchestrator s) eqn:Hpc, (ec_batchReadyCh s) eqn:Hr; try done.
    injection Ha as <-. revert Hx. apply counted_same; simpl; rewrite ?Hr; simpl; try done; lia.
Qed.

(** C34. What the collector's metrics say.  Along every run of the collector, the counter of events is the
    number of events added; every batch observed in the histogram of sizes is in the channel, was
    received, or is counted as backpressure; and the gauge of the queue's depth never exceeds the number
    of events pending, and equals it as long as no backpressure was counted. *)
Theorem collector_metrics (n : Z) (s : EventCollector) (log : list Sample) :
  rtc recorded_step (NewEventCollector n, []) (s, log) →
  counter eventsCollected log = length (added s) ∧
  observations batchSizeHistogram log =
    counter batchChannelBackpressure log + length (ec_batchReadyCh s) + length (delivered s) ∧
  (0 ≤ gauge eventQueueDepth log ≤ Z.of_nat (size (ec_eventMap s)))%Z ∧
  (counter batchChannelBackpressure log = 0 → gauge eventQueueDepth log = Z.of_nat (size (ec_eventMap s))).
Proof.
  assert (∀ x y, rtc recorded_step x y → counted x → counted y) as Hrtc.
  { induction 1; [done|]. eauto using counted_step. }
  intros [H1' H2' H3' H4']%Hrtc.
  - split_and!; [done|done|apply H3'..|]. intros Hz. apply (H4' Hz).
  - split; simpl; [done|done|done|]. intros _. split; [by intros []|done].
Qed.
End collector_counters.

(** ** The outcomes of batches *)

Definition batchesProcessed : Vector := mkVector "staging_batches_processed_total" [].
Definition batchesFailedTotal : Vector := mkVector "staging_batches_failed_total" [].
Definition batchesRetriedTotal : Vector := mkVector "staging_batches_retried_total" [].

Section batch_counters.
Context `{EventRecorderLaws W} `{SchemeInterface} `{ExpirableLRU} `{RangeOrder} `{ThirdPartyLaws}
  `{RateLimitingQueueLaws}.
Implicit Types (so : StageOrchestrator) (q : batchQueue) (b : Batch).

(** What [processBatchWithRetry] and [handlePermanentFailure] count, from the outcome of the batch. *)
Definition outcome_samples so q b (res : Outcome) : list Sample :=
  match res with
  | RErr _ =>
      if (bq_NumRequeues q (Some b) + 1 <=? so_maxRetries so)%Z then [] else [Inc batchesFailedTotal []]
  | ROk _ => [Inc batchesProcessed []]
  | RPanic => []
  end.

(** The life of a batch as in [attempts], with what is counted: the first attempt is the orchestrator's,
    the others are those of the retry goroutine, which counts a retry before each.  The last result is
    how the batch ended: processed, failed, or by a panic, unless the rounds were not enough. *)
Fixpoint counted_attempts so (retry : bool) (rounds : list Round) e q b (w : W)
    (log : list Sample) : nat * option bool * list Sample :=
  match rounds with
  | [] => (0, None, log)
  | r :: rounds =>
      let log := if retry then log ++ [Inc batchesRetriedTotal []] else log in
      let e := rd_engine r e in
      let q := rd_queue r q in
      let w := rd_world r w in
      let res := (processBatch so e (rd_now r) b w).2.1.2 in
      let '(w', (e', q', adding, out)) := processBatchWithRetry so e q (rd_now r) b w in
      let log := log ++ outcome_samples so q b res in
      match out, bq_batches q' !! b_ID b with
      | RPanic, _ => (1, Some false, log)
      | _, None => (1, Some true, log)
      | _, Some b' =>
          let '(n, fin, log) := counted_attempts so true rounds e' q' b' w' log in (S n, fin, log)
      end
  end.

(** One attempt: it is the last exactly when it is counted as processed or failed. *)
Lemma attempt_counted so e q now b w :
  stages_keep_ID (so_stages so) →
  let res := (processBatch so e now b w).2.1.2 in
  let '(_, (_, q', _, out)) := processBatchWithRetry so e q now b w in
  let ls := outcome_samples so q b res in
  match out, bq_batches q' !! b_ID b with
  | RPanic, _ => ls = []
  | _, None => ls = [Inc batchesProcessed []] ∨ ls = [Inc batchesFailedTotal []]
  | _, Some b' => ls = [] ∧ b_ID b' = b_ID b
  end.
Proof.
  intros Hkeep. pose proof (processBatchWithRetry_spec so e q now b w Hkeep) as Hs.
  pose proof (processBatch_ID so e now b w Hkeep) as Hid. cbv zeta in *.
  destruct (processBatch so e now b w) as [w1 [[[e1 b1] res] f]]. simpl in Hid |- *.
  destruct (processBatchWithRetry so e q now b w) as [w' [[[e' q'] adding] out]].
  destruct Hs as [Hs _]. unfold outcome_samples, bq_NumRequeues. destruct res as [[]|err|].
  - destruct Hs as (-> & _ & _ & -> & _). by left.
  - destruct Hs as [-> [(Hlt & _ & _ & -> & _)|(Hge & [-> _] & _)]].
    + destruct (Z.leb_spec (q_NumRequeues (bq_queue q) (b_ID b) + 1) (so_maxRetries so)); [done|lia].
    + destruct (Z.leb_spec (q_NumRequeues (bq_queue q) (b_ID b) + 1) (so_maxRetries so)); [lia|by right].
  - by destruct Hs as [-> _].
Qed.

Lemma counted_attempts_spec so retry rounds e q b w log n log' :
  stages_keep_ID (so_stages so) →
  counted_attempts so retry rounds e q b w log = (n, Some true, log') →
  counter batchesProcessed log' + counter batchesFailedTotal log' =
    counter batchesProcessed log + counter batchesFailedTotal log + 1 ∧
  counter batchesRetriedTotal log' + (if retry then 0 else 1) = counter batchesRetriedTotal log + n.
Proof.
  intros Hkeep. revert retry e q b w log n log'.
  induction rounds as [|r rounds IH]; intros retry e q b w log n log'; [done|]. cbn [counted_attempts].
  pose proof (attempt_counted so (rd_engine r e) (rd_queue r q) (rd_now r) b (rd_world r w) Hkeep) as Ha.
  cbv zeta in Ha |- *. revert Ha.
  generalize (outcome_samples so (rd_queue r q) b
    (processBatch so (rd_engine r e) (rd_now r) b (rd_world r w)).2.1.2). intros ls.
  destruct (processBatchWithRetry so _ _ _ b _) as [w' [[[e' q'] adding] out]].
  set (log1 := if retry then _ else log).
  assert (counter batchesProcessed log1 + counter batchesFailedTotal log1 =
      counter batchesProcessed log + counter batchesFailedTotal log ∧
    counter batchesRetriedTotal log1 = counter batchesRetriedTotal log + if retry then 1 else 0) as [Hc Hr].
  { subst log1. destruct retry; read_log; lia. }
  destruct out as [[]|err|]; [..|done].
  all: destruct (bq_batches q' !! b_ID b) as [b'|].
  all: try (intros Hls [= <- <-]; destruct Hls as [-> | ->]; read_log; destruct retry; lia).
  all: intros [-> _]; rewrite app_nil_r;
    destruct (counted_attempts so true rounds e' q' b' w' log1) as [[n1 fin] log2] eqn:Hrec;
    intros [= <- -> <-]; apply IH in Hrec as [? ?]; destruct retry; lia.
Qed.

(** The counters of batches add up.  Over the life of a batch that ends without a panic, whatever
    happens between its attempts, exactly one of the counters of processed and of failed batches goes
    up, by one, and the counter of retries by one less than the number of attempts. *)
Theorem batch_counters_add_up so rounds e q b w n log :
  stages_keep_ID (so_stages so) →
  counted_attempts so false rounds e q b w [] = (n, Some true, log) →
  counter batchesProcessed log + counter batchesFailedTotal log = 1 ∧ counter batchesRetriedTotal log + 1 = n.
Proof. intros Hkeep Hrun. by apply (counted_attempts_spec so false rounds) in Hrun. Qed.
End batch_counters.

(** ** The durations of a batch *)

(** Names the result of the computation that comes first, on the left or anywhere. *)
Ltac run_first := match goal with |- (let '(_, _) := ?m in _) = _ => destruct m end.
Ltac run_next := match goal with |- context [let '(_, _) := ?m in _] => destruct m end.

Definition stageDuration : Vector := mkVector "staging_stage_duration_seconds" ["stage"].
Definition batchProcessingDuration : Vector := mkVector "staging_batch_processing_duration_seconds" [].

Section durations.
Context `{Client W} `{!GCTrackerInterface W} `{!EventRecorder W} `{SchemeInterface} `{ExpirableLRU}
  `{RangeOrder} `{ThirdParty}.
Implicit Types (so : StageOrchestrator) (e : InMemoryEngine) (b : Batch) (w : W).

(** The stages whose [Execute] returns in the loop of [processBatch], in order; the duration of one that
    panics is not observed. *)
Fixpoint returned_stages so (stages : list Stage) e now b w : list string :=
  match stages with
  | [] => []
  | stage :: stages =>
      let '(w, (e, b, res)) := run_stages so [stage] e now b w in
      match res with
      | ROk _ => stage_Name stage :: returned_stages so stages e now b w
      | RErr _ => [stage_Name stage]
      | RPanic => []
      end
  end.

(** What [processBatch] records; the duration of the batch is observed by a deferred call. *)
Definition duration_samples so e now b w (duration : string → Z) (total : Z) : list Sample :=
  (if decide (b_Resources b = []) then []
   else (λ name, Observe stageDuration [name] (duration name)) <$> returned_stages so (so_stages so) e now b w) ++
  [Observe batchProcessingDuration [] total].

Lemma run_stages_split so stage stages e now b w :
  run_stages so (stage :: stages) e now b w =
  let '(w, (e, b, res)) := run_stages so [stage] e now b w in
  match res with ROk _ => run_stages so stages e now b w | _ => (w, (e, b, res)) end.
Proof.
  cbn [run_stages]. unfold bind, ret. repeat run_first.
  match goal with |- context [match ?p with (_, _) => _ end _] => destruct p as [[e1 b1] [[]|err|]] end; by repeat run_first.
Qed.

(** A stage that fails gives its name to the result. *)
Lemma run_stage_name so stage e now b w failedStage err :
  (run_stages so [stage] e now b w).2.2 = RErr (failedStage, err) → failedStage = stage_Name stage.
Proof.
  cbn [run_stages]. unfold bind, ret. repeat run_next.
  repeat case_match; repeat run_next; simpl; congruence.
Qed.

Lemma returned_stages_spec so stages e now b w :
  let names := returned_stages so stages e now b w in
  match (run_stages so stages e now b w).2.2 with
  | ROk _ => names = stage_Name <$> stages
  | RErr (failedStage, _) => ∃ before stage after, stages = before ++ stage :: after ∧
      names = stage_Name <$> (before ++ [stage]) ∧ failedStage = stage_Name stage
  | RPanic => ∃ before stage after, stages = before ++ stage :: after ∧ names = stage_Name <$> before
  end.
Proof.
  cbv zeta. revert e b w. induction stages as [|stage stages IH]; intros e b w; [done|].
  rewrite run_stages_split. cbn [returned_stages]. pose proof (run_stage_name so stage e now b w) as Hname.
  destruct (run_stages so [stage] e now b w) as [w1 [[e1 b1] res]]. simpl in Hname. destruct res as [[]|[name err]|]; simpl.
  - specialize (IH e1 b1 w1). destruct (run_stages so stages e1 now b1 w1).2.2 as [[]|[name err]|].
    + by rewrite IH.
    + destruct IH as (before & stage' & after & -> & -> & ->). by exists (stage :: before), stage', after.
    + destruct IH as (before & stage' & after & -> & ->). by exists (stage :: before), stage', after.
  - exists [], stage, stages. split_and!; [done|done|by eapply Hname].
  - by exists [], stage, stages.
Qed.

(** What the histograms of the stages say.  A batch is observed once, however it ends; the stages observed
    are all of them, in their order, when it succeeds, and those up to the one its error names when it
    fails. *)
Theorem stage_durations so e now b w duration total :
  b_Resources b ≠ [] →
  let log := duration_samples so e now b w duration total in
  observations batchProcessingDuration log = 1 ∧
  match (processBatch so e now b w).2.1.2 with
  | ROk _ => observations stageDuration log = length (so_stages so)
  | RErr err => ∃ before stage after cause, so_stages so = before ++ stage :: after ∧
      observations stageDuration log = S (length before) ∧
      err = ErrWrap ("stage " +:+ stage_Name stage +:+ " failed") cause
  | RPanic => observations stageDuration log < length (so_stages so)
  end.
Proof.
  intros Hne. cbv zeta. unfold duration_samples. rewrite decide_False by done.
  assert (∀ names : list string, (observations batchProcessingDuration
      (((λ name, Observe stageDuration [name] (duration name)) <$> names) ++ [Observe batchProcessingDuration [] total]) = 1) ∧
    observations stageDuration
      (((λ name, Observe stageDuration [name] (duration name)) <$> names) ++ [Observe batchProcessingDuration [] total]) =
      length names) as Hobs.
  { induction names as [|name names [IH1 IH2]]; [by vm_compute|]. unfold observations in *. rewrite fmap_cons, <-!app_comm_cons.
    rewrite !filter_cons. cbn [is_observe]. rewrite decide_False by (by vm_compute). rewrite decide_True by (by vm_compute).
    simpl. by rewrite IH1, IH2. }
  destruct (Hobs (returned_stages so (so_stages so) e now b w)) as [-> ->]. split; [done|].
  unfold processBatch. rewrite decide_False by done. unfold bind, ret.
  pose proof (returned_stages_spec so (so_stages so) e now b w) as Hs. cbv zeta in Hs.
  destruct (run_stages so (so_stages so) e now b w) as [w1 [[e1 b1] res]]. simpl in Hs. destruct res as [[]|[name err]|]; simpl.
  - rewrite Hs. repeat run_next. by rewrite length_fmap.
  - destruct Hs as (before & stage & after & Heq & -> & ->).
    repeat run_next. simpl. exists before, stage, after, err. rewrite length_fmap, length_app. simpl. split_and!; [done|lia|done].
  - destruct Hs as (before & stage & after & -> & ->). rewrite length_fmap, length_app. simpl. lia.
Qed.
End durations.

(** ** The state syncer *)

Definition stateRebuildsTotal : Vector := mkVector "state_sync_rebuilds_total" [].
Definition stateRebuildFailuresTotal : Vector := mkVector "state_sync_rebuild_failures_total" [].
Definition stateRebuildDuration : Vector := mkVector "state_sync_rebuild_duration_seconds" [].

Section sync_counters.
Context `{Client W} `{!GCTrackerInterface W} `{SchemeInterface} `{ExpirableLRU} `{RangeOrder} `{ThirdParty}.

(** What the end of a rebuild that took [duration] records. *)
Definition rebuild_samples (duration : Z) (a : StateSync.Action W) (s : StateSyncer) : list Sample :=
  match a, s_pc s with
  | ActSwap, Swapping _ (inl _) => [Inc stateRebuildFailuresTotal []]
  | ActSwap, Swapping _ (inr _) => [Observe stateRebuildDuration [] duration; Inc stateRebuildsTotal []]
  | _, _ => []
  end.

Definition recorded_sync (x y : StateSyncer * list Sample) : Prop :=
  ∃ a duration, StateSync.exec a x.1 = Some y.1 ∧ y.2 = x.2 ++ rebuild_samples duration a x.1.

Record sync_counted (x : StateSyncer * list Sample) : Prop := {
  sc_synced : s_synced x.1 = negb (counter stateRebuildsTotal x.2 =? 0);
  sc_observed : observations stateRebuildDuration x.2 = counter stateRebuildsTotal x.2;
  sc_initial : match s_pc x.1 with
    | Reading true | Swapping true _ => counter stateRebuildsTotal x.2 = 0 ∧ counter stateRebuildFailuresTotal x.2 = 0
    | StartFailed => counter stateRebuildsTotal x.2 = 0 ∧ counter stateRebuildFailuresTotal x.2 = 1
    | _ => counter stateRebuildsTotal x.2 ≠ 0
    end
}.

Lemma on_debouncer_pc f (s s' : StateSyncer) :
  on_debouncer f s = Some s' → s_pc s' = s_pc s ∧ s_synced s' = s_synced s.
Proof. by intros (d & _ & ->)%on_debouncer_Some. Qed.

Lemma sync_counted_same (s s' : StateSyncer) log :
  s_pc s' = s_pc s → s_synced s' = s_synced s → sync_counted (s, log) → sync_counted (s', log ++ []).
Proof. intros Hpc Hs [H1' H2' H3']. rewrite app_nil_r. by split; simpl in *; rewrite ?Hpc, ?Hs. Qed.

(** The loop goes on after the initial rebuild. *)
Lemma sync_counted_loop (s s' : StateSyncer) log :
  counter stateRebuildsTotal log ≠ 0 →
  match s_pc s' with Looping | Debouncing | Stopped | Reading false | Swapping false _ => True | _ => False end →
  s_synced s' = s_synced s → sync_counted (s, log) → sync_counted (s', log ++ []).
Proof.
  intros Hz Hpc Hs [H1' H2' H3']. rewrite app_nil_r. split; simpl in *; rewrite ?Hs; [done|done|].
  by destruct (s_pc s') as [[]|[]| | | |].
Qed.

Lemma sync_counted_step x y : recorded_sync x y → sync_counted x → sync_counted y.
Proof.
  destruct x as [s log], y as [s' log']. intros (a & duration & Ha & Hlog) Hx. simpl in Ha, Hlog. subst log'.
  assert (s_pc s ≠ Reading true → (∀ res, s_pc s ≠ Swapping true res) → s_pc s ≠ StartFailed →
    counter stateRebuildsTotal log ≠ 0) as Hz.
  { intros Hn1 Hn2 Hn3. pose proof (sc_initial _ Hx) as H3'. simpl in H3'.
    destruct (s_pc s) as [[]|[] res| | | |]; try done; by destruct (Hn2 res). }
  destruct a; cbn [StateSync.exec rebuild_samples] in *.
  - injection Ha as <-. by apply (sync_counted_same s).
  - destruct (s_queued s); [|done]. injection Ha as <-. unfold StateSyncReconciler_Reconcile, Trigger. simpl.
    destruct (s_triggerCh s); by apply (sync_counted_same s).
  - destruct (s_pc s) as [initial| | | | |] eqn:Hpc; try done. injection Ha as <-. destruct initial.
    + destruct Hx as [H1' H2' H3']. simpl in *. rewrite Hpc in H3'. rewrite app_nil_r. by split.
    + apply (sync_counted_loop s); try done. by apply Hz.
  - destruct (s_pc s) as [|initial res| | | |] eqn:Hpc; try done. injection Ha as <-.
    destruct Hx as [H1' H2' H3']. simpl in *. rewrite Hpc in H3'. unfold rebuild_swap.
    destruct res as [err|state]; split; simpl; read_log; rewrite ?Nat.add_0_r.
    + by destruct initial.
    + by destruct initial.
    + destruct initial; simpl; [|done]. destruct H3' as [-> ->]. done.
    + destruct (counter stateRebuildsTotal log); [done|]. by rewrite Nat.add_1_r.
    + by rewrite H2'.
    + lia.
  - destruct (s_pc s) eqn:Hpc; try done. destruct (s_triggerCh s); [|done]. injection Ha as <-.
    apply (sync_counted_loop s); try done. by apply Hz.
  - destruct (s_pc s) eqn:Hpc; try done. apply on_debouncer_pc in Ha as [Hpc' Hs'].
    apply (sync_counted_loop s); [by apply Hz|by rewrite Hpc'|by rewrite Hs'|done].
  - destruct (s_pc s) eqn:Hpc; try done. destruct (s_rebuildCh s); [|done]. injection Ha as <-.
    apply (sync_counted_loop s); try done. by apply Hz.
  - destruct (s_pc s) eqn:Hpc; try done. destruct (s_elected s); [|done]. injection Ha as <-.
    apply (sync_counted_loop s); try done. by apply Hz.
  - apply on_debouncer_pc in Ha as [? ?]. by apply (sync_counted_same s).
  - apply on_debouncer_pc in Ha as [? ?]. by apply (sync_counted_same s).
  - destruct (on_debouncer debouncer_return s) as [s1|] eqn:Hd; [|done]. simpl in Ha. injection Ha as <-.
    apply on_debouncer_pc in Hd as [? ?]. unfold request_rebuild.
    destruct (s_rebuildCh s1); by apply (sync_counted_same s).
  - destruct (s_elected s); [done|]. injection Ha as <-. by apply (sync_counted_same s).
  - destruct (s_elected s); [|done]. injection Ha as <-. by apply (sync_counted_same s).
Qed.

(** A replica reports that it is ready exactly when it has counted a rebuild; every rebuild counted
    has its duration in the histogram; and when [Start] has returned an error, one failed rebuild and no
    other was counted. *)
Theorem rebuild_metrics (engine : InMemoryEngine) (w : W) (s : StateSyncer) (log : list Sample) :
  rtc recorded_sync (NewStateSyncer engine w, []) (s, log) →
  (ReadyzCheck s = None ↔ counter stateRebuildsTotal log ≠ 0) ∧
  observations stateRebuildDuration log = counter stateRebuildsTotal log ∧
  (s_pc s = StartFailed → counter stateRebuildsTotal log = 0 ∧ counter stateRebuildFailuresTotal log = 1).
Proof.
  assert (∀ x y, rtc recorded_sync x y → sync_counted x → sync_counted y) as Hrtc.
  { induction 1; [done|]. eauto using sync_counted_step. }
  intros [H1' H2' H3']%Hrtc; [|by split]. simpl in *. split_and!.
  - unfold ReadyzCheck, HasSynced. rewrite H1'. destruct (counter stateRebuildsTotal log); by split.
  - done.
  - intros Hpc. by rewrite Hpc in H3'.
Qed.
End sync_counters.

(** ** Examples *)

Module CounterExamples.
Import InMemory ResourceExamples PipelineExamples CollectorExamples RetryExamples.
#[local] Existing Instance range_forward.
#[local] Existing Instance reference_third_party.
#[local] Existing Instance reference_third_party_laws.
#[local] Existing Instance reference_lru.
#[local] Existing Instance reference_lru_laws.
#[local] Existing Instance reference_queue.
#[local] Existing Instance reference_queue_laws.

Definition logged (l : list Collector.Action) : EventCollector * list Sample :=
  default (NewEventCollector 100, []) (recorded_run l (NewEventCollector 100) []).

Lemma logged_rtc l :
  recorded_run l (NewEventCollector 100) [] ≠ None → rtc recorded_step (NewEventCollector 100, []) (logged l).
Proof.
  unfold logged. destruct (recorded_run l _ _) as [x|] eqn:Hx; [|done]. intros _. by apply (recorded_run_rtc l).
Defined.

(** Eleven batches of one event: the last does not fit and goes back. *)
Definition eleven : list Collector.Action := mjoin (replicate 11 (one_batch app_event)) ++ [ActReinsert Loop].

Lemma collector_metrics_witness :
  counter eventsCollected (logged eleven).2 = 11 ∧ observations batchSizeHistogram (logged eleven).2 = 11.
Proof.
  assert (rtc recorded_step (NewEventCollector 100, []) (logged eleven)) as Hrun by (apply logged_rtc; by vm_compute).
  rewrite (surjective_pairing (logged eleven)) in Hrun.
  destruct (collector_metrics 100 _ _ Hrun) as (He & Hb & _).
  assert (length (added (logged eleven).1) = 11) as Ha by by vm_compute.
  assert (counter batchChannelBackpressure (logged eleven).2 + length (ec_batchReadyCh (logged eleven).1) +
    length (delivered (logged eleven).1) = 11) as Hc by by vm_compute.
  split; [exact (eq_trans He Ha)|exact (eq_trans Hb Hc)].
Defined.

(** The gauge of the queue's depth is not set when events go back into the map: a dashboard shows no
    pending event while one waits, until the next event comes in. *)
Theorem queue_depth_stale :
  rtc recorded_step (NewEventCollector 100, []) (logged eleven) ∧
  gauge eventQueueDepth (logged eleven).2 = 0%Z ∧ size (ec_eventMap (logged eleven).1) = 1 ∧
  counter batchChannelBackpressure (logged eleven).2 = 1.
Proof. split; [apply logged_rtc|split_and!]; by vm_compute. Qed.

Definition four_counted :=
  counted_attempts orchestrator false (replicate 4 quiet) engine0 NewBatchQueue batch0 no_agents [].

Lemma batch_counters_add_up_witness :
  counter batchesProcessed four_counted.2 + counter batchesFailedTotal four_counted.2 = 1 ∧
  counter batchesRetriedTotal four_counted.2 + 1 = 4.
Proof.
  assert (four_counted.1 = (4, Some true)) as Hf by by vm_compute. unfold four_counted in *.
  destruct (counted_attempts _ _ _ _ _ _ _ _) as [[n fin] log] eqn:Hrun. simpl in Hf |- *. injection Hf as -> ->.
  exact (batch_counters_add_up orchestrator (replicate 4 quiet) engine0 NewBatchQueue batch0 no_agents 4 log
    orchestrator_keeps_ID Hrun).
Defined.

(** Three retries, and then the batch is counted as failed. *)
Example four_counted_log :
  four_counted.2 = [Inc batchesRetriedTotal []; Inc batchesRetriedTotal []; Inc batchesRetriedTotal [];
    Inc batchesFailedTotal []].
Proof. by vm_compute. Qed.

(** The initial rebuild of a replica. *)
Definition rebuilt : StateSyncer (W := World) :=
  default (NewStateSyncer engine0 (cluster [app_wsa] []))
    (StateSync.exec_all [ActRead; ActSwap] (NewStateSyncer engine0 (cluster [app_wsa] []))).
Definition rebuilt_log : list Sample := [Observe stateRebuildDuration [] 5; Inc stateRebuildsTotal []].

Lemma rebuild_metrics_witness : ReadyzCheck rebuilt = None.
Proof.
  apply (rebuild_metrics engine0 (cluster [app_wsa] []) rebuilt rebuilt_log); [|by vm_compute].
  apply (rtc_l _ _ (rebuild_read true (NewStateSyncer engine0 (cluster [app_wsa] [])), [])).
  - by exists ActRead, 0%Z.
  - apply rtc_once. by exists ActSwap, 5%Z.
Defined.
End CounterExamples.
