(* ===== verification/Registry.v ===== *)
(** * The registration of the metrics

    Which of the metrics of the program a scrape can see.  The package variables of the program create
    them with [promauto], which registers with the default registry of the Prometheus client
    (src/internal/reconciliation, src/internal/webhook/v1), or register them in the [init] function of
    src/internal/metrics/metrics.go, and src/cmd/main.go the collector of [Metrics], with the registry of
    controller-runtime, which is the one the metrics server of the manager serves. *)

From Stdlib Require Import ZArith.
From S2P Require Import Prelude GoLib Api Scopes ServiceAccounts Access Cluster Resources Engine Webhooks Pipeline Debouncer Collector Retry StateSync Controllers Metrics Telemetry Counters.

(** ** The registries *)

#[export] Instance Desc_eq_dec : EqDecision Desc.
Proof. solve_decision. Defined.

(** The descriptors known to [prometheus.DefaultRegisterer] and to [metrics.Registry] of
    controller-runtime. *)
Record Registries := mkRegistries { DefaultRegisterer : list Desc; ControllerRegistry : list Desc }.

(** [MustRegister] of a registry that knows the descriptors [known]: a name that is known already, or
    occurs twice, is a panic, [None]. *)
Fixpoint MustRegister (descs known : list Desc) : option (list Desc) :=
  match descs with
  | [] => Some known
  | d :: descs =>
      if decide (desc_fqName d ∈ desc_fqName <$> known) then None else MustRegister descs (known ++ [d])
  end.

(** A registration, with the registry it is for; it may panic. *)
Inductive Registration := WithDefault (descs : list Desc) | WithController (descs : list Desc).

Definition perform (f : Registration) (r : Registries) : option Registries :=
  match f with
  | WithDefault descs => known ← MustRegister descs (DefaultRegisterer r); Some (mkRegistries known (ControllerRegistry r))
  | WithController descs =>
      known ← MustRegister descs (ControllerRegistry r); Some (mkRegistries (DefaultRegisterer r) known)
  end.

Fixpoint perform_all (l : list Registration) (r : Registries) : option Registries :=
  match l with [] => Some r | f :: l => r ← perform f r; perform_all l r end.

Definition describe (v : Vector) (help : string) : Desc := mkDesc (vec_Name v) help (vec_Labels v).

(** ** The registrations of the program *)

(** The collector of build information is the Prometheus client's; of its descriptor the code relies on
    the name and the labels. *)
Definition buildInfoCollector : Desc := mkDesc "go_build_info" "" ["path"; "version"; "checksum"].

Definition metrics_descs : list Desc := [
  describe requestsTotal "Total number of requests processed with scope matching status";
  describe reconciliationDurationSeconds "Time taken to complete a reconciliation request";
  describe finalizerStuckTotal "Total number of resources detected as stuck in deletion";
  buildInfoCollector;
  describe opc "Context about the controller is running"
].

Definition metrics_init : Registration := WithController metrics_descs.

Definition collector_descs : list Desc := [
  describe eventsCollected "Total number of reconciliation events collected";
  describe batchSizeHistogram "Size of reconciliation batches processed";
  describe eventQueueDepth "Current number of events pending in the collector";
  describe batchChannelBackpressure "Times batch channel was full (backpressure)"
].

Definition orchestrator_descs : list Desc := [
  describe stageDuration "Duration of each reconciliation stage";
  describe batchProcessingDuration "Total duration to process a batch through all stages";
  describe batchesProcessed "Total number of batches processed";
  describe batchesFailedTotal "Total number of batches that failed during processing";
  describe batchesRetriedTotal "Total number of batch retry attempts"
].

Definition syncer_descs : list Desc := [
  describe stateRebuildsTotal "Total number of in-memory state rebuilds performed by this replica";
  describe stateRebuildFailuresTotal "Total number of in-memory state rebuilds that failed on this replica";
  describe stateRebuildDuration "Duration of an in-memory state rebuild"
].

Definition webhook_descs : list Desc := [
  describe podWebhookDuration "Duration of pod mutation webhook processing"
].

(** What [promauto] creates, one metric at a time. *)
Definition promauto_descs : list Desc := collector_descs ++ orchestrator_descs ++ syncer_descs ++ webhook_descs.

(** The registrations before [main]: the language fixes their order only in part. *)
Definition initial_registrations : list Registration :=
  ((λ d, WithDefault [d]) <$> promauto_descs) ++ [metrics_init].

(** [main] registers the collector of a scrape. *)
Definition main_registration : Registration := WithController NewOctopusMetricsCollector.

(** ** What is served *)

(** The metrics server of the manager serves the registry of controller-runtime. *)
Definition served (r : Registries) (v : Vector) : Prop := vec_Name v ∈ desc_fqName <$> ControllerRegistry r.

Definition fresh (descs known : list Desc) : Prop :=
  NoDup (desc_fqName <$> descs) ∧ ∀ d, d ∈ descs → desc_fqName d ∉ desc_fqName <$> known.

Lemma MustRegister_fresh descs known : fresh descs known → MustRegister descs known = Some (known ++ descs).
Proof.
  unfold fresh. revert known. induction descs as [|d descs IH]; intros known; simpl; [by rewrite app_nil_r|].
  intros [[Hd Hnd]%NoDup_cons Hfresh]. rewrite decide_False by (apply Hfresh, list_elem_of_here).
  rewrite IH; [by rewrite <-app_assoc|]. split; [done|]. intros d' Hd'. rewrite fmap_app, elem_of_app.
  intros [?|Heq%list_elem_of_singleton]; [by apply (Hfresh d'); [apply list_elem_of_further|]|].
  apply Hd. rewrite <-Heq. by apply list_elem_of_fmap_2.
Qed.

Lemma fresh_app descs descs' known : fresh (descs ++ descs') known → fresh descs known ∧ fresh descs' (known ++ descs).
Proof.
  unfold fresh. rewrite fmap_app, NoDup_app. intros [(Hnd & Hdis & Hnd') Hfresh]. split; split; [done| |done|].
  - intros d Hd. apply Hfresh. set_solver.
  - intros d Hd. rewrite fmap_app, elem_of_app. intros [?|Hin].
    + by apply (Hfresh d); [set_solver|].
    + by apply (Hdis _ Hin), list_elem_of_fmap_2.
Qed.

Definition for_default (f : Registration) : list Desc := match f with WithDefault ds => ds | _ => [] end.
Definition for_controller (f : Registration) : list Desc := match f with WithController ds => ds | _ => [] end.

(** Registrations of fresh names all succeed, whatever their order. *)
Lemma perform_all_fresh l r :
  fresh (l ≫= for_default) (DefaultRegisterer r) → fresh (l ≫= for_controller) (ControllerRegistry r) →
  perform_all l r =
    Some (mkRegistries (DefaultRegisterer r ++ (l ≫= for_default)) (ControllerRegistry r ++ (l ≫= for_controller))).
Proof.
  revert r. induction l as [|f l IH]; intros r; simpl.
  { intros _ _. rewrite !app_nil_r. by destruct r. }
  destruct f as [ds|ds]; simpl; intros Hd Hc.
  - apply fresh_app in Hd as [Hd Hd']. rewrite (MustRegister_fresh _ _ Hd). simpl. rewrite IH by done. simpl.
    by rewrite <-app_assoc.
  - apply fresh_app in Hc as [Hc Hc']. rewrite (MustRegister_fresh _ _ Hc). simpl. rewrite IH by done. simpl.
    by rewrite <-app_assoc.
Qed.

Lemma fresh_perm descs descs' known : descs ≡ₚ descs' → fresh descs known → fresh descs' known.
Proof. intros Hp [Hnd Hf]. split; [by rewrite <-Hp|]. intros d. rewrite <-Hp. apply Hf. Qed.

Lemma all_default inits :
  inits ≡ₚ initial_registrations → (inits ++ [main_registration]) ≫= for_default ≡ₚ promauto_descs.
Proof. by intros ->. Qed.
Lemma all_controller inits :
  inits ≡ₚ initial_registrations →
  (inits ++ [main_registration]) ≫= for_controller ≡ₚ metrics_descs ++ NewOctopusMetricsCollector.
Proof. by intros ->. Qed.

(** The names the program gives to metrics. *)
Definition program_names : list string := desc_fqName <$> (promauto_descs ++ metrics_descs ++ NewOctopusMetricsCollector).

Lemma program_fresh descs known :
  descs ⊆+ promauto_descs ++ metrics_descs ++ NewOctopusMetricsCollector →
  (∀ d, d ∈ known → desc_fqName d ∉ program_names) → fresh descs known.
Proof.
  intros Hsub Hlib. split.
  - assert (NoDup program_names) as Hnd by (apply (bool_decide_unpack _); by vm_compute).
    apply (fmap_submseteq desc_fqName), submseteq_Permutation in Hsub as [rest Hrest].
    unfold program_names in Hnd. rewrite Hrest in Hnd. by apply NoDup_app in Hnd as [? _].
  - intros d Hd (d' & Heq & Hd')%list_elem_of_fmap. apply (Hlib d' Hd'). rewrite <-Heq.
    apply list_elem_of_fmap_2. by eapply elem_of_submseteq.
Qed.

(** C33. No registration of the program panics, in any order the language allows, as long as the libraries
    use none of its names; and then the metrics server serves the vectors of metrics.go and the
    collector of the cluster's objects, and no metric that [promauto] created: neither those of the
    batches and the state syncer nor the duration of the pod webhook. *)
Theorem registrations_correct (library : Registries) (inits : list Registration) :
  inits ≡ₚ initial_registrations →
  (∀ d, d ∈ DefaultRegisterer library ++ ControllerRegistry library → desc_fqName d ∉ program_names) →
  ∃ r, perform_all (inits ++ [main_registration]) library = Some r ∧
    (∀ d, d ∈ ControllerRegistry r ↔
      d ∈ ControllerRegistry library ∨ d ∈ metrics_descs ∨ d ∈ NewOctopusMetricsCollector) ∧
    Forall (served r) [requestsTotal; reconciliationDurationSeconds; finalizerStuckTotal; opc] ∧
    Forall (λ v, ¬ served r v)
      [eventsCollected; batchSizeHistogram; eventQueueDepth; batchChannelBackpressure; stageDuration;
       batchProcessingDuration; batchesProcessed; batchesFailedTotal; batchesRetriedTotal; stateRebuildsTotal;
       stateRebuildFailuresTotal; stateRebuildDuration; podWebhookDuration].
Proof.
  intros Hperm Hlib. pose proof (all_default _ Hperm) as Hd. pose proof (all_controller _ Hperm) as Hc.
  rewrite perform_all_fresh.
  2: { apply (fresh_perm promauto_descs); [done|]. apply program_fresh; [apply submseteq_inserts_r; done|].
       intros d ?. apply Hlib, elem_of_app. auto. }
  2: { apply (fresh_perm (metrics_descs ++ NewOctopusMetricsCollector)); [done|].
       apply program_fresh; [apply submseteq_inserts_l; done|]. intros d ?. apply Hlib, elem_of_app. auto. }
  eexists. split; [done|]. simpl.
  assert (∀ d, d ∈ ControllerRegistry library ++ ((inits ++ [main_registration]) ≫= for_controller) ↔
    d ∈ ControllerRegistry library ∨ d ∈ metrics_descs ∨ d ∈ NewOctopusMetricsCollector) as Hserved.
  { intros d. by rewrite Hc, !elem_of_app. }
  split; [exact Hserved|]. unfold served. simpl. split.
  - apply Forall_forall. intros v Hv. apply list_elem_of_fmap.
    assert (vec_Name v ∈ desc_fqName <$> metrics_descs) as (d & ? & ?)%list_elem_of_fmap.
    { revert v Hv. apply Forall_forall. apply (bool_decide_unpack _). by vm_compute. }
    exists d. by rewrite Hserved; auto.
  - apply Forall_forall. intros v Hv (d & Heq & Hin)%list_elem_of_fmap. apply Hserved in Hin as [Hin|Hin].
    + apply (Hlib d); [apply elem_of_app; auto|]. rewrite <-Heq. clear -Hv. revert v Hv. apply Forall_forall.
      apply (bool_decide_unpack _). by vm_compute.
    + assert (vec_Name v ∉ desc_fqName <$> (metrics_descs ++ NewOctopusMetricsCollector)) as Hno.
      { clear -Hv. revert v Hv. apply Forall_forall. apply (bool_decide_unpack _). by vm_compute. }
      apply Hno. rewrite Heq. apply list_elem_of_fmap_2. by apply elem_of_app.
Qed.

(** ** A run *)

Module RegistryExamples.
(** Both registries come with collectors of their own. *)
Definition library0 : Registries :=
  mkRegistries [mkDesc "go_goroutines" "Number of goroutines that currently exist." []]
    [mkDesc "go_goroutines" "Number of goroutines that currently exist." [];
     mkDesc "controller_runtime_reconcile_total" "Total number of reconciliations per controller" ["controller"; "result"]].

(** The webhook's package is initialised first. *)
Definition inits0 : list Registration := reverse initial_registrations.

Lemma registrations_correct_witness :
  ∃ r, perform_all (inits0 ++ [main_registration]) library0 = Some r ∧ served r requestsTotal ∧ ¬ served r batchesFailedTotal.
Proof.
  destruct (registrations_correct library0 inits0 (reverse_Permutation _)) as (r & Hr & _ & Hyes & Hno).
  { apply Forall_forall. apply (bool_decide_unpack _). by vm_compute. }
  exists r. split; [exact Hr|]. split; [by inversion Hyes|].
  rewrite Forall_forall in Hno. apply Hno. apply (bool_decide_unpack _). by vm_compute.
Defined.

(** A second registration of one of the vectors would end the process. *)
Example registered_twice : perform_all (initial_registrations ++ [metrics_init]) library0 = None.
Proof. by vm_compute. Qed.
End RegistryExamples.
