(* ===== verification/Setup.v ===== *)
(** * Process set-up

    What src/cmd/main.go does before the manager runs: the options of the two TLS servers, the
    namespaces the controller works in, the choice of the engine, and the order in which the parts
    are given to the manager, with the pointers each is given and the exits on errors. *)

From Stdlib Require Import Ascii ZArith.
From S2P Require Import Prelude GoLib Api Scopes ServiceAccounts Access Cluster Resources Engine Webhooks Pipeline Debouncer Collector Retry StateSync Controllers.

(** ** The standard library *)

(** [strings.Split(s, sep)] with a separator of one byte. *)
Fixpoint strings_Split (s : string) (sep : ascii) : list string :=
  match s with
  | EmptyString => [""]
  | String a s =>
      match strings_Split s sep with
      | part :: rest => if decide (a = sep) then "" :: part :: rest else String a part :: rest
      | [] => []
      end
  end.

(** The environment of the process, the compiler of regular expressions and the parser of
    durations. *)
Class GoRuntime := {
  Getenv : string → string;
  regexp_Compile : string → Or Regexp;
  time_ParseDuration : string → Or Z;
  filepath_Join : string → string → string
}.

Definition minute : Z := 60000000000.
Definition second : Z := 1000000000.

(** ** Flags *)

(** The variables the flags are parsed into; durations are in nanoseconds. *)
Record Flags := mkFlags {
  metricsAddr : string;
  probeAddr : string;
  enableLeaderElection : bool;
  secureMetrics : bool;
  webhookCertPath : string;
  webhookCertName : string;
  webhookCertKey : string;
  metricsCertPath : string;
  metricsCertName : string;
  metricsCertKey : string;
  enableHTTP2 : bool;
  batchDebounceInterval : Z;
  batchMaxSize : Z;
  stageTimeout : Z;
  cacheSyncPeriod : Z
}.

(** Their values when no flag is given. *)
Definition default_flags : Flags := {|
  metricsAddr := "0";
  probeAddr := ":8081";
  enableLeaderElection := false;
  secureMetrics := false;
  webhookCertPath := "";
  webhookCertName := "tls.crt";
  webhookCertKey := "tls.key";
  metricsCertPath := "";
  metricsCertName := "tls.crt";
  metricsCertKey := "tls.key";
  enableHTTP2 := false;
  batchDebounceInterval := 2 * second;
  batchMaxSize := 500;
  stageTimeout := 2 * minute;
  cacheSyncPeriod := 600 * minute
|}.

(** ** TLS options

    The options of a server are a slice of functions on its configuration.  Both slices start as the
    same one, so the arrays behind them are modelled: an array is a list of its capacity, and
    [append] writes into the array while there is room and allocates one of [grow capacity]
    otherwise. *)
Inductive Server := WebhookServer | MetricsServer.

Record TLSConfig := mkTLSConfig { NextProtos : option (list string); GetCertificate : option Server }.

Inductive TLSOpt :=
| disableHTTP2
| CertificateOf (watcher : Server).

Definition apply_TLSOpt (c : TLSConfig) (o : TLSOpt) : TLSConfig :=
  match o with
  | disableHTTP2 => mkTLSConfig (Some ["http/1.1"]) (GetCertificate c)
  | CertificateOf watcher => mkTLSConfig (NextProtos c) (Some watcher)
  end.

Abbreviation TLSArrays := (list (list (option TLSOpt))).

Record TLSSlice := mkTLSSlice { ts_array : nat; ts_len : nat }.

Section append.
Variable grow : nat → nat.

Definition append (s : option TLSSlice) (x : TLSOpt) : M TLSArrays (option TLSSlice) := λ arrays,
  let '(array, len) := match s with None => ([], 0) | Some s => (default [] (arrays !! ts_array s), ts_len s) end in
  match s with
  | Some s =>
      if decide (len < length array)
      then (<[ts_array s := <[len := Some x]> array]> arrays, Some (mkTLSSlice (ts_array s) (S len)))
      else (arrays ++ [take len array ++ Some x :: replicate (grow (length array) - S len) None],
            Some (mkTLSSlice (length arrays) (S len)))
  | None => (arrays ++ [Some x :: replicate (grow 0 - 1) None], Some (mkTLSSlice (length arrays) 1))
  end.
End append.

Definition options (arrays : TLSArrays) (s : option TLSSlice) : list TLSOpt :=
  match s with
  | None => []
  | Some s => omap id (take (ts_len s) (default [] (arrays !! ts_array s)))
  end.

(** The configuration a server starts with. *)
Definition server_config (arrays : TLSArrays) (s : option TLSSlice) : TLSConfig :=
  foldl apply_TLSOpt (mkTLSConfig None None) (options arrays s).

(** ** Calls of the manager *)

Record ManagerOptions := mkManagerOptions {
  mo_MetricsBindAddress : string;
  mo_SecureServing : bool;
  mo_FilterProvider : bool;
  mo_HealthProbeBindAddress : string;
  mo_LeaderElection : bool;
  mo_LeaderElectionID : string;
  mo_SyncPeriod : Z;
  mo_LeaderElectionReleaseOnCancel : bool
}.

(** A variable of [main], by its name.  [main] runs once, so a name is one address. *)
Abbreviation Addr := string (only parsing).

(** The stages [main] makes, with the pointers they are given. *)
Inductive StageValue :=
| NewPlanningStage (engine : Addr)
| NewValidationStage
| NewExecutionStage (engine : Addr).

Inductive Runnable :=
| RunStageOrchestrator (stages : list StageValue) (eventCollector engine : Addr) (stageTimeout : Z)
| RunStateSyncer (stateSyncer : Addr)
| RunMetricsReporter
| RunCertWatcher (watcher : Server).

Inductive Controller :=
| StateSync (Syncer : Addr)
| WorkloadServiceAccountController (Engine EventCollector gcTracker : Addr)
| ClusterWorkloadServiceAccountController (Engine EventCollector gcTracker : Addr).

Inductive Webhook :=
| WorkloadServiceAccountWebhook
| PodWebhook (engine : Addr).

Inductive Checker :=
| Ping
| ReadyzCheckOf (stateSyncer : Addr).

Inductive Action :=
| NewCertWatcher (watcher : Server) (certPath keyPath : string)
| GetConfigOrDie
| NewManager (o : ManagerOptions)
| Add (r : Runnable)
| SetupWithManager (controller : Controller)
| MustRegister (octopusMetricsCollector_engine : Addr)
| SetupWebhookWithManager (webhook : Webhook)
| AddHealthzCheck (name : string) (check : Checker)
| AddReadyzCheck (name : string) (check : Checker)
| StartManager.

#[export] Instance Server_eq_dec : EqDecision Server.
Proof. solve_decision. Defined.
#[export] Instance ManagerOptions_eq_dec : EqDecision ManagerOptions.
Proof. solve_decision. Defined.
#[export] Instance StageValue_eq_dec : EqDecision StageValue.
Proof. solve_decision. Defined.
#[export] Instance Controller_eq_dec : EqDecision Controller.
Proof. solve_decision. Defined.
#[export] Instance Webhook_eq_dec : EqDecision Webhook.
Proof. solve_decision. Defined.
#[export] Instance Checker_eq_dec : EqDecision Checker.
Proof. solve_decision. Defined.
#[export] Instance Runnable_eq_dec : EqDecision Runnable.
Proof. solve_decision. Defined.
#[export] Instance Action_eq_dec : EqDecision Action.
Proof. solve_decision. Defined.

(** [os.Exit(1)] after an error is logged; a panic ends the process with 2. *)
Definition exit_code (a : Action) : Z := match a with MustRegister _ => 2 | _ => 1 end.

Record SetupState := mkSetup { su_arrays : TLSArrays; su_log : list Action }.

(** The rest of [main] runs unless the process has ended. *)
Inductive Status (A : Type) :=
| Running (a : A)
| OsExit (code : Z).
Arguments Running {A} a.
Arguments OsExit {A} code.

Definition Setup (A : Type) : Type := M SetupState (Status A).

Definition running {A} (a : A) : Setup A := ret (Running a).
Definition and_then {A B} (m : Setup A) (f : A → Setup B) : Setup B :=
  let* r := m in match r with Running a => f a | OsExit code => ret (OsExit code) end.

Notation "'let!' x := m 'in' k" := (and_then m (λ x, k))
  (at level 200, x pattern, m at level 100, k at level 200, only parsing) : opc_scope.

Section main.
Context `{Client W} `{!GCTrackerInterface W} `{!EventRecorder W} `{SchemeInterface} `{ExpirableLRU} `{ExpirableSet}
  `{RangeOrder} `{ThirdParty} `{GoRuntime}.

(** Which calls return an error, the growth of slices, and the tracker as a value of the interface. *)
Variables (fails : Action → bool) (grow : nat → nat) (as_interface : GCTracker → Tracker).

Definition attempt (a : Action) : Setup () := λ s,
  (mkSetup (su_arrays s) (su_log s ++ [a]), if fails a then OsExit (exit_code a) else Running ()).

Definition append_opt (s : option TLSSlice) (x : TLSOpt) : Setup (option TLSSlice) := λ st,
  let '(arrays, s) := append grow s x (su_arrays st) in (mkSetup arrays (su_log st), Running s).

(** ** [main] *)

(** The slices of the webhook server and of the metrics server. *)
Definition tls_setup (f : Flags) : Setup (option TLSSlice * option TLSSlice) :=
  let tlsOpts := None in
  let! tlsOpts := if negb (enableHTTP2 f) then append_opt tlsOpts disableHTTP2 else running tlsOpts in
  let webhookTLSOpts := tlsOpts in
  let! webhookTLSOpts :=
    if decide (0 < String.length (webhookCertPath f))
    then
      let! _ := attempt (NewCertWatcher WebhookServer (filepath_Join (webhookCertPath f) (webhookCertName f))
        (filepath_Join (webhookCertPath f) (webhookCertKey f))) in
      append_opt webhookTLSOpts (CertificateOf WebhookServer)
    else running webhookTLSOpts in
  let metricsTLSOpts := tlsOpts in
  let! metricsTLSOpts :=
    if decide (0 < String.length (metricsCertPath f))
    then
      let! _ := attempt (NewCertWatcher MetricsServer (filepath_Join (metricsCertPath f) (metricsCertName f))
        (filepath_Join (metricsCertPath f) (metricsCertKey f))) in
      append_opt metricsTLSOpts (CertificateOf MetricsServer)
    else running metricsTLSOpts in
  running (webhookTLSOpts, metricsTLSOpts).

Definition manager_options (f : Flags) : ManagerOptions := {|
  mo_MetricsBindAddress := metricsAddr f;
  mo_SecureServing := secureMetrics f;
  mo_FilterProvider := secureMetrics f;
  mo_HealthProbeBindAddress := probeAddr f;
  mo_LeaderElection := enableLeaderElection f;
  mo_LeaderElectionID := "2c524152.agent.octopus.com";
  mo_SyncPeriod := cacheSyncPeriod f;
  mo_LeaderElectionReleaseOnCancel := true
|}.

(** [regexp.MustCompile("^octopus-(agent|worker)-.*")]: anchored at the start only. *)
Definition defaultNamespaceRegex : Regexp := λ s, String.prefix "octopus-agent-" s || String.prefix "octopus-worker-" s.

Definition targetNamespaces : list string :=
  if decide (Getenv "TARGET_NAMESPACES" ≠ "") then strings_Split (Getenv "TARGET_NAMESPACES") ","%char else [].

(** A value that does not compile leaves the variable nil. *)
Definition targetNamespaceRegex : Regexp :=
  let targetNamespaceRegex :=
    if decide (Getenv "TARGET_NAMESPACE_REGEX" ≠ "")
    then match regexp_Compile (Getenv "TARGET_NAMESPACE_REGEX") with inr r => Some r | inl _ => None end
    else None in
  match targetNamespaceRegex with None => defaultNamespaceRegex | Some r => r end.

Definition namespaceCacheTTL : Z :=
  let ttlStr := Getenv "NAMESPACE_CACHE_TTL" in
  if decide (ttlStr ≠ "")
  then match time_ParseDuration ttlStr with inr parsed => parsed | inl _ => (5 * minute)%Z end
  else (5 * minute)%Z.

Definition new_engine (scheme : option RuntimeScheme) (gcTracker : GCTracker) : InMemoryEngine :=
  let engine :=
    if decide (0 < length targetNamespaces)
    then NewInMemoryEngineWithNamespaces scheme targetNamespaces
    else NewInMemoryEngine scheme (Some targetNamespaceRegex) namespaceCacheTTL in
  SetGCTracker engine (as_interface gcTracker).

(** What the variables that pointers lead to hold; the state syncer holds a pointer itself. *)
Inductive Object :=
| EngineObject (engine : InMemoryEngine)
| CollectorObject (eventCollector : EventCollector) (debounceInterval : Z)
| TrackerObject (gcTracker : GCTracker)
| SyncerObject (engine : Addr) (interval : Z).

(** What the manager runs. *)
Record Process := mkProcess {
  pr_variables : gmap Addr Object;
  pr_podWebhook : option (PodCustomDefaulter Addr);
  pr_webhookConfig : TLSConfig;
  pr_metricsConfig : TLSConfig
}.

Definition add_cert_watcher (present : bool) (watcher : Server) : Setup () :=
  if present then attempt (Add (RunCertWatcher watcher)) else running ().

(** The registrations after the manager exists, in order. *)
Definition register (f : Flags) (version : string) : Setup (option (PodCustomDefaulter Addr)) :=
  let stagingStages := [NewPlanningStage "engine"; NewValidationStage; NewExecutionStage "engine"] in
  let! _ := attempt (Add (RunStageOrchestrator stagingStages "eventCollector" "engine" (stageTimeout f))) in
  let! _ := attempt (Add (RunStateSyncer "stateSyncer")) in
  let! _ := attempt (SetupWithManager (StateSync "stateSyncer")) in
  let! _ := attempt (Add RunMetricsReporter) in
  let! _ := attempt (MustRegister "engine") in
  let! _ := attempt (SetupWithManager (WorkloadServiceAccountController "engine" "eventCollector" "gcTracker")) in
  let! _ :=
    if decide (Getenv "ENABLE_WEBHOOKS" ≠ "false")
    then attempt (SetupWebhookWithManager WorkloadServiceAccountWebhook) else running () in
  let! podWebhook :=
    if decide (Getenv "ENABLE_WEBHOOKS" ≠ "false")
    then
      let! _ := attempt (SetupWebhookWithManager (PodWebhook "engine")) in
      running (Some (SetupPodWebhookWithManager "engine" version))
    else running None in
  let! _ := attempt (SetupWithManager (ClusterWorkloadServiceAccountController "engine" "eventCollector" "gcTracker")) in
  let! _ := add_cert_watcher (bool_decide (0 < String.length (metricsCertPath f))) MetricsServer in
  let! _ := add_cert_watcher (bool_decide (0 < String.length (webhookCertPath f))) WebhookServer in
  let! _ := attempt (AddHealthzCheck "healthz" Ping) in
  let! _ := attempt (AddReadyzCheck "readyz" Ping) in
  let! _ := attempt (AddReadyzCheck "engine-state" (ReadyzCheckOf "stateSyncer")) in
  running podWebhook.

(** [main] up to the return of the manager. *)
Definition main (f : Flags) (version : string) (scheme : option RuntimeScheme) : Setup Process :=
  let! (webhookTLSOpts, metricsTLSOpts) := tls_setup f in
  let! _ := attempt GetConfigOrDie in
  let! _ := attempt (NewManager (manager_options f)) in
  let gcTracker := NewGCTracker (30 * second) in
  let variables : gmap Addr Object := <["gcTracker" := TrackerObject gcTracker]> ∅ in
  let variables := <["engine" := EngineObject (new_engine scheme gcTracker)]> variables in
  let variables := <["eventCollector" :=
    CollectorObject (NewEventCollector (batchMaxSize f)) (batchDebounceInterval f)]> variables in
  let variables := <["stateSyncer" := SyncerObject "engine" (batchDebounceInterval f)]> variables in
  let! podWebhook := register f version in
  let! _ := attempt StartManager in
  λ s, (s, Running (mkProcess variables podWebhook
    (server_config (su_arrays s) webhookTLSOpts) (server_config (su_arrays s) metricsTLSOpts))).
End main.

(** ** Splitting *)

Lemma strings_Split_free s c : str_free c s → strings_Split s c = [s].
Proof.
  induction s as [|a s IH]; [done|]. simpl. intros [Ha Hs]%andb_True. rewrite (IH Hs).
  rewrite decide_False; [done|]. intros ->. by rewrite bool_decide_true in Ha.
Qed.

Lemma strings_Split_cons s c : ∃ part rest, strings_Split s c = part :: rest.
Proof.
  induction s as [|a s IH]; simpl; [by eexists _, _|]. destruct IH as (part & rest & ->). case_decide; by eexists _, _.
Qed.

Lemma strings_Split_sep s t c : str_free c s → strings_Split (s +:+ String c t) c = s :: strings_Split t c.
Proof.
  induction s as [|a s IH]; simpl.
  - intros _. destruct (strings_Split_cons t c) as (part & rest & ->). by rewrite decide_True.
  - intros [Ha Hs]%andb_True. rewrite (IH Hs). rewrite decide_False; [done|].
    intros ->. by rewrite bool_decide_true in Ha.
Qed.

Lemma strings_Split_Join l c :
  l ≠ [] → Forall (λ s, str_free c s) l → strings_Split (strings_Join l (String c "")) c = l.
Proof.
  induction l as [|s [|s' l] IH]; intros Hne Hl; [done| |].
  - apply Forall_cons in Hl as [Hs _]. by apply strings_Split_free.
  - apply Forall_cons in Hl as [Hs Hl]. rewrite strings_Join_cons.
    change (String c "" +:+ strings_Join (s' :: l) (String c "")) with (String c (strings_Join (s' :: l) (String c ""))).
    by rewrite strings_Split_sep, IH.
Qed.

Lemma strings_Join_Split s c : strings_Join (strings_Split s c) (String c "") = s.
Proof.
  induction s as [|a s IH]; [done|]. simpl. destruct (strings_Split_cons s c) as (part & rest & Hs).
  rewrite Hs in IH |- *. case_decide as Ha; [subst a|].
  - rewrite strings_Join_cons, IH. done.
  - rewrite <-IH. by destruct rest.
Qed.

(** ** What a set-up does

    [performs m l]: [m] makes the calls [l] in order, up to and with the first one that fails, which
    ends the process; when none fails it goes on. *)
Section performs.
Variable fails : Action → bool.

Fixpoint until_failure (l : list Action) : list Action * option Action :=
  match l with
  | [] => ([], None)
  | a :: l => if fails a then ([a], Some a) else let '(done, failed) := until_failure l in (a :: done, failed)
  end.

Definition performs {A} (m : Setup A) (l : list Action) : Prop := ∀ s,
  let '(s', r) := m s in
  su_log s' = su_log s ++ (until_failure l).1 ∧
  match (until_failure l).2 with
  | None => ∃ a, r = Running a
  | Some a => r = OsExit (exit_code a)
  end.

Lemma until_failure_app l1 l2 :
  until_failure (l1 ++ l2) =
  match (until_failure l1).2 with
  | Some a => until_failure l1
  | None => ((until_failure l1).1 ++ (until_failure l2).1, (until_failure l2).2)
  end.
Proof.
  induction l1 as [|a l1 IH]; simpl; [by destruct (until_failure l2)|]. rewrite IH.
  destruct (fails a); [done|]. destruct (until_failure l1) as [d1 [x|]], (until_failure l2) as [d2 o2]; done.
Qed.

Lemma until_failure_spec l :
  match (until_failure l).2 with
  | None => (until_failure l).1 = l ∧ Forall (λ a, fails a = false) l
  | Some a => ∃ before after, l = before ++ a :: after ∧ (until_failure l).1 = before ++ [a] ∧ fails a = true ∧
      Forall (λ a, fails a = false) before
  end.
Proof.
  induction l as [|a l IH]; simpl; [done|]. destruct (fails a) eqn:Ha; simpl.
  - exists [], l. by repeat split.
  - destruct (until_failure l) as [d [x|]]; simpl in *.
    + destruct IH as (before & after & -> & -> & Hx & Hb). exists (a :: before), after. by repeat split; [..|constructor].
    + destruct IH as [-> Hl]. by split; [|constructor].
Qed.

Lemma performs_bind {A B} (m : Setup A) (f : A → Setup B) l1 l2 :
  performs m l1 → (∀ a, performs (f a) l2) → performs (and_then m f) (l1 ++ l2).
Proof.
  intros Hm Hf s. unfold and_then, bind. specialize (Hm s). destruct (m s) as [s1 r1]. destruct Hm as [Hlog Hr].
  rewrite until_failure_app. destruct (until_failure l1) as [d1 [x|]]; simpl in *; [by subst r1|].
  destruct Hr as (a & ->). specialize (Hf a s1). destruct (f a s1) as [s2 r2]. destruct Hf as [Hlog2 Hr2].
  split; [by rewrite Hlog2, Hlog, <-app_assoc|done].
Qed.

Lemma performs_running {A} (a : A) : performs (running a) [].
Proof. intros s. simpl. rewrite app_nil_r. eauto. Qed.

Lemma performs_pure {A} (f : SetupState → A) : performs (λ s, (s, Running (f s))) [].
Proof. intros s. simpl. rewrite app_nil_r. eauto. Qed.

Lemma performs_attempt a : performs (attempt fails a) [a].
Proof. intros s. unfold attempt. simpl. destruct (fails a); simpl; [done|]. eauto. Qed.

Lemma performs_attempt_then {B} a (f : () → Setup B) l :
  (∀ u, performs (f u) l) → performs (and_then (attempt fails a) f) (a :: l).
Proof. apply (performs_bind _ _ [a]), performs_attempt. Qed.

Lemma performs_append grow s x : performs (append_opt grow s x) [].
Proof.
  intros [a log]. unfold append_opt. simpl. destruct (append grow s x a). simpl. rewrite app_nil_r. eauto.
Qed.

Lemma performs_decide {A} (P : Prop) `{Decision P} (m1 m2 : Setup A) l1 l2 :
  performs m1 l1 → performs m2 l2 → performs (if decide P then m1 else m2) (if decide P then l1 else l2).
Proof. by case_decide. Qed.

Lemma and_then_running {A B} (m : Setup A) (f : A → Setup B) s s' b :
  and_then m f s = (s', Running b) → ∃ s1 a, m s = (s1, Running a) ∧ f a s1 = (s', Running b).
Proof. unfold and_then, bind. destruct (m s) as [s1 [a|code]]; [eauto|done]. Qed.

(** Calls change the log only. *)
Lemma attempt_running a s s' u : attempt fails a s = (s', Running u) → su_arrays s' = su_arrays s.
Proof. unfold attempt. by intros [= <- _]. Qed.
End performs.

Section correct.
Context `{Client W} `{!GCTrackerInterface W} `{!EventRecorder W} `{SchemeInterface} `{ExpirableLRU} `{ExpirableSet}
  `{RangeOrder} `{ThirdParty} `{GoRuntime}.
Variables (fails : Action → bool) (grow : nat → nat) (as_interface : GCTracker → Tracker).
Implicit Types (f : Flags).

(** The calls [main] means to make. *)
Definition planned_tls f : list Action :=
  (if decide (0 < String.length (webhookCertPath f))
   then [NewCertWatcher WebhookServer (filepath_Join (webhookCertPath f) (webhookCertName f))
           (filepath_Join (webhookCertPath f) (webhookCertKey f))] else []) ++
  (if decide (0 < String.length (metricsCertPath f))
   then [NewCertWatcher MetricsServer (filepath_Join (metricsCertPath f) (metricsCertName f))
           (filepath_Join (metricsCertPath f) (metricsCertKey f))] else []).

Definition planned_registrations f : list Action :=
  [Add (RunStageOrchestrator [NewPlanningStage "engine"; NewValidationStage; NewExecutionStage "engine"]
     "eventCollector" "engine" (stageTimeout f));
   Add (RunStateSyncer "stateSyncer"); SetupWithManager (StateSync "stateSyncer"); Add RunMetricsReporter;
   MustRegister "engine"; SetupWithManager (WorkloadServiceAccountController "engine" "eventCollector" "gcTracker")] ++
  (if decide (Getenv "ENABLE_WEBHOOKS" ≠ "false")
   then [SetupWebhookWithManager WorkloadServiceAccountWebhook; SetupWebhookWithManager (PodWebhook "engine")] else []) ++
  [SetupWithManager (ClusterWorkloadServiceAccountController "engine" "eventCollector" "gcTracker")] ++
  (if decide (0 < String.length (metricsCertPath f)) then [Add (RunCertWatcher MetricsServer)] else []) ++
  (if decide (0 < String.length (webhookCertPath f)) then [Add (RunCertWatcher WebhookServer)] else []) ++
  [AddHealthzCheck "healthz" Ping; AddReadyzCheck "readyz" Ping;
   AddReadyzCheck "engine-state" (ReadyzCheckOf "stateSyncer")].

Definition planned f : list Action :=
  planned_tls f ++ [GetConfigOrDie; NewManager (manager_options f)] ++ planned_registrations f ++ [StartManager].

(** The pointers to an engine, and to a collector, that a call hands out, on its own or in what it adds. *)
Definition engine_pointers (variables : gmap Addr Object) (a : Action) : list Addr :=
  match a with
  | Add (RunStageOrchestrator stages _ engine _) =>
      (stages ≫= λ stage, match stage with
        | NewPlanningStage engine | NewExecutionStage engine => [engine]
        | NewValidationStage => []
        end) ++ [engine]
  | Add (RunStateSyncer syncer) | SetupWithManager (StateSync syncer) | AddReadyzCheck _ (ReadyzCheckOf syncer) =>
      match variables !! syncer with Some (SyncerObject engine _) => [engine] | _ => [""] end
  | MustRegister engine | SetupWithManager (WorkloadServiceAccountController engine _ _)
  | SetupWithManager (ClusterWorkloadServiceAccountController engine _ _) | SetupWebhookWithManager (PodWebhook engine) => [engine]
  | _ => []
  end.

Definition collector_pointers (a : Action) : list Addr :=
  match a with
  | Add (RunStageOrchestrator _ eventCollector _ _) | SetupWithManager (WorkloadServiceAccountController _ eventCollector _)
  | SetupWithManager (ClusterWorkloadServiceAccountController _ eventCollector _) => [eventCollector]
  | _ => []
  end.

(** The stages as [Pipeline] runs them. *)
Definition stage_of (stage : StageValue) : Stage :=
  match stage with
  | NewPlanningStage _ => mkStage "planning" PlanningStage_Execute
  | NewValidationStage => mkStage "validation" ValidationStage_Execute
  | NewExecutionStage _ => mkStage "execution" ExecutionStage_Execute
  end.

(** The options the two servers should have. *)
Definition intended_options f (watcher : Server) : list TLSOpt :=
  (if enableHTTP2 f then [] else [disableHTTP2]) ++
  (if decide (0 < String.length (match watcher with WebhookServer => webhookCertPath f | MetricsServer => metricsCertPath f end))
   then [CertificateOf watcher] else []).

Definition intended_config f (watcher : Server) : TLSConfig :=
  mkTLSConfig (if enableHTTP2 f then None else Some ["http/1.1"])
    (if decide (0 < String.length (match watcher with WebhookServer => webhookCertPath f | MetricsServer => metricsCertPath f end))
     then Some watcher else None).

Lemma tls_performs f : performs fails (tls_setup fails grow f) (planned_tls f).
Proof.
  unfold tls_setup, planned_tls. apply (performs_bind _ _ _ []).
  { destruct (enableHTTP2 f); [apply performs_running|apply performs_append]. }
  intros tlsOpts. apply performs_bind.
  { apply performs_decide; [|apply performs_running]. apply performs_attempt_then. intros _. apply performs_append. }
  intros w. rewrite <-(app_nil_r (if decide _ then _ else _)). apply performs_bind; [|intros m; apply performs_running].
  apply performs_decide; [|apply performs_running]. apply performs_attempt_then. intros _. apply performs_append.
Qed.

Lemma watcher_performs (P : Prop) (D : Decision P) watcher :
  performs fails (add_cert_watcher fails (bool_decide P) watcher) (if decide P then [Add (RunCertWatcher watcher)] else []).
Proof.
  unfold add_cert_watcher, bool_decide, decide. destruct D; [apply performs_attempt|apply performs_running].
Qed.

Lemma register_performs f version : performs fails (register fails f version) (planned_registrations f).
Proof.
  unfold register, planned_registrations. cbn [app]. repeat (apply performs_attempt_then; intros _).
  case_decide; cbn [app].
  - apply performs_attempt_then. intros _. apply (performs_bind _ _ _ [_]).
    { apply performs_attempt_then. intros _. apply performs_running. }
    intros podWebhook. apply performs_attempt_then. intros _. apply performs_bind.
    { apply watcher_performs. }
    intros _. apply performs_bind.
    { apply watcher_performs. }
    intros _. repeat (apply performs_attempt_then; intros _). apply performs_running.
  - apply (performs_bind _ _ _ []); [apply performs_running|]. intros _.
    apply (performs_bind _ _ _ []); [apply performs_running|]. intros podWebhook.
    apply performs_attempt_then. intros _. apply performs_bind.
    { apply watcher_performs. }
    intros _. apply performs_bind.
    { apply watcher_performs. }
    intros _. repeat (apply performs_attempt_then; intros _). apply performs_running.
Qed.

Lemma main_performs f version scheme : performs fails (main fails grow as_interface f version scheme) (planned f).
Proof.
  unfold main, planned. apply performs_bind; [apply tls_performs|]. intros [w m]. cbn [app].
  do 2 (apply performs_attempt_then; intros _). apply performs_bind; [apply register_performs|]. intros podWebhook.
  apply performs_attempt_then. intros _. apply (performs_pure fails).
Qed.

Lemma tls_options f log :
  grow 0 = 1 →
  match tls_setup fails grow f (mkSetup [] log) with
  | (s', Running (w, m)) => options (su_arrays s') w = intended_options f WebhookServer ∧
      options (su_arrays s') m = intended_options f MetricsServer
  | _ => True
  end.
Proof.
  intros Hg.
  unfold tls_setup, intended_options, and_then, bind, running, ret, append_opt, append, attempt. rewrite Hg.
  destruct (enableHTTP2 f); cbn [negb];
  (destruct (decide (0 < String.length (webhookCertPath f)));
   destruct (decide (0 < String.length (metricsCertPath f))); cbn;
   repeat (match goal with |- context [fails ?a] => destruct (fails a) end; cbn); done).
Qed.

Lemma register_running f version s s' podWebhook :
  register fails f version s = (s', Running podWebhook) →
  su_arrays s' = su_arrays s ∧
  podWebhook = if decide (Getenv "ENABLE_WEBHOOKS" ≠ "false") then Some (mkPodCustomDefaulter "engine" version) else None.
Proof.
  assert (∀ b x (s s' : SetupState) u, add_cert_watcher fails b x s = (s', Running u) → su_arrays s' = su_arrays s) as Hcert.
  { intros [] x s0 s1 u; [apply attempt_running|by intros [= ->]]. }
  unfold register, SetupPodWebhookWithManager. intros Hrun.
  repeat (let s1 := fresh "s" in let u := fresh "u" in let H1 := fresh "Hs" in
    apply and_then_running in Hrun as (s1 & u & H1 & Hrun); try apply attempt_running in H1; try apply Hcert in H1).
  injection Hrun as <- <-.
  case_decide.
  - apply and_then_running in Hs6 as (? & ? & E1 & [= -> <-]). apply attempt_running in E1, Hs5. split; congruence.
  - injection Hs5 as ->. injection Hs6 as -> <-. split; congruence.
Qed.

Definition variables_of f scheme : gmap Addr Object :=
  <["stateSyncer" := SyncerObject "engine" (batchDebounceInterval f)]>
    (<["eventCollector" := CollectorObject (NewEventCollector (batchMaxSize f)) (batchDebounceInterval f)]>
      (<["engine" := EngineObject (new_engine as_interface scheme (NewGCTracker (30 * second)))]>
        (<["gcTracker" := TrackerObject (NewGCTracker (30 * second))]> ∅))).

(** What a process that got as far as the manager's return has been running. *)
Lemma main_running f version scheme s p :
  main fails grow as_interface f version scheme (mkSetup [] []) = (s, Running p) →
  pr_variables p = variables_of f scheme ∧
  pr_podWebhook p =
    (if decide (Getenv "ENABLE_WEBHOOKS" ≠ "false") then Some (mkPodCustomDefaulter "engine" version) else None) ∧
  (grow 0 = 1 →
    pr_webhookConfig p = intended_config f WebhookServer ∧ pr_metricsConfig p = intended_config f MetricsServer).
Proof.
  unfold main. intros Hrun. apply and_then_running in Hrun as (s1 & [w m] & Htls & Hrun).
  apply and_then_running in Hrun as (s2 & u2 & H2' & Hrun). apply attempt_running in H2'.
  apply and_then_running in Hrun as (s3 & u3 & H3' & Hrun). apply attempt_running in H3'.
  apply and_then_running in Hrun as (s4 & podWebhook & Hreg & Hrun). apply register_running in Hreg as [H4' Hpod].
  apply and_then_running in Hrun as (s5 & u5 & H5' & Hrun). apply attempt_running in H5'.
  injection Hrun as <- <-. simpl. split_and!; [done..|]. intros Hg.
  pose proof (tls_options f [] Hg) as Hopt. rewrite Htls in Hopt. destruct Hopt as [Hw Hm].
  unfold server_config. replace (su_arrays s5) with (su_arrays s1) by congruence. rewrite Hw, Hm.
  unfold intended_options, intended_config. cbn [app].
  split; destruct (enableHTTP2 f);
    destruct (decide (0 < String.length (webhookCertPath f))), (decide (0 < String.length (metricsCertPath f))); reflexivity.
Qed.
End correct.

(** The pointers handed out. *)
Section pointers.
Context `{Client W} `{!GCTrackerInterface W} `{!EventRecorder W} `{SchemeInterface} `{ExpirableLRU} `{ExpirableSet}
  `{RangeOrder} `{ThirdParty} `{GoRuntime}.
Variables (as_interface : GCTracker → Tracker).

Lemma planned_pointers f scheme :
  Forall (λ a, Forall (λ pointer, pointer = "engine") (engine_pointers (variables_of as_interface f scheme) a) ∧
    Forall (λ pointer, pointer = "eventCollector") (collector_pointers a)) (planned f).
Proof.
  unfold planned, planned_tls, planned_registrations.
  repeat case_decide; cbn [app]; repeat (constructor; [by split; repeat constructor|]); constructor.
Qed.

Lemma planned_orchestrator f stages eventCollector engine timeout :
  Add (RunStageOrchestrator stages eventCollector engine timeout) ∈ planned f →
  stage_of <$> stages = staging_stages ∧ timeout = stageTimeout f.
Proof.
  unfold planned, planned_tls, planned_registrations. intros Hin.
  repeat (case_decide; cbn [app] in Hin);
    repeat (apply elem_of_cons in Hin as [Hin|Hin]; [by inversion Hin|]); by apply elem_of_nil in Hin.
Qed.
End pointers.

(** The manager is started last. *)
Lemma snoc_before {A} (l before after : list A) x y z : l ++ [x] = before ++ y :: after → z ∈ before → z ∈ l.
Proof.
  destruct after as [|a after _] using rev_ind.
  - intros [-> _]%app_inj_tail. done.
  - change (y :: after ++ [a]) with ((y :: after) ++ [a]). rewrite app_assoc. intros [-> _]%app_inj_tail.
    rewrite elem_of_app. by left.
Qed.

Lemma Start_only_last `{GoRuntime} f :
  StartManager ∉ ((planned_tls f ++ [GetConfigOrDie; NewManager (manager_options f)]) ++ planned_registrations f).
Proof.
  unfold planned_tls, planned_registrations.
  repeat case_decide; cbn [app]; rewrite !not_elem_of_cons; split_and!; try done; apply not_elem_of_nil.
Qed.

(** ** Properties *)

Section properties.
Context `{ClientLaws W} `{!EventRecorder W} `{SchemeInterface} `{ExpirableLRULaws} `{ExpirableSet} `{RangeOrder}
  `{ThirdParty} `{GoRuntime}.
Variables (fails : Action → bool) (grow : nat → nat) (as_interface : GCTracker → Tracker).

(** C25. The process makes the planned calls in order and nothing else.  Either all of them succeed, and
    every pointer to an engine that was handed out, to the planning and the execution stage, the
    orchestrator, the state syncer, the two controllers, the collector of metrics and the pod webhook, leads to
    one engine, as every pointer to a collector leads to one collector; these are as configured, and the
    webhook is there exactly when it is not disabled.  Or the process ends at the first call that fails,
    with an error code, and the manager has not been started unless it is its own call that failed. *)
Theorem main_correct f version scheme :
  let '(s, r) := main fails grow as_interface f version scheme (mkSetup [] []) in
  match r with
  | Running p =>
      su_log s = planned f ∧ Forall (λ a, fails a = false) (planned f) ∧
      Forall (λ a, Forall (λ pointer, pointer = "engine") (engine_pointers (pr_variables p) a) ∧
        Forall (λ pointer, pointer = "eventCollector") (collector_pointers a)) (su_log s) ∧
      pr_variables p !! "engine" = Some (EngineObject (new_engine as_interface scheme (NewGCTracker (30 * second)))) ∧
      pr_variables p !! "eventCollector" =
        Some (CollectorObject (NewEventCollector (batchMaxSize f)) (batchDebounceInterval f)) ∧
      (∀ stages eventCollector engine timeout, Add (RunStageOrchestrator stages eventCollector engine timeout) ∈ su_log s →
        stage_of <$> stages = staging_stages ∧ timeout = stageTimeout f) ∧
      pr_podWebhook p =
        (if decide (Getenv "ENABLE_WEBHOOKS" ≠ "false") then Some (mkPodCustomDefaulter "engine" version) else None)
  | OsExit code =>
      ∃ before a after, planned f = before ++ a :: after ∧ su_log s = before ++ [a] ∧ fails a = true ∧
        code = exit_code a ∧ (code ≠ 0)%Z ∧ Forall (λ a, fails a = false) before ∧
        (StartManager ∈ su_log s → a = StartManager)
  end.
Proof.
  pose proof (main_performs fails grow as_interface f version scheme (mkSetup [] [])) as Hp.
  pose proof (until_failure_spec fails (planned f)) as Hu.
  destruct (main _ _ _ _ _ _ _) as [s r] eqn:Hrun. destruct Hp as [Hlog Hr]. simpl in Hlog.
  destruct (until_failure fails (planned f)) as [l [a|]]; simpl in *.
  - subst r l. destruct Hu as (before & after & Hpl & Hl & Hfa & Hb). exists before, a, after.
    split_and!; [done|done|done|done|by destruct a|done|].
    intros Hstart. rewrite Hl in Hstart. apply elem_of_app in Hstart as [Hstart|Hstart%list_elem_of_singleton]; [|done].
    exfalso. apply (Start_only_last f). unfold planned in Hpl. rewrite !app_assoc in Hpl. exact (snoc_before _ _ _ _ _ _ Hpl Hstart).
  - destruct Hr as [p ->]. destruct Hu as [-> Hall].
    destruct (main_running fails grow as_interface f version scheme s p Hrun) as (Hv & Hw & _).
    pose proof (planned_pointers as_interface f scheme) as Hptr. rewrite Hv, Hlog. split_and!; [done|done|done|done|done| |done].
    intros stages c e t Hin. by eapply planned_orchestrator.
Qed.

(** When the runtime allocates exactly one element for the first option, both servers start with
    the options meant for them: HTTP/1.1 only unless HTTP/2 is enabled, and each with the certificate of
    its own watcher when it has one. *)
Theorem tls_config_correct f version scheme s p :
  grow 0 = 1 → main fails grow as_interface f version scheme (mkSetup [] []) = (s, Running p) →
  pr_webhookConfig p = intended_config f WebhookServer ∧ pr_metricsConfig p = intended_config f MetricsServer.
Proof.
  intros Hg Hrun. by apply (main_running fails grow as_interface f version scheme s p Hrun).
Qed.

(** Namespaces given as a comma-separated list are read back as they were, and every batch works in
    exactly those without asking the cluster. *)
Theorem target_namespaces_roundtrip scheme tracker namespaces now w :
  namespaces ≠ [] → Forall (λ n, str_free ","%char n) namespaces →
  Getenv "TARGET_NAMESPACES" = strings_Join namespaces "," → Getenv "TARGET_NAMESPACES" ≠ "" →
  let engine := new_engine as_interface scheme tracker in
  eng_GetTargetNamespaces engine = namespaces ∧
  GetOrDiscoverTargetNamespaces engine now w = (w, (engine, ROk namespaces)).
Proof.
  intros Hne Hfree Henv Hset. assert (targetNamespaces = namespaces) as Hns.
  { unfold targetNamespaces. rewrite decide_True by done. rewrite Henv. by apply strings_Split_Join. }
  unfold new_engine. rewrite Hns, decide_True; [done|]. destruct namespaces; [done|simpl; lia].
Qed.

(** Without such a list the namespaces are those of the labelled deployments that match the expression
    given, or the default one when there is none or it does not compile, and they are kept for the time
    given, or five minutes when there is none or it cannot be read. *)
Lemma discovered_namespaces scheme tracker now w :
  Getenv "TARGET_NAMESPACES" = "" → (0 < namespaceCacheTTL)%Z →
  let regex :=
    match regexp_Compile (Getenv "TARGET_NAMESPACE_REGEX") with
    | inr r => if decide (Getenv "TARGET_NAMESPACE_REGEX" = "") then defaultNamespaceRegex else r
    | inl _ => defaultNamespaceRegex
    end in
  let '(w1, (engine, res)) := GetOrDiscoverTargetNamespaces (new_engine as_interface scheme tracker) now w in
  ∃ namespaces, res = ROk namespaces ∧ NoDup namespaces ∧
    (∀ n, n ∈ namespaces ↔ regex n ∧
      n ∈ match (client_ListDeploymentNamespaces octopus_agent_labels w).2 with inr l => l | inl _ => [] end) ∧
    ∀ now' w', (now ≤ now' < now + namespaceCacheTTL)%Z →
      GetOrDiscoverTargetNamespaces engine now' w' = (w', (engine, ROk namespaces)).
Proof.
  intros Hunset Hpos. cbv zeta.
  match goal with |- context [Is_true (?r _) ∧ _] => assert (targetNamespaceRegex = r) as Hregex end.
  { unfold targetNamespaceRegex. destruct (decide (Getenv "TARGET_NAMESPACE_REGEX" = "")) as [He|He].
    - rewrite decide_False by tauto. by destruct (regexp_Compile _).
    - rewrite decide_True by done. by destruct (regexp_Compile _). }
  rewrite <-Hregex. unfold new_engine, targetNamespaces. rewrite (decide_False (P := Getenv _ ≠ _)) by tauto. simpl.
  exact (proj2 (target_namespaces_correct scheme targetNamespaceRegex namespaceCacheTTL now w Hpos)).
Qed.
End properties.

(** ** Concrete runs *)

Module SetupExamples.
Import InMemory ResourceExamples.
#[local] Existing Instance range_forward.
#[local] Existing Instance reference_third_party.
#[local] Existing Instance reference_lru.
#[local] Existing Instance reference_lru_laws.
#[local] Existing Instance reference_set.

(** A process with two namespaces. *)
Definition runtime0 : GoRuntime := {|
  Getenv name := if decide (name = "TARGET_NAMESPACES") then "team-a,team-b" else "";
  regexp_Compile _ := inl (ErrNew "error parsing regexp");
  time_ParseDuration _ := inl (ErrNew "time: invalid duration");
  filepath_Join dir file := dir +:+ "/" +:+ file
|}.
#[local] Existing Instance runtime0.

(** Both servers have certificates. *)
Definition flags0 : Flags :=
  mkFlags ":8443" ":8081" true true "/webhook" "tls.crt" "tls.key" "/metrics" "tls.crt" "tls.key" false
    (2 * second) 500 (2 * minute) (600 * minute).

Definition scheme0 : option RuntimeScheme := Some ().
Definition marker (t : GCTracker) : Tracker := ().
Definition run_main (grow : nat → nat) := main (W := World) (λ _, false) grow marker flags0 "v1" scheme0 (mkSetup [] []).

Lemma tls_config_correct_witness :
  match run_main S with
  | (_, Running p) => pr_webhookConfig p = mkTLSConfig (Some ["http/1.1"]) (Some WebhookServer)
  | _ => False
  end.
Proof.
  assert (match run_main S with (_, Running _) => true | _ => false end = true) as Hok by (vm_compute; reflexivity).
  pose proof (tls_config_correct (λ _, false) S marker flags0 "v1" scheme0) as Ht.
  unfold run_main in *. destruct (main _ _ _ _ _ _ _) as [s [p|code]]; [|discriminate].
  exact (proj1 (Ht s p eq_refl eq_refl)).
Defined.

Lemma target_namespaces_roundtrip_witness :
  (GetOrDiscoverTargetNamespaces (new_engine marker scheme0 (NewGCTracker 30)) 0 w0).2.2 = ROk ["team-a"; "team-b"].
Proof.
  rewrite (proj2 (target_namespaces_roundtrip marker scheme0 (NewGCTracker 30) ["team-a"; "team-b"] 0 w0
    ltac:(done) ltac:(by repeat constructor) eq_refl ltac:(done))). done.
Defined.

(** Go leaves the capacity [append] gives a new array to the implementation.  Were it two, the
    servers would share it, and the webhook server would present the certificate of the metrics
    server. *)
Example shared_options :
  match run_main (λ n, n + 2) with
  | (_, Running p) =>
      GetCertificate (pr_webhookConfig p) = Some MetricsServer ∧ GetCertificate (pr_metricsConfig p) = Some MetricsServer
  | _ => False
  end.
Proof. by vm_compute. Qed.
End SetupExamples.
