(* ===== verification/CommandLine.v ===== *)
(** * The command line

    The flags src/cmd/main.go declares, and how [flag.Parse] of Go reads the command line into them
    before anything else happens: what the process runs with, and which command lines end it.  The
    durations are read by [time.ParseDuration], an operation of [GoRuntime]; the flags that libraries
    declare are parameters.  What each flag is documented to set is a table of its own ([main_kinds],
    [flags_from]). *)

From Stdlib Require Import Ascii ZArith.
From stdpp Require Import pretty.
From S2P Require Import Prelude GoLib Api Scopes ServiceAccounts Access Cluster Resources Engine Webhooks Pipeline Debouncer Collector Retry StateSync Controllers Setup.

(** ** Package strconv *)

Definition ErrSyntax : error := ErrNew "parse error".
Definition ErrRange : error := ErrNew "value out of range".

Definition ParseBool (s : string) : Or bool :=
  if decide (s ∈ ["1"; "t"; "T"; "TRUE"; "true"; "True"]) then inr true
  else if decide (s ∈ ["0"; "f"; "F"; "FALSE"; "false"; "False"]) then inr false
  else inl ErrSyntax.

Definition lower (c : ascii) : N := N.lor (N_of_ascii c) 32.

Definition digit (c : ascii) : option N :=
  let n := N_of_ascii c in
  if decide (48 ≤ n ∧ n ≤ 57)%N then Some (n - 48)%N
  else if decide (97 ≤ lower c ∧ lower c ≤ 122)%N then Some (lower c - 97 + 10)%N
  else None.

(** The loop of [ParseUint]: the value so far and whether there was an underscore.  A value above 64
    bits ends it at once. *)
Fixpoint parse_digits (base : N) (s : string) (n : N) (underscores : bool) : Or (N * bool) :=
  match s with
  | EmptyString => inr (n, underscores)
  | String c s =>
      if decide (c = "_"%char) then parse_digits base s n true
      else
        match digit c with
        | None => inl ErrSyntax
        | Some d =>
            if decide (base ≤ d)%N then inl ErrSyntax
            else if decide (2 ^ 64 ≤ n * base + d)%N then inl ErrRange
            else parse_digits base s (n * base + d) underscores
        end
  end.

(** [underscoreOK]: underscores stand between digits, or after the prefix of the base. *)
Inductive LastChar := Start | Digit | Underscore | Other.

Fixpoint underscores_between (hex : bool) (s : string) (last : LastChar) : bool :=
  match s with
  | EmptyString => match last with Underscore => false | _ => true end
  | String c s =>
      if decide ((48 ≤ N_of_ascii c ∧ N_of_ascii c ≤ 57)%N ∨ hex = true ∧ (97 ≤ lower c ∧ lower c ≤ 102)%N)
      then underscores_between hex s Digit
      else if decide (c = "_"%char)
      then match last with Digit => underscores_between hex s Underscore | _ => false end
      else match last with Underscore => false | _ => underscores_between hex s Other end
  end.

(** The base an integer literal is written in, and what follows its prefix. *)
Definition base_prefix (s : string) : N * string :=
  match s with
  | String "0" (String c (String _ _ as rest)) =>
      if decide (lower c = 98%N) then (2%N, rest)
      else if decide (lower c = 111%N) then (8%N, rest)
      else if decide (lower c = 120%N) then (16%N, rest)
      else (8%N, String c rest)
  | String "0" rest => (8%N, rest)
  | _ => (10%N, s)
  end.

Definition underscoreOK (s : string) : bool :=
  match s with
  | String "0" (String c rest) =>
      if decide (lower c ∈ [98; 111; 120]%N) then underscores_between (bool_decide (lower c = 120%N)) rest Digit
      else underscores_between false s Start
  | _ => underscores_between false s Start
  end.

(** [ParseUint(s, 0, 64)] *)
Definition ParseUint (s : string) : Or N :=
  if decide (s = "") then inl ErrSyntax
  else
    let '(base, rest) := base_prefix s in
    match parse_digits base rest 0 false with
    | inl e => inl e
    | inr (n, underscores) => if underscores && negb (underscoreOK s) then inl ErrSyntax else inr n
    end.

(** [ParseInt(s, 0, 64)] *)
Definition ParseInt (s : string) : Or Z :=
  if decide (s = "") then inl ErrSyntax
  else
    let '(neg, digits) :=
      match s with
      | String "+" rest => (false, rest)
      | String "-" rest => (true, rest)
      | _ => (false, s)
      end in
    match ParseUint digits with
    | inl e => inl e
    | inr un =>
        if negb neg && bool_decide (2 ^ 63 ≤ un)%N then inl ErrRange
        else if neg && bool_decide (2 ^ 63 < un)%N then inl ErrRange
        else inr (if neg then - Z.of_N un else Z.of_N un)%Z
    end.

(** ** Flags of a library

    What [flag.Parse] asks of the value of a flag: whether it is a boolean flag, and whether it takes
    a value. *)
Record LibraryFlag := mkLibraryFlag { IsBoolFlag : bool; Set_ : string → option error }.

(** The flags package controller-runtime declares when it is loaded, and those of the logger. *)
Class LibraryFlags := {
  package_flags : list (string * LibraryFlag);
  zap_flags : list (string * LibraryFlag)
}.

(** They have names of their own that can be written on a command line. *)
Definition flag_name (name : string) : bool :=
  match name with
  | EmptyString => false
  | String c _ => bool_decide (c ≠ "-"%char) && str_free "="%char name
  end.

(** ** The flags of [main] *)

Inductive Value :=
| StringVar (set : string → Flags → Flags)
| BoolVar (set : bool → Flags → Flags)
| IntVar (set : Z → Flags → Flags)
| DurationVar (set : Z → Flags → Flags)
| Var (value : LibraryFlag).

Section setters.
Implicit Types (f : Flags).
Notation "'with_flags' a b c d e g h i j k l m n o p => r" :=
  (λ f, let 'mkFlags a b c d e g h i j k l m n o p := f in r)
  (at level 200, a name, b name, c name, d name, e name, g name, h name, i name, j name, k name, l name, m name,
   n name, o name, p name, only parsing).

Definition set_metricsAddr v := with_flags a b c d e g h i j k l m n o p => mkFlags v b c d e g h i j k l m n o p.
Definition set_probeAddr v := with_flags a b c d e g h i j k l m n o p => mkFlags a v c d e g h i j k l m n o p.
Definition set_enableLeaderElection v := with_flags a b c d e g h i j k l m n o p => mkFlags a b v d e g h i j k l m n o p.
Definition set_secureMetrics v := with_flags a b c d e g h i j k l m n o p => mkFlags a b c v e g h i j k l m n o p.
Definition set_webhookCertPath v := with_flags a b c d e g h i j k l m n o p => mkFlags a b c d v g h i j k l m n o p.
Definition set_webhookCertName v := with_flags a b c d e g h i j k l m n o p => mkFlags a b c d e v h i j k l m n o p.
Definition set_webhookCertKey v := with_flags a b c d e g h i j k l m n o p => mkFlags a b c d e g v i j k l m n o p.
Definition set_metricsCertPath v := with_flags a b c d e g h i j k l m n o p => mkFlags a b c d e g h v j k l m n o p.
Definition set_metricsCertName v := with_flags a b c d e g h i j k l m n o p => mkFlags a b c d e g h i v k l m n o p.
Definition set_metricsCertKey v := with_flags a b c d e g h i j k l m n o p => mkFlags a b c d e g h i j v l m n o p.
Definition set_enableHTTP2 v := with_flags a b c d e g h i j k l m n o p => mkFlags a b c d e g h i j k v m n o p.
Definition set_batchDebounceInterval v := with_flags a b c d e g h i j k l m n o p => mkFlags a b c d e g h i j k l v n o p.
Definition set_batchMaxSize v := with_flags a b c d e g h i j k l m n o p => mkFlags a b c d e g h i j k l m v o p.
Definition set_stageTimeout v := with_flags a b c d e g h i j k l m n o p => mkFlags a b c d e g h i j k l m n v p.
Definition set_cacheSyncPeriod v := with_flags a b c d e g h i j k l m n o p => mkFlags a b c d e g h i j k l m n o v.
End setters.

(** A declaration: the name, the variable, and the variable set to its default. *)
Record FlagDecl := mkFlagDecl { fd_name : string; fd_value : Value; fd_default : Flags → Flags }.

Definition flag_StringVar p name value := mkFlagDecl name (StringVar p) (p value).
Definition flag_BoolVar p name value := mkFlagDecl name (BoolVar p) (p value).
Definition flag_IntVar p name value := mkFlagDecl name (IntVar p) (p value).
Definition flag_DurationVar p name value := mkFlagDecl name (DurationVar p) (p value).
Definition flag_Var (library : string * LibraryFlag) := mkFlagDecl library.1 (Var library.2) id.

(** The declarations of [main], in its order. *)
Definition main_flags : list FlagDecl := [
  flag_StringVar set_metricsAddr "metrics-bind-address" "0";
  flag_StringVar set_probeAddr "health-probe-bind-address" ":8081";
  flag_BoolVar set_enableLeaderElection "leader-elect" false;
  flag_BoolVar set_secureMetrics "metrics-secure" false;
  flag_StringVar set_webhookCertPath "webhook-cert-path" "";
  flag_StringVar set_webhookCertName "webhook-cert-name" "tls.crt";
  flag_StringVar set_webhookCertKey "webhook-cert-key" "tls.key";
  flag_StringVar set_metricsCertPath "metrics-cert-path" "";
  flag_StringVar set_metricsCertName "metrics-cert-name" "tls.crt";
  flag_StringVar set_metricsCertKey "metrics-cert-key" "tls.key";
  flag_BoolVar set_enableHTTP2 "enable-http2" false;
  flag_DurationVar set_batchDebounceInterval "batch-debounce-interval" (2 * second)%Z;
  flag_IntVar set_batchMaxSize "batch-max-size" 500%Z;
  flag_DurationVar set_stageTimeout "stage-timeout" (2 * minute)%Z;
  flag_DurationVar set_cacheSyncPeriod "cache-sync-period" (10 * 60 * minute)%Z
].

(** The variables before the declarations. *)
Definition zero_flags : Flags := mkFlags "" "" false false "" "" "" "" "" "" false 0 0 0 0.

(** ** The flag set

    The variables, the values the flags of libraries were set to, and the flags by name.  A
    declaration panics, [None], on a name that cannot be one or is taken. *)
Record FlagSet := mkFlagSet { fs_flags : Flags; fs_library : list (string * string); formal : gmap string Value }.

Definition declare (fs : FlagSet) (d : FlagDecl) : option FlagSet :=
  if decide (String.prefix "-" (fd_name d) = true ∨ str_free "="%char (fd_name d) = false) then None
  else
    match formal fs !! fd_name d with
    | Some _ => None
    | None => Some (mkFlagSet (fd_default d (fs_flags fs)) (fs_library fs) (<[fd_name d := fd_value d]> (formal fs)))
    end.

Definition declare_all (fs : FlagSet) (ds : list FlagDecl) : option FlagSet :=
  foldl (λ ofs d, fs ← ofs; declare fs d) (Some fs) ds.

Definition CommandLine `{LibraryFlags} : option FlagSet :=
  declare_all (mkFlagSet zero_flags [] ∅) ((flag_Var <$> package_flags) ++ main_flags ++ (flag_Var <$> zap_flags)).

(** ** [flag.Parse] *)

(** What the next argument is: not a flag, the end of the flags, a flag that cannot be read, or the
    name of a flag with a value when one is attached. *)
Inductive Token :=
| Positional
| Terminator
| BadSyntax
| FlagToken (name : string) (value : option string).

Fixpoint cut_value (s : string) : string * option string :=
  match s with
  | EmptyString => ("", None)
  | String c s => if decide (c = "="%char) then ("", Some s) else let '(name, value) := cut_value s in (String c name, value)
  end.

Definition name_token (name : string) : Token :=
  match name with
  | EmptyString => BadSyntax
  | String c rest =>
      if decide (c = "-"%char ∨ c = "="%char) then BadSyntax
      else let '(name, value) := cut_value rest in FlagToken (String c name) value
  end.

#[local] Arguments name_token : simpl never.

Definition token (s : string) : Token :=
  match s with
  | String c1 (String c2 rest as name) =>
      if decide (c1 = "-"%char)
      then if decide (c2 = "-"%char) then (if decide (rest = "") then Terminator else name_token rest) else name_token name
      else Positional
  | _ => Positional
  end.

Section parse.
Context `{GoRuntime}.

Definition is_bool_flag (v : Value) : bool :=
  match v with BoolVar _ => true | Var l => IsBoolFlag l | _ => false end.

(** [flag.Value.Set] *)
Definition Set_value (fs : FlagSet) (name : string) (v : Value) (s : string) : Or FlagSet :=
  let set {A} (r : Or A) (var : A → Flags → Flags) :=
    match r with
    | inl e => inl e
    | inr x => inr (mkFlagSet (var x (fs_flags fs)) (fs_library fs) (formal fs))
    end in
  match v with
  | StringVar var => set (inr s) var
  | BoolVar var => set (ParseBool s) var
  | IntVar var => set (ParseInt s) var
  | DurationVar var => set (time_ParseDuration s) var
  | Var l =>
      match Set_ l s with
      | Some e => inl e
      | None => inr (mkFlagSet (fs_flags fs) (fs_library fs ++ [(name, s)]) (formal fs))
      end
  end.

(** The loop over the arguments; what is left are the arguments that are no flags. *)
Fixpoint flag_Parse (args : list string) (fs : FlagSet) : Status (FlagSet * list string) :=
  match args with
  | [] => Running (fs, [])
  | s :: args' =>
      match token s with
      | Positional => Running (fs, args)
      | Terminator => Running (fs, args')
      | BadSyntax => OsExit 2
      | FlagToken name value =>
          match formal fs !! name with
          | None => OsExit (if decide (name ∈ ["help"; "h"]) then 0 else 2)
          | Some v =>
              if is_bool_flag v then
                match Set_value fs name v (default "true" value) with
                | inl _ => OsExit 2
                | inr fs => flag_Parse args' fs
                end
              else
                match value, args' with
                | Some value, _ =>
                    match Set_value fs name v value with inl _ => OsExit 2 | inr fs => flag_Parse args' fs end
                | None, value :: args'' =>
                    match Set_value fs name v value with inl _ => OsExit 2 | inr fs => flag_Parse args'' fs end
                | None, [] => OsExit 2
                end
          end
      end
  end.
End parse.

(** ** The process

    From the command line to the return of the manager.  A declaration that panics ends the process
    with 2. *)
Section program.
Context `{Client W} `{!GCTrackerInterface W} `{!EventRecorder W} `{SchemeInterface} `{ExpirableLRU} `{ExpirableSet}
  `{RangeOrder} `{ThirdParty} `{GoRuntime} `{LibraryFlags}.
Variables (fails : Action → bool) (grow : nat → nat) (as_interface : GCTracker → Tracker).

Definition program (args : list string) (version : string) (scheme : option RuntimeScheme) : Setup Process :=
  match CommandLine with
  | None => ret (OsExit 2)
  | Some fs =>
      match flag_Parse args fs with
      | OsExit code => ret (OsExit code)
      | Running (fs, _) => main fails grow as_interface (fs_flags fs) version scheme
      end
  end.
End program.

(** ** Tokens *)

Lemma str_free_String c a s : str_free c (String a s) ↔ a ≠ c ∧ str_free c s.
Proof.
  simpl. split; [intros [Ha ?]%andb_True; split; [|done]|intros [Ha ?]; apply andb_True; split; [|done]];
    destruct (bool_decide_reflect (a = c)); done.
Qed.

Definition attached (value : option string) : string := match value with None => "" | Some v => String "=" v end.

Lemma cut_value_attached name value : str_free "="%char name → cut_value (name +:+ attached value) = (name, value).
Proof.
  induction name as [|c name IH]; [by destruct value|].
  rewrite str_app_cons. intros [Hc Hfree]%str_free_String. simpl. rewrite (IH Hfree). by rewrite decide_False.
Qed.

Lemma cut_value_inv s name value : cut_value s = (name, value) → str_free "="%char name ∧ s = name +:+ attached value.
Proof.
  revert name. induction s as [|c s IH]; intros name; simpl; [by intros [= <- <-]|].
  case_decide as Hc; [subst; by intros [= <- <-]|]. destruct (cut_value s) as [name' value'] eqn:Hs.
  intros [= <- ->]. destruct (IH name' eq_refl) as [Hfree ->]. rewrite str_app_cons. split; [|done].
  by apply str_free_String.
Qed.

Definition dashes (d : string) : Prop := d = "-" ∨ d = "--".

Lemma name_token_attached name value : flag_name name → name_token (name +:+ attached value) = FlagToken name value.
Proof.
  destruct name as [|c name]; [done|]. intros [Hc Hfree]%andb_True. apply bool_decide_unpack in Hc.
  apply str_free_String in Hfree as [Heq Hfree].
  rewrite str_app_cons. unfold name_token. rewrite decide_False by naive_solver. by rewrite cut_value_attached.
Qed.

Lemma token_attached d name value :
  dashes d → flag_name name → token (d +:+ name +:+ attached value) = FlagToken name value.
Proof.
  intros Hd Hname. destruct name as [|c name]; [done|]. pose proof (name_token_attached _ value Hname) as Ht.
  apply andb_True in Hname as [Hc _]. apply bool_decide_unpack in Hc. rewrite str_app_cons in Ht |- *.
  destruct Hd as [-> | ->]; simpl.
  - by rewrite decide_False.
  - exact Ht.
Qed.

Lemma name_token_inv s name value :
  name_token s = FlagToken name value → flag_name name ∧ s = name +:+ attached value.
Proof.
  destruct s as [|c s]; [done|]. unfold name_token. case_decide as Hc; [done|].
  destruct (cut_value s) as [n v] eqn:Hs. intros [= <- <-]. apply cut_value_inv in Hs as [Hfree ->].
  rewrite str_app_cons. split; [|done]. unfold flag_name. rewrite bool_decide_true by tauto. apply str_free_String. tauto.
Qed.

Lemma token_inv s name value :
  token s = FlagToken name value → flag_name name ∧ ∃ d, dashes d ∧ s = d +:+ name +:+ attached value.
Proof.
  destruct s as [|c1 [|c2 rest]]; [done..|]. simpl. case_decide as H1; [subst|done].
  case_decide as H2; [subst; case_decide; [done|]|]; intros [Hname Hs]%name_token_inv; (split; [done|]).
  - exists "--". split; [by right|]. by rewrite Hs.
  - exists "-". split; [by left|]. by rewrite Hs.
Qed.

(** An argument that is no flag. *)
Definition no_flag (s : string) : bool :=
  match s with
  | String c (String _ _) => bool_decide (c ≠ "-"%char)
  | _ => true
  end.

Lemma name_token_not_positional s : name_token s ≠ Positional ∧ name_token s ≠ Terminator.
Proof. destruct s as [|c s]; [done|]. unfold name_token. case_decide; [done|]. by destruct (cut_value s). Qed.

Lemma token_positional s : token s = Positional ↔ no_flag s.
Proof.
  destruct s as [|c1 [|c2 rest]]; [done..|]. simpl. case_decide as H1.
  - subst. rewrite bool_decide_false by naive_solver. split; [|done].
    repeat case_decide; [done|apply name_token_not_positional..].
  - rewrite bool_decide_true; done.
Qed.

Lemma token_terminator s : token s = Terminator ↔ s = "--".
Proof.
  split; [|by intros ->]. destruct s as [|c1 [|c2 rest]]; [done..|]. simpl.
  repeat case_decide; subst; try done; by intros ?%name_token_not_positional.
Qed.

(** ** The grammar of the command line

    What a command line says, flag by flag: the flag [name] with [value] is written as one argument
    with an equals sign, as two arguments when it is no boolean flag, or by its name alone when it is
    one, each with one dash or two; the flags end with the arguments, at a [--], or at the first argument that is no
    flag. *)
Inductive written (v : Value) (name : string) : list string → string → Prop :=
| written_attached d value : dashes d → written v name [d +:+ name +:+ "=" +:+ value] value
| written_next d value : is_bool_flag v = false → dashes d → written v name [d +:+ name; value] value
| written_alone d : is_bool_flag v = true → dashes d → written v name [d +:+ name] "true".

Inductive flags_end : list string → list string → Prop :=
| end_of_arguments : flags_end [] []
| end_at_dashes rest : flags_end ("--" :: rest) rest
| end_at_argument s rest : no_flag s → flags_end (s :: rest) (s :: rest).

Inductive reads `{GoRuntime} : list string → FlagSet → FlagSet → list string → Prop :=
| reads_end args fs rest : flags_end args rest → reads args fs fs rest
| reads_flag name v piece value args fs fs1 fs2 rest :
    formal fs !! name = Some v → written v name piece value → Set_value fs name v value = inr fs1 →
    reads args fs1 fs2 rest → reads (piece ++ args) fs fs2 rest.

(** The names of a flag set can be written. *)
Definition writable (fs : FlagSet) : Prop := ∀ name v, formal fs !! name = Some v → flag_name name.

Section parse_correct.
Context `{GoRuntime}.
Implicit Types (fs : FlagSet) (args rest : list string).

Lemma Set_value_formal fs name v s fs1 : Set_value fs name v s = inr fs1 → formal fs1 = formal fs.
Proof.
  destruct v; simpl; [by intros [= <-]|..]; (case_match; [done|]); by intros [= <-].
Qed.

Lemma Set_value_writable fs name v s fs1 : Set_value fs name v s = inr fs1 → writable fs → writable fs1.
Proof. intros Hset Hw n v'. rewrite (Set_value_formal _ _ _ _ _ Hset). apply Hw. Qed.

Lemma flag_Parse_end args fs rest : flags_end args rest → flag_Parse args fs = Running (fs, rest).
Proof.
  destruct 1 as [|rest|s rest Hs]; [done..|]. cbn [flag_Parse]. by rewrite (proj2 (token_positional s) Hs).
Qed.

Lemma flag_Parse_flag fs name v piece value args :
  writable fs → formal fs !! name = Some v → written v name piece value →
  flag_Parse (piece ++ args) fs =
  match Set_value fs name v value with inl _ => OsExit 2 | inr fs1 => flag_Parse args fs1 end.
Proof.
  intros Hw Hv Hp. pose proof (Hw _ _ Hv) as Hname.
  pose proof (λ d value Hd, token_attached d name value Hd Hname) as Ht.
  destruct Hp as [d value Hd|d value Hb Hd|d Hb Hd]; cbn [app flag_Parse].
  - change ("=" +:+ value) with (attached (Some value)). rewrite (Ht d (Some value) Hd), Hv. simpl. by destruct (is_bool_flag v), (Set_value fs name v value).
  - pose proof (Ht d None Hd) as Ht'. simpl in Ht'. rewrite str_app_nil_r in Ht'. by rewrite Ht', Hv, Hb.
  - pose proof (Ht d None Hd) as Ht'. simpl in Ht'. rewrite str_app_nil_r in Ht'. by rewrite Ht', Hv, Hb.
Qed.

Lemma reads_parse args fs fs' rest : writable fs → reads args fs fs' rest → flag_Parse args fs = Running (fs', rest).
Proof.
  intros Hw Hr. induction Hr as [args fs rest Hend|name v piece value args fs fs1 fs2 rest Hv Hp Hset _ IH].
  - by apply flag_Parse_end.
  - rewrite (flag_Parse_flag _ _ _ _ _ _ Hw Hv Hp), Hset. by eapply IH, Set_value_writable.
Qed.

(** A request for help. *)
Definition asks_help args : Prop :=
  ∃ before d name value after, args = before ++ (d +:+ name +:+ attached value) :: after ∧ dashes d ∧ name ∈ ["help"; "h"].

Lemma asks_help_app before args : asks_help args → asks_help (before ++ args).
Proof.
  intros (b & d & name & value & after & -> & Hd). exists (before ++ b), d, name, value, after. by rewrite <-app_assoc.
Qed.

(** The parser finds what the grammar says, or stops at an argument it cannot read. *)
Lemma flag_Parse_outcome args fs :
  match flag_Parse args fs with
  | Running (fs', rest) => reads args fs fs' rest
  | OsExit code => code = 2%Z ∨ code = 0%Z ∧ asks_help args
  end.
Proof.
  remember (length args) as n eqn:Hn. revert args Hn fs.
  induction (lt_wf n) as [n _ IH]. intros [|s args] -> fs; [do 2 constructor|].
  cbn [flag_Parse]. destruct (token s) as [| | |name value] eqn:Hs; [|apply token_terminator in Hs as ->|by left|].
  - by apply reads_end, end_at_argument, token_positional.
  - apply reads_end, end_at_dashes.
  - apply token_inv in Hs as (_ & d & Hd & ->). destruct (formal fs !! name) as [v|] eqn:Hv.
    2: { case_decide; [right|by left]. split; [done|]. by exists [], d, name, value, args. }
    assert (∀ piece value args', written v name piece value → length args' < S (length args) →
      match (match Set_value fs name v value with inl _ => OsExit 2 | inr fs1 => flag_Parse args' fs1 end) with
      | Running (fs', rest) => reads (piece ++ args') fs fs' rest
      | OsExit code => code = 2%Z ∨ code = 0%Z ∧ asks_help (piece ++ args')
      end) as Hflag.
    { intros piece x args' Hp Hlen. destruct (Set_value _ _ _ _) as [e|fs1] eqn:Hset; [by left|].
      specialize (IH _ Hlen args' eq_refl fs1). destruct (flag_Parse args' fs1) as [[fs' rest]|code].
      - by eapply reads_flag.
      - destruct IH as [?|[? ?]]; [by left|right]. split; [done|]. by apply asks_help_app. }
    destruct (is_bool_flag v) eqn:Hb, value as [x|]; simpl attached; rewrite ?str_app_nil_r.
    + by apply (Hflag [_]); [constructor|lia].
    + by apply (Hflag [_]); [constructor|lia].
    + by apply (Hflag [_]); [constructor|lia].
    + destruct args as [|x args]; [by left|]. by apply (Hflag [_; _]); [constructor|simpl; lia].
Qed.
End parse_correct.

(** ** The declarations *)

(** The flags of the libraries have names that can be written, and differ from each other and from
    those of [main]. *)
Class LibraryFlagsLaws `{LibraryFlags} : Prop := {
  library_names : Forall (λ l, flag_name l.1) (package_flags ++ zap_flags);
  library_distinct : NoDup (package_flags.*1 ++ (fd_name <$> main_flags) ++ zap_flags.*1)
}.

Lemma flag_name_declarable name :
  flag_name name → ¬ (String.prefix "-" name = true ∨ str_free "="%char name = false).
Proof.
  destruct name as [|c name]; [done|]. intros [Hc Hfree]%andb_True. apply bool_decide_unpack in Hc.
  intros [Hp|Hf]; [|by rewrite Hf in Hfree]. change (String.prefix "-" (String c name)) with
    (if Ascii.ascii_dec "-" c then String.prefix "" name else false) in Hp. by destruct (Ascii.ascii_dec "-" c) as [<-|].
Qed.

Lemma declare_all_cons fs d ds : declare_all fs (d :: ds) = fs ← declare fs d; declare_all fs ds.
Proof. unfold declare_all. simpl. destruct (declare fs d); [done|]. simpl. by induction ds. Qed.

(** Flags with distinct names that can be written are declared without a panic. *)
Lemma declare_all_correct ds fs :
  Forall (λ d, flag_name (fd_name d)) ds → NoDup (fd_name <$> ds) →
  (∀ d, d ∈ ds → formal fs !! fd_name d = None) →
  ∃ fs', declare_all fs ds = Some fs' ∧ fs_flags fs' = foldl (λ f d, fd_default d f) (fs_flags fs) ds ∧
    fs_library fs' = fs_library fs ∧
    (∀ d, d ∈ ds → formal fs' !! fd_name d = Some (fd_value d)) ∧
    ∀ name, name ∉ (fd_name <$> ds) → formal fs' !! name = formal fs !! name.
Proof.
  revert fs. induction ds as [|d ds IH]; intros fs Hok Hnd Hnew.
  - exists fs. split_and!; [done..| |done]. intros d Hd. by apply elem_of_nil in Hd.
  - apply Forall_cons in Hok as [Hd Hok]. rewrite fmap_cons in Hnd. apply NoDup_cons in Hnd as [Hdis Hnd].
    rewrite declare_all_cons. unfold declare. rewrite decide_False by by apply flag_name_declarable.
    rewrite (Hnew d) by constructor. simpl.
    destruct (IH (mkFlagSet (fd_default d (fs_flags fs)) (fs_library fs) (<[fd_name d := fd_value d]> (formal fs))))
      as (fs' & -> & Hf & Hl & Hin & Hframe); [done..| |].
    { intros d' Hd'. simpl. rewrite lookup_insert_ne; [apply Hnew; by constructor|].
      intros Heq. apply Hdis. rewrite Heq. by apply list_elem_of_fmap_2. }
    exists fs'. simpl in *. split_and!; [done..| |].
    + intros d' [->|Hd']%elem_of_cons; [|by apply Hin]. rewrite Hframe by done. apply lookup_insert_eq.
    + intros name Hname. apply not_elem_of_cons in Hname as [Hne Hname]. rewrite Hframe by done.
      by rewrite lookup_insert_ne.
Qed.

Lemma main_flag_names : Forall (λ d, flag_name (fd_name d)) main_flags.
Proof. by repeat constructor. Qed.

(** The flags of [main] in a flag set. *)
Definition declared (fs : FlagSet) : Prop := ∀ d, d ∈ main_flags → formal fs !! fd_name d = Some (fd_value d).

(** A flag set that has the flags of the command line and no other. *)
Definition complete `{LibraryFlags} (fs : FlagSet) : Prop :=
  ∀ name v, formal fs !! name = Some v ↔
    ∃ d, d ∈ (flag_Var <$> package_flags) ++ main_flags ++ (flag_Var <$> zap_flags) ∧ fd_name d = name ∧ fd_value d = v.

Lemma all_flag_names `{LibraryFlagsLaws} :
  Forall (λ d, flag_name (fd_name d)) ((flag_Var <$> package_flags) ++ main_flags ++ (flag_Var <$> zap_flags)).
Proof.
  pose proof library_names as [Hp Hz]%Forall_app. rewrite !Forall_app.
  split_and!; [by apply Forall_fmap|apply main_flag_names|by apply Forall_fmap].
Qed.

Lemma CommandLine_declared `{LibraryFlagsLaws} :
  ∃ fs, CommandLine = Some fs ∧ fs_flags fs = default_flags ∧ fs_library fs = [] ∧ complete fs.
Proof.
  set (lib := fmap flag_Var : list (string * LibraryFlag) → list FlagDecl).
  assert (∀ l, fd_name <$> lib l = l.*1) as Hnames by (intros l; subst lib; by rewrite <-list_fmap_compose).
  assert (∀ l f, foldl (λ f d, fd_default d f) f (lib l) = f) as Hlib by (intros l; by induction l).
  pose proof library_distinct as Hnd. rewrite <-!Hnames, <-!fmap_app in Hnd.
  unfold CommandLine, complete. pose proof all_flag_names as Hok. fold (lib package_flags) (lib zap_flags) in Hok |- *.
  destruct (declare_all_correct _ (mkFlagSet zero_flags [] ∅) Hok Hnd) as (fs & Hfs & Hf & Hl & Hin & Hframe);
    [intros; apply lookup_empty|].
  exists fs. split_and!; [done| |done|].
  - rewrite Hf, !foldl_app, !Hlib. reflexivity.
  - intros name v. split; [|by intros (d & Hd & <- & <-); apply Hin]. intros Hv.
    destruct (decide (name ∈ (fd_name <$> (lib package_flags ++ main_flags ++ lib zap_flags)))) as [Hd|Hd].
    + apply list_elem_of_fmap in Hd as (d & -> & Hd). exists d. rewrite (Hin d Hd) in Hv. by injection Hv as <-.
    + by rewrite (Hframe name Hd) in Hv.
Qed.

Lemma CommandLine_correct `{LibraryFlagsLaws} :
  ∃ fs, CommandLine = Some fs ∧ fs_flags fs = default_flags ∧ fs_library fs = [] ∧ declared fs ∧ writable fs.
Proof.
  destruct CommandLine_declared as (fs & Hfs & Hf & Hl & Hc). exists fs. split_and!; [done..| |].
  - intros d Hd. apply Hc. exists d. rewrite !elem_of_app. split; [by right; left|done].
  - intros name v (d & Hd & <- & _)%Hc. pose proof all_flag_names as Hok. rewrite Forall_forall in Hok. by apply Hok.
Qed.

(** ** Settings

    A setting is the position of a flag of [main] in its list, and the text of a value. *)
Section settings.
Context `{GoRuntime}.
Implicit Types (f : Flags) (fs : FlagSet).

Definition assign (v : Value) (s : string) f : option Flags :=
  let set {A} (r : Or A) (var : A → Flags → Flags) := match r with inl _ => None | inr x => Some (var x f) end in
  match v with
  | StringVar var => set (inr s) var
  | BoolVar var => set (ParseBool s) var
  | IntVar var => set (ParseInt s) var
  | DurationVar var => set (time_ParseDuration s) var
  | Var _ => None
  end.

Fixpoint assigns (l : list (nat * string)) f : option Flags :=
  match l with
  | [] => Some f
  | (i, s) :: l => d ← main_flags !! i; f ← assign (fd_value d) s f; assigns l f
  end.

Definition setting_written (setting : nat * string) (piece : list string) : Prop :=
  ∃ d, main_flags !! setting.1 = Some d ∧ written (fd_value d) (fd_name d) piece setting.2.

Lemma Set_value_assign fs name v s f :
  assign v s (fs_flags fs) = Some f → Set_value fs name v s = inr (mkFlagSet f (fs_library fs) (formal fs)).
Proof. destruct v; simpl; [by intros [= <-]|..|done]; (case_match; [done|]); by intros [= <-]. Qed.

(** Settings are read one after the other. *)
Lemma reads_settings l pieces args fs rest f :
  declared fs → Forall2 setting_written l pieces → assigns l (fs_flags fs) = Some f → flags_end args rest →
  reads (concat pieces ++ args) fs (mkFlagSet f (fs_library fs) (formal fs)) rest.
Proof.
  intros Hd Hl. revert fs Hd. induction Hl as [|[i s] piece l pieces (d & Hi & Hw) _ IH]; intros fs Hd Ha Hend.
  - injection Ha as <-. destruct fs. by apply reads_end.
  - simpl in *. rewrite Hi in Ha. simpl in Ha. destruct (assign _ _ _) as [f1|] eqn:Hf1; [|done].
    rewrite <-app_assoc. eapply reads_flag; [by apply Hd; eapply list_elem_of_lookup_2|done|by apply Set_value_assign|].
    by apply (IH (mkFlagSet f1 (fs_library fs) (formal fs))).
Qed.
End settings.

(** ** Integers in decimal *)

Definition int64 (z : Z) : Prop := (- 2 ^ 63 ≤ z < 2 ^ 63)%Z.

Lemma pretty_digit d : (d < 10)%N → pretty_N_char d ≠ "_"%char ∧ digit (pretty_N_char d) = Some d.
Proof.
  intros Hd. assert (d ∈ [0; 1; 2; 3; 4; 5; 6; 7; 8; 9]%N) as Hin by (rewrite !elem_of_cons; lia).
  by repeat (apply elem_of_cons in Hin as [->|Hin]; [done|]); apply elem_of_nil in Hin.
Qed.

Lemma parse_digits_pretty x s u : (x < 2 ^ 64)%N → parse_digits 10 (pretty_N_go x s) 0 u = parse_digits 10 s x u.
Proof.
  revert s. induction (N.lt_wf_0 x) as [x _ IH]. intros s Hx. destruct (decide (x = 0)%N) as [->|Hne]; [done|].
  pose proof (N.mod_lt x 10 ltac:(done)) as Hmod. pose proof (N.div_mod x 10 ltac:(done)) as Hdiv.
  assert (N.div x 10 < x)%N as Hlt by (apply N.div_lt; lia).
  rewrite pretty_N_go_step by lia. rewrite IH by lia.
  destruct (pretty_digit _ Hmod) as [Hu Hd]. cbn [parse_digits]. rewrite decide_False by done. rewrite Hd.
  rewrite !decide_False by lia. by rewrite N.mul_comm, <-Hdiv.
Qed.

(** A positive number starts with a digit that is not zero. *)
Lemma pretty_first x s : (0 < x)%N → ∃ d t, (1 ≤ d < 10)%N ∧ pretty_N_go x s = String (pretty_N_char d) t.
Proof.
  revert s. induction (N.lt_wf_0 x) as [x _ IH]. intros s Hx. rewrite pretty_N_go_step by done.
  destruct (decide (x < 10)%N) as [Hlt|Hge].
  - rewrite (N.div_small x 10) by done. rewrite (N.mod_small x 10) by done. exists x, s. split; [lia|done].
  - apply IH; [by apply N.div_lt|]. apply N.div_str_pos. lia.
Qed.

Lemma ParseUint_pretty x : (x < 2 ^ 64)%N → ParseUint (pretty x) = inr x.
Proof.
  intros Hx. unfold pretty, pretty_N. case_decide as H0; [by subst|].
  destruct (pretty_first x "") as (d & t & Hd & Ht); [lia|].
  assert (base_prefix (pretty_N_go x "") = (10%N, pretty_N_go x "")) as Hbase.
  { rewrite Ht. assert (d ∈ [1; 2; 3; 4; 5; 6; 7; 8; 9]%N) as Hin by (rewrite !elem_of_cons; lia).
    by repeat (apply elem_of_cons in Hin as [->|Hin]; [done|]); apply elem_of_nil in Hin. }
  unfold ParseUint. rewrite decide_False by (by rewrite Ht). rewrite Hbase, parse_digits_pretty by done. done.
Qed.

(** The sign, and a number without one. *)
Lemma ParseInt_minus s :
  ParseInt (String "-" s) =
  match ParseUint s with
  | inl e => inl e
  | inr un => if bool_decide (2 ^ 63 < un)%N then inl ErrRange else inr (- Z.of_N un)%Z
  end.
Proof. unfold ParseInt. rewrite decide_False by done. simpl. destruct (ParseUint s); [done|]. by case_match. Qed.

Lemma ParseInt_digit d t (s := String (pretty_N_char d) t) :
  (1 ≤ d < 10)%N →
  ParseInt s =
  match ParseUint s with
  | inl e => inl e
  | inr un => if bool_decide (2 ^ 63 ≤ un)%N then inl ErrRange else inr (Z.of_N un)
  end.
Proof.
  intros Hd. assert (d ∈ [1; 2; 3; 4; 5; 6; 7; 8; 9]%N) as Hin by (rewrite !elem_of_cons; lia).
  unfold ParseInt. rewrite decide_False by done. subst s.
  repeat (apply elem_of_cons in Hin as [->|Hin]; [cbn -[ParseUint]; case_match; [done|]; by case_match|]).
  by apply elem_of_nil in Hin.
Qed.

(** [ParseInt] reads what is printed in decimal. *)
Lemma ParseInt_pretty z : int64 z → ParseInt (pretty z) = inr z.
Proof.
  intros [Hlo Hhi]. destruct z as [|p|p]; [done| |].
  - change (pretty (Z.pos p)) with (pretty (N.pos p)).
    assert (∃ d t, (1 ≤ d < 10)%N ∧ pretty (N.pos p) = String (pretty_N_char d) t) as (d & t & Hd & Ht).
    { apply (pretty_first (N.pos p) ""). lia. }
    rewrite Ht, ParseInt_digit, <-Ht, ParseUint_pretty by lia. rewrite bool_decide_false by lia. done.
  - change (pretty (Z.neg p)) with (String "-" (pretty (N.pos p))). rewrite ParseInt_minus, ParseUint_pretty by lia.
    rewrite bool_decide_false by lia. done.
Qed.

(** ** Printing flags *)

(** Durations have a format that [time.ParseDuration] reads back. *)
Class DurationFormat `{GoRuntime} := {
  Duration_String : Z → string;
  ParseDuration_String d : int64 d → time_ParseDuration (Duration_String d) = inr d
}.

Definition print_bool (b : bool) : string := if b then "true" else "false".

Section print.
Context `{DurationFormat}.
Implicit Types (f : Flags).

(** The values of the flags, in the order [main] declares them. *)
Definition flag_values f : list string := [
  metricsAddr f; probeAddr f; print_bool (enableLeaderElection f); print_bool (secureMetrics f);
  webhookCertPath f; webhookCertName f; webhookCertKey f; metricsCertPath f; metricsCertName f; metricsCertKey f;
  print_bool (enableHTTP2 f); Duration_String (batchDebounceInterval f); pretty (batchMaxSize f);
  Duration_String (stageTimeout f); Duration_String (cacheSyncPeriod f)
].

Definition print_flags f : list string :=
  zip_with (λ d s, "--" +:+ fd_name d +:+ "=" +:+ s) main_flags (flag_values f).

(** The integers fit their variables. *)
Definition flags_fit f : Prop :=
  int64 (batchDebounceInterval f) ∧ int64 (batchMaxSize f) ∧ int64 (stageTimeout f) ∧ int64 (cacheSyncPeriod f).

Lemma ParseBool_print b : ParseBool (print_bool b) = inr b.
Proof. by destruct b. Qed.

Lemma print_flags_settings f :
  Forall2 setting_written (zip (seq 0 15) (flag_values f)) ((λ s, [s]) <$> print_flags f).
Proof. repeat (constructor; [by eexists; split; [reflexivity|apply (written_attached _ _ "--"); right]|]). constructor. Qed.

Lemma assigns_flag_values f f0 : flags_fit f → assigns (zip (seq 0 15) (flag_values f)) f0 = Some f.
Proof.
  intros (Hd & Hm & Hs & Hc). destruct f0. simpl.
  rewrite !ParseBool_print, !ParseDuration_String, ParseInt_pretty by done. by destruct f.
Qed.
End print.

(** What a command line says the flags are, and what it leaves. *)
Definition says `{GoRuntime} `{LibraryFlags} (args : list string) (f : Flags) (rest : list string) : Prop :=
  ∃ fs fs', CommandLine = Some fs ∧ reads args fs fs' rest ∧ fs_flags fs' = f.

Lemma says_settings `{GoRuntime} `{LibraryFlagsLaws} l pieces args rest f :
  Forall2 setting_written l pieces → assigns l default_flags = Some f → flags_end args rest →
  says (concat pieces ++ args) f rest.
Proof.
  intros Hl Ha Hend. destruct CommandLine_correct as (fs & Hfs & Hf & _ & Hd & _). rewrite <-Hf in Ha.
  eexists fs, _. split; [done|]. split; [by eapply reads_settings|done].
Qed.

(** ** The deployed command lines

    The arguments of dist/install.yaml, and those the chart in dist/chart passes for its values. *)
Definition install_args : list string := [
  "--metrics-bind-address=:8443"; "--leader-elect"; "--health-probe-bind-address=:8081";
  "--webhook-cert-path=/tmp/k8s-webhook-server/serving-certs"
].

Record ChartValues := mkChartValues {
  metrics_enable : bool;
  metrics_secure : bool;
  metrics_port : string;
  manager_args : list string;
  certManager_enable : bool
}.

Definition chart_args (v : ChartValues) : list string :=
  (if metrics_enable v
   then ("--metrics-bind-address=:" +:+ metrics_port v) :: (if metrics_secure v then [] else ["--metrics-secure=false"])
   else ["--metrics-bind-address=0"]) ++
  ["--health-probe-bind-address=:8081"] ++
  manager_args v ++
  (if certManager_enable v then ["--webhook-cert-path=/tmp/k8s-webhook-server/serving-certs"] else []).

(** dist/chart/values.yaml: [secure] is documented as HTTPS with certificates and authorization. *)
Definition chart_values : ChartValues := mkChartValues true true "8443" ["--leader-elect"] true.

Definition deployed_flags : Flags :=
  set_metricsAddr ":8443" (set_enableLeaderElection true
    (set_webhookCertPath "/tmp/k8s-webhook-server/serving-certs" default_flags)).

Section deployed.
Context `{GoRuntime} `{LibraryFlagsLaws}.

(** A flag of [main] written in one argument. *)
Lemma written_at i d value piece :
  main_flags !! i = Some d → piece = "--" +:+ fd_name d +:+ "=" +:+ value → setting_written (i, value) [piece].
Proof. intros Hi ->. exists d. split; [done|]. apply (written_attached _ _ "--"). by right. Qed.

Lemma written_switch i d piece :
  main_flags !! i = Some d → is_bool_flag (fd_value d) = true → piece = "--" +:+ fd_name d →
  setting_written (i, "true") [piece].
Proof. intros Hi Hb ->. exists d. split; [done|]. apply (written_alone _ _ "--"); [done|by right]. Qed.

#[local] Hint Extern 1 (setting_written _ _) => (by eapply written_at) || (by eapply written_switch) : core.

Lemma install_says : says install_args deployed_flags [].
Proof.
  change install_args with (concat ((λ s, [s]) <$> install_args) ++ []).
  apply (says_settings
    [(0, ":8443"); (2, "true"); (1, ":8081"); (4, "/tmp/k8s-webhook-server/serving-certs")] ((λ s, [s]) <$> install_args));
    [by repeat (constructor; auto)|done|constructor].
Qed.

Lemma chart_says : says (chart_args chart_values) deployed_flags [].
Proof.
  change (chart_args chart_values) with (concat ((λ s, [s]) <$> chart_args chart_values) ++ []).
  apply (says_settings
    [(0, ":8443"); (1, ":8081"); (2, "true"); (4, "/tmp/k8s-webhook-server/serving-certs")]
    ((λ s, [s]) <$> chart_args chart_values));
    [by repeat (constructor; auto)|done|constructor].
Qed.
End deployed.

(** ** The flags by name

    What the flags are documented to do, independently of the declarations: the kind of each, and the
    variable that has the last value given to it. *)
Inductive Kind := Text | Boolean | Integer | Duration | Library (l : LibraryFlag).

Definition main_kinds : list (string * Kind) := [
  ("metrics-bind-address", Text); ("health-probe-bind-address", Text); ("leader-elect", Boolean);
  ("metrics-secure", Boolean); ("webhook-cert-path", Text); ("webhook-cert-name", Text); ("webhook-cert-key", Text);
  ("metrics-cert-path", Text); ("metrics-cert-name", Text); ("metrics-cert-key", Text); ("enable-http2", Boolean);
  ("batch-debounce-interval", Duration); ("batch-max-size", Integer); ("stage-timeout", Duration);
  ("cache-sync-period", Duration)
].

Fixpoint assoc {A} (name : string) (l : list (string * A)) : option A :=
  match l with [] => None | (n, a) :: l => if decide (n = name) then Some a else assoc name l end.

Definition kind `{LibraryFlags} (name : string) : option Kind :=
  match assoc name main_kinds with
  | Some k => Some k
  | None => Library <$> assoc name (package_flags ++ zap_flags)
  end.

Definition is_boolean (k : Kind) : bool :=
  match k with Boolean => true | Library l => IsBoolFlag l | _ => false end.

Definition accepts `{GoRuntime} (k : Kind) (value : string) : Prop :=
  match k with
  | Text => True
  | Boolean => ∃ b, ParseBool value = inr b
  | Integer => ∃ z, ParseInt value = inr z
  | Duration => ∃ d, time_ParseDuration value = inr d
  | Library l => Set_ l value = None
  end.

(** The spellings of one setting. *)
Inductive spelled (boolean : bool) (name : string) : list string → string → Prop :=
| spelled_attached d value : dashes d → spelled boolean name [d +:+ name +:+ "=" +:+ value] value
| spelled_next d value : boolean = false → dashes d → spelled boolean name [d +:+ name; value] value
| spelled_alone d : boolean = true → dashes d → spelled boolean name [d +:+ name] "true".

(** The settings on a command line, in order. *)
Inductive sets `{GoRuntime} `{LibraryFlags} : list string → list (string * string) → list string → Prop :=
| sets_end args rest : flags_end args rest → sets args [] rest
| sets_flag name k piece value args l rest :
    kind name = Some k → spelled (is_boolean k) name piece value → accepts k value →
    sets args l rest → sets (piece ++ args) ((name, value) :: l) rest.

(** The last value given to a flag. *)
Fixpoint given (l : list (string * string)) (name : string) : option string :=
  match l with
  | [] => None
  | (n, value) :: l =>
      match given l name with Some x => Some x | None => if decide (n = name) then Some value else None end
  end.

Record flags_from `{GoRuntime} (f0 : Flags) (l : list (string * string)) (f : Flags) : Prop := {
  ff_metricsAddr : metricsAddr f = default (metricsAddr f0) (given l "metrics-bind-address");
  ff_probeAddr : probeAddr f = default (probeAddr f0) (given l "health-probe-bind-address");
  ff_enableLeaderElection :
    inr (enableLeaderElection f) = default (inr (enableLeaderElection f0)) (ParseBool <$> given l "leader-elect");
  ff_secureMetrics : inr (secureMetrics f) = default (inr (secureMetrics f0)) (ParseBool <$> given l "metrics-secure");
  ff_webhookCertPath : webhookCertPath f = default (webhookCertPath f0) (given l "webhook-cert-path");
  ff_webhookCertName : webhookCertName f = default (webhookCertName f0) (given l "webhook-cert-name");
  ff_webhookCertKey : webhookCertKey f = default (webhookCertKey f0) (given l "webhook-cert-key");
  ff_metricsCertPath : metricsCertPath f = default (metricsCertPath f0) (given l "metrics-cert-path");
  ff_metricsCertName : metricsCertName f = default (metricsCertName f0) (given l "metrics-cert-name");
  ff_metricsCertKey : metricsCertKey f = default (metricsCertKey f0) (given l "metrics-cert-key");
  ff_enableHTTP2 : inr (enableHTTP2 f) = default (inr (enableHTTP2 f0)) (ParseBool <$> given l "enable-http2");
  ff_batchDebounceInterval :
    inr (batchDebounceInterval f) =
      default (inr (batchDebounceInterval f0)) (time_ParseDuration <$> given l "batch-debounce-interval");
  ff_batchMaxSize : inr (batchMaxSize f) = default (inr (batchMaxSize f0)) (ParseInt <$> given l "batch-max-size");
  ff_stageTimeout :
    inr (stageTimeout f) = default (inr (stageTimeout f0)) (time_ParseDuration <$> given l "stage-timeout");
  ff_cacheSyncPeriod :
    inr (cacheSyncPeriod f) = default (inr (cacheSyncPeriod f0)) (time_ParseDuration <$> given l "cache-sync-period")
}.

Section by_name.
Context `{GoRuntime} `{LibraryFlagsLaws}.
Implicit Types (f : Flags) (fs : FlagSet) (args rest : list string).

Lemma flags_from_nil f : flags_from f [] f.
Proof. by split. Qed.

Lemma given_cons n value l name :
  given ((n, value) :: l) name = match given l name with Some x => Some x | None => given [(n, value)] name end.
Proof. done. Qed.

Lemma flags_from_cons f f1 f2 setting l :
  flags_from f [setting] f1 → flags_from f1 l f2 → flags_from f (setting :: l) f2.
Proof.
  destruct setting as [n value]. intros H1' H2'.
  split; rewrite given_cons; destruct H1', H2'; match goal with |- context [given l ?x] => destruct (given l x) end; simpl in *; congruence.
Qed.

Lemma flags_from_unique f l f1 f2 : flags_from f l f1 → flags_from f l f2 → f1 = f2.
Proof. intros [] []. destruct f1, f2. simpl in *. f_equal; congruence. Qed.

(** *** The declarations make this table *)

Lemma assoc_elem {A} n (a : A) (l : list (string * A)) : NoDup l.*1 → (n, a) ∈ l → assoc n l = Some a.
Proof.
  induction l as [|[m b] l IH]; simpl; [by intros _ ?%elem_of_nil|]. intros [Hm Hl]%NoDup_cons [[= -> ->]|Hin]%elem_of_cons.
  - by rewrite decide_True.
  - rewrite decide_False; [by apply IH|]. intros ->. apply Hm. by apply (list_elem_of_fmap_2' fst _ (n, a)).
Qed.

Lemma assoc_notin {A} n (l : list (string * A)) : n ∉ l.*1 → assoc n l = None.
Proof.
  induction l as [|[m b] l IH]; simpl; [done|]. intros [Hm Hl]%not_elem_of_cons. rewrite decide_False by done. by apply IH.
Qed.

Lemma assoc_some {A} n (l : list (string * A)) a : assoc n l = Some a → (n, a) ∈ l.
Proof.
  induction l as [|[m b] l IH]; simpl; [done|]. case_decide as Hm; [intros [= <-]; subst; by left|].
  intros ?. right. by apply IH.
Qed.

Lemma main_kinds_names : main_kinds.*1 = fd_name <$> main_flags.
Proof. reflexivity. Qed.

(** Setting the flag [name], of kind [k], has its documented effect. *)
Definition effective fs name (v : Value) (k : Kind) : Prop :=
  is_bool_flag v = is_boolean k ∧ ∀ value,
    (accepts k value → ∃ fs1, Set_value fs name v value = inr fs1) ∧
    ∀ fs1, Set_value fs name v value = inr fs1 → accepts k value ∧ flags_from (fs_flags fs) [(name, value)] (fs_flags fs1).

Lemma main_effective fs d :
  d ∈ main_flags → ∃ k, kind (fd_name d) = Some k ∧ effective fs (fd_name d) (fd_value d) k.
Proof.
  intros Hd. destruct fs as [f library vs].
  repeat (apply elem_of_cons in Hd as [->|Hd];
    [eexists; split; [reflexivity|]; split; [reflexivity|]; intros value; split;
      [cbn; try (intros [x ->]); eauto
      |cbn; intros fs1; try case_match eqn:Hv; intros [= <-]; (split; [by eauto|]);
       destruct f; split; simpl; congruence]|]).
  by apply elem_of_nil in Hd.
Qed.

Lemma library_effective fs name l :
  (name, l) ∈ package_flags ++ zap_flags → kind name = Some (Library l) ∧ effective fs name (Var l) (Library l).
Proof.
  intros Hl. pose proof library_distinct as Hnd. rewrite <-main_kinds_names in Hnd.
  assert (name ∉ main_kinds.*1) as Hn.
  { intros Hm. apply NoDup_app in Hnd as (_ & Hp & Hnd). apply NoDup_app in Hnd as (_ & Hz & _).
    apply elem_of_app in Hl as [Hl|Hl].
    - apply (Hp name); [by apply (list_elem_of_fmap_2' fst _ (name, l))|apply elem_of_app; by left].
    - apply (Hz name); [done|by apply (list_elem_of_fmap_2' fst _ (name, l))]. }
  split.
  - unfold kind. rewrite assoc_notin by done. rewrite (assoc_elem name l); [done| |done].
    rewrite fmap_app. apply NoDup_app in Hnd as (Hp & Hpm & Hnd). apply NoDup_app in Hnd as (_ & _ & Hz).
    apply NoDup_app. split_and!; [done| |done]. intros x Hx Hx'. apply (Hpm x); [done|]. apply elem_of_app. by right.
  - split; [done|]. intros value. simpl. split; [intros ->; eauto|]. intros fs1. destruct (Set_ l value) eqn:Hset; [done|].
    intros [= <-]. split; [done|]. simpl in Hn. rewrite !not_elem_of_cons in Hn.
    split; simpl; rewrite decide_False by tauto; done.
Qed.

Lemma complete_effective fs name v :
  complete fs → formal fs !! name = Some v → ∃ k, kind name = Some k ∧ effective fs name v k.
Proof.
  intros Hc (d & Hd & <- & <-)%Hc. rewrite !elem_of_app in Hd.
  destruct Hd as [([n l] & -> & Hx)%list_elem_of_fmap|[Hd|([n l] & -> & Hx)%list_elem_of_fmap]];
    [|by apply main_effective|]; eexists; apply library_effective, elem_of_app; [by left|by right].
Qed.

Lemma kind_declared fs name k : complete fs → kind name = Some k → ∃ v, formal fs !! name = Some v.
Proof.
  intros Hc. unfold kind. destruct (assoc name main_kinds) as [k'|] eqn:Hm.
  - intros _. apply assoc_some in Hm. assert (name ∈ main_kinds.*1) as Hn by by apply (list_elem_of_fmap_2' fst _ (name, k')).
    rewrite main_kinds_names in Hn. clear Hm. rename Hn into Hm. apply list_elem_of_fmap in Hm as (d & -> & Hd). exists (fd_value d). apply Hc.
    exists d. split; [|done]. rewrite !elem_of_app. by right; left.
  - destruct (assoc name (package_flags ++ zap_flags)) as [l|] eqn:Hl; [|by intros [=]]. intros _.
    apply assoc_some in Hl. exists (Var l). apply Hc.
    exists (flag_Var (name, l)). split; [|done]. rewrite !elem_of_app. apply elem_of_app in Hl as [Hl|Hl];
      [left|right; right]; by apply list_elem_of_fmap_2.
Qed.

Lemma written_spelled v name piece value : written v name piece value ↔ spelled (is_bool_flag v) name piece value.
Proof. split; destruct 1; by constructor. Qed.

(** *** The grammar of the flag set is that of the table *)

Lemma complete_Set fs name v value fs1 : complete fs → Set_value fs name v value = inr fs1 → complete fs1.
Proof. intros Hc Hset n v'. rewrite (Set_value_formal _ _ _ _ _ Hset). apply Hc. Qed.

Lemma reads_sets args fs fs' rest :
  complete fs → reads args fs fs' rest → ∃ l, sets args l rest ∧ flags_from (fs_flags fs) l (fs_flags fs').
Proof.
  intros Hc Hr. induction Hr as [args fs rest Hend|name v piece value args fs fs1 fs2 rest Hv Hp Hset _ IH].
  - exists []. split; [by constructor|apply flags_from_nil].
  - destruct (complete_effective fs name v Hc Hv) as (k & Hk & Hb & He). destruct (He value) as [_ Heff].
    destruct (Heff fs1 Hset) as [Ha Hf]. destruct IH as (l & Hl & Hf'); [by eapply complete_Set|].
    exists ((name, value) :: l). split; [|by eapply flags_from_cons].
    eapply sets_flag; [done| |done|done]. rewrite <-Hb. by apply written_spelled.
Qed.

Lemma sets_reads args l rest fs :
  complete fs → sets args l rest → ∃ fs', reads args fs fs' rest ∧ flags_from (fs_flags fs) l (fs_flags fs').
Proof.
  intros Hc Hs. revert fs Hc. induction Hs as [args rest Hend|name k piece value args l rest Hk Hp Ha _ IH]; intros fs Hc.
  - exists fs. split; [by constructor|apply flags_from_nil].
  - destruct (kind_declared fs name k Hc Hk) as [v Hv]. destruct (complete_effective fs name v Hc Hv) as (k' & Hk' & Hb & He).
    rewrite Hk in Hk'. injection Hk' as <-. destruct (He value) as [Hacc Heff]. destruct (Hacc Ha) as [fs1 Hset].
    destruct (IH fs1) as (fs' & Hr & Hf); [by eapply complete_Set|]. exists fs'. split.
    + eapply reads_flag; [done| |done|done]. apply written_spelled. by rewrite Hb.
    + eapply flags_from_cons; [|done]. by apply Heff.
Qed.

(** What the command line says is what its settings say, by name. *)
Lemma says_sets args f rest : says args f rest ↔ ∃ l, sets args l rest ∧ flags_from default_flags l f.
Proof.
  destruct CommandLine_declared as (fs & Hfs & Hf & _ & Hc). unfold says. rewrite <-Hf. split.
  - intros (fs0 & fs' & Hfs0 & Hr & <-). rewrite Hfs in Hfs0. injection Hfs0 as <-. by apply reads_sets.
  - intros (l & Hl & Hl'). destruct (sets_reads args l rest fs Hc Hl) as (fs' & Hr & Hl''). exists fs, fs'.
    split_and!; [done|done|]. by eapply flags_from_unique.
Qed.
End by_name.

(** The manager [main] asks for has the options of its flags. *)
Lemma planned_manager `{GoRuntime} f o : NewManager o ∈ planned f → o = manager_options f.
Proof.
  unfold planned, planned_tls, planned_registrations. intros Hin.
  repeat (case_decide; cbn [app] in Hin);
    repeat (apply elem_of_cons in Hin as [Hin|Hin]; [by inversion Hin|]); by apply elem_of_nil in Hin.
Qed.

(** ** Properties *)

Section properties.
Context `{Client W} `{!GCTrackerInterface W} `{!EventRecorder W} `{SchemeInterface} `{ExpirableLRU} `{ExpirableSet}
  `{RangeOrder} `{ThirdParty} `{GoRuntime} `{LibraryFlagsLaws}.
Variables (fails : Action → bool) (grow : nat → nat) (as_interface : GCTracker → Tracker).
Implicit Types (args rest : list string).

Lemma program_says args rest f version scheme s :
  says args f rest →
  program fails grow as_interface args version scheme s = main fails grow as_interface f version scheme s.
Proof.
  intros (fs & fs' & Hfs & Hr & <-). destruct CommandLine_correct as (fs0 & Hfs0 & _ & _ & _ & Hw).
  rewrite Hfs in Hfs0. injection Hfs0 as <-. unfold program. by rewrite Hfs, (reads_parse _ _ _ _ Hw Hr).
Qed.

(** C26. The process runs with the flags its command line sets.  When the arguments are settings of the flags
    there are, each spelled with one dash or two, with an equals sign or, unless it is a boolean flag,
    as an argument of its own, and each with a value of its kind, then each of the fifteen variables of [main] has the
    last value given to the flag named for it, and its default when none is ([flags_from]), and [main] runs
    with them.  Otherwise the process ends without a call: with 2, or with 0 if help was asked for. *)
Theorem program_correct args version scheme s :
  let '(s', r) := program fails grow as_interface args version scheme s in
  (∃ l rest f, sets args l rest ∧ flags_from default_flags l f ∧ main fails grow as_interface f version scheme s = (s', r)) ∨
  ((¬ ∃ l rest, sets args l rest) ∧ s' = s ∧ (r = OsExit 2 ∨ r = OsExit 0 ∧ asks_help args)).
Proof.
  destruct CommandLine_declared as (fs & Hfs & Hf & _ & Hc). destruct CommandLine_correct as (fs' & Hfs' & _ & _ & _ & Hw).
  rewrite Hfs in Hfs'. injection Hfs' as <-. pose proof (flag_Parse_outcome args fs) as Ho.
  unfold program. rewrite Hfs. destruct (flag_Parse args fs) as [[fs' rest]|code] eqn:Hp.
  - destruct (main _ _ _ _ _ _ _) as [s' r] eqn:Hm. left. rewrite <-Hf.
    destruct (reads_sets args fs fs' rest Hc Ho) as (l & Hl & Hl'). by exists l, rest, (fs_flags fs').
  - simpl. right. split_and!; [|done|].
    + intros (l & rest & Hl). destruct (sets_reads args l rest fs Hc Hl) as (fs' & Hr & _).
      by rewrite (reads_parse _ _ _ _ Hw Hr) in Hp.
    + destruct Ho as [->|[-> Hh]]; [by left|by right].
Qed.

(** C27. Flags survive the command line: printed as [--name=value] they are read back as they were, whatever
    arguments that are no flags follow, and the process runs with them. *)
Theorem flags_roundtrip `{!DurationFormat} f args rest version scheme s :
  flags_fit f → flags_end args rest →
  says (print_flags f ++ args) f rest ∧
  program fails grow as_interface (print_flags f ++ args) version scheme s = main fails grow as_interface f version scheme s.
Proof.
  intros Hfit Hend. assert (says (print_flags f ++ args) f rest) as Hsays; [|split; [done|by eapply program_says]].
  replace (print_flags f) with (concat ((λ s, [s]) <$> print_flags f)) by (by induction (print_flags f); f_equal/=).
  eapply says_settings; [apply print_flags_settings|by apply assigns_flag_values|done].
Qed.
Lemma program_manager args rest f version scheme o :
  says args f rest → NewManager o ∈ su_log (program fails grow as_interface args version scheme (mkSetup [] [])).1 →
  o = manager_options f.
Proof.
  intros Hs. rewrite (program_says _ _ _ _ _ _ Hs). pose proof (main_performs fails grow as_interface f version scheme (mkSetup [] [])) as Hp.
  destruct (main _ _ _ _ _ _ _) as [s r]. destruct Hp as [Hlog _]. simpl in *. rewrite Hlog. intros Hin.
  pose proof (until_failure_spec fails (planned f)) as Hu. apply planned_manager.
  destruct (until_failure fails (planned f)) as [l [a|]]; simpl in *.
  - destruct Hu as (before & after & -> & -> & _). rewrite elem_of_app in Hin |- *. destruct Hin as [Hin|Hin]; [by left|right].
    apply list_elem_of_singleton in Hin as ->. by left.
  - by destruct Hu as [-> _].
Qed.

(** C28. The metrics of a deployed process are not protected: with the arguments of dist/install.yaml, and with
    those of the chart when its values ask for HTTPS with authorization, the metrics server is bound to :8443 and serves
    plain HTTP without the authorization filter, since neither passes the flag that asks for it. *)
Theorem deployed_metrics_unprotected args version scheme o :
  args ∈ [install_args; chart_args chart_values] →
  NewManager o ∈ su_log (program fails grow as_interface args version scheme (mkSetup [] [])).1 →
  mo_MetricsBindAddress o = ":8443" ∧ mo_SecureServing o = false ∧ mo_FilterProvider o = false.
Proof.
  rewrite elem_of_cons, list_elem_of_singleton. intros [->| ->] Hin.
  - by rewrite (program_manager _ _ _ _ _ _ install_says Hin).
  - by rewrite (program_manager _ _ _ _ _ _ chart_says Hin).
Qed.
End properties.

(** ** Concrete command lines *)

Module CommandLineExamples.
Import InMemory ResourceExamples SetupExamples.
#[local] Existing Instance range_forward.
#[local] Existing Instance reference_third_party.
#[local] Existing Instance reference_lru.
#[local] Existing Instance reference_set.

(** Durations in nanoseconds. *)
Definition ns_String (d : Z) : string := pretty d +:+ "ns".

Definition ns_Parse (s : string) : Or Z :=
  if decide (2 ≤ String.length s ∧ String.substring (String.length s - 2) 2 s = "ns")
  then ParseInt (String.substring 0 (String.length s - 2) s)
  else inl (ErrNew "time: invalid duration").

#[local] Instance runtime1 : GoRuntime := {|
  Getenv := @Getenv runtime0;
  regexp_Compile := @regexp_Compile runtime0;
  time_ParseDuration := ns_Parse;
  filepath_Join := @filepath_Join runtime0
|}.

Lemma substring_app_l s t : String.substring 0 (String.length s) (s +:+ t) = s.
Proof. induction s as [|a s IH]; [by destruct t|]. rewrite str_app_cons. simpl. by rewrite IH. Qed.

Lemma substring_app_r s t n : n = String.length s → String.substring n (String.length t) (s +:+ t) = t.
Proof.
  intros ->. induction s as [|a s IH]; [|by rewrite str_app_cons].
  rewrite str_app_nil_l. simpl. induction t as [|b t IH]; [done|]. simpl. by rewrite IH.
Qed.

#[local] Program Instance ns_format : DurationFormat := {| Duration_String := ns_String |}.
Next Obligation.
  intros d Hd. simpl. unfold ns_Parse, ns_String. rewrite str_length_app. change (String.length "ns") with 2.
  replace (String.length (pretty d) + 2 - 2) with (String.length (pretty d)) by lia.
  rewrite (substring_app_r (pretty d) "ns") by done. rewrite decide_True by (split; [lia|done]).
  rewrite substring_app_l. by apply ParseInt_pretty.
Qed.

(** The flags of the libraries: a path, and the options of the logger. *)
Definition any_value (s : string) : option error := None.
#[local] Instance library0 : LibraryFlags := {|
  package_flags := [("kubeconfig", mkLibraryFlag false any_value)];
  zap_flags := [("zap-devel", mkLibraryFlag true (λ s, match ParseBool s with inl e => Some e | inr _ => None end));
    ("zap-log-level", mkLibraryFlag false any_value)]
|}.
#[local] Instance library0_laws : LibraryFlagsLaws.
Proof. split; [by repeat constructor|by apply (bool_decide_unpack _)]. Qed.

Definition run_program (args : list string) :=
  program (W := World) (λ _, false) S marker args "v1" scheme0 (mkSetup [] []).
Definition run_flags (args : list string) : option (Flags * list string) :=
  fs ← CommandLine; match flag_Parse args fs with Running (fs, rest) => Some (fs_flags fs, rest) | OsExit _ => None end.
Definition run_exit (args : list string) : option Z :=
  match run_program args with (_, OsExit code) => Some code | _ => None end.

(** A command line with a flag there is not. *)
Lemma program_correct_witness :
  run_exit ["--leader-elect"; "--metrics"] = Some 2%Z ∧ ¬ (∃ l rest, sets ["--leader-elect"; "--metrics"] l rest).
Proof.
  assert (run_exit ["--leader-elect"; "--metrics"] = Some 2%Z) as Hrun by (vm_compute; reflexivity).
  split; [exact Hrun|]. unfold run_exit, run_program in Hrun.
  pose proof (program_correct (W := World) (λ _, false) S marker ["--leader-elect"; "--metrics"] "v1" scheme0 (mkSetup [] [])) as Hp.
  destruct (program _ _ _ _ _ _ _) as [s' [p|code]] eqn:Hprog; [discriminate|].
  destruct Hp as [(l & rest & f & Hs & Hf & Hm)|[Hn _]]; [|exact Hn].
  exfalso. pose proof (main_performs (W := World) (λ _, false) S marker f "v1" scheme0 (mkSetup [] [])) as Hperf.
  rewrite Hm in Hperf. destruct Hperf as [_ Hr].
  pose proof (until_failure_spec (λ _, false) (planned f)) as Hu.
  destruct (until_failure (λ _, false) (planned f)) as [l' [a|]]; simpl in *.
  - destruct Hu as (? & ? & _ & _ & Hfa & _). discriminate.
  - destruct Hr as [a Hr]. discriminate.
Defined.

Lemma flags_roundtrip_witness : says (print_flags flags0 ++ ["--"; "x"]) flags0 ["x"].
Proof.
  refine (proj1 (flags_roundtrip (W := World) (λ _, false) S marker flags0 ["--"; "x"] ["x"] "v1" scheme0 (mkSetup [] []) _ _)).
  - unfold flags_fit, int64. cbn. unfold second, minute. lia.
  - constructor.
Defined.

(** The manager of the chart. *)
Definition chart_manager : ManagerOptions := manager_options deployed_flags.

Lemma deployed_metrics_unprotected_witness :
  mo_MetricsBindAddress chart_manager = ":8443" ∧ mo_SecureServing chart_manager = false ∧ mo_FilterProvider chart_manager = false.
Proof.
  apply (deployed_metrics_unprotected (W := World) (λ _, false) S marker (chart_args chart_values) "v1" scheme0 chart_manager).
  - right; left.
  - apply (bool_decide_unpack _). vm_compute. exact I.
Defined.

(** The values of libraries are not those of [main]; a boolean flag takes no argument of its own, so that
    [false] ends the flags; the last of two values counts. *)
Example library_flag : run_flags ["-zap-log-level"; "debug"; "--zap-devel=f"] = Some (default_flags, []).
Proof. by vm_compute. Qed.
Example detached_false :
  run_flags ["--leader-elect"; "false"; "--metrics-secure"] =
  Some (set_enableLeaderElection true default_flags, ["false"; "--metrics-secure"]).
Proof. by vm_compute. Qed.
Example last_counts :
  run_flags ["--batch-max-size=10"; "-batch-max-size"; "0x_20"] = Some (set_batchMaxSize 32 default_flags, []).
Proof. by vm_compute. Qed.
Example exits :
  run_exit <$> [["--help"]; ["---x"]; ["--batch-max-size"]; ["--batch-max-size=9223372036854775808"];
                ["--leader-elect=yes"]; ["--stage-timeout=5"]] =
  [Some 0%Z; Some 2%Z; Some 2%Z; Some 2%Z; Some 2%Z; Some 2%Z].
Proof. by vm_compute. Qed.
End CommandLineExamples.
