(* ===== verification/Scheme.v ===== *)
(** * The registration of the types

    src/api/v1beta1/groupversion_info.go and the [init] functions of the two files of types and of
    src/cmd/main.go: how the scheme of the process learns the two custom resources.  Owner references
    ([ownerReferenceAC]) and with them the watches of owned objects need a scheme that knows them; that
    it does is a hypothesis, [registered], of the theorems of [Watches], which is proved here. *)

From Stdlib Require Import ZArith.
From S2P Require Import Prelude GoLib Api Scopes ServiceAccounts Access Cluster Resources Engine Webhooks Pipeline Debouncer Collector Retry StateSync Controllers Watches Setup.

(** ** The libraries *)

(** [schema.GroupVersion] and [schema.GroupVersionKind] *)
Record GroupVersion := mkGroupVersion { gv_Group : string; gv_Version : string }.
Record GroupVersionKind := mkGVK { gvk_GroupVersion : GroupVersion; gvk_Kind : string }.

#[export] Instance GroupVersion_eq_dec : EqDecision GroupVersion.
Proof. solve_decision. Defined.
#[export] Instance GroupVersionKind_eq_dec : EqDecision GroupVersionKind.
Proof. solve_decision. Defined.
#[export] Instance GroupVersionKind_countable : Countable GroupVersionKind.
Proof.
  apply (inj_countable' (λ k, (gv_Group (gvk_GroupVersion k), gv_Version (gvk_GroupVersion k), gvk_Kind k))
    (λ '(g, v, k), mkGVK (mkGroupVersion g v) k)). by intros [[]].
Defined.

(** [GroupVersion.String] *)
Definition gv_String (gv : GroupVersion) : string :=
  if decide (gv_Group gv = "") then gv_Version gv else gv_Group gv +:+ "/" +:+ gv_Version gv.

(** A Go type, as reflection shows it. *)
Record GoType := mkGoType { gt_Package : string; gt_Name : string }.

#[export] Instance GoType_eq_dec : EqDecision GoType.
Proof. solve_decision. Defined.

(** The package of the two custom resources, and the one whose types every group version gets. *)
Definition api_package : string := "github.com/octopusdeploy/octopus-permissions-controller/api/v1beta1".
Definition meta_package : string := "k8s.io/apimachinery/pkg/apis/meta/v1".

(** [runtime.Scheme], [scheme.Builder] of controller-runtime, and [AddToScheme] of client-go. *)
Class SchemeLib `{SchemeInterface} := {
  NewScheme : RuntimeScheme;
  AllKnownTypes : RuntimeScheme → gmap GroupVersionKind GoType;
  Builder : Type;
  NewBuilder : GroupVersion → Builder;             (** [&scheme.Builder{GroupVersion: gv}] *)
  Register : Builder → list GoType → Builder;
  Builder_AddToScheme : Builder → RuntimeScheme → Result RuntimeScheme;
  clientgoscheme_AddToScheme : RuntimeScheme → Result RuntimeScheme
}.

(** The type of the object behind a resource. *)
Definition resource_type (resource : WSAResource) : GoType :=
  mkGoType api_package (if IsClusterScoped resource then "ClusterWorkloadServiceAccount" else "WorkloadServiceAccount").

(** What their documentation says: a builder adds the types registered with it under their names to its
    group version, and the meta types with them; client-go adds types of Kubernetes; the kind of an
    object is the one its type is known by, if there is only one. *)
Class SchemeLibLaws `{SchemeLib} := {
  builder_adds : Builder → GroupVersion → list GoType → Prop;
  NewScheme_doc : AllKnownTypes NewScheme = ∅;
  NewBuilder_doc gv : builder_adds (NewBuilder gv) gv [];
  Register_doc b gv types types' : builder_adds b gv types → builder_adds (Register b types') gv (types ++ types');
  AddToScheme_doc b gv types s s' : builder_adds b gv types → Builder_AddToScheme b s = ROk s' →
    ∀ k T, gt_Package T ≠ meta_package →
      (AllKnownTypes s' !! k = Some T ↔ AllKnownTypes s !! k = Some T ∨ (T ∈ types ∧ k = mkGVK gv (gt_Name T)));
  clientgo_doc s s' : clientgoscheme_AddToScheme s = ROk s' →
    ∀ k T, gt_Package T = api_package → AllKnownTypes s' !! k = Some T ↔ AllKnownTypes s !! k = Some T;
  GVKForObject_doc resource s k :
    (∀ k', AllKnownTypes s !! k' = Some (resource_type resource) ↔ k' = k) →
    GVKForObject resource s = Some (gv_String (gvk_GroupVersion k), gvk_Kind k)
}.

(** ** The package api/v1beta1 *)

Definition SchemeGroupVersion : GroupVersion := mkGroupVersion GroupVersion_Group "v1beta1".

Section registration.
Context `{SchemeLib}.

(** [SchemeBuilder] is a variable that holds a pointer: the builder it points to is the state. *)
Definition SchemeBuilder_init : M Builder () := λ _, (NewBuilder SchemeGroupVersion, ()).

(** The [init] functions of the two files. *)
Definition init_cwsa : M Builder () := λ b,
  (Register b [mkGoType api_package "ClusterWorkloadServiceAccount"; mkGoType api_package "ClusterWorkloadServiceAccountList"], ()).
Definition init_wsa : M Builder () := λ b,
  (Register b [mkGoType api_package "WorkloadServiceAccount"; mkGoType api_package "WorkloadServiceAccountList"], ()).

(** The variable [AddToScheme] is the method of that pointer, bound before the types are registered:
    a call sees the builder as it then is. *)
Definition AddToScheme (s : RuntimeScheme) : M Builder (Result RuntimeScheme) := λ b, (b, Builder_AddToScheme b s).

(** ** [init] of cmd/main.go *)

(** [utilruntime.Must] panics on an error. *)
Definition Must (r : Result RuntimeScheme) : Result RuntimeScheme :=
  match r with RErr _ => RPanic | _ => r end.

Definition main_init (scheme : RuntimeScheme) : M Builder (Result RuntimeScheme) :=
  match Must (clientgoscheme_AddToScheme scheme) with
  | ROk scheme => let* r := AddToScheme scheme in ret (Must r)
  | r => ret r
  end.

(** The initialisation of the program: the variables of the imported package, its [init] functions in the
    order of its files, which the language leaves to the build, and then those of the main package. *)
Definition program_init (inits : list (M Builder ())) : M Builder (Result RuntimeScheme) :=
  let* _ := SchemeBuilder_init in
  let* _ := for_each inits () (λ f _, f) in
  main_init NewScheme.
End registration.

(** ** What the scheme knows *)

Definition api_kinds : list string :=
  ["WorkloadServiceAccount"; "WorkloadServiceAccountList"; "ClusterWorkloadServiceAccount"; "ClusterWorkloadServiceAccountList"].

Section known.
Context `{Client W} `{!GCTrackerInterface W} `{!EventRecorder W} `{SchemeLibLaws} `{ExpirableLRU} `{ExpirableSet}
  `{RangeOrder} `{ThirdParty} `{GoRuntime}.

Lemma inits_register inits b0 :
  inits ≡ₚ [init_cwsa; init_wsa] →
  let b := ((let* _ := SchemeBuilder_init in for_each inits () (λ f _, f)) b0).1 in
  ∃ types, builder_adds b SchemeGroupVersion types ∧
    ∀ T, T ∈ types ↔ gt_Package T = api_package ∧ gt_Name T ∈ api_kinds.
Proof.
  intros Hperm. apply Permutation_sym, Permutation_length_2_inv in Hperm.
  assert (∀ types : list GoType, types ≡ₚ mkGoType api_package <$> api_kinds →
    ∀ T, T ∈ types ↔ gt_Package T = api_package ∧ gt_Name T ∈ api_kinds) as Hin.
  { intros types Hp T. rewrite Hp, list_elem_of_fmap. split; [by intros (n & -> & ?)|]. intros [<- ?].
    exists (gt_Name T). by destruct T. }
  destruct Hperm as [-> | ->]; eexists; (split; [apply Register_doc, Register_doc, NewBuilder_doc|]); apply Hin; simpl.
  - apply (Permutation_app_comm [_; _] [_; _]).
  - done.
Qed.

Lemma program_init_cases inits b0 :
  match (program_init inits b0).2 with
  | ROk s => ∃ s1, clientgoscheme_AddToScheme NewScheme = ROk s1 ∧
      Builder_AddToScheme ((let* _ := SchemeBuilder_init in for_each inits () (λ f _, f)) b0).1 s1 = ROk s
  | RErr _ => False
  | RPanic => True
  end.
Proof.
  unfold program_init, bind. simpl. destruct (for_each inits _ _ _) as [b []]. unfold main_init, bind, AddToScheme, ret.
  destruct (clientgoscheme_AddToScheme NewScheme) as [s1| |]; simpl; [|done..].
  destruct (Builder_AddToScheme b s1) as [s| |] eqn:Hb; simpl; [|done..]. by exists s1.
Qed.

(** The types of the package are known by their names in its group version, and no other way. *)
Lemma init_known inits b0 s T k :
  inits ≡ₚ [init_cwsa; init_wsa] → (program_init inits b0).2 = ROk s → gt_Package T = api_package →
  AllKnownTypes s !! k = Some T ↔ k = mkGVK SchemeGroupVersion (gt_Name T) ∧ gt_Name T ∈ api_kinds.
Proof.
  intros Hperm Hinit HT. pose proof (program_init_cases inits b0) as Hc. rewrite Hinit in Hc.
  destruct Hc as (s1 & Hs1 & Hs). destruct (inits_register inits b0 Hperm) as (types & Hb & Hin).
  rewrite (AddToScheme_doc _ _ _ _ _ Hb Hs) by by rewrite HT.
  rewrite (clientgo_doc _ _ Hs1 k T HT), NewScheme_doc, lookup_empty, Hin. naive_solver.
Qed.

Lemma resource_type_known inits b0 s resource :
  inits ≡ₚ [init_cwsa; init_wsa] → (program_init inits b0).2 = ROk s →
  GVKForObject resource s = Some (GroupVersion_String, ot_Kind (type_of resource)).
Proof.
  intros Hperm Hinit.
  rewrite (GVKForObject_doc resource s (mkGVK SchemeGroupVersion (gt_Name (resource_type resource)))).
  - by destruct resource.
  - intros k. rewrite (init_known inits b0) by done. split; [by intros [-> _]|]. intros ->. split; [done|].
    destruct resource; simpl; set_solver.
Qed.

(** C20. The types are registered before they are needed.  The initialisation of the program, with the
    [init] functions of the package in either order, panics or leaves a scheme in which each of the four
    types of the package has exactly one group, version and kind, its own name; the engine that [main]
    then builds finds the kind of every resource, so that everything it applies for a resource carries
    the owner reference by which the watches find that resource. *)
Theorem program_init_correct (as_interface : GCTracker → Tracker) (gcTracker : GCTracker) inits b0 :
  inits ≡ₚ [init_cwsa; init_wsa] →
  match (program_init inits b0).2 with
  | ROk s =>
      (∀ kind k, kind ∈ api_kinds →
        AllKnownTypes s !! k = Some (mkGoType api_package kind) ↔ k = mkGVK (mkGroupVersion "agent.octopus.com" "v1beta1") kind) ∧
      ∀ resource, let r := rms_of (eng_ResourceManagement (new_engine as_interface (Some s) gcTracker)) in
        registered r resource ∧
        ∃ owner, ownerReferenceAC r resource = Some owner ∧ is_controller (type_of resource) owner ∧
          or_Name owner = GetName resource ∧ or_UID owner = meta_UID (GetOwnerMeta resource)
  | RErr _ => False
  | RPanic => True
  end.
Proof.
  intros Hperm. pose proof (program_init_cases inits b0) as Hc.
  destruct (program_init inits b0).2 as [s| |] eqn:Hinit; try done. split.
  - intros kind k Hk. rewrite (init_known inits b0 s _ k Hperm Hinit) by done. simpl. naive_solver.
  - intros resource r.
    assert (rms_scheme r = Some s) as Hs.
    { subst r. unfold new_engine. by case_decide. }
    pose proof (resource_type_known inits b0 s resource Hperm Hinit) as Hgvk. split; [by exists s|].
    unfold ownerReferenceAC. rewrite Hs, Hgvk. eexists. split; [done|]. split_and!; [|by destruct resource|done].
    unfold is_controller. simpl. by rewrite !bool_decide_true by (by destruct resource).
Qed.
End known.

(** ** The libraries, concretely *)

Module SchemeExamples.
Import InMemory ResourceExamples PipelineExamples SetupExamples.
#[local] Existing Instance range_forward.
#[local] Existing Instance reference_third_party.
#[local] Existing Instance reference_lru.
#[local] Existing Instance reference_set.
#[local] Existing Instance runtime0.

(** A scheme as the map of its types; a type without a kind, or with several, has no answer. *)
Definition known_by (T : GoType) (s : gmap GroupVersionKind GoType) : list GroupVersionKind :=
  (filter (λ p, p.2 = T) (map_to_list s)).*1.

Definition typed_scheme : SchemeInterface := {|
  RuntimeScheme := gmap GroupVersionKind GoType;
  GVKForObject resource s :=
    match known_by (resource_type resource) s with
    | [k] => Some (gv_String (gvk_GroupVersion k), gvk_Kind k)
    | _ => None
    end
|}.
#[local] Existing Instance typed_scheme | 0.

(** Two types under one name are a panic. *)
Definition add_type (gv : GroupVersion) (s : option (gmap GroupVersionKind GoType)) (T : GoType) :
    option (gmap GroupVersionKind GoType) :=
  s ← s;
  match s !! mkGVK gv (gt_Name T) with
  | Some T' => if decide (T' = T) then Some s else None
  | None => Some (<[mkGVK gv (gt_Name T) := T]> s)
  end.

Definition add_types (gv : GroupVersion) (types : list GoType) (s : gmap GroupVersionKind GoType) :
    Result (gmap GroupVersionKind GoType) :=
  match foldl (add_type gv) (Some s) types with Some s' => ROk s' | None => RPanic end.

Lemma add_types_spec gv types s s' k T :
  add_types gv types s = ROk s' →
  s' !! k = Some T ↔ s !! k = Some T ∨ (T ∈ types ∧ k = mkGVK gv (gt_Name T)).
Proof.
  unfold add_types. revert s. induction types as [|T0 types IH]; intros s; simpl.
  { intros [= <-]. rewrite elem_of_nil. naive_solver. }
  assert (∀ l, foldl (add_type gv) None l = None) as Hnone by (induction l; done).
  destruct (s !! mkGVK gv (gt_Name T0)) as [T'|] eqn:Hs; [case_decide as Heq; [subst T'|by rewrite Hnone]|];
    intros Hf; rewrite (IH _ Hf), elem_of_cons.
  { split; [tauto|]. intros [?|[[->|?] ->]]; [by left|by left|by right]. }
  destruct (decide (k = mkGVK gv (gt_Name T0))) as [->|Hne].
  - rewrite lookup_insert_eq, Hs. split; [intros [[= ->]|?]; [by right; split; [left|]|tauto]|].
    intros [?|[[->|?] ?]]; [done|by left|by right].
  - rewrite lookup_insert_ne by done. split; [tauto|]. intros [?|[[->|?] ->]]; [by left|done|by right].
Qed.

Definition reference_scheme : SchemeLib := {|
  NewScheme := ∅ : @RuntimeScheme typed_scheme;
  AllKnownTypes s := s;
  Builder := GroupVersion * list GoType;
  NewBuilder gv := (gv, []);
  Register b types := (b.1, b.2 ++ types);
  Builder_AddToScheme b s := add_types b.1 (b.2 ++ [mkGoType meta_package "WatchEvent"]) s;
  clientgoscheme_AddToScheme s := add_types (mkGroupVersion "" "v1") [mkGoType "k8s.io/api/core/v1" "Pod"] s
|}.
#[local] Existing Instance reference_scheme.

Lemma known_by_unique T (s : gmap GroupVersionKind GoType) k :
  (∀ k', s !! k' = Some T ↔ k' = k) → known_by T s = [k].
Proof.
  intros Hk. assert (known_by T s ≡ₚ [k]) as Hp; [|by apply Permutation_singleton_r].
  apply NoDup_Permutation; [|apply NoDup_singleton|].
  - unfold known_by. eapply sublist_NoDup; [apply (NoDup_fst_map_to_list s)|]. apply fmap_sublist, sublist_filter.
  - intros k'. rewrite list_elem_of_singleton, <-Hk. unfold known_by. rewrite list_elem_of_fmap.
    setoid_rewrite list_elem_of_filter. split.
    + intros ([k0 T0] & -> & Heq & Hin%elem_of_map_to_list). by simpl in *; subst.
    + intros Hs. exists (k', T). by rewrite elem_of_map_to_list.
Qed.

Lemma reference_scheme_laws : SchemeLibLaws.
Proof.
  refine {| builder_adds := λ (b : @Builder _ reference_scheme) gv types, b = (gv, types) |}; simpl.
  - done.
  - done.
  - by intros b gv types types' ->.
  - intros b gv types s s' -> Hadd k T HT. rewrite (add_types_spec _ _ _ _ k T Hadd). simpl.
    rewrite elem_of_app, list_elem_of_singleton. naive_solver.
  - intros s s' Hadd k T HT. rewrite (add_types_spec _ _ _ _ k T Hadd), list_elem_of_singleton. naive_solver.
  - intros resource s k Hk. by rewrite (known_by_unique _ _ k Hk).
Defined.
#[local] Existing Instance reference_scheme_laws.

Definition initialised : Result (@RuntimeScheme typed_scheme) :=
  (program_init [init_cwsa; init_wsa] (NewBuilder SchemeGroupVersion)).2.

(** Both resources, and nothing else of the group but the meta type. *)
Lemma program_init_correct_witness :
  match initialised with
  | ROk s => GVKForObject (wsaAdapter app_wsa) s = Some ("agent.octopus.com/v1beta1", "WorkloadServiceAccount") ∧
      GVKForObject (clusterWSAAdapter admin_cwsa) s = Some ("agent.octopus.com/v1beta1", "ClusterWorkloadServiceAccount")
  | _ => False
  end.
Proof.
  assert (match initialised with ROk _ => true | _ => false end = true) as Hok by (vm_compute; reflexivity).
  pose proof (program_init_correct (W := World) marker (NewGCTracker 30) [init_cwsa; init_wsa]
    (NewBuilder SchemeGroupVersion) (Permutation_refl _)) as Hinit.
  unfold initialised in *. destruct (program_init _ _).2 as [s| |]; [|discriminate|discriminate].
  destruct Hinit as [_ Hr]. split.
  - destruct (Hr (wsaAdapter app_wsa)) as [(s' & Hs & Hgvk) _]. injection Hs as <-. exact Hgvk.
  - destruct (Hr (clusterWSAAdapter admin_cwsa)) as [(s' & Hs & Hgvk) _]. injection Hs as <-. exact Hgvk.
Defined.

(** Without the [init] functions no resource would have a kind, and owner references would silently be
    left out. *)
Example unregistered :
  match (program_init [] (NewBuilder SchemeGroupVersion)).2 with
  | ROk s => ownerReferenceAC (NewResourceManagementServiceWithScheme (W := World) (Some s)) (wsaAdapter app_wsa) = None
  | _ => False
  end.
Proof. by vm_compute. Qed.
End SchemeExamples.
