(* ===== verification/Markers.v ===== *)
(** * What the controller may do and when it is asked

    The [+kubebuilder] markers of the source: the permissions of the controller, which controller-gen
    collects into one cluster role (src/internal/controller), against every request its client makes;
    and the requests the two webhooks are registered for (src/internal/webhook), with what an update of a
    running pod meets in the API server. *)

From Stdlib Require Import ZArith.
From S2P Require Import Prelude GoLib Api Scopes ServiceAccounts Access Cluster Resources Engine Webhooks Pipeline.

(** ** Permissions *)

Record RBACMarker := mkRBAC { rbac_groups : string; rbac_resources : string; rbac_verbs : list string }.

Definition all_verbs : list string := ["get"; "list"; "watch"; "create"; "update"; "patch"; "delete"].
Definition read_verbs : list string := ["get"; "list"; "watch"].

Definition wsa_markers : list RBACMarker := [
  mkRBAC "apps" "deployments" read_verbs;
  mkRBAC "core" "namespaces" read_verbs;
  mkRBAC "rbac.authorization.k8s.io" "roles" (all_verbs ++ ["escalate"; "bind"]);
  mkRBAC "rbac.authorization.k8s.io" "rolebindings" all_verbs;
  mkRBAC "rbac.authorization.k8s.io" "clusterroles" (all_verbs ++ ["escalate"; "bind"]);
  mkRBAC "rbac.authorization.k8s.io" "clusterrolebindings" all_verbs;
  mkRBAC "core" "serviceaccounts" all_verbs;
  mkRBAC "core" "pods" read_verbs;
  mkRBAC "core" "events" ["create"; "patch"];
  mkRBAC "agent.octopus.com" "workloadserviceaccounts" all_verbs;
  mkRBAC "agent.octopus.com" "workloadserviceaccounts/status" ["get"; "update"; "patch"];
  mkRBAC "agent.octopus.com" "workloadserviceaccounts/finalizers" ["update"]
].

Definition cwsa_markers : list RBACMarker := [
  mkRBAC "apps" "deployments" read_verbs;
  mkRBAC "rbac.authorization.k8s.io" "rolebindings" all_verbs;
  mkRBAC "rbac.authorization.k8s.io" "clusterroles" (all_verbs ++ ["escalate"; "bind"]);
  mkRBAC "rbac.authorization.k8s.io" "clusterrolebindings" all_verbs;
  mkRBAC "core" "serviceaccounts" all_verbs;
  mkRBAC "core" "pods" read_verbs;
  mkRBAC "agent.octopus.com" "clusterworkloadserviceaccounts" all_verbs;
  mkRBAC "agent.octopus.com" "clusterworkloadserviceaccounts/status" ["get"; "update"; "patch"];
  mkRBAC "agent.octopus.com" "clusterworkloadserviceaccounts/finalizers" ["update"]
].

(** The cluster role of the manager. *)
Definition manager_role : list RBACMarker := wsa_markers ++ cwsa_markers.

(** A request for authorization, and whether a role grants it. *)
Record Attributes := mkAttributes { at_group : string; at_resource : string; at_verb : string }.

Definition grants (role : list RBACMarker) (a : Attributes) : bool :=
  existsb (λ m, bool_decide (rbac_groups m = at_group a ∧ rbac_resources m = at_resource a ∧ at_verb a ∈ rbac_verbs m)) role.

Definition group_resource (k : Kind) : string * string :=
  match k with
  | KServiceAccount => ("core", "serviceaccounts")
  | KRole => ("rbac.authorization.k8s.io", "roles")
  | KClusterRole => ("rbac.authorization.k8s.io", "clusterroles")
  | KRoleBinding => ("rbac.authorization.k8s.io", "rolebindings")
  | KClusterRoleBinding => ("rbac.authorization.k8s.io", "clusterrolebindings")
  end.

Definition custom_resource (cluster : bool) : string :=
  if cluster then "clusterworkloadserviceaccounts" else "workloadserviceaccounts".

(** What the API server asks for.  Reads go through the cache of the manager, which lists and watches.
    A server-side apply patches and may create; it may hand on what a role grants ([escalate], [bind])
    and name an owner that waits for it ([finalizers]). *)
Definition reads (gr : string * string) : list Attributes := mkAttributes gr.1 gr.2 <$> read_verbs.

Definition apply_needs (a : ApplyConfiguration) : list Attributes :=
  (mkAttributes (group_resource (ac_Kind a)).1 (group_resource (ac_Kind a)).2 <$> ["create"; "patch"]) ++
  match ac_Body a with
  | RoleBody _ =>
      [mkAttributes "rbac.authorization.k8s.io" (if decide (ac_Kind a = KClusterRole) then "clusterroles" else "roles") "escalate"]
  | BindingBody roleRef _ =>
      [mkAttributes "rbac.authorization.k8s.io" (if decide (rr_Kind roleRef = "ClusterRole") then "clusterroles" else "roles") "bind"]
  | _ => []
  end ++
  match ac_Owner a with
  | Some owner => (λ cluster, mkAttributes "agent.octopus.com" (custom_resource cluster +:+ "/finalizers") "update") <$> [true; false]
  | None => []
  end.

Definition forbidden : error := ErrApi ReasonOther "forbidden".

(** A client whose requests the API server refuses unless a role grants all they need. *)
Section authorized.
Context `{Client W} (role : list RBACMarker).

Definition authorize {A} (needs : list Attributes) (refused : A) (m : M W A) : M W A :=
  if forallb (grants role) needs then m else ret refused.

Definition authorized_client : Client W := {|
  client_List k sel := authorize (reads (group_resource k)) (inl forbidden) (client_List k sel);
  client_ListWSAs := authorize (reads ("agent.octopus.com", custom_resource false)) (inl forbidden) client_ListWSAs;
  client_ListCWSAs := authorize (reads ("agent.octopus.com", custom_resource true)) (inl forbidden) client_ListCWSAs;
  client_ListDeploymentNamespaces labels :=
    authorize (reads ("apps", "deployments")) (inl forbidden) (client_ListDeploymentNamespaces labels);
  client_Get k key := authorize (reads (group_resource k)) (inl forbidden) (client_Get k key);
  client_GetNamespace n := authorize (reads ("core", "namespaces")) (Some forbidden) (client_GetNamespace n);
  client_Apply a := authorize (apply_needs a) (Some forbidden) (client_Apply a);
  client_Delete o :=
    authorize [mkAttributes (group_resource (obj_Kind o)).1 (group_resource (obj_Kind o)).2 "delete"] (Some forbidden)
      (client_Delete o);
  client_GetWSA key := authorize (reads ("agent.octopus.com", custom_resource false)) (inl forbidden) (client_GetWSA key);
  client_GetCWSA key := authorize (reads ("agent.octopus.com", custom_resource true)) (inl forbidden) (client_GetCWSA key);
  client_Patch obj original :=
    authorize [mkAttributes "agent.octopus.com" (custom_resource (IsClusterScoped obj)) "patch"] (obj, Some forbidden)
      (client_Patch obj original);
  client_PatchStatus obj conditions :=
    authorize [mkAttributes "agent.octopus.com" (custom_resource (IsClusterScoped obj) +:+ "/status") "patch"]
      (obj, Some forbidden) (client_PatchStatus obj conditions)
|}.
End authorized.

(** ** Webhooks *)

Inductive Operation := OpCreate | OpUpdate | OpDelete.

#[export] Instance Operation_eq_dec : EqDecision Operation.
Proof. solve_decision. Defined.

Record WebhookMarker := mkWebhook {
  wh_path : string;
  wh_mutating : bool;
  wh_ignore_failures : bool;
  wh_groups : string;
  wh_resources : string;
  wh_verbs : list Operation
}.

Definition pod_webhook : WebhookMarker :=
  mkWebhook "/mutate--v1-pod" true true "" "pods" [OpCreate; OpUpdate].
Definition wsa_webhook : WebhookMarker :=
  mkWebhook "/validate-agent-octopus-com-v1beta1-workloadserviceaccount" false false "agent.octopus.com"
    "workloadserviceaccounts" [OpCreate].

(** The validation of the API server for updates of pods.  The account and the variables of the
    containers of a pod are fixed; an update of labels and annotations alone is valid. *)
Definition same_pod_spec (p p' : Pod) : Prop :=
  pod_Name p' = pod_Name p ∧ pod_ServiceAccountName p' = pod_ServiceAccountName p ∧
  pod_InitContainers p' = pod_InitContainers p ∧ pod_Containers p' = pod_Containers p ∧ pod_Rest p' = pod_Rest p.

Class PodValidation := {
  valid_update : Pod → Pod → bool;
  valid_update_fixed old new : valid_update old new →
    pod_ServiceAccountName new = pod_ServiceAccountName old ∧ pod_InitContainers new = pod_InitContainers old ∧
    pod_Containers new = pod_Containers old;
  valid_update_metadata old new : same_pod_spec old new → valid_update old new
}.

Section admission.
Context `{ScopeResolver E} `{PodValidation}.
Implicit Types (d : PodCustomDefaulter E) (p old new : Pod).

(** An update of a pod: the webhook if it is registered for updates, then the validation.  An error of
    the webhook, or a panic, refuses the request. *)
Definition pod_update d old new : option Pod :=
  let answer := if decide (OpUpdate ∈ wh_verbs pod_webhook) then Default d new else Some (mkOutcome new None "" None) in
  match answer with
  | Some out =>
      match out_err out with
      | None => if valid_update old (out_pod out) then Some (out_pod out) else None
      | Some _ => None
      end
  | None => None
  end.

Lemma inject_container_fixed version c :
  inject_container version c = c ↔ head (version_values (ctr_Env c)) = Some version.
Proof.
  split.
  - intros Hc. destruct (inject_container_spec version c) as (_ & _ & Hv). rewrite Hc in Hv. by rewrite Hv.
  - destruct c as [n env]. unfold inject_container. simpl. intros Hv.
    assert (set_first_env version env = (env, true)) as ->; [|done].
    induction env as [|[n' v] env IH]; [done|]. rewrite version_values_cons in Hv. cbn [set_first_env env_Name].
    case_decide; [by injection Hv as ->|]. by rewrite (IH Hv).
Qed.

Lemma inject_containers_fixed version (l : list Container) :
  inject_container version <$> l = l ↔ ∀ c, c ∈ l → head (version_values (ctr_Env c)) = Some version.
Proof.
  induction l as [|c l IH]; [split; [intros _ c Hc; by apply elem_of_nil in Hc|done]|]. rewrite fmap_cons. split.
  - intros [= Hc Hl] c' [->|Hin]%elem_of_cons; [by apply inject_container_fixed|by apply IH].
  - intros Hall. f_equal.
    + apply inject_container_fixed, Hall. constructor.
    + apply IH. intros c' Hc'. apply Hall. by constructor.
Qed.
End admission.

(** ** Properties *)

(** Clients that do the same. *)
Record same_client {W} (c1 c2 : Client W) : Prop := {
  same_List k sel : @client_List W c1 k sel = @client_List W c2 k sel;
  same_ListWSAs : @client_ListWSAs W c1 = @client_ListWSAs W c2;
  same_ListCWSAs : @client_ListCWSAs W c1 = @client_ListCWSAs W c2;
  same_ListDeploymentNamespaces labels :
    @client_ListDeploymentNamespaces W c1 labels = @client_ListDeploymentNamespaces W c2 labels;
  same_Get k key : @client_Get W c1 k key = @client_Get W c2 k key;
  same_GetNamespace n : @client_GetNamespace W c1 n = @client_GetNamespace W c2 n;
  same_Apply a : @client_Apply W c1 a = @client_Apply W c2 a;
  same_Delete o : @client_Delete W c1 o = @client_Delete W c2 o;
  same_GetWSA key : @client_GetWSA W c1 key = @client_GetWSA W c2 key;
  same_GetCWSA key : @client_GetCWSA W c1 key = @client_GetCWSA W c2 key;
  same_Patch obj original : @client_Patch W c1 obj original = @client_Patch W c2 obj original;
  same_PatchStatus obj conditions : @client_PatchStatus W c1 obj conditions = @client_PatchStatus W c2 obj conditions
}.

Lemma authorize_granted {W A} role needs (refused : A) (m : M W A) :
  forallb (grants role) needs = true → authorize role needs refused m = m.
Proof. intros Hn. unfold authorize. by rewrite Hn. Qed.

Lemma apply_granted a : forallb (grants manager_role) (apply_needs a) = true.
Proof.
  unfold apply_needs. rewrite !forallb_app. apply andb_true_intro. split.
  { destruct (ac_Kind a); vm_compute; reflexivity. }
  apply andb_true_intro. split.
  - destruct (ac_Body a); [done|case_decide; vm_compute; reflexivity..].
  - destruct (ac_Owner a); [vm_compute; reflexivity|done].
Qed.

(** C19. The permissions suffice: with the cluster role of the markers no request of the program is
    refused, whatever it asks of the API server; the client under authorization is the client, and events
    may be recorded. *)
Theorem permissions_suffice {W} (c : Client W) :
  same_client (authorized_client (H := c) manager_role) c ∧
  Forall (λ verb, grants manager_role (mkAttributes "core" "events" verb)) ["create"; "patch"].
Proof.
  split; [|repeat constructor; vm_compute; exact I].
  split; intros; apply authorize_granted.
  - destruct k; vm_compute; reflexivity.
  - vm_compute; reflexivity.
  - vm_compute; reflexivity.
  - vm_compute; reflexivity.
  - destruct k; vm_compute; reflexivity.
  - vm_compute; reflexivity.
  - apply apply_granted.
  - destruct (obj_Kind o); vm_compute; reflexivity.
  - vm_compute; reflexivity.
  - vm_compute; reflexivity.
  - destruct (IsClusterScoped obj); vm_compute; reflexivity.
  - destruct (IsClusterScoped obj); vm_compute; reflexivity.
Qed.

Section pod_updates.
Context `{ScopeResolver E} `{PodValidation}.
Implicit Types (d : PodCustomDefaulter E) (p old new : Pod).

(** C18. The pod webhook is asked about updates too, when the account and the variables of a pod are fixed.  So
    an update that leaves the specification of an enabled pod alone is accepted only if every container has
    the version of this controller and, unless the pod has no annotations, the account found now is the one the
    pod runs with or there is none: after an upgrade of the controller, or a change of the resources that apply to
    a running pod, its labels and annotations cannot be changed any more.  Other pods are updated as they
    are. *)
Theorem pod_update_correct d old new :
  same_pod_spec old new →
  (¬ shouldRunOnPod new → pod_update d old new = Some new) ∧
  (shouldRunOnPod new →
    (is_Some (pod_update d old new) ↔
      (∀ c, c ∈ pod_InitContainers old ++ pod_Containers old → head (version_values (ctr_Env c)) = Some (def_version d)) ∧
      (IsEmpty (getPodScope new) ∨
       ∃ n, resolve (def_engine d) (getPodScope new) = ROk n ∧ (n = "" ∨ n = pod_ServiceAccountName old)))).
Proof.
  intros Hsame. pose proof Hsame as (Hname & Hsa & Hinit & Hctr & Hrest).
  unfold pod_update. rewrite decide_True by (right; left). split.
  { intros Hrun. unfold Default. destruct (shouldRunOnPod new); [by destruct Hrun|]. simpl.
    pose proof (valid_update_metadata old new Hsame) as Hv. by destruct (valid_update old new). }
  intros Hrun. set (injected := injectVersionEnvironmentVariable d new).
  assert (∀ n, is_Some (if valid_update old (set_ServiceAccountName n injected)
      then Some (set_ServiceAccountName n injected) else None) ↔
    (∀ c, c ∈ pod_InitContainers old ++ pod_Containers old → head (version_values (ctr_Env c)) = Some (def_version d)) ∧
    n = pod_ServiceAccountName old) as Hvalid.
  { intros n. rewrite <-inject_containers_fixed, fmap_app, <-Hinit, <-Hctr. split.
    - intros [x Hx]. destruct (valid_update old _) eqn:Hv; [|done]. apply Is_true_true, valid_update_fixed in Hv.
      simpl in Hv. destruct Hv as (-> & Hi & Hc). split; [|done]. by rewrite Hi, Hc, Hinit, Hctr.
    - intros [Hi ->]. apply app_inj_1 in Hi as [Hi Hc]; [|by rewrite length_fmap].
      assert (valid_update old (set_ServiceAccountName (pod_ServiceAccountName old) injected)) as Hv.
      { apply valid_update_metadata. unfold same_pod_spec. simpl. rewrite Hi, Hc. by split_and!. }
      destruct (valid_update old _); [by eexists|done]. }
  unfold Default. destruct (shouldRunOnPod new); [|done]. simpl.
  change (getPodScope (injectVersionEnvironmentVariable d new)) with (getPodScope new).
  assert (injected = set_ServiceAccountName (pod_ServiceAccountName old) injected) as Hkeep by (unfold injected; simpl; by rewrite <-Hsa).
  fold injected. destruct (IsEmpty (getPodScope new)); simpl.
  - rewrite Hkeep, Hvalid. naive_solver.
  - destruct (resolve (def_engine d) (getPodScope new)) as [n|err|]; simpl.
    + case_decide as Hn; simpl; [rewrite Hvalid|rewrite Hkeep, Hvalid]; naive_solver.
    + split; [by intros [? ?]|]. naive_solver.
    + split; [by intros [? ?]|]. naive_solver.
Qed.
End pod_updates.

(** ** Concrete updates *)

Module MarkerExamples.
Import AccessExamples WebhookExamples.
#[local] Existing Instance range_forward.
#[local] Existing Instance reference_third_party.
#[local] Existing Instance reference_third_party_laws.

(** A validation that allows changes of the metadata only. *)
#[local] Program Instance metadata_only : PodValidation := {|
  valid_update old new := bool_decide (pod_Name new = pod_Name old ∧ pod_ServiceAccountName new = pod_ServiceAccountName old ∧
    pod_InitContainers new = pod_InitContainers old ∧ pod_Containers new = pod_Containers old ∧ pod_Rest new = pod_Rest old)
|}.
Next Obligation. intros old new (_ & ? & ? & ? & _)%bool_decide_unpack. done. Qed.
Next Obligation. intros old new ?. by apply bool_decide_pack. Qed.

(** The pod as the webhook of version 1.0 admitted it, and with another label. *)
Definition running : Pod := match Default defaulter pod with Some out => out_pod out | None => pod end.
Definition relabelled : Pod :=
  mkPod (pod_Name running) (<["team" := "a"]> (pod_Labels running)) (pod_Annotations running)
    (pod_ServiceAccountName running) (pod_InitContainers running) (pod_Containers running) (pod_Rest running).
Definition upgraded : PodCustomDefaulter ScopeComputationService := mkPodCustomDefaulter (def_engine defaulter) "1.1".

(** The label can be set while the controller is the one that admitted the pod, and not after its
    upgrade. *)
Lemma pod_update_correct_witness :
  is_Some (pod_update defaulter running relabelled) ∧ ¬ is_Some (pod_update upgraded running relabelled).
Proof.
  assert (same_pod_spec running relabelled) as Hsame by by split_and!.
  assert (shouldRunOnPod relabelled) as Hrun by by vm_compute.
  split.
  - apply (proj2 (pod_update_correct defaulter running relabelled Hsame) Hrun). split.
    + assert (forallb (λ c, bool_decide (head (version_values (ctr_Env c)) = Some "1.0"))
        (pod_InitContainers running ++ pod_Containers running) = true) as Hall by (vm_compute; reflexivity).
      intros c Hc. rewrite forallb_forall in Hall. apply list_elem_of_In, Hall in Hc. by apply bool_decide_eq_true in Hc.
    + right. exists (pod_ServiceAccountName running). split; [by vm_compute|by right].
  - intros Hok. apply (proj2 (pod_update_correct upgraded running relabelled Hsame) Hrun) in Hok as [Hall _].
    assert (existsb (λ c, bool_decide (head (version_values (ctr_Env c)) ≠ Some "1.1"))
      (pod_InitContainers running ++ pod_Containers running) = true) as Hex by (vm_compute; reflexivity).
    apply existsb_exists in Hex as (c & Hc & Hne). apply list_elem_of_In in Hc. apply bool_decide_eq_true in Hne.
    exact (Hne (Hall c Hc)).
Defined.
End MarkerExamples.
